(* ===== verification/_CoqProject ===== *)
-Q . S2P
Prelude.v
SylvanHash.v
SylvanTable.v
SylvanTableFacts.v
SylvanTableGC.v
TableConc.v
TableConcFacts.v
TableConcWait.v
SylvanCache.v
Avl.v
AvlFacts.v
SylvanRefs.v
SylvanRefsFacts.v
ProtectStore.v
RefsProps.v
MtbddNode.v
BddTree.v
OpSpecs.v
NodeStore.v
MtbddCore.v
MtbddCoreFacts.v
SylvanCommon.v
SylvanCommonFacts.v
BddApply.v
BddApplyFacts.v
Serialize.v
SerializeFacts.v
SerializeRead.v
BddQuant.v
BddQuantFacts.v
AndExistsFacts.v
BddOps.v
BddCubes.v
BddSets.v
BddSetsFacts.v
BddEnumFacts.v
SsaTask.v
SsaTaskFacts.v
Examples.v
SerializeProps.v
PackageProps.v
TableConcProps.v
TableProps.v
CoreProps.v
BddProps.v
TagTraits.v
Tagmap.v
TagmapFacts.v
BddTag.v
BddTagFacts.v
TagProps.v
Regs.v
InsOps.v
InsXfer.v
InsXchg.v
Instrument.v
InsFacts.v
InsProps.v
SsaTag.v
SsaTagFacts.v
SsaProps.v
SsaGc.v
SsaGcFacts.v
SsaGcQueue.v
SsaGcOps.v
SsaGcStore.v
SsaGcStart.v
SsaGcProps.v
SyscallDesc.v
SyscallTable.v
SyscallPost.v
MyTool.v
SyscallHook.v
LibdftApi.v
SyscallFacts.v
SyscallTaint.v
Syscalls.v
SyscallArgs.v
SyscallFds.v
SyscallProps.v
