(* ===== verification/Prelude.v ===== *)
(** * A verification of libdft64 with semantic taint tags

    libdft64 is a dynamic taint analysis for x86-64 programs under the Pin framework.  Every byte
    of the memory and of the registers of an application has a tag, the set of the positions in
    its input that the byte depends on.  This development is a shallow embedding of the engine, of
    the decision-diagram package Sylvan in which it keeps its tags, and of the tool that taints
    what an application reads.  File names below are under src/; the C functions keep their names.

    ** The program, and which files model it

    - Sylvan, src/sylvan/src.  The node table [SylvanTable] (sylvan_table.c), its hash functions
      [SylvanHash] (sylvan_hash.c) and the operation cache [SylvanCache] (sylvan_cache.c) hold the
      nodes and the results of operations.  [MtbddNode] has the bit layout of nodes and edges
      (sylvan_mtbdd_int.h).  [MtbddCore] is the manager (sylvan_mtbdd.c, sylvan_common.c): a
      record of the two tables, of the reference stacks and of the other roots, with node
      creation and garbage collection.  On it run the operations of sylvan_bdd.c ([BddApply],
      [BddQuant], [BddOps], [BddCubes]) and the sets, cubes and enumerations of sylvan_mtbdd.c
      ([BddSets]).  [SylvanRefs] has the two tables of external references and protected pointers
      (sylvan_refs.c).  [SylvanCommon] has the sizes, the start and the hooks of the package
      (sylvan_common.c), [Avl] the balanced trees (avl.h), and [Serialize] the serialization of
      diagrams, which numbers their nodes in two such trees (sylvan_bdd.c).
    - The tags.  [TagTraits] is the interface tag_traits.h as a class, with its laws.  Its
      implementations are one-byte and set tags there, labels of a trie ([BddTag], bdd_tag.cpp),
      diagrams ([SsaTask], [SsaTag], ssa_tag_nogc.cpp and the tasks of lace.cpp), and counted
      references to diagrams with a collector of their own ([SsaGc], ssa_tag_gc.cpp).
    - The shadow state, [Tagmap] (tagmap.cpp): a two-level directory of tag pages, and the
      registers of each thread, under the numbers of [Regs] (def.h, ins_helper.h).
    - The instrumentation: the analysis routines in [InsOps], [InsXfer] and [InsXchg] (the
      ins_*_op.cpp files and libdft_core.cpp), and in [Instrument] the functions that choose
      which routines run before an instruction.
    - System calls: the table of descriptors [SyscallTable], its callbacks [SyscallPost]
      (syscall_desc.cpp), the entry points [LibdftApi] (libdft_api.cpp), the tool [MyTool]
      (tools/mytool.cpp) and its alternative [SyscallHook] (syscall_hook.cpp).  [Syscalls]
      composes the entry and the exit of a call.

    A file F has its definitions in Module F; facts about it are in FFacts or in a file named
    after what it proves, and the properties of a part, with their instances, in a file named
    *Props.

    ** How the code is modelled

    Words are numbers of type [N], with the wrap-around written out ([w64], [add64], [sub64], ...).
    A function that changes state is a program of the monad [prog S]: it returns ([Done]), ends
    the process ([Exit], with a reason) or runs out of fuel ([NoFuel]).  [wp] is its weakest
    precondition: from a state that satisfies it a program has enough fuel, so that a theorem on
    [wp] is a theorem of total correctness; where no exit is allowed, its third argument is the
    empty predicate.  The recursion of the diagram operations takes fuel: the sum of the heights
    of the diagrams is enough for conjunction and if-then-else, and twice the number of variables
    for quantification, since every call goes down a variable; loops over tables have their
    bounds in the table.  Hypotheses of the theorems say so, and their instances show it.

    The operations on diagrams are the run of one worker, in which no task is stolen: [SPAWN]
    defers a call to its [SYNC], a compare-and-swap succeeds, and no other worker is waited for.
    A thread of the analysed process waits for its worker, so that a task of its worker is a
    call, and calls of several threads follow one another.  What the workers share without a
    lock is the node table, and [TableConc] models their lookups a second time, as a step
    relation on the shared words and the position of each worker in the code: a step is one
    read, one write or one compare-and-swap, and any worker may take the next one.  The
    invariant is in [TableConcFacts] (a region belongs to the worker that has claimed it), the
    bound on the steps of a lookup in [TableConcWait].

    Parameters stand for what is not under src/: the decoder of the instrumentation framework, in
    [Instrument]; sizes and constants of system headers, in [SyscallDesc]; the memory of the
    application, its file positions, and which descriptors the kernel hands out, for system
    calls.

    ** How the parts are put together

    The manager is generic in its two tables: [NodeStore] has the classes [NodeTable] and
    [OpCache], whose laws the theorems on diagrams use, and which the tables of [SylvanTable] and
    [SylvanCache] satisfy.  [ProtectStore] does the same for the protected pointers, which
    [SsaGc] keeps its diagrams alive with.  The shadow state, the instrumentation and the system
    calls are generic in the tag type: they are proved against [TagLaws], which each kind of tag
    satisfies but for the counted references, whose own refinement theorem is in [SsaGcStore].

    ** What the theorems show

    - Node table and cache ([TableProps]): a lookup finds or inserts; rehashing finds every key
      again; a bucket is claimed once; what the cache returns was put there.
    - Manager ([CoreProps]): nodes are packed and read back; making a node gives the reduced,
      shared one; a collection frees what no root reaches and keeps the rest.
    - Operations ([BddProps]): in a consistent manager a diagram is a Boolean function, and two
      equal functions are the same word.  Every operation returns the diagram of the function it
      is named for, through cache hits and collections on the way, and ends only when the table
      is full.
    - Package ([PackageProps]): within its bounds the limits give sizes with which the package
      starts; a collection through the registered callbacks is that of the manager; the usage
      reported is the number of nodes.
    - Files ([SerializeProps]): diagrams that are stored come back as diagrams of the same
      functions; the balanced trees are finite maps, but removal can fail or lose the balance.
    - References ([RefsProps]): the tables are a multiset of pointers and a map of counts.
    - Lookups at the same time ([TableConcProps]): whatever the interleaving, lookups of the same
      key agree on its bucket, the set of keys changes in one step of a lookup, and a lookup
      returns after a bounded number of its own steps.
    - Tags ([TagProps], [SsaProps], [SsaGcProps]): a combination has the offsets of both operands,
      an allocation one offset; printing lists the offsets in order; the store of counted tags
      refines a store of sets, its free queue is refilled, and its counts are exact.
    - Shadow state and instrumentation ([TagProps], [InsProps]): the directory is a map; the calls
      before an instruction move, combine, exchange or clear the offsets of its operands, byte by
      byte; one group of cases loses them.
    - System calls ([SyscallProps]): the descriptors followed are those of the input; a read
      labels its bytes with their positions; other calls take tags away only, from what their
      row names; what they do depends on their own arguments only; a failed [openat] taints.

    ** Not modelled

    - The multi-terminal operations of sylvan_mtbdd.c (arithmetic on leaves), its own serialization
      with the skip list of sylvan_sl.c, and counting in floating point: the engine calls none of
      them.  Custom leaves are a parameter of the manager.
    - List decision diagrams (sylvan_ldd.c), which the engine does not use.
    - Work stealing (lace.h, the scheduler of lace.cpp); interleavings of workers other than in
      lookups without custom leaves; the statistics counters, which are compiled out.
    - Vendored code: compressed bitmaps (ewah_0.4.0) and digests (sha2.c).
    - What only formats or logs, the registration of callbacks with Pin, and failures of memory
      allocation, after which the process ends. *)

(** ** Shared prelude

    64-bit words as [N] with their wrap-around, zero-initialised word memories, bitmaps stored in
    words (most significant bit first, as the node table keeps them), the state-and-exit monad in
    which effectful C code is written, its weakest-precondition predicate with its rules, and the
    tactics and hint databases the component files share. *)

From stdpp Require Export gmap list.
From Stdlib Require Export NArith Lia.

#[global] Open Scope N_scope.
Declare Scope prog_scope.
Delimit Scope prog_scope with prog.

(** [lia] with the defining equations of division and remainder. *)
Ltac modlia := zify; Z.to_euclidean_division_equations; lia.

(** ** 64-bit words *)

(** [uint64_t] arithmetic: results are reduced modulo 2^64, by keeping the low 64 bits. *)
Definition w64 (x : N) : N := N.land x 0xFFFFFFFFFFFFFFFF.
Definition add64 (x y : N) : N := w64 (x + y).
Definition sub64 (x y : N) : N := w64 (x + (0x10000000000000000 - w64 y)).
Definition mul64 (x y : N) : N := w64 (x * y).
Definition shl64 (x c : N) : N := w64 (N.shiftl x c).
Definition not64 (x : N) : N := N.ldiff 0xFFFFFFFFFFFFFFFF x.

(** [uint32_t] and [uint16_t] arithmetic. *)
Definition w32 (x : N) : N := N.land x 0xFFFFFFFF.
Definition sub32 (x y : N) : N := w32 (x + (0x100000000 - w32 y)).
Definition w16 (x : N) : N := N.land x 0xFFFF.

(** The all-ones word, [(uint64_t)-1]. *)
Definition minus1_64 : N := N.ones 64.

Definition is64 (x : N) : Prop := x < 2 ^ 64.

Lemma w64_mod x : w64 x = x mod 2 ^ 64.
Proof. unfold w64. change 0xFFFFFFFFFFFFFFFF with (N.ones 64). apply N.land_ones. Qed.

Lemma w64_lt x : w64 x < 2 ^ 64.
Proof. rewrite w64_mod. apply N.mod_lt. done. Qed.

Lemma w64_small x : x < 2 ^ 64 -> w64 x = x.
Proof. intros H. rewrite w64_mod. by apply N.mod_small. Qed.

Lemma w32_lt x : w32 x < 2 ^ 32.
Proof. unfold w32. change 0xFFFFFFFF with (N.ones 32). rewrite N.land_ones. by apply N.mod_lt. Qed.

Lemma w32_small x : x < 2 ^ 32 -> w32 x = x.
Proof.
  intros H. unfold w32. change 0xFFFFFFFF with (N.ones 32). rewrite N.land_ones. by apply N.mod_small.
Qed.

Lemma sub32_small x y : y <= x -> x < 2 ^ 32 -> sub32 x y = x - y.
Proof.
  intros Hy Hx. unfold sub32. rewrite (w32_small y) by lia. unfold w32.
  change 0xFFFFFFFF with (N.ones 32). rewrite N.land_ones. symmetry.
  apply (N.mod_unique _ _ 1); lia.
Qed.

Lemma sub64_small x y : y <= x -> x < 2 ^ 64 -> sub64 x y = x - y.
Proof.
  intros Hy Hx. unfold sub64. rewrite (w64_small y) by lia. rewrite w64_mod. symmetry.
  apply (N.mod_unique _ _ 1); lia.
Qed.

(** ** Bits *)

Lemma testbit_high x n i : x < 2 ^ n -> n <= i -> N.testbit x i = false.
Proof.
  intros Hx Hi. destruct (decide (x = 0)) as [->|Hne]; [apply N.bits_0|].
  apply N.bits_above_log2.
  apply N.log2_lt_pow2 in Hx; lia.
Qed.

Lemma lt_pow2_bits x n : (forall i, n <= i -> N.testbit x i = false) -> x < 2 ^ n.
Proof.
  intros H. destruct (decide (x = 0)) as [->|Hne].
  - apply N.neq_0_lt_0, N.pow_nonzero. done.
  - apply N.log2_lt_pow2; [lia|].
    destruct (N.lt_ge_cases (N.log2 x) n) as [?|Hge]; [done|].
    specialize (H _ Hge). rewrite N.bit_log2 in H; done.
Qed.

Lemma pow2_eqb_bit n i : N.testbit (2 ^ n) i = bool_decide (n = i).
Proof.
  case_bool_decide as H; subst.
  - apply N.pow2_bits_true.
  - by apply N.pow2_bits_false.
Qed.

Lemma ones_bit n i : N.testbit (N.ones n) i = bool_decide (i < n).
Proof.
  case_bool_decide as H.
  - by apply N.ones_spec_low.
  - apply N.ones_spec_high. lia.
Qed.

(** The rewrite base that pushes [testbit] to the leaves of a bitwise expression. *)
Create HintDb bits discriminated.
Create Rewrite HintDb bits.
#[export] Hint Rewrite N.land_spec N.lor_spec N.lxor_spec N.ldiff_spec N.shiftr_spec'
  pow2_eqb_bit ones_bit N.bits_0 : bits.

Lemma land_lt x y n : x < 2 ^ n -> N.land x y < 2 ^ n.
Proof.
  intros H. apply lt_pow2_bits. intros i Hi.
  by rewrite N.land_spec, (testbit_high x n i).
Qed.

Lemma lor_lt x y n : x < 2 ^ n -> y < 2 ^ n -> N.lor x y < 2 ^ n.
Proof.
  intros Hx Hy. apply lt_pow2_bits. intros i Hi.
  by rewrite N.lor_spec, (testbit_high x n i), (testbit_high y n i).
Qed.

Lemma lxor_lt x y n : x < 2 ^ n -> y < 2 ^ n -> N.lxor x y < 2 ^ n.
Proof.
  intros Hx Hy. apply lt_pow2_bits. intros i Hi.
  by rewrite N.lxor_spec, (testbit_high x n i), (testbit_high y n i).
Qed.

Lemma ldiff_lt x y n : x < 2 ^ n -> N.ldiff x y < 2 ^ n.
Proof.
  intros H. apply lt_pow2_bits. intros i Hi.
  by rewrite N.ldiff_spec, (testbit_high x n i).
Qed.

Lemma shiftr_lt x c n : x < 2 ^ (n + c) -> N.shiftr x c < 2 ^ n.
Proof.
  intros H. rewrite N.shiftr_div_pow2.
  apply N.Div0.div_lt_upper_bound. by rewrite <- N.pow_add_r, N.add_comm.
Qed.

Lemma not64_lt x : not64 x < 2 ^ 64.
Proof. apply ldiff_lt. by vm_compute. Qed.

#[export] Hint Resolve land_lt lor_lt lxor_lt ldiff_lt w64_lt not64_lt : bits.

(** Values with no common bit. *)
Lemma lor_add x y : N.land x y = 0 -> N.lor x y = x + y.
Proof. intros H. by rewrite N.add_nocarry_lxor, N.lxor_lor. Qed.

(** Splitting a word at bit [n]. *)
Lemma land_high x n : is64 x -> n <= 64 ->
  N.land x (N.ldiff (N.ones 64) (N.ones n)) = 2 ^ n * (x / 2 ^ n).
Proof.
  intros Hx Hn. rewrite N.mul_comm, <- N.shiftl_mul_pow2, <- N.shiftr_div_pow2.
  apply N.bits_inj. intros i. rewrite N.land_spec, N.ldiff_spec, !ones_bit.
  destruct (N.lt_ge_cases i n) as [Hi|Hi].
  - rewrite N.shiftl_spec_low by done.
    rewrite (bool_decide_eq_true_2 (i < n)) by done. by rewrite !andb_false_r.
  - rewrite N.shiftl_spec_high' by done. rewrite N.shiftr_spec', N.sub_add by done.
    rewrite (bool_decide_eq_false_2 (i < n)) by lia. rewrite andb_true_r.
    case_bool_decide; [by rewrite andb_true_r|].
    by rewrite (testbit_high x 64) by (done || lia).
Qed.

Lemma land_ones_mod x n : N.land x (N.ones n) = x mod 2 ^ n.
Proof. apply N.land_ones. Qed.

Lemma ones_pred n : 2 ^ n - 1 = N.ones n.
Proof. rewrite N.ones_equiv. lia. Qed.

(** ** Search *)

(** The first [j] in [k, k + n) that satisfies [P]. *)
Fixpoint first_from (n : nat) (P : N -> bool) (k : N) : option N :=
  match n with
  | O => None
  | S n => if P k then Some k else first_from n P (k + 1)
  end.

Lemma first_from_Some n P k j :
  first_from n P k = Some j ->
  k <= j < k + N.of_nat n /\ P j = true /\ forall i, k <= i < j -> P i = false.
Proof.
  revert k; induction n as [|n IH]; intros k; simpl; [done|].
  destruct (P k) eqn:E.
  - intros [= <-]. split_and!; [lia|lia|done|lia].
  - intros H. destruct (IH _ H) as (H1 & H2 & H3). split_and!; [lia|lia|done|].
    intros i Hi. destruct (decide (i = k)) as [->|]; [done|apply H3; lia].
Qed.

Lemma first_from_None n P k i :
  first_from n P k = None -> k <= i < k + N.of_nat n -> P i = false.
Proof.
  revert k; induction n as [|n IH]; intros k; simpl; [lia|].
  destruct (P k) eqn:E; [done|]. intros H Hi.
  destruct (decide (i = k)) as [->|]; [done|]. apply (IH (k + 1)); [done|lia].
Qed.

(** ** Lists *)

Lemma elem_of_rev {A} (x : A) l : x ∈ rev l <-> x ∈ l.
Proof. rewrite !list_elem_of_In, <- in_rev. done. Qed.

(** The numbers [k], [k + 1], ... *)
Fixpoint nseq (k : N) (n : nat) : list N :=
  match n with
  | O => []
  | S n => k :: nseq (k + 1) n
  end.

Lemma elem_of_nseq k n x : x ∈ nseq k n <-> k <= x < k + N.of_nat n.
Proof.
  revert k. induction n as [|n IH]; intros k; cbn [nseq]; [set_solver by lia|].
  rewrite elem_of_cons, IH. lia.
Qed.

Lemma length_nseq k n : length (nseq k n) = n.
Proof. revert k. induction n as [|n IH]; intros k; cbn; [done|]. by rewrite IH. Qed.

Lemma nseq_snoc k n : nseq k (S n) = nseq k n ++ [k + N.of_nat n].
Proof.
  revert k. induction n as [|n IH]; intros k; [cbn; by rewrite N.add_0_r|].
  change (nseq k (S (S n))) with (k :: nseq (k + 1) (S n)). rewrite IH. cbn [nseq app].
  do 3 f_equal. lia.
Qed.

Lemma NoDup_nseq k n : NoDup (nseq k n).
Proof.
  revert k. induction n as [|n IH]; intros k; cbn [nseq]; constructor; [|apply IH].
  rewrite elem_of_nseq. lia.
Qed.

(** ** Word memories *)

(** A zero-initialised region of memory ([mmap]) indexed by position. *)
Definition mem (A : Type) := gmap N A.

Definition mget (m : gmap N N) (i : N) : N := default 0 (m !! i).
Definition mset {A} (m : gmap N A) (i : N) (v : A) : gmap N A := <[i := v]> m.

Lemma mget_mset_eq m i v : mget (mset m i v) i = v.
Proof. unfold mget, mset. by rewrite lookup_insert_eq. Qed.

Lemma mget_mset_ne m i j v : i <> j -> mget (mset m i v) j = mget m j.
Proof. intros H. unfold mget, mset. by rewrite lookup_insert_ne. Qed.

Lemma mget_mset m i j v : mget (mset m i v) j = if decide (i = j) then v else mget m j.
Proof. case_decide; subst; auto using mget_mset_eq, mget_mset_ne. Qed.

Lemma mget_empty i : mget ∅ i = 0.
Proof. unfold mget. by rewrite lookup_empty. Qed.

Create Rewrite HintDb mem.
#[export] Hint Rewrite mget_mset_eq mget_empty : mem.
#[export] Hint Rewrite mget_mset_ne using done : mem.

(** Resolves reads of written memories whose positions [lia] can compare. *)
Ltac decide_addr :=
  repeat first [rewrite decide_True by (reflexivity || lia) | rewrite decide_False by lia].
Ltac decide_addr_in H :=
  repeat first [rewrite decide_True in H by (reflexivity || lia)
               | rewrite decide_False in H by lia].

(** ** Bitmaps *)

(** Bit [i] of a bitmap made of 64-bit words, most significant bit first:
    [ptr = bitmap + i/64], [mask = 0x8000000000000000 >> (i&63)]. *)
Definition bm_mask (i : N) : N := N.shiftr 0x8000000000000000 (N.land i 63).
Definition bm_get (m : gmap N N) (i : N) : bool :=
  negb (N.land (mget m (i / 64)) (bm_mask i) =? 0).
Definition bm_set (m : gmap N N) (i : N) : gmap N N :=
  mset m (i / 64) (N.lor (mget m (i / 64)) (bm_mask i)).
Definition bm_clear (m : gmap N N) (i : N) : gmap N N :=
  mset m (i / 64) (N.land (mget m (i / 64)) (not64 (bm_mask i))).

Lemma land63 i : N.land i 63 = i mod 64.
Proof. change 63 with (N.ones 6). by rewrite N.land_ones. Qed.

Lemma bm_mask_pow2 i : bm_mask i = 2 ^ (63 - i mod 64).
Proof.
  unfold bm_mask. rewrite land63.
  change 0x8000000000000000 with (2 ^ 63).
  assert (i mod 64 < 64) by (apply N.mod_lt; done).
  rewrite N.shiftr_div_pow2, <- N.pow_sub_r; [done|done|lia].
Qed.

Lemma land_pow2_eqb x n : (N.land x (2 ^ n) =? 0) = negb (N.testbit x n).
Proof.
  destruct (N.testbit x n) eqn:E; simpl.
  - apply N.eqb_neq. intros H0. assert (N.testbit (N.land x (2 ^ n)) n = false) as H1
      by (rewrite H0; apply N.bits_0).
    rewrite N.land_spec, E, N.pow2_bits_true in H1. done.
  - apply N.eqb_eq, N.bits_inj. intros i. rewrite N.land_spec, N.bits_0, pow2_eqb_bit.
    case_bool_decide; subst; by rewrite ?E, ?andb_false_r.
Qed.

Lemma bm_get_bit m i : bm_get m i = N.testbit (mget m (i / 64)) (63 - i mod 64).
Proof. unfold bm_get. by rewrite bm_mask_pow2, land_pow2_eqb, negb_involutive. Qed.

(** Two positions in the same word with the same bit are the same position. *)
Lemma bm_pos_inj i j :
  i / 64 = j / 64 -> 63 - i mod 64 = 63 - j mod 64 -> i = j.
Proof.
  intros Hq Hr. modlia.
Qed.

Lemma bm_get_set m i j : bm_get (bm_set m i) j = bool_decide (i = j) || bm_get m j.
Proof.
  rewrite !bm_get_bit. unfold bm_set. rewrite mget_mset, bm_mask_pow2. case_decide as H.
  - rewrite N.lor_spec, pow2_eqb_bit, orb_comm, H. f_equal.
    apply bool_decide_ext. split; [by apply bm_pos_inj|by intros ->].
  - rewrite bool_decide_eq_false_2; [done|by intros ->].
Qed.

Lemma bm_get_clear m i j : bm_get (bm_clear m i) j = bool_decide (i <> j) && bm_get m j.
Proof.
  rewrite !bm_get_bit. unfold bm_clear. rewrite mget_mset, bm_mask_pow2. case_decide as H.
  - unfold not64. change 0xFFFFFFFFFFFFFFFF with (N.ones 64).
    rewrite N.land_spec, N.ldiff_spec, pow2_eqb_bit, ones_bit, andb_comm, H.
    rewrite (bool_decide_eq_true_2 (63 - j mod 64 < 64)) by modlia.
    simpl. f_equal.
    rewrite <- bool_decide_not. apply bool_decide_ext.
    split; intros Hne Heq; apply Hne; [by subst|by apply bm_pos_inj].
  - rewrite bool_decide_eq_true_2; [done|by intros ->].
Qed.

Lemma bm_get_set_eq m i : bm_get (bm_set m i) i = true.
Proof. rewrite bm_get_set, bool_decide_eq_true_2; done. Qed.

Lemma bm_get_set_ne m i j : i <> j -> bm_get (bm_set m i) j = bm_get m j.
Proof. intros H. by rewrite bm_get_set, bool_decide_eq_false_2. Qed.

#[export] Hint Rewrite bm_get_set_eq : mem.

(** Count of leading zeros of a 64-bit word ([__builtin_clzll], undefined at 0). *)
Definition clz64 (v : N) : N := 63 - N.log2 v.

Lemma clz64_bit v : v <> 0 -> is64 v -> N.testbit v (63 - clz64 v) = true.
Proof.
  intros H0 H. unfold clz64. replace (63 - (63 - N.log2 v)) with (N.log2 v).
  - by apply N.bit_log2.
  - unfold is64 in H. apply N.log2_lt_pow2 in H; lia.
Qed.

(** Number of set bits ([__builtin_popcountll]). *)
Fixpoint pos_popcount (p : positive) : N :=
  match p with
  | xH => 1
  | xO p => pos_popcount p
  | xI p => N.succ (pos_popcount p)
  end.
Definition popcount (n : N) : N := match n with N0 => 0 | Npos p => pos_popcount p end.

(** ** The program monad *)

(** Why the program terminated through [exit] or a failed [assert]. *)
Inductive exit_reason :=
| TableFull         (* "BDD Unique table full" *)
| RehashFailed      (* "not all nodes could be rehashed" *)
| BadSize           (* a table size that create refuses *)
| NullCall          (* a call through a NULL function pointer *)
| AssertFailed      (* a failed assert() *)
| OutOfBounds       (* an access past the end of an array of the caller: undefined in C *)
| NullPointer       (* a null pointer is dereferenced *)
| DivideByZero      (* an integer division by zero *)
| BadFormat.        (* a file ends too early: "file format error" *)

(** A run from a state either returns, or terminates the process in some state, or has
    used up the fuel of one of its loops or recursions. *)
Inductive outcome (S A : Type) : Type :=
| Done (a : A) (s : S)
| Exit (r : exit_reason) (s : S)
| NoFuel.
Arguments Done {S A}.
Arguments Exit {S A}.
Arguments NoFuel {S A}.

Definition prog (S A : Type) : Type := S -> outcome S A.

#[export] Instance prog_ret S : MRet (prog S) := fun A a s => Done a s.
#[export] Instance prog_bind S : MBind (prog S) := fun A B k m s =>
  match m s with
  | Done a s' => k a s'
  | Exit r s' => Exit r s'
  | NoFuel => NoFuel
  end.

Definition gets {S A} (f : S -> A) : prog S A := fun s => Done (f s) s.
Definition modify {S} (f : S -> S) : prog S unit := fun s => Done tt (f s).
Definition exit {S A} (r : exit_reason) : prog S A := fun s => Exit r s.
Definition no_fuel {S A} : prog S A := fun _ => NoFuel.

(** Weakest precondition: from [s], the program does not run out of fuel; when it returns,
    [Q] holds, and when it terminates the process, [E] holds. *)
Definition wp {S A} (m : prog S A) (Q : A -> S -> Prop) (E : exit_reason -> S -> Prop)
    (s : S) : Prop :=
  match m s with
  | Done a s' => Q a s'
  | Exit r s' => E r s'
  | NoFuel => False
  end.

Section wp.
Context {S : Type}.

Lemma wp_ret {A} (a : A) (Q : A -> S -> Prop) E s : Q a s -> wp (mret a) Q E s.
Proof. done. Qed.

Lemma wp_bind {A B} (m : prog S A) (k : A -> prog S B) Q E s :
  wp m (fun a => wp (k a) Q E) E s -> wp (m ≫= k) Q E s.
Proof. unfold wp, mbind, prog_bind. by destruct (m s). Qed.

Lemma wp_gets {A} (f : S -> A) (Q : A -> S -> Prop) E s : Q (f s) s -> wp (gets f) Q E s.
Proof. done. Qed.

Lemma wp_modify (f : S -> S) (Q : unit -> S -> Prop) E s :
  Q tt (f s) -> wp (modify f) Q E s.
Proof. done. Qed.

Lemma wp_exit {A} r (Q : A -> S -> Prop) (E : exit_reason -> S -> Prop) s :
  E r s -> wp (exit r) Q E s.
Proof. done. Qed.

Lemma wp_mono {A} (m : prog S A) (Q Q' : A -> S -> Prop) (E : exit_reason -> S -> Prop) s :
  wp m Q E s -> (forall a s', Q a s' -> Q' a s') -> wp m Q' E s.
Proof. unfold wp. destruct (m s); auto. Qed.

Lemma wp_assoc {A B D} (m : prog S A) (k : A -> prog S B) (l : B -> prog S D) Q E s :
  wp (x ← (y ← m; k y); l x) Q E s <-> wp (y ← m; x ← k y; l x) Q E s.
Proof. unfold wp, mbind, prog_bind. by destruct (m s). Qed.

Lemma wp_cons {A} (m : prog S A) (Q Q' : A -> S -> Prop) (E E' : exit_reason -> S -> Prop) s :
  wp m Q E s -> (forall a s', Q a s' -> Q' a s') -> (forall r s', E r s' -> E' r s') ->
  wp m Q' E' s.
Proof. unfold wp. destruct (m s); auto. Qed.
End wp.

#[export] Hint Resolve wp_ret wp_gets wp_modify : wp.

(** The loop [for (i = first; i < first + n; i++) body(i)], its bounds fixed on entry. *)
Fixpoint for_loop {S} (n : nat) (first : N) (body : N -> prog S unit) : prog S unit :=
  match n with
  | O => mret tt
  | Datatypes.S n => _ ← body first; for_loop n (first + 1) body
  end.

(** The rule of the loop, with an invariant indexed by the counter. *)
Lemma wp_for {S} (I : N -> S -> Prop) n first body Q E (s : S) :
  I first s ->
  (forall i s, first <= i < first + N.of_nat n -> I i s ->
     wp (body i) (fun _ s' => I (i + 1) s') E s) ->
  (forall s, I (first + N.of_nat n) s -> Q tt s) ->
  wp (for_loop n first body) Q E s.
Proof.
  revert first s. induction n as [|n IH]; intros first s Hs Hb Hq; cbn [for_loop].
  - apply wp_ret, Hq. by replace (first + N.of_nat 0) with first by lia.
  - apply wp_bind. eapply wp_mono; [apply Hb; [lia|done]|]. intros [] s' Hs'.
    apply IH; [done| |].
    + intros i s0 Hi. apply Hb. lia.
    + intros s0 H0. apply Hq. by replace (first + N.of_nat (Datatypes.S n)) with (first + 1 + N.of_nat n) by lia.
Qed.

(** Moves past the [modify], [gets] and [mret] steps at the head of a program. *)
Ltac wp_step :=
  lazymatch goal with
  | |- wp (mbind _ _) _ _ _ => apply wp_bind
  | |- wp (mret _) _ _ _ => apply wp_ret
  | |- wp (gets _) _ _ _ => apply wp_gets
  | |- wp (modify _) _ _ _ => apply wp_modify
  | |- wp (exit _) _ _ _ => apply wp_exit
  end.
