(* ===== verification/SylvanHash.v ===== *)
(** The hash functions of the node table and of the reference tables:
    sylvan/src/sylvan_hash.c and sylvan/src/sylvan_hash.h.  Every function is executable;
    [sylvan_tabhash_table] is the array as [sylvan_init_hash] leaves it. *)

From S2P Require Import Prelude.

Module Hash.

(** [rotr64]: the bit-wise right rotation. *)
Definition rotr64 (n c : N) : N := N.lor (N.shiftr n c) (shl64 n (64 - c)).

(** State of the xorshift128+ generator [xor64]: the static array [s]. *)
Record xor64_state := mk_xor64 { xs0 : N; xs1 : N }.
Definition xor64_init : xor64_state := mk_xor64 88172645463325252 14695981039346656037.

Definition xor64 (st : xor64_state) : N * xor64_state :=
  let s1 := xs0 st in
  let s0 := xs1 st in
  let result := add64 s0 s1 in
  let s1 := N.lxor s1 (shl64 s1 23) in
  (result,
   mk_xor64 s0 (N.lxor (N.lxor (N.lxor s1 s0) (N.shiftr s1 18)) (N.shiftr s0 5))).

(** ** Arithmetic modulo 2^89 - 1 *)

Definition Prime89_0 : N := 2 ^ 32 - 1.
Definition Prime89_1 : N := 2 ^ 32 - 1.
Definition Prime89_2 : N := 2 ^ 25 - 1.
Definition Prime89_21 : N := 2 ^ 57 - 1.

(** [INT96]: three [uint64_t] limbs of 32 bits each. *)
Record INT96 := mk96 { l0 : N; l1 : N; l2 : N }.

Definition LOW (x : N) : N := N.land x 0xFFFFFFFF.
Definition HIGH (x : N) : N := N.shiftr x 32.

Definition Mod64Prime89 (r : INT96) : N :=
  let r2 := l2 r in
  let r1 := l1 r in
  let r0 := add64 (l0 r) (N.shiftr r2 25) in
  let r2 := N.land r2 Prime89_2 in
  if (r2 =? Prime89_2) && (r1 =? Prime89_1) && (Prime89_0 <=? r0)
  then r0 - Prime89_0
  else add64 r0 (shl64 r1 32).

(** [MultAddPrime89(r, x, a, b)], the new value of [r].  The caller passes [a = r]; every
    read of [a] precedes the first write of [r]. *)
Definition MultAddPrime89 (x : N) (a b : INT96) : INT96 :=
  let x1 := HIGH x in
  let x0 := LOW x in
  let c21 := mul64 (l2 a) x1 in
  let c11 := mul64 (l1 a) x1 in
  let c01 := mul64 (l0 a) x1 in
  let c20 := mul64 (l2 a) x0 in
  let c10 := mul64 (l1 a) x0 in
  let c00 := mul64 (l0 a) x0 in
  let d0 := add64 (add64 (add64 (N.shiftr c20 25) (N.shiftr c11 25)) (N.shiftr c10 57))
                  (N.shiftr c01 57) in
  let d1 := shl64 c21 7 in
  let d2 := add64 (N.land c10 Prime89_21) (N.land c01 Prime89_21) in
  let d3 := add64 (add64 (N.land c20 Prime89_2) (N.land c11 Prime89_2)) (N.shiftr c21 57) in
  let s0 := add64 (add64 (add64 (l0 b) (LOW c00)) (LOW d0)) (LOW d1) in
  let carry := HIGH s0 in
  let s1 := add64 (add64 (add64 (add64 (add64 (l1 b) (HIGH c00)) (HIGH d0)) (HIGH d1))
                         (LOW d2)) carry in
  let carry' := HIGH s1 in
  mk96 (LOW s0) (LOW s1) (add64 (add64 (add64 (l2 b) (HIGH d2)) d3) carry').

(** The first coefficient and the eleven that [CWhash] adds, in the order of its calls. *)
Definition CW_A : INT96 := mk96 0xcf90094b0ab9939e 0x817f998697604ff3 0x1a6e6f08b65440ea.
Definition CW_coeffs : list INT96 :=
  [ mk96 0xb989a05a5dcf57f1 0x7c007611f28daee7 0xd8bd809d68c26854;
    mk96 0x1041070633a92679 0xba9379fd71cd939d 0x271793709e1cd781;
    mk96 0x5c240a710b0c6beb 0xc24ac3b68056ea1c 0xd46c9c7f2adfaf71;
    mk96 0xa527cea74b053a87 0x69ba4a5e23f90577 0x707b6e053c7741e7;
    mk96 0xa6c0812cdbcdb982 0x8cb0c8b73f701489 0xee08c4dc1dbef243;
    mk96 0xcf3ab0ec9d538853 0x982a8457b6db03a9 0x8659cf6b636c9d37;
    mk96 0x905d5d14efefc0dd 0x7e9870e018ead6a2 0x47e2c9af0ea9325a;
    mk96 0xc59351a9bf283b09 0x4a39e35dbc280c7f 0xc5f160732996be4f;
    mk96 0x4d58e0b7a57ccddf 0xc362a25c267d1db4 0x7c79d2fcd89402b2;
    mk96 0x62ac342c4393930c 0xdb2fd2740ebef2a0 0xc672fd5e72921377;
    mk96 0xbdae267838862c6d 0x0e0ee206fdbaf1d1 0xc270e26fd8dfbae7 ].

Definition CWhash (x : N) : N :=
  Mod64Prime89 (fold_left (fun r c => MultAddPrime89 x r c) CW_coeffs CW_A).

(** [sylvan_tabhash_table[i]] after [sylvan_init_hash]. *)
Definition sylvan_tabhash_table (i : N) : N := CWhash i.

(** One loop of [sylvan_tabhash16]: [n] more bytes of [a], with [t] the offset of the
    current table.  Returns the offset after the loop and the seed. *)
Fixpoint tab_loop (n : nat) (t a seed : N) : N * N :=
  match n with
  | O => (t, seed)
  | S n => tab_loop n (t + 256) (N.shiftr a 8)
             (N.lxor seed (sylvan_tabhash_table (t + N.land a 0xff)))
  end.

Definition sylvan_tabhash16 (a b seed : N) : N :=
  let '(t, seed) := tab_loop 8 0 a seed in
  snd (tab_loop 8 t b seed).

Definition fnv_prime : N := 1099511628211.

Definition sylvan_fnvhash16 (a b seed : N) : N :=
  let hash := mul64 (N.lxor seed a) fnv_prime in
  let hash := mul64 (N.lxor hash b) fnv_prime in
  N.lxor hash (N.shiftr hash 32).

Definition sylvan_fnvhash8 (a seed : N) : N :=
  let hash := mul64 (N.lxor seed a) fnv_prime in
  let hash := mul64 (N.lxor hash (N.lor (shl64 a 25) (N.shiftr a 39))) fnv_prime in
  N.lxor hash (N.shiftr hash 32).

(** ** Facts *)

Lemma LOW_mod x : LOW x = x mod 2 ^ 32.
Proof. unfold LOW. change 0xFFFFFFFF with (N.ones 32). by rewrite N.land_ones. Qed.

Lemma HIGH_div x : HIGH x = x / 2 ^ 32.
Proof. unfold HIGH. by rewrite N.shiftr_div_pow2. Qed.

Lemma Prime89_2_land x : N.land x Prime89_2 = x mod 2 ^ 25.
Proof. change Prime89_2 with (N.ones 25). by rewrite N.land_ones. Qed.

Lemma Prime89_21_land x : N.land x Prime89_21 = x mod 2 ^ 57.
Proof. change Prime89_21 with (N.ones 57). by rewrite N.land_ones. Qed.

(** The integer a triple of limbs stands for. *)
Definition val96 (r : INT96) : N := l0 r + 2 ^ 32 * l1 r + 2 ^ 64 * l2 r.
(** The limbs are 32-bit, as the representation means them to be. *)
Definition limbs32 (r : INT96) : Prop := l0 r < 2 ^ 32 /\ l1 r < 2 ^ 32 /\ l2 r < 2 ^ 32.
Definition Prime89 : N := 2 ^ 89 - 1.

Lemma Mod64Prime89_lt r : is64 (Mod64Prime89 r).
Proof.
  unfold Mod64Prime89, is64. cbv zeta. case_match; [|apply w64_lt].
  pose proof (w64_lt (l0 r + N.shiftr (l2 r) 25)). unfold add64. lia.
Qed.

Lemma tab_loop_lt n t a seed : is64 seed -> is64 (tab_loop n t a seed).2.
Proof.
  revert t a seed; induction n as [|n IH]; intros t a seed H; simpl; [done|].
  apply IH, lxor_lt; [done|apply Mod64Prime89_lt].
Qed.

Lemma tabhash16_lt a b seed : is64 seed -> is64 (sylvan_tabhash16 a b seed).
Proof.
  intros H. unfold sylvan_tabhash16.
  pose proof (tab_loop_lt 8 0 a seed H) as H1. destruct (tab_loop 8 0 a seed) as [t s].
  by apply tab_loop_lt.
Qed.

Lemma mul64_lt x y : is64 (mul64 x y).
Proof. apply w64_lt. Qed.

Lemma xor_shift_lt h : is64 h -> is64 (N.lxor h (N.shiftr h 32)).
Proof.
  intros H. apply lxor_lt; [done|]. apply shiftr_lt.
  eapply N.lt_trans; [exact H|by vm_compute].
Qed.

Lemma fnvhash8_lt a seed : is64 (sylvan_fnvhash8 a seed).
Proof. apply xor_shift_lt, mul64_lt. Qed.

Lemma fnvhash16_lt a b seed : is64 (sylvan_fnvhash16 a b seed).
Proof. apply xor_shift_lt, mul64_lt. Qed.

#[export] Hint Resolve tabhash16_lt fnvhash8_lt fnvhash16_lt : bits.

(** ** Correctness of the arithmetic for 32-bit limbs *)

Lemma mul64_exact x y : x < 2 ^ 32 -> y < 2 ^ 32 -> mul64 x y = x * y /\ x * y <= (2 ^ 32 - 1) * (2 ^ 32 - 1).
Proof.
  intros Hx Hy. assert (Hle : x * y <= (2 ^ 32 - 1) * (2 ^ 32 - 1)) by (apply N.mul_le_mono; lia).
  split; [|done]. apply w64_small. eapply N.le_lt_trans; [exact Hle|by vm_compute].
Qed.

(** Introduces quotient and remainder of [x] by [d] as variables. *)
Ltac split_div x d q r :=
  let E := fresh "E" in let H := fresh "H" in
  pose proof (N.div_mod' x d) as E; pose proof (N.mod_lt x d ltac:(done)) as H;
  set (q := x / d) in *; set (r := x mod d) in *; clearbody q r.

(** [MultAddPrime89] computes [a * x + b] modulo 2^89 - 1 and returns 32-bit limbs, when the
    limbs of its arguments are 32-bit (31-bit for the last limb of [b]). *)
Lemma MultAdd_value x a b :
  x < 2 ^ 64 -> limbs32 a -> limbs32 b -> l2 b < 2 ^ 31 ->
  limbs32 (MultAddPrime89 x a b) /\
  exists k, val96 a * x + val96 b = val96 (MultAddPrime89 x a b) + Prime89 * k.
Proof.
  intros Hx (Ha0 & Ha1 & Ha2) (Hb0 & Hb1 & Hb2) Hb2'.
  destruct a as [a0 a1 a2], b as [b0 b1 b2]; unfold val96, limbs32, MultAddPrime89;
    cbn [l0 l1 l2] in *.
  rewrite !HIGH_div, !LOW_mod, !Prime89_2_land, !Prime89_21_land, !N.shiftr_div_pow2.
  unfold shl64. rewrite N.shiftl_mul_pow2.
  assert (x / 2 ^ 32 < 2 ^ 32) as Hx1 by (apply N.Div0.div_lt_upper_bound; lia).
  split_div x (2 ^ 32) x1 x0.
  rename H into Hx0.
  destruct (mul64_exact a0 x0 Ha0 Hx0) as [-> B00], (mul64_exact a0 x1 Ha0 Hx1) as [-> B01],
    (mul64_exact a1 x0 Ha1 Hx0) as [-> B10], (mul64_exact a1 x1 Ha1 Hx1) as [-> B11],
    (mul64_exact a2 x0 Ha2 Hx0) as [-> B20], (mul64_exact a2 x1 Ha2 Hx1) as [-> B21].
  assert ((a0 + 2 ^ 32 * a1 + 2 ^ 64 * a2) * x =
    a0 * x0 + 2 ^ 32 * (a0 * x1 + a1 * x0) + 2 ^ 64 * (a1 * x1 + a2 * x0) + 2 ^ 96 * (a2 * x1))
    as -> by (rewrite E; lia).
  generalize dependent (a0 * x0); generalize dependent (a0 * x1);
    generalize dependent (a1 * x0); generalize dependent (a1 * x1);
    generalize dependent (a2 * x0); generalize dependent (a2 * x1).
  intros c21 B21 c20 B20 c11 B11 c10 B10 c01 B01 c00 B00. clear E.
  assert (c21 / 2 ^ 57 < 2 ^ 7) by (apply N.Div0.div_lt_upper_bound; lia).
  assert (w64 (c21 * 2 ^ 7) + 2 ^ 64 * (c21 / 2 ^ 57) = c21 * 2 ^ 7) as Ed1.
  { rewrite w64_mod. change (2 ^ 64) with (2 ^ 57 * 2 ^ 7).
    rewrite N.Div0.mul_mod_distr_r. pose proof (N.div_mod' c21 (2 ^ 57)). lia. }
  pose proof (w64_lt (c21 * 2 ^ 7)) as Hd1.
  set (d1 := w64 (c21 * 2 ^ 7)) in *; clearbody d1.
  set (h21 := c21 / 2 ^ 57) in *; clearbody h21.
  split_div c20 (2 ^ 25) q20 r20. split_div c11 (2 ^ 25) q11 r11.
  split_div c10 (2 ^ 57) q10 r10. split_div c01 (2 ^ 57) q01 r01.
  unfold add64.
  rewrite (w64_small (q20 + q11)), (w64_small (q20 + q11 + q10)),
    (w64_small (q20 + q11 + q10 + q01)) by lia.
  rewrite (w64_small (r10 + r01)), (w64_small (r20 + r11)), (w64_small (r20 + r11 + h21)) by lia.
  set (d0 := q20 + q11 + q10 + q01) in *. set (d2 := r10 + r01) in *.
  set (d3 := r20 + r11 + h21) in *.
  split_div c00 (2 ^ 32) h00 w00. split_div d0 (2 ^ 32) hd0 wd0.
  split_div d1 (2 ^ 32) hd1 wd1. split_div d2 (2 ^ 32) hd2 wd2.
  rewrite (w64_small (b0 + w00)), (w64_small (b0 + w00 + wd0)),
    (w64_small (b0 + w00 + wd0 + wd1)) by lia.
  split_div (b0 + w00 + wd0 + wd1) (2 ^ 32) cy s0.
  rewrite (w64_small (b1 + h00)), (w64_small (b1 + h00 + hd0)),
    (w64_small (b1 + h00 + hd0 + hd1)), (w64_small (b1 + h00 + hd0 + hd1 + wd2)),
    (w64_small (b1 + h00 + hd0 + hd1 + wd2 + cy)) by lia.
  split_div (b1 + h00 + hd0 + hd1 + wd2 + cy) (2 ^ 32) cy' s1.
  rewrite (w64_small (b2 + hd2)), (w64_small (b2 + hd2 + d3)),
    (w64_small (b2 + hd2 + d3 + cy')) by lia.
  split; [lia|]. exists (d0 + d1 + 2 ^ 64 * h21). change Prime89 with 618970019642690137449562111.
  subst d0 d2 d3. lia.
Qed.

(** [Mod64Prime89] reduces modulo 2^89 - 1 and keeps the low 64 bits, for 32-bit limbs. *)
Lemma Mod64_value r :
  limbs32 r -> Mod64Prime89 r = (val96 r mod Prime89) mod 2 ^ 64.
Proof.
  intros (H0 & H1 & H2). destruct r as [r0 r1 r2]; unfold val96, Mod64Prime89;
    cbn [l0 l1 l2] in *.
  rewrite Prime89_2_land, N.shiftr_div_pow2.
  assert (r2 / 2 ^ 25 < 2 ^ 7) by (apply N.Div0.div_lt_upper_bound; lia).
  split_div r2 (2 ^ 25) h l.
  unfold add64, shl64. rewrite N.shiftl_mul_pow2, (w64_small (r0 + h)) by lia.
  rewrite (w64_small (r1 * 2 ^ 32)) by lia.
  set (V := r0 + h + 2 ^ 32 * r1 + 2 ^ 64 * l).
  assert (r0 + 2 ^ 32 * r1 + 2 ^ 64 * r2 = V + h * Prime89) as ->
    by (unfold V; change Prime89 with 618970019642690137449562111; lia).
  rewrite N.Div0.mod_add.
  destruct ((l =? Prime89_2) && (r1 =? Prime89_1) && (Prime89_0 <=? r0 + h)) eqn:C.
  - apply andb_prop in C as [C C3]. apply andb_prop in C as [C1 C2].
    apply N.eqb_eq in C1, C2. apply N.leb_le in C3.
    assert (V = r0 + h - Prime89_0 + 1 * Prime89) as ->
      by (unfold V, Prime89, Prime89_0, Prime89_1, Prime89_2 in *; lia).
    rewrite N.Div0.mod_add. unfold Prime89, Prime89_0 in *.
    rewrite (N.mod_small _ (2 ^ 89 - 1)) by lia. by rewrite N.mod_small by lia.
  - rewrite (N.mod_small V).
    + unfold V. rewrite w64_mod. rewrite N.mul_comm, (N.mul_comm (2 ^ 64)).
      by rewrite N.Div0.mod_add.
    + unfold V, Prime89, Prime89_0, Prime89_1, Prime89_2 in *.
      destruct (N.eqb_spec l (2 ^ 25 - 1)), (N.eqb_spec r1 (2 ^ 32 - 1)),
        (N.leb_spec (2 ^ 32 - 1) (r0 + h)); try discriminate; lia.
Qed.

End Hash.
