(* ===== verification/SylvanTable.v ===== *)
(** The node table ([llmsset]) of sylvan/src/sylvan_table.c and sylvan/src/sylvan_table.h: a
    hash set of 16-byte keys (two 64-bit words) in which each key gets a bucket index.  The
    record holds the C structure together with the two thread-local words the code reads
    ([my_region], [my_worker_id]).  The model is the run of one worker: a compare-and-swap
    compares with the memory at that step, and a spawned task runs where it is synced. *)

From S2P Require Import Prelude SylvanHash.

Module LLMSSet.
Import Hash.

(** The custom functions of [llmsset_set_custom].  [create_cb] returns the words it leaves
    behind its two pointers. *)
Record callbacks := {
  hash_cb : N -> N -> N -> N;
  equals_cb : N -> N -> N -> N -> bool;
  create_cb : N -> N -> N * N
}.

Record llmsset := mk_llmsset {
  table : gmap N N;          (* hashes: 24 bits of hash, 40 bits of bucket index *)
  data : gmap N (N * N);     (* the two words of each data bucket *)
  bitmap1 : gmap N N;        (* ownership, one bit per region of 512 buckets *)
  bitmap2 : gmap N N;        (* "contains data", one bit per bucket *)
  bitmapc : gmap N N;        (* "uses custom functions", one bit per bucket *)
  max_size : N;
  table_size : N;
  mask : N;
  threshold : N;
  custom : option callbacks;
  my_region : N;
  my_worker_id : N;
  lace_n_workers_id : N
}.

Definition upd_table f (s : llmsset) : llmsset :=
  mk_llmsset (f (table s)) (data s) (bitmap1 s) (bitmap2 s) (bitmapc s) (max_size s)
    (table_size s) (mask s) (threshold s) (custom s) (my_region s) (my_worker_id s)
    (lace_n_workers_id s).
Definition upd_data f (s : llmsset) : llmsset :=
  mk_llmsset (table s) (f (data s)) (bitmap1 s) (bitmap2 s) (bitmapc s) (max_size s)
    (table_size s) (mask s) (threshold s) (custom s) (my_region s) (my_worker_id s)
    (lace_n_workers_id s).
Definition upd_bitmap1 f (s : llmsset) : llmsset :=
  mk_llmsset (table s) (data s) (f (bitmap1 s)) (bitmap2 s) (bitmapc s) (max_size s)
    (table_size s) (mask s) (threshold s) (custom s) (my_region s) (my_worker_id s)
    (lace_n_workers_id s).
Definition upd_bitmap2 f (s : llmsset) : llmsset :=
  mk_llmsset (table s) (data s) (bitmap1 s) (f (bitmap2 s)) (bitmapc s) (max_size s)
    (table_size s) (mask s) (threshold s) (custom s) (my_region s) (my_worker_id s)
    (lace_n_workers_id s).
Definition upd_bitmapc f (s : llmsset) : llmsset :=
  mk_llmsset (table s) (data s) (bitmap1 s) (bitmap2 s) (f (bitmapc s)) (max_size s)
    (table_size s) (mask s) (threshold s) (custom s) (my_region s) (my_worker_id s)
    (lace_n_workers_id s).
Definition set_threshold v (s : llmsset) : llmsset :=
  mk_llmsset (table s) (data s) (bitmap1 s) (bitmap2 s) (bitmapc s) (max_size s)
    (table_size s) (mask s) v (custom s) (my_region s) (my_worker_id s) (lace_n_workers_id s).
Definition set_region v (s : llmsset) : llmsset :=
  mk_llmsset (table s) (data s) (bitmap1 s) (bitmap2 s) (bitmapc s) (max_size s)
    (table_size s) (mask s) (threshold s) (custom s) v (my_worker_id s) (lace_n_workers_id s).

(** The two words of data bucket [i]; memory not yet written reads as zero. *)
Definition data_at (s : llmsset) (i : N) : N * N := default (0, 0) (data s !! i).

(** ** Sizes *)

Definition llmsset_get_max_size (s : llmsset) : N := max_size s.
Definition llmsset_get_size (s : llmsset) : N := table_size s.

Definition llmsset_set_size (s : llmsset) (size : N) : llmsset :=
  if (128 <? size) && (size <=? max_size s)
  then mk_llmsset (table s) (data s) (bitmap1 s) (bitmap2 s) (bitmapc s) (max_size s)
         size (size - 1) (192 - 2 * clz64 size) (custom s) (my_region s) (my_worker_id s)
         (lace_n_workers_id s)
  else s.

(** ** Data buckets *)

Definition llmsset_reset_region (s : llmsset) : llmsset := set_region minus1_64 s.

(** The scan of the words of region [my_region] from word [i]: the first word with a zero
    bit, and that bit counted from the most significant one. *)
Fixpoint scan_region (n : nat) (bm : gmap N N) (region i : N) : option (N * N) :=
  match n with
  | O => None
  | S n =>
      let v := mget bm (region * 8 + i) in
      if v =? 0xffffffffffffffff then scan_region n bm region (i + 1)
      else Some (i, clz64 (not64 v))
  end.

(** The inner loop that claims a region: [count] more attempts. *)
Fixpoint claim_region (count : nat) (bm1 : gmap N N) (regions region : N)
    : option (N * gmap N N) :=
  match count with
  | O => None
  | S count =>
      let region := add64 region 1 in
      let region := if regions <=? region then 0 else region in
      if bm_get bm1 region then claim_region count bm1 regions region
      else Some (region, bm_set bm1 region)
  end.

(** The outer loop of [claim_data_bucket]; [region] is the local copy of [my_region]. *)
Fixpoint claim_loop (fuel : nat) (region : N) : prog llmsset N :=
  match fuel with
  | O => no_fuel
  | S fuel =>
      s ← gets id;
      let regions := table_size s / (64 * 8) in
      match (if region =? minus1_64 then None else scan_region 8 (bitmap2 s) region 0) with
      | Some (i, j) =>
          _ ← modify (upd_bitmap2 (fun bm =>
                mset bm (region * 8 + i)
                  (N.lor (mget bm (region * 8 + i)) (N.shiftr 0x8000000000000000 j))));
          mret ((8 * region + i) * 64 + j)
      | None =>
          let region :=
            if region =? minus1_64
            then add64 region (mul64 (my_worker_id s) regions / lace_n_workers_id s)
            else region in
          match claim_region (N.to_nat regions) (bitmap1 s) regions region with
          | None => mret minus1_64
          | Some (region, bm1) =>
              _ ← modify (fun s => set_region region (upd_bitmap1 (fun _ => bm1) s));
              claim_loop fuel region
          end
      end
  end.

Definition claim_data_bucket : prog llmsset N :=
  s ← gets id;
  claim_loop (S (S (N.to_nat (table_size s / (64 * 8))))) (my_region s).

Definition release_data_bucket (index : N) (s : llmsset) : llmsset :=
  upd_bitmap2 (fun bm => bm_clear bm index) s.

Definition set_custom_bucket (index : N) (on : bool) (s : llmsset) : llmsset :=
  upd_bitmapc (fun bm => if on then bm_set bm index else bm_clear bm index) s.

Definition is_custom_bucket (s : llmsset) (index : N) : bool := bm_get (bitmapc s) index.

(** ** Lookup *)

(** [LINE_SIZE] is 64: eight words per cache line. *)
Definition CL_MASK : N := not64 (64 / 8 - 1).
Definition CL_MASK_R : N := 64 / 8 - 1.
Definition MASK_INDEX : N := 0x000000ffffffffff.
Definition MASK_HASH : N := 0xffffff0000000000.
Definition hash_seed : N := 14695981039346656037.

(** The step between cache lines of the probe sequence. *)
Definition probe_step (hash_rehash : N) : N := shl64 (N.lor (N.shiftr hash_rehash 20) 1) 3.

(** The next position on the cache line of [idx]. *)
Definition next_idx (idx : N) : N :=
  N.lor (N.land idx CL_MASK) (N.land (add64 idx 1) CL_MASK_R).

(** The hash of a key: the custom function when there is one. *)
Definition key_hash (cb : option callbacks) (a b : N) : N :=
  match cb with
  | Some f => hash_cb f a b hash_seed
  | None => sylvan_tabhash16 a b hash_seed
  end.

Definition key_equals (cb : option callbacks) (a b : N) (d : N * N) : bool :=
  match cb with
  | Some f => equals_cb f a b (fst d) (snd d)
  | None => (fst d =? a) && (snd d =? b)
  end.

Definition key_create (cb : option callbacks) (a b : N) : N * N :=
  match cb with Some f => create_cb f a b | None => (a, b) end.

(** The probing loop of [llmsset_lookup2].  [cidx] is the data bucket claimed so far, or 0.
    The result is the bucket index (0 when the table is full) and the value of [*created]. *)
Fixpoint lookup_loop (fuel : nat) (cb : option callbacks) (a b hash step : N)
    (idx last i hash_rehash cidx : N) : prog llmsset (N * bool) :=
  match fuel with
  | O => no_fuel
  | S fuel =>
      v ← gets (fun s => mget (table s) idx);
      res ← (if v =? 0 then
               c ← (if cidx =? 0 then
                      cidx ← claim_data_bucket;
                      if cidx =? minus1_64 then mret None
                      else
                        let '(a, b) := key_create cb a b in
                        _ ← modify (upd_data (fun d => mset d cidx (a, b)));
                        mret (Some (cidx, a, b))
                    else mret (Some (cidx, a, b)));
               match c with
               | None => mret (inl (0, false))
               | Some (cidx, a, b) =>
                   cur ← gets (fun s => mget (table s) idx);
                   if cur =? 0 then
                     _ ← modify (upd_table (fun t => mset t idx (N.lor hash cidx)));
                     _ ← (if cb then modify (set_custom_bucket cidx true) else mret tt);
                     mret (inl (cidx, true))
                   else mret (inr (cur, cidx, a, b))
               end
             else mret (inr (v, cidx, a, b)));
      match res with
      | inl r => mret r
      | inr (v, cidx, a, b) =>
          let d_idx := N.land v MASK_INDEX in
          d ← gets (fun s => data_at s d_idx);
          if (hash =? N.land v MASK_HASH) && key_equals cb a b d then
            _ ← (if cidx =? 0 then mret tt else modify (release_data_bucket cidx));
            mret (d_idx, false)
          else
            let idx := next_idx idx in
            if idx =? last then
              let i := i + 1 in
              th ← gets threshold;
              if i =? th then mret (0, false)
              else
                let hash_rehash := add64 hash_rehash step in
                m ← gets mask;
                let idx := N.land hash_rehash m in
                lookup_loop fuel cb a b hash step idx idx i hash_rehash cidx
            else lookup_loop fuel cb a b hash step idx last i hash_rehash cidx
      end
  end.

Definition llmsset_lookup2 (cb : option callbacks) (a b : N) : prog llmsset (N * bool) :=
  s ← gets id;
  let hash_rehash := key_hash cb a b in
  let step := probe_step hash_rehash in
  let hash := N.land hash_rehash MASK_HASH in
  let idx := N.land hash_rehash (mask s) in
  lookup_loop (N.to_nat (8 * threshold s)) cb a b hash step idx idx 0 hash_rehash 0.

Definition llmsset_lookup (a b : N) : prog llmsset (N * bool) := llmsset_lookup2 None a b.

(** With no custom functions registered, [dbs->hash_cb] is NULL. *)
Definition llmsset_lookupc (a b : N) : prog llmsset (N * bool) :=
  s ← gets id;
  match custom s with
  | None => exit NullCall
  | Some f => llmsset_lookup2 (Some f) a b
  end.

(** ** Garbage collection *)

(** The probing loop of [llmsset_rehash_bucket]; it returns 1 when the bucket is placed. *)
Fixpoint rehash_loop (fuel : nat) (new_v step idx last i hash_rehash : N) : prog llmsset N :=
  match fuel with
  | O => no_fuel
  | S fuel =>
      v ← gets (fun s => mget (table s) idx);
      if v =? 0 then
        _ ← modify (upd_table (fun t => mset t idx new_v));
        mret 1
      else
        let idx := next_idx idx in
        if idx =? last then
          let i := i + 1 in
          th ← gets threshold;
          _ ← (if i =? th then modify (set_threshold (th + 1)) else mret tt);
          let hash_rehash := add64 hash_rehash step in
          m ← gets mask;
          let idx := N.land hash_rehash m in
          rehash_loop fuel new_v step idx idx i hash_rehash
        else rehash_loop fuel new_v step idx last i hash_rehash
  end.

Definition llmsset_rehash_bucket (d_idx : N) : prog llmsset N :=
  s ← gets id;
  let '(a, b) := data_at s d_idx in
  h ← (if is_custom_bucket s d_idx then
         match custom s with
         | None => exit NullCall
         | Some f => mret (key_hash (Some f) a b)
         end
       else mret (key_hash None a b));
  let new_v := N.lor (N.land h MASK_HASH) d_idx in
  let idx := N.land h (mask s) in
  rehash_loop (S (N.to_nat (table_size s))) new_v (probe_step h) idx idx 0 h.

(** [llmsset_clear_data]: the ownership and data bitmaps are zeroed, positions 0 and 1 are
    forbidden again, and every worker forgets its region. *)
Definition llmsset_clear_data (s : llmsset) : llmsset :=
  llmsset_reset_region
    (upd_bitmap2 (fun _ => mset ∅ 0 0xc000000000000000) (upd_bitmap1 (fun _ => ∅) s)).

Definition llmsset_clear_hashes (s : llmsset) : llmsset := upd_table (fun _ => ∅) s.

Definition llmsset_clear (s : llmsset) : llmsset :=
  llmsset_clear_hashes (llmsset_clear_data s).

Definition llmsset_is_marked (s : llmsset) (index : N) : bool := bm_get (bitmap2 s) index.

Definition llmsset_mark (index : N) : prog llmsset bool :=
  s ← gets id;
  if bm_get (bitmap2 s) index then mret false
  else
    _ ← modify (upd_bitmap2 (fun bm => bm_set bm index));
    mret true.

(** The sequential part of [llmsset_rehash_par]: the marked buckets among the next [n],
    starting at [k], are rehashed; the result counts those that could not be. *)
Fixpoint rehash_range (n : nat) (k : N) : prog llmsset N :=
  match n with
  | O => mret 0
  | S n =>
      s ← gets id;
      bad ← (if bm_get (bitmap2 s) k then
               r ← llmsset_rehash_bucket k;
               mret (if r =? 0 then 1 else 0)
             else mret 0);
      rest ← rehash_range n (k + 1);
      mret (bad + rest)
  end.

(** The first half is spawned and runs at the sync, after the second half. *)
Fixpoint llmsset_rehash_par (fuel : nat) (first count : N) : prog llmsset N :=
  match fuel with
  | O => no_fuel
  | S fuel =>
      if 512 <? count then
        bad ← llmsset_rehash_par fuel (first + count / 2) (count - count / 2);
        r ← llmsset_rehash_par fuel first (count / 2);
        mret (bad + r)
      else rehash_range (N.to_nat count) first
  end.

Definition llmsset_rehash : prog llmsset N :=
  s ← gets id;
  llmsset_rehash_par 64 0 (table_size s).

Fixpoint count_range (n : nat) (bm : gmap N N) (k : N) : N :=
  match n with
  | O => 0
  | S n => (if bm_get bm k then 1 else 0) + count_range n bm (k + 1)
  end.

Fixpoint llmsset_count_marked_par (fuel : nat) (bm : gmap N N) (first count : N) : option N :=
  match fuel with
  | O => None
  | S fuel =>
      if 512 <? count then
        let split := count / 2 in
        right ← llmsset_count_marked_par fuel bm (first + split) (count - split);
        left ← llmsset_count_marked_par fuel bm first split;
        Some (left + right)
      else if count =? 512 then
        Some (foldr (fun i acc => popcount (mget bm (first / 64 + i)) + acc) 0
                [0; 1; 2; 3; 4; 5; 6; 7])
      else Some (count_range (N.to_nat count) bm first)
  end.

Definition llmsset_count_marked (s : llmsset) : option N :=
  llmsset_count_marked_par 64 (bitmap2 s) 0 (table_size s).

(** The sequential part of [llmsset_destroy_par]: the custom flag of every unmarked bucket
    is dropped (the destroy callback frees memory the table does not hold). *)
Fixpoint destroy_range (n : nat) (k : N) (s : llmsset) : llmsset :=
  match n with
  | O => s
  | S n =>
      let s := if negb (bm_get (bitmap2 s) k) && bm_get (bitmapc s) k
               then set_custom_bucket k false s else s in
      destroy_range n (k + 1) s
  end.

Fixpoint llmsset_destroy_par (fuel : nat) (first count : N) (s : llmsset) : option llmsset :=
  match fuel with
  | O => None
  | S fuel =>
      if 1024 <? count then
        let split := count / 2 in
        s ← llmsset_destroy_par fuel (first + split) (count - split) s;
        llmsset_destroy_par fuel first split s
      else Some (destroy_range (N.to_nat count) first s)
  end.

Definition llmsset_destroy_unmarked (s : llmsset) : option llmsset :=
  match custom s with
  | None => Some s
  | Some _ => llmsset_destroy_par 64 0 (table_size s) s
  end.

Definition llmsset_set_custom (f : callbacks) (s : llmsset) : llmsset :=
  mk_llmsset (table s) (data s) (bitmap1 s) (bitmap2 s) (bitmapc s) (max_size s)
    (table_size s) (mask s) (threshold s) (Some f) (my_region s) (my_worker_id s)
    (lace_n_workers_id s).

(** [llmsset_create]: [None] is the [exit(1)] on a bad size.  The thread-local words are those
    of a worker that starts with no region. *)
Definition llmsset_create (initial_size max_size worker_id n_workers : N) : option llmsset :=
  if negb (popcount initial_size =? 1) then None
  else if negb (popcount max_size =? 1) then None
  else if max_size <? initial_size then None
  else if initial_size <? 512 then None
  else
    let s := mk_llmsset ∅ ∅ ∅ ∅ ∅ max_size 0 0 0 None minus1_64 worker_id n_workers in
    Some (upd_bitmap2 (fun bm => mset bm 0 0xc000000000000000)
            (llmsset_set_size s initial_size)).

End LLMSSet.
