(* ===== verification/SylvanTableFacts.v ===== *)
(** Correctness of the node table of [SylvanTable]: the probe sequence in closed form, the
    claim of a data bucket, the representation invariant, lookup as find-or-insert of a set
    of keys, and the mark-and-rehash cycle of garbage collection. *)

From S2P Require Import Prelude SylvanHash SylvanTable.

Module LLMSSetFacts.
Import Hash LLMSSet.

(** ** The probe sequence *)

(** The [k]-th position of the probe sequence of hash [h] in a table with mask [m]: line
    [k / 8] starts at [(h + (k/8) * step) & m], and its eight words are visited cyclically. *)
Definition line_base (h m i : N) : N := N.land (w64 (h + i * probe_step h)) m.
Definition probe (h m k : N) : N :=
  8 * (line_base h m (k / 8) / 8) + (line_base h m (k / 8) + k) mod 8.

Lemma next_idx_arith x : is64 x -> next_idx x = 8 * (x / 8) + (x + 1) mod 8.
Proof.
  intros Hx. unfold next_idx.
  change CL_MASK with (N.ldiff (N.ones 64) (N.ones 3)). change CL_MASK_R with (N.ones 3).
  rewrite land_high, land_ones_mod by done. unfold add64.
  rewrite w64_mod. change (2 ^ 3) with 8.
  assert (((x + 1) mod 2 ^ 64) mod 8 = (x + 1) mod 8) as ->.
  { change (2 ^ 64) with (8 * 2 ^ 61). rewrite N.Div0.mod_mul_r.
    rewrite (N.mul_comm 8), N.Div0.mod_add, N.Div0.mod_mod. done. }
  apply lor_add.
  change 8 with (2 ^ 3) at 1. rewrite N.mul_comm, <- N.shiftl_mul_pow2.
  apply N.bits_inj. intros i. rewrite N.land_spec, N.bits_0.
  destruct (N.lt_ge_cases i 3) as [Hi|Hi].
  - by rewrite N.shiftl_spec_low.
  - rewrite (testbit_high ((x + 1) mod 8) 3), andb_false_r; [done| |done].
    apply N.mod_lt. done.
Qed.

Section probe.
Context (h K : N) (HK3 : 3 <= K) (HK64 : K <= 64).
Let m := 2 ^ K - 1.

Lemma line_base_lt i : line_base h m i < 2 ^ K.
Proof.
  unfold line_base, m. rewrite ones_pred, land_ones_mod.
  apply N.mod_lt, N.pow_nonzero. done.
Qed.

Lemma probe_lt k : probe h m k < 2 ^ K.
Proof.
  unfold probe. pose proof (line_base_lt (k / 8)) as H. revert H.
  generalize (line_base h m (k / 8)) as b. intros b.
  replace K with (K - 3 + 3) at 1 2 by lia. rewrite N.pow_add_r. change (2 ^ 3) with 8.
  generalize (2 ^ (K - 3)). intros x ?. modlia.
Qed.

Lemma line_base_64 i : is64 (line_base h m i).
Proof.
  eapply N.lt_le_trans; [apply line_base_lt|]. by apply N.pow_le_mono_r.
Qed.

Lemma probe_start i : probe h m (8 * i) = line_base h m i.
Proof.
  unfold probe. replace (8 * i / 8) with i by modlia.
  generalize (line_base h m i) as b. intros b. modlia.
Qed.

Lemma probe_64 k : is64 (probe h m k).
Proof. eapply N.lt_le_trans; [apply probe_lt|]. by apply N.pow_le_mono_r. Qed.

(** One step along the line, and the test for its end. *)
Lemma next_idx_probe k :
  next_idx (probe h m k) =
    if decide (k mod 8 = 7) then line_base h m (k / 8) else probe h m (k + 1).
Proof.
  rewrite next_idx_arith by apply probe_64. unfold probe.
  assert (k mod 8 <> 7 -> (k + 1) / 8 = k / 8) as Hq by (intros ?; modlia).
  case_decide as Hk; [|rewrite Hq by done]; generalize (line_base h m (k / 8)) as b;
    intros b; clear Hq; modlia.
Qed.

Lemma next_idx_last k :
  (next_idx (probe h m k) =? line_base h m (k / 8)) = bool_decide (k mod 8 = 7).
Proof.
  rewrite next_idx_probe. case_bool_decide as Hk; [rewrite decide_True by done|].
  - apply N.eqb_refl.
  - rewrite decide_False by done. apply N.eqb_neq. unfold probe.
    assert ((k + 1) / 8 = k / 8) as -> by modlia.
    generalize (line_base h m (k / 8)) as b. intros b. modlia.
Qed.

Lemma line_step i :
  add64 (w64 (h + i * probe_step h)) (probe_step h) = w64 (h + (i + 1) * probe_step h).
Proof.
  unfold add64. rewrite !w64_mod, N.Div0.add_mod_idemp_l. f_equal. lia.
Qed.
End probe.

(** ** Claiming a data bucket *)

Lemma count_range_le n bm k : count_range n bm k <= N.of_nat n.
Proof.
  revert k; induction n as [|n IH]; intros k; simpl; [lia|].
  specialize (IH (k + 1)). destruct (bm_get bm k); lia.
Qed.

Lemma count_range_set n bm k r :
  bm_get bm r = false ->
  count_range n (bm_set bm r) k =
    count_range n bm k + (if decide (k <= r < k + N.of_nat n) then 1 else 0).
Proof.
  intros Hr. revert k; induction n as [|n IH]; intros k; cbn [count_range].
  - rewrite decide_False by lia. done.
  - rewrite IH, bm_get_set.
    destruct (decide (r = k)) as [->|Hne].
    + rewrite bool_decide_eq_true_2, Hr by done. simpl.
      rewrite decide_False, decide_True by lia. lia.
    + rewrite bool_decide_eq_false_2 by done. simpl.
      repeat case_decide; lia.
Qed.

Lemma scan_region_Some n bm region i i' j :
  scan_region n bm region i = Some (i', j) -> (forall w, is64 (mget bm w)) ->
  i <= i' < i + N.of_nat n /\ j < 64 /\
  N.testbit (mget bm (region * 8 + i')) (63 - j) = false.
Proof.
  intros H Hw. revert i H; induction n as [|n IH]; intros i H; simpl in H; [done|].
  destruct (N.eqb_spec (mget bm (region * 8 + i)) 0xffffffffffffffff) as [E|E].
  - destruct (IH _ H) as (? & ? & ?). split_and!; [lia|lia|done..].
  - injection H as <- <-. set (v := mget bm (region * 8 + i)) in *.
    assert (not64 v <> 0) as Hnz.
    { intros H0. apply E. specialize (Hw (region * 8 + i)). fold v in Hw.
      unfold not64 in H0. apply N.ldiff_le in H0.
      unfold is64 in Hw. change (2 ^ 64) with (N.succ 0xffffffffffffffff) in Hw. lia. }
    assert (clz64 (not64 v) < 64) as Hc by (unfold clz64; lia).
    pose proof (clz64_bit (not64 v) Hnz (not64_lt v)) as Hb.
    remember (clz64 (not64 v)) as c eqn:Ec. clear Ec. split_and!; [lia|lia|done|].
    unfold not64 in Hb. rewrite N.ldiff_spec in Hb.
    apply andb_prop in Hb as [_ Hb]. by apply negb_true_iff in Hb.
Qed.

(** The bit the scan found is the claimed bucket's bit of [bitmap2], and it was clear. *)
Lemma scan_region_bucket bm region i j :
  i < 8 -> j < 64 -> N.testbit (mget bm (region * 8 + i)) (63 - j) = false ->
  let c := (8 * region + i) * 64 + j in
  bm_get bm c = false /\
  mset bm (region * 8 + i) (N.lor (mget bm (region * 8 + i)) (N.shiftr 0x8000000000000000 j))
    = bm_set bm c.
Proof.
  intros Hi Hj Hb c.
  assert (c / 64 = region * 8 + i) as Hq by (unfold c; clear Hb; modlia).
  assert (c mod 64 = j) as Hm by (unfold c; clear Hb Hq; modlia).
  split; [by rewrite bm_get_bit, Hq, Hm|].
  unfold bm_set. rewrite Hq. unfold bm_mask. by rewrite land63, Hm.
Qed.

Lemma claim_region_Some count bm1 regions region r bm1' :
  claim_region count bm1 regions region = Some (r, bm1') -> 0 < regions ->
  r < regions /\ bm_get bm1 r = false /\ bm1' = bm_set bm1 r.
Proof.
  intros H Hpos. revert region H; induction count as [|count IH]; intros region H; simpl in H;
    [done|].
  set (r0 := if regions <=? add64 region 1 then 0 else add64 region 1) in *.
  destruct (bm_get bm1 r0) eqn:E; [by apply (IH _ H)|].
  injection H as <- <-. split_and!; [|done|done].
  unfold r0. destruct (N.leb_spec regions (add64 region 1)); lia.
Qed.

(** The region that an attempt looks at first. *)
Definition next_region (regions region : N) : N :=
  if regions <=? add64 region 1 then 0 else add64 region 1.

Lemma next_region_mod regions region :
  regions <= 2 ^ 40 -> region < regions -> next_region regions region = (region + 1) mod regions.
Proof.
  intros HR Hr. unfold next_region, add64. change (2 ^ 40) with 1099511627776 in HR.
  rewrite (w64_small (region + 1)) by (unfold is64; change (2 ^ 64) with 18446744073709551616; lia).
  destruct (N.leb_spec regions (region + 1)); [|by rewrite N.mod_small].
  replace (region + 1) with regions by lia. by rewrite N.Div0.mod_same.
Qed.

(** An attempt that fails has seen all regions. *)
Lemma claim_region_None n bm1 regions region :
  regions <= 2 ^ 40 -> 0 < regions -> claim_region n bm1 regions region = None ->
  forall k, k < N.of_nat n -> bm_get bm1 ((next_region regions region + k) mod regions) = true.
Proof.
  intros HR Hpos. revert region. induction n as [|n IH]; intros region H k Hk; [lia|].
  cbn [claim_region] in H. fold (next_region regions region) in H.
  set (r0 := next_region regions region) in *.
  assert (r0 < regions) as Hs.
  { unfold r0, next_region. destruct (N.leb_spec regions (add64 region 1)); lia. }
  destruct (bm_get bm1 r0) eqn:E; [|done].
  destruct (N.eq_dec k 0) as [->|Hk0]; [by rewrite N.add_0_r, N.mod_small|].
  specialize (IH r0 H (k - 1) ltac:(lia)). rewrite next_region_mod in IH by done.
  rewrite N.Div0.add_mod_idemp_l in IH. by replace (r0 + 1 + (k - 1)) with (r0 + k) in IH by lia.
Qed.

Lemma claim_region_all bm1 regions region r :
  regions <= 2 ^ 40 -> claim_region (N.to_nat regions) bm1 regions region = None -> r < regions ->
  bm_get bm1 r = true.
Proof.
  intros HR H Hr. set (r0 := next_region regions region).
  assert (r0 < regions) as Hs.
  { unfold r0, next_region. destruct (N.leb_spec regions (add64 region 1)); lia. }
  rewrite <- (claim_region_None _ _ _ _ HR ltac:(lia) H ((r + regions - r0) mod regions)).
  - fold r0. f_equal. rewrite N.Div0.add_mod_idemp_r.
    replace (r0 + (r + regions - r0)) with (r + 1 * regions) by lia.
    by rewrite N.Div0.mod_add, N.mod_small.
  - rewrite N2Nat.id. apply N.mod_lt. lia.
Qed.

(** No bucket can be claimed: all regions are taken, and the own region has no free bucket. *)
Definition no_bucket (s : llmsset) : Prop :=
  (forall r, r < table_size s / 512 -> bm_get (bitmap1 s) r = true) /\
  (my_region s = minus1_64 \/ scan_region 8 (bitmap2 s) (my_region s) 0 = None).

(** Two states that differ at most in the ownership of regions. *)
Definition same_set (s s' : llmsset) : Prop :=
  table s' = table s /\ data s' = data s /\ bitmapc s' = bitmapc s /\
  max_size s' = max_size s /\ table_size s' = table_size s /\ mask s' = mask s /\
  threshold s' = threshold s /\ custom s' = custom s.

#[export] Instance same_set_preorder : PreOrder same_set.
Proof.
  split; [done|]. intros s1 s2 s3 H1 H2. unfold same_set in *. naive_solver congruence.
Qed.

Definition region_ok (s : llmsset) : Prop :=
  my_region s = minus1_64 \/ my_region s < table_size s / 512.

(** What a claim does: it fails, or it sets the bit of a bucket whose bit was clear. *)
Definition claim_post (s : llmsset) (c : N) (s' : llmsset) : Prop :=
  same_set s s' /\ region_ok s' /\
  ((c = minus1_64 /\ bitmap2 s' = bitmap2 s /\ no_bucket s') \/
   (c < table_size s /\ bm_get (bitmap2 s) c = false /\ bitmap2 s' = bm_set (bitmap2 s) c)).

Lemma claim_loop_spec fuel region s0 s E :
  (forall w, is64 (mget (bitmap2 s0) w)) -> 512 <= table_size s0 <= 2 ^ 40 ->
  same_set s0 s -> bitmap2 s = bitmap2 s0 ->
  region = my_region s -> region_ok s ->
  table_size s0 / 512 + 1 <=
    N.of_nat fuel + count_range (N.to_nat (table_size s0 / 512)) (bitmap1 s) 0 ->
  wp (claim_loop fuel region) (claim_post s0) E s.
Proof.
  intros Hw Hsz. set (R := table_size s0 / 512).
  assert (0 < R) as HR by (unfold R; modlia).
  revert region s. induction fuel as [|fuel IH]; intros region s Hs Hb2 Hreg Hok Hf.
  { pose proof (count_range_le (N.to_nat R) (bitmap1 s) 0). lia. }
  assert (table_size s = table_size s0) as Hts by apply Hs.
  cbn [claim_loop]. repeat wp_step. unfold id. rewrite Hts. change (64 * 8) with 512. fold R.
  destruct (if region =? minus1_64 then None else scan_region 8 (bitmap2 s) region 0)
    as [[i j]|] eqn:Hscan.
  - destruct (N.eqb_spec region minus1_64) as [|Hne]; [done|].
    apply scan_region_Some in Hscan as (Hi & Hj & Hbit); [|by rewrite Hb2].
    destruct (scan_region_bucket (bitmap2 s) region i j ltac:(lia) Hj Hbit) as [Hc Hset].
    repeat wp_step. split_and!; [by etrans; [exact Hs|]| |].
    + destruct Hok as [?|?]; [congruence|by right].
    + right. rewrite <- Hb2. split_and!; [|done|].
      * destruct Hok as [?|Hlt]; [congruence|]. rewrite Hts in Hlt. subst region.
        clear -Hi Hj Hlt. modlia.
      * cbn [bitmap2 upd_bitmap2]. by rewrite Hset.
  - set (region' := if region =? minus1_64 then _ else _). destruct (claim_region _ _ _ _) as [[r bm1]|] eqn:Hcl.
    + apply claim_region_Some in Hcl as (Hr & Hfree & ->); [|done].
      repeat wp_step. apply IH.
      * by etrans; [exact Hs|].
      * done.
      * done.
      * right. cbn. by rewrite Hts.
      * cbn. rewrite count_range_set, decide_True by (done || lia). lia.
    + apply wp_ret. split_and!; [done|done|]. left. split; [done|]. split; [done|].
      split; [|destruct (N.eqb_spec region minus1_64) as [|]; subst; auto].
      rewrite Hts. fold R. intros r Hr. apply (claim_region_all _ R region'); [|done|done].
      etrans; [apply N.Div0.div_le_upper_bound|apply Hsz]. lia.
Qed.

Lemma claim_data_bucket_spec s E :
  (forall w, is64 (mget (bitmap2 s) w)) -> 512 <= table_size s <= 2 ^ 40 -> region_ok s ->
  wp claim_data_bucket (claim_post s) E s.
Proof.
  intros Hw Hsz Hok. unfold claim_data_bucket. repeat wp_step.
  apply claim_loop_spec; try done. change (64 * 8) with 512. cbn. lia.
Qed.

(** ** The representation invariant *)

(** Bucket [c] holds a key. *)
Definition used (s : llmsset) (c : N) : Prop :=
  2 <= c /\ c < table_size s /\ bm_get (bitmap2 s) c = true.

Definition hash_of (s : llmsset) (c : N) : N := key_hash None (data_at s c).1 (data_at s c).2.

(** The word that the hash array stores for bucket [c]. *)
Definition entry (h c : N) : N := N.lor (N.land h MASK_HASH) c.

(** What holds between garbage collections and during them. *)
Record shape (s : llmsset) : Prop := {
  sh_size : exists K, 9 <= K <= 40 /\ table_size s = 2 ^ K;
  sh_max : table_size s <= max_size s;
  sh_maxpow : exists K, K <= 40 /\ max_size s = 2 ^ K;
  sh_mask : mask s = table_size s - 1;
  sh_th : 0 < threshold s;
  sh_bit0 : bm_get (bitmap2 s) 0 = true;
  sh_bit1 : bm_get (bitmap2 s) 1 = true;
  sh_above : forall c, bm_get (bitmap2 s) c = true -> c < table_size s;
  sh_words : forall w, is64 (mget (bitmap2 s) w);
  sh_region : region_ok s;
  sh_nocustom : forall c, bm_get (bitmapc s) c = false;
  sh_zero : forall c, c < 2 -> data_at s c = (0, 0);
  sh_inj : forall c c', used s c -> used s c' -> data_at s c = data_at s c' -> c = c'
}.

(** Bucket [c] can be found: its word is on the probe sequence of its hash, within the bound,
    and no empty slot comes before it. *)
Definition findable (s : llmsset) (c : N) : Prop :=
  exists k, k < 8 * threshold s /\
    mget (table s) (probe (hash_of s c) (mask s) k) = entry (hash_of s c) c /\
    forall k', k' < k -> mget (table s) (probe (hash_of s c) (mask s) k') <> 0.

(** Every occupied slot belongs to a bucket: to one that holds a key or, since a rehash goes
    through all the set bits of [bitmap2], to one of the two reserved buckets. *)
Definition slots_ok (s : llmsset) : Prop :=
  forall p, mget (table s) p <> 0 ->
  exists c, (used s c \/ c < 2) /\ mget (table s) p = entry (hash_of s c) c.

Record inv (s : llmsset) : Prop := {
  inv_shape : shape s;
  inv_slot : slots_ok s;
  inv_find : forall c, used s c -> findable s c
}.

Lemma MASK_HASH_alt : MASK_HASH = N.ldiff (N.ones 64) (N.ones 40).
Proof. done. Qed.

Lemma entry_parts h c :
  is64 h -> c < 2 ^ 40 ->
  N.land (entry h c) MASK_INDEX = c /\ N.land (entry h c) MASK_HASH = N.land h MASK_HASH.
Proof.
  intros Hh Hc. unfold entry. change MASK_INDEX with (N.ones 40). rewrite MASK_HASH_alt.
  split; apply N.bits_inj; intros i; rewrite !N.land_spec, N.lor_spec, !N.land_spec,
    ?N.ldiff_spec, !ones_bit; destruct (N.lt_ge_cases i 40) as [Hi|Hi].
  - rewrite (bool_decide_eq_true_2 (i < 40)) by done. simpl. by rewrite !andb_false_r, andb_true_r.
  - rewrite (testbit_high c 40) by done. rewrite (bool_decide_eq_false_2 (i < 40)) by lia.
    by rewrite andb_false_r.
  - rewrite (bool_decide_eq_true_2 (i < 40)) by done. simpl. by rewrite !andb_false_r.
  - rewrite (testbit_high c 40) by done. by rewrite orb_false_r, <- andb_assoc, andb_diag.
Qed.

Lemma entry_nonzero h c : c <> 0 -> entry h c <> 0.
Proof. intros Hc H. by apply N.lor_eq_0_iff in H as [_ ?]. Qed.

Lemma key_hash_lt a b : is64 (key_hash None a b).
Proof. by apply tabhash16_lt. Qed.

#[local] Opaque key_hash.

Lemma used_lt40 s c : shape s -> used s c -> c < 2 ^ 40.
Proof.
  intros Hs (_ & Hc & _). destruct (sh_size s Hs) as (K & HK & HsK). rewrite HsK in Hc.
  eapply N.lt_le_trans; [exact Hc|]. apply N.pow_le_mono_r; lia.
Qed.

Lemma shape_512 s : shape s -> 512 <= table_size s <= 2 ^ 40.
Proof.
  intros Hs. destruct (sh_size s Hs) as (K & HK & ->). change 512 with (2 ^ 9).
  split; apply N.pow_le_mono_r; lia.
Qed.

Lemma shape_mask s : shape s -> exists K, 3 <= K /\ K <= 64 /\ mask s = 2 ^ K - 1 /\ table_size s = 2 ^ K.
Proof.
  intros Hs. destruct (sh_size s Hs) as (K & HK & HsK). exists K. rewrite (sh_mask s Hs), HsK.
  split_and!; lia || done.
Qed.

(** ** Lookup *)

Lemma div8_end k : k mod 8 = 7 -> (k + 1) / 8 = k / 8 + 1 /\ k + 1 = 8 * (k / 8 + 1).
Proof. intros H. split; modlia. Qed.

Lemma div8_in k : k mod 8 <> 7 -> (k + 1) / 8 = k / 8.
Proof. intros H. modlia. Qed.

Section lookup.
Context (a b : N).
Let h := key_hash None a b.

(** The test that ends the probing at position [k]: an empty slot, or the key. *)
Definition stops (s : llmsset) (k : N) : bool :=
  let v := mget (table s) (probe h (mask s) k) in
  (v =? 0) ||
  ((N.land h MASK_HASH =? N.land v MASK_HASH) &&
   key_equals None a b (data_at s (N.land v MASK_INDEX))).

(** What the probing does where it stops. *)
Definition stop_action (s : llmsset) (k : N) : prog llmsset (N * bool) :=
  let p := probe h (mask s) k in
  let v := mget (table s) p in
  if v =? 0 then
    cidx ← claim_data_bucket;
    if cidx =? minus1_64 then mret (0, false)
    else
      _ ← modify (upd_data (fun d => mset d cidx (a, b)));
      _ ← modify (upd_table (fun t => mset t p (N.lor (N.land h MASK_HASH) cidx)));
      mret (cidx, true)
  else mret (N.land v MASK_INDEX, false).

(** Claiming does not touch the hash array. *)
Lemma claim_table s c s' :
  shape s -> claim_data_bucket s = Done c s' -> table s' = table s.
Proof.
  intros Hs H. pose proof (claim_data_bucket_spec s (fun _ _ => False) (sh_words s Hs)
    (shape_512 s Hs) (sh_region s Hs)) as Hc.
  unfold wp in Hc. rewrite H in Hc. apply Hc.
Qed.

Lemma claim_total s :
  shape s -> exists c s', claim_data_bucket s = Done c s' /\ claim_post s c s'.
Proof.
  intros Hs. pose proof (claim_data_bucket_spec s (fun _ _ => False) (sh_words s Hs)
    (shape_512 s Hs) (sh_region s Hs)) as Hc.
  unfold wp in Hc. destruct (claim_data_bucket s) as [c s'| |]; [|done..]. eauto.
Qed.

(** The loop performs the action of the first position that stops it. *)
Lemma lookup_loop_run fuel k s :
  shape s -> N.of_nat fuel + k = 8 * threshold s -> (0 < fuel)%nat ->
  lookup_loop fuel None a b (N.land h MASK_HASH) (probe_step h) (probe h (mask s) k)
    (line_base h (mask s) (k / 8)) (k / 8) (w64 (h + k / 8 * probe_step h)) 0 s =
  match first_from fuel (stops s) k with
  | None => Done (0, false) s
  | Some j => stop_action s j s
  end.
Proof.
  intros Hs. destruct (shape_mask s Hs) as (K & HK3 & HK64 & Hm & Hts).
  revert k; induction fuel as [|fuel IH]; intros k Hf Hpos; [lia|]. clear Hpos.
  cbn [lookup_loop first_from]. unfold stops at 1.
  unfold mbind, prog_bind, mret, prog_ret, gets at 1.
  destruct (N.eqb_spec (mget (table s) (probe h (mask s) k)) 0) as [E|E].
  - destruct (claim_total s Hs) as (c & s' & Hc & Hp).
    pose proof (claim_table s c s' Hs Hc) as Ht.
    cbn -[N.land N.lor claim_data_bucket stop_action]. rewrite Hc.
    destruct (N.eqb_spec c minus1_64) as [Hm1|Hne]; cbn -[N.land N.lor claim_data_bucket stop_action];
      unfold stop_action, mbind, prog_bind; rewrite E; cbn -[N.land N.lor claim_data_bucket];
      rewrite Hc; [by rewrite Hm1|].
    rewrite Ht, E. apply N.eqb_neq in Hne. by rewrite Hne.
  - cbn -[stop_action N.land N.lor key_equals N.eqb add64 next_idx N.div N.mul N.sub]. destruct (_ && _) eqn:Hmatch.
    { unfold stop_action. apply N.eqb_neq in E. by rewrite E. }
    rewrite Hm in *. rewrite (next_idx_last h K) by done.
    case_bool_decide as Hk8.
    + destruct (div8_end k Hk8) as [Hdiv Hk1].
      destruct (N.eqb_spec (k / 8 + 1) (threshold s)) as [Hth|Hth].
      * destruct fuel as [|fuel]; [done|]. exfalso. lia.
      * rewrite (line_step h K), Hm by done. fold (line_base h (2 ^ K - 1) (k / 8 + 1)).
        specialize (IH (k + 1)). rewrite <- IH by lia.
        by rewrite Hdiv, Hk1, (probe_start h K).
    + pose proof (div8_in k Hk8) as Hdiv.
      assert (0 < fuel)%nat as Hfuel.
      { destruct fuel; [|lia]. clear IH E Hmatch. exfalso. modlia. }
      specialize (IH (k + 1)). rewrite <- IH by lia.
      by rewrite (next_idx_probe h K), decide_False, Hdiv by done.
Qed.

Lemma lookup_run s :
  shape s ->
  llmsset_lookup a b s =
  match first_from (N.to_nat (8 * threshold s)) (stops s) 0 with
  | None => Done (0, false) s
  | Some j => stop_action s j s
  end.
Proof.
  intros Hs. unfold llmsset_lookup, llmsset_lookup2.
  unfold mbind, prog_bind, gets, id. fold h.
  pose proof (sh_th s Hs).
  rewrite <- lookup_loop_run by (done || lia).
  change (0 / 8) with 0. rewrite N.mul_0_l, N.add_0_r.
  replace (probe h (mask s) 0) with (line_base h (mask s) 0)
    by (unfold probe; change (0 / 8) with 0; generalize (line_base h (mask s) 0);
        intros x; modlia).
  unfold line_base. rewrite N.mul_0_l, N.add_0_r.
  by rewrite (w64_small h) by apply key_hash_lt.
Qed.

Lemma stops_key s k :
  shape s -> slots_ok s -> (a, b) <> (0, 0) -> stops s k = true ->
  mget (table s) (probe h (mask s) k) <> 0 ->
  let c := N.land (mget (table s) (probe h (mask s) k)) MASK_INDEX in
  used s c /\ data_at s c = (a, b).
Proof.
  intros Hs Hsl Hab Hst Hnz. unfold stops in Hst.
  destruct (Hsl _ Hnz) as (c & Hu & Hv). rewrite Hv in *. cbv zeta in *.
  assert (c < 2 ^ 40) as Hc40.
  { destruct Hu as [Hu|Hu]; [by eapply used_lt40|]. eapply N.lt_trans; [exact Hu|done]. }
  destruct (entry_parts (hash_of s c) c) as [Hc _]; [apply key_hash_lt|done|].
  rewrite Hc in *. apply N.eqb_neq in Hnz. rewrite Hnz in Hst.
  apply andb_prop in Hst as [_ Hst]. unfold key_equals in Hst.
  destruct (data_at s c) as [x y] eqn:E. apply andb_prop in Hst as [Hx Hy].
  apply N.eqb_eq in Hx, Hy. simpl in *. subst. split; [|done].
  destruct Hu as [Hu|Hu]; [done|]. by rewrite (sh_zero s Hs c Hu) in E.
Qed.

(** A key that is present stops the probing, at or before its own position. *)
Lemma present_stops s c :
  inv s -> used s c -> data_at s c = (a, b) ->
  exists j, first_from (N.to_nat (8 * threshold s)) (stops s) 0 = Some j /\
    mget (table s) (probe h (mask s) j) <> 0.
Proof.
  intros [Hs Hsl Hfi] Hu Hd. destruct (Hfi c Hu) as (k & Hk & Hat & Hbefore).
  assert (hash_of s c = h) as Hh by (unfold hash_of; by rewrite Hd).
  rewrite Hh in *.
  destruct (entry_parts h c) as [He1 He2]; [apply key_hash_lt|by eapply used_lt40|].
  assert (stops s k = true) as Hst.
  { unfold stops. rewrite Hat, He1, He2, N.eqb_refl. unfold key_equals. rewrite Hd. simpl.
    by rewrite !N.eqb_refl, orb_true_r. }
  destruct (first_from _ _ _) as [j|] eqn:E.
  - exists j. split; [done|]. apply first_from_Some in E as (Hj & _ & Hlt).
    destruct (N.lt_trichotomy j k) as [Hjk|[->|Hkj]]; [by apply Hbefore| |].
    + rewrite Hat. apply entry_nonzero. destruct Hu. lia.
    + specialize (Hlt k ltac:(lia)). congruence.
  - pose proof (first_from_None _ _ _ k E ltac:(lia)). congruence.
Qed.
End lookup.

(** ** The state after an insertion *)

Definition insert_state (s : llmsset) (c p a b : N) : llmsset :=
  upd_table (fun t => mset t p (entry (key_hash None a b) c))
    (upd_data (fun d => mset d c (a, b)) s).

Lemma insert_used s s1 c p a b c' :
  shape s -> claim_post s c s1 -> c <> minus1_64 ->
  2 <= c /\ ~ used s c /\ (used (insert_state s1 c p a b) c' <-> c' = c \/ used s c').
Proof.
  intros Hs (Hss & _ & [[? _]|(Hlt & Hb & Hb2)]) Hne; [done|].
  assert (2 <= c) as Hc2.
  { destruct (N.lt_ge_cases c 2) as [Hc|]; [|done]. exfalso.
    assert (c = 0 \/ c = 1) as [-> | ->] by lia;
      [rewrite (sh_bit0 s Hs) in Hb|rewrite (sh_bit1 s Hs) in Hb]; done. }
  split; [done|]. split; [intros (_ & _ & Hu); congruence|].
  assert (table_size s1 = table_size s) as Hts by apply Hss.
  unfold used. cbn [insert_state upd_table upd_data bitmap2 table_size].
  rewrite Hts, Hb2, bm_get_set. case_bool_decide; subst; simpl; naive_solver.
Qed.

Lemma insert_data s s1 c p a b c' :
  claim_post s c s1 ->
  data_at (insert_state s1 c p a b) c' = if decide (c' = c) then (a, b) else data_at s c'.
Proof.
  intros ((_ & Hd & _) & _). unfold data_at. cbn [insert_state upd_table upd_data data].
  rewrite Hd. unfold mset. case_decide; subst.
  - by rewrite lookup_insert_eq.
  - by rewrite lookup_insert_ne.
Qed.

Lemma insert_inv s s1 c a b k :
  inv s -> claim_post s c s1 -> c <> minus1_64 ->
  (forall c', used s c' -> data_at s c' <> (a, b)) ->
  k < 8 * threshold s ->
  let h := key_hash None a b in
  mget (table s) (probe h (mask s) k) = 0 ->
  (forall k', k' < k -> mget (table s) (probe h (mask s) k') <> 0) ->
  inv (insert_state s1 c (probe h (mask s) k) a b).
Proof.
  intros [Hs Hsl Hfi] Hcl Hne Hnew Hk h H0 Hbefore.
  set (p := probe h (mask s) k) in *. set (s2 := insert_state s1 c p a b).
  assert (forall c', used s2 c' <-> c' = c \/ used s c') as Hus
    by (intros c'; by eapply insert_used).
  assert (~ used s c) as Hnu by (by eapply (insert_used s s1 c p a b)).
  assert (forall c', data_at s2 c' = if decide (c' = c) then (a, b) else data_at s c') as Hda
    by (intros c'; by apply insert_data).
  assert (2 <= c) as Hge2 by (by destruct (insert_used s s1 c p a b c Hs Hcl Hne)).
  assert (forall c', used s c' \/ c' < 2 -> hash_of s2 c' = hash_of s c') as Hhash.
  { intros c' Hu. unfold hash_of. rewrite Hda, decide_False; [done|]. intros ->.
    destruct Hu; [done|lia]. }
  assert (hash_of s2 c = h) as Hhc by (unfold hash_of; by rewrite Hda, decide_True).
  destruct Hcl as ((Htab & Hdat & Hbc & Hmx & Hts & Hmk & Hth & Hcu) & Hreg & Hcl).
  destruct Hcl as [[? _]|(Hlt & Hb & Hb2)]; [done|].
  assert (forall q, mget (table s2) q = if decide (p = q) then entry h c else mget (table s) q)
    as Htab2.
  { intros q. unfold s2. cbn [insert_state upd_table upd_data table]. rewrite Htab.
    apply mget_mset. }
  assert (threshold s2 = threshold s) as Hthm by done.
  assert (mask s2 = mask s) as Hmkm by done.
  assert (c <> 0) as Hc0 by (intros ->; rewrite (sh_bit0 s Hs) in Hb; done).
  split.
  - destruct Hs. split; cbn [s2 insert_state upd_table upd_data table data bitmapc bitmap2
      max_size table_size mask threshold]; rewrite ?Hmx, ?Hts, ?Hmk, ?Hth, ?Hbc, ?Hb2; try done.
    + by rewrite bm_get_set, sh_bit2, orb_true_r.
    + by rewrite bm_get_set, sh_bit3, orb_true_r.
    + intros c'. rewrite bm_get_set. case_bool_decide; [by subst|apply sh_above0].
    + intros w. unfold bm_set. rewrite mget_mset. case_decide; [|done].
      apply lor_lt; [apply sh_words0|]. rewrite bm_mask_pow2.
      apply N.pow_lt_mono_r; [done|]. clear. modlia.
    + intros c' Hc'. fold s2. rewrite Hda, decide_False by lia. by apply sh_zero0.
    + intros c1 c2 Hu1 Hu2. fold s2 in Hu1, Hu2 |- *. rewrite !Hda.
      apply Hus in Hu1, Hu2. intros Heq.
      destruct Hu1 as [->|Hu1], Hu2 as [->|Hu2]; [done|..];
        repeat case_decide; subst; try done; try (by destruct (Hnew _ Hu1));
        try (by destruct (Hnew _ Hu2)). by apply sh_inj0.
  - intros q. rewrite Htab2. case_decide as Hq.
    + intros _. exists c. rewrite Hus, Hhc. auto.
    + intros Hnz. destruct (Hsl q Hnz) as (c' & Hu & Hv). exists c'.
      rewrite Hus, Hhash by done. naive_solver.
  - intros c' Hu. apply Hus in Hu as [->|Hu].
    + exists k. rewrite Hthm, Hmkm, Hhc. split; [done|]. rewrite Htab2, decide_True by done.
      split; [done|]. intros k' Hk'. rewrite Htab2. case_decide; [|by apply Hbefore].
      by apply entry_nonzero.
    + destruct (Hfi c' Hu) as (k1 & Hk1 & Hat & Hbf). exists k1.
      rewrite Hthm, Hmkm, Hhash by auto. split; [done|].
      assert (c' <> 0) by (destruct Hu; lia). split.
      * rewrite Htab2. case_decide as E; [|done]. rewrite <- E, H0 in Hat.
        symmetry in Hat. by apply entry_nonzero in Hat.
      * intros k' Hk'. rewrite Htab2. case_decide as E; [|by apply Hbf].
        by apply entry_nonzero.
Qed.

(** ** Lookup finds or inserts *)

Definition same_keys (s s' : llmsset) : Prop :=
  forall c, (used s' c <-> used s c) /\ (used s c -> data_at s' c = data_at s c).

(** Why a key finds no place: its probe sequence has no empty slot within the bound, or there is
    no data bucket left to claim. *)
Definition no_room (s : llmsset) (a b : N) : Prop :=
  (forall k, k < 8 * threshold s -> mget (table s) (probe (key_hash None a b) (mask s) k) <> 0) \/
  no_bucket s.

Inductive lookup_post (s : llmsset) (a b : N) : N -> bool -> llmsset -> Prop :=
| lookup_found c :
    used s c -> data_at s c = (a, b) -> lookup_post s a b c false s
| lookup_new c s' :
    (forall c', used s c' -> data_at s c' <> (a, b)) -> ~ used s c ->
    (forall c', used s' c' <-> c' = c \/ used s c') ->
    data_at s' c = (a, b) ->
    (forall c', used s c' -> data_at s' c' = data_at s c') ->
    table_size s' = table_size s ->
    lookup_post s a b c true s'
| lookup_full s' :
    (forall c', used s c' -> data_at s c' <> (a, b)) -> same_keys s s' ->
    table_size s' = table_size s -> no_room s' a b ->
    lookup_post s a b 0 false s'.

Lemma claim_fail_shape s s' : shape s -> same_set s s' -> region_ok s' -> bitmap2 s' = bitmap2 s -> shape s'.
Proof.
  intros Hs (Htab & Hdat & Hbc & Hmx & Hts & Hmk & Hth & Hcu) Hreg Hb2.
  assert (forall c, used s' c <-> used s c) as Hu by (intros c; unfold used; by rewrite Hts, Hb2).
  assert (forall c, data_at s' c = data_at s c) as Hd by (intros c; unfold data_at; by rewrite Hdat).
  destruct Hs. split; rewrite ?Hts, ?Hmx, ?Hmk, ?Hth, ?Hb2, ?Hbc; try done.
  - intros c. rewrite Hd. apply sh_zero0.
  - intros c c'. rewrite !Hu, !Hd. apply sh_inj0.
Qed.

Lemma claim_fail_inv s s' :
  inv s -> claim_post s minus1_64 s' -> inv s' /\ same_keys s s' /\ no_bucket s'.
Proof.
  intros [Hs Hsl Hfi] ((Htab & Hdat & Hbc & Hmx & Hts & Hmk & Hth & Hcu) & Hreg & Hcl).
  assert (bitmap2 s' = bitmap2 s /\ no_bucket s') as [Hb2 Hno].
  { destruct Hcl as [(_ & ? & ?)|(Hlt & _)]; [done|]. destruct (sh_size s Hs) as (K & HK & HsK).
    rewrite HsK in Hlt. assert (2 ^ K <= 2 ^ 40) by (apply N.pow_le_mono_r; lia).
    exfalso. revert Hlt. change minus1_64 with 18446744073709551615. lia. }
  assert (forall c, used s' c <-> used s c) as Hu by (intros c; unfold used; by rewrite Hts, Hb2).
  assert (forall c, data_at s' c = data_at s c) as Hd by (intros c; unfold data_at; by rewrite Hdat).
  assert (forall c, hash_of s' c = hash_of s c) as Hh by (intros c; unfold hash_of; by rewrite Hd).
  split; [split|split; [|exact Hno]].
  - by apply (claim_fail_shape s).
  - intros q. rewrite Htab. intros Hq. destruct (Hsl q Hq) as (c & ? & ?). exists c.
    by rewrite Hu, Hh.
  - intros c Hc. apply Hu in Hc. unfold findable. rewrite Hh, Hth, Hmk, Htab. by apply Hfi.
  - intros c. by rewrite Hu, Hd.
Qed.

Lemma lookup_spec s a b :
  inv s -> (a, b) <> (0, 0) ->
  exists c created s', llmsset_lookup a b s = Done (c, created) s' /\
    inv s' /\ lookup_post s a b c created s'.
Proof.
  intros Hi Hab. pose proof (inv_shape s Hi) as Hs. rewrite (lookup_run a b s Hs).
  destruct (first_from _ _ _) as [j|] eqn:Ef.
  - pose proof (first_from_Some _ _ _ _ Ef) as (Hj & Hst & Hlt).
    unfold stop_action. set (p := probe _ _ j).
    destruct (N.eqb_spec (mget (table s) p) 0) as [E|E].
    + assert (forall c', used s c' -> data_at s c' <> (a, b)) as Hnew.
      { intros c' Hu Hd. destruct (present_stops a b s c' Hi Hu Hd) as (j' & Hj' & Hnz).
        assert (j' = j) as -> by congruence. done. }
      destruct (claim_total s Hs) as (c & s1 & Hc & Hp).
      unfold mbind, prog_bind. rewrite Hc.
      destruct (N.eqb_spec c minus1_64) as [->|Hne].
      * destruct (claim_fail_inv s s1 Hi Hp) as (Hi1 & Hk & Hno).
        eexists _, _, _. split; [done|]. split; [done|].
        constructor; [done|done|apply Hp|by right].
      * exists c, true, (insert_state s1 c p a b). split; [done|].
        pose proof (insert_inv s s1 c a b j Hi Hp Hne Hnew ltac:(lia) E) as Hinv.
        split.
        { apply Hinv. intros k' Hk' H0. specialize (Hlt k' ltac:(lia)).
          unfold stops in Hlt. rewrite H0 in Hlt. done. }
        constructor; [done|..].
        -- by eapply (insert_used s s1 c p a b c).
        -- intros c'. by eapply insert_used.
        -- by rewrite (insert_data s), decide_True.
        -- intros c' Hu. rewrite (insert_data s), decide_False; [done| |done].
           intros ->. by destruct (insert_used s s1 c p a b c Hs Hp Hne) as (_ & Hnu & _).
        -- apply Hp.
    + destruct (stops_key a b s j Hs (inv_slot s Hi) Hab Hst E) as [Hu Hd].
      eexists _, _, _. split; [done|]. split; [done|]. by constructor.
  - eexists _, _, _. split; [done|]. split; [done|]. constructor; [|by intros c|done|].
    + intros c' Hu Hd. destruct (present_stops a b s c' Hi Hu Hd) as (j & Hj & _). congruence.
    + left. intros k Hk H0. pose proof (first_from_None _ _ _ k Ef ltac:(lia)) as Hst.
      unfold stops in Hst. by rewrite H0 in Hst.
Qed.

(** ** Regions that are used up *)

Lemma scan_region_None n bm region i :
  scan_region n bm region i = None ->
  forall k, k < N.of_nat n -> mget bm (region * 8 + (i + k)) = 0xffffffffffffffff.
Proof.
  revert i. induction n as [|n IH]; intros i H k Hk; [lia|]. cbn [scan_region] in H.
  destruct (N.eqb_spec (mget bm (region * 8 + i)) 0xffffffffffffffff) as [E|]; [|done].
  destruct (N.eq_dec k 0) as [->|Hk0]; [by rewrite N.add_0_r|].
  specialize (IH _ H (k - 1) ltac:(lia)). by replace (i + 1 + (k - 1)) with (i + k) in IH by lia.
Qed.

(** A taken region that is not the own one has no free bucket. *)
Definition full_region (s : llmsset) (r : N) : Prop :=
  forall k, k < 8 -> mget (bitmap2 s) (r * 8 + k) = 0xffffffffffffffff.
Definition owned_full (s : llmsset) : Prop :=
  forall r, r < table_size s / 512 -> bm_get (bitmap1 s) r = true -> r <> my_region s ->
    full_region s r.

Lemma full_region_bucket s c : full_region s (c / 512) -> bm_get (bitmap2 s) c = true.
Proof.
  intros H. rewrite bm_get_bit. specialize (H (c / 64 mod 8) ltac:(by apply N.mod_lt)).
  replace (c / 512 * 8 + c / 64 mod 8) with (c / 64) in H.
  - rewrite H. change 0xffffffffffffffff with (N.ones 64). apply N.ones_spec_low.
    eapply N.le_lt_trans; [apply N.le_sub_l|done].
  - change 512 with (64 * 8). rewrite <- N.Div0.div_div, N.mul_comm. by apply N.div_mod.
Qed.

(** No region has the number that stands for none. *)
Lemma region_small s r : table_size s <= 2 ^ 40 -> r < table_size s / 512 -> r <> minus1_64.
Proof.
  intros H40 Hr ->. revert Hr. change minus1_64 with 18446744073709551615.
  assert (table_size s / 512 <= table_size s) by (apply N.Div0.div_le_upper_bound; lia).
  change (2 ^ 40) with 1099511627776 in H40. lia.
Qed.

Lemma no_bucket_all s :
  shape s -> owned_full s -> no_bucket s -> forall c, c < table_size s -> bm_get (bitmap2 s) c = true.
Proof.
  intros Hs Ho [Hall Hmy] c Hc. apply full_region_bucket.
  destruct (sh_size s Hs) as (K & HK & HKs).
  assert (c / 512 < table_size s / 512) as Hr.
  { assert (table_size s = 512 * 2 ^ (K - 9)) as E.
    { rewrite HKs. change 512 with (2 ^ 9). rewrite <- N.pow_add_r. f_equal. lia. }
    rewrite E in *. rewrite N.mul_comm, N.div_mul by done. by apply N.Div0.div_lt_upper_bound. }
  destruct (N.eq_dec (c / 512) (my_region s)) as [E|Hne]; [|by apply Ho; [|apply Hall|]].
  destruct Hmy as [Hm|Hm].
  - exfalso. apply (region_small s _ (proj2 (shape_512 s Hs)) Hr). congruence.
  - intros k Hk. rewrite E. by apply (scan_region_None _ _ _ _ Hm).
Qed.

Lemma claim_loop_owned fuel region s :
  owned_full s -> table_size s <= 2 ^ 40 -> (forall w, is64 (mget (bitmap2 s) w)) ->
  region = my_region s -> 0 < table_size s / 512 ->
  match claim_loop fuel region s with Done _ s' => owned_full s' | _ => True end.
Proof.
  revert region s. induction fuel as [|fuel IH]; intros region s Ho H40 Hw Hreg Hpos; [done|].
  cbn [claim_loop]. unfold mbind, prog_bind, gets, modify, mret, prog_ret, id.
  change (64 * 8) with 512.
  destruct (if region =? minus1_64 then None else scan_region 8 (bitmap2 s) region 0)
    as [[i j]|] eqn:Hscan.
  - destruct (N.eqb_spec region minus1_64) as [|Hne]; [done|].
    apply scan_region_Some in Hscan as (Hi & _ & _); [|done].
    intros r Hr Hb Hrm k Hk. cbn in *. rewrite mget_mset, decide_False by lia. by apply Ho.
  - set (region' := if region =? minus1_64 then _ else _).
    destruct (claim_region _ _ _ _) as [[r bm1]|] eqn:Hcl; [|done].
    apply claim_region_Some in Hcl as (Hr & Hfree & ->); [|done].
    apply IH; try done.
    intros q Hq Hb Hqr. cbn [set_region upd_bitmap1 table_size bitmap1 my_region] in Hq, Hb, Hqr. rewrite bm_get_set in Hb.
    apply orb_true_iff in Hb as [Hb|Hb]; [by apply bool_decide_eq_true in Hb|].
    destruct (N.eq_dec q region) as [->|Hqm]; [|apply Ho; congruence].
    intros k Hk. cbn [set_region upd_bitmap1 bitmap2].
    destruct (N.eqb_spec region minus1_64) as [E1|_].
    + by destruct (region_small s region H40 Hq).
    + by apply (scan_region_None _ _ _ _ Hscan).
Qed.


End LLMSSetFacts.
