(* ===== verification/SylvanTableGC.v ===== *)
(** The garbage-collection cycle of the node table ([llmsset_clear_data], [llmsset_mark],
    [llmsset_set_size], [llmsset_clear_hashes], [llmsset_rehash]): the marked buckets keep
    their keys, every one of them is placed again, and the invariant of [SylvanTableFacts]
    holds at the end. *)

From Stdlib Require Import ZArith Znumtheory Zpow_facts.
From S2P Require Import Prelude SylvanHash SylvanTable SylvanTableFacts.

#[local] Open Scope N_scope.

Module LLMSSetGC.
Import Hash LLMSSet LLMSSetFacts.

#[local] Opaque key_hash.

(** ** The probe sequence visits the whole table *)

Lemma odd_cover (n o h q : Z) :
  (0 <= n)%Z -> Z.odd o = true -> (0 <= q < 2 ^ n)%Z ->
  exists i, (0 <= i < 2 ^ n)%Z /\ ((h + i * o) mod 2 ^ n = q)%Z.
Proof.
  intros Hn Ho Hq.
  assert (rel_prime o (2 ^ n)) as Hrp.
  { apply rel_prime_Zpower_r; [done|]. apply rel_prime_sym, prime_rel_prime; [apply prime_2|].
    intros [z ->]. rewrite Z.odd_mul, andb_false_r in Ho. done. }
  apply rel_prime_bezout in Hrp as [u v Huv].
  assert (0 < 2 ^ n)%Z as Hpos by lia.
  exists (((q - h) * u) mod 2 ^ n)%Z. split; [by apply Z.mod_pos_bound|].
  rewrite Z.add_mod, Z.mul_mod_idemp_l by lia.
  rewrite <- Z.add_mod by lia.
  replace (h + (q - h) * u * o)%Z with (q + (- ((q - h) * v)) * 2 ^ n)%Z.
  - rewrite Z.mod_add by lia. by apply Z.mod_small.
  - replace ((q - h) * u * o)%Z with ((q - h) * (1 - v * 2 ^ n))%Z; [ring|].
    rewrite <- Huv. ring.
Qed.

Lemma probe_step_odd h : is64 h -> exists o, N.odd o = true /\ probe_step h = w64 (8 * o).
Proof.
  intros Hh. exists (N.lor (N.shiftr h 20) 1). split.
  - rewrite <- N.bit0_odd, N.lor_spec. by rewrite orb_true_r.
  - unfold probe_step, shl64. by rewrite N.shiftl_mul_pow2, N.mul_comm.
Qed.

(** Every position of the table is on the first [2^K] positions of the sequence. *)
Lemma probe_cover h K p :
  is64 h -> 3 <= K <= 64 -> p < 2 ^ K -> exists k, k < 2 ^ K /\ probe h (2 ^ K - 1) k = p.
Proof.
  intros Hh HK Hp. destruct (probe_step_odd h Hh) as (o & Ho & Hst).
  set (n := K - 3). assert (2 ^ K = 8 * 2 ^ n) as H2K.
  { unfold n. change 8 with (2 ^ 3). rewrite <- N.pow_add_r. f_equal. lia. }
  destruct (odd_cover (Z.of_N n) (Z.of_N o) (Z.of_N (h / 8)) (Z.of_N (p / 8))) as (i & Hi & Heq).
  - lia.
  - rewrite <- Ho. destruct o as [|[]]; done.
  - rewrite <- (N2Z.inj_pow 2). split; [apply N2Z.is_nonneg|]. apply N2Z.inj_lt.
    rewrite H2K in Hp. by apply N.Div0.div_lt_upper_bound.
  - rewrite <- (Z2N.id i) in Heq, Hi by lia. revert Hi Heq. generalize (Z.to_N i) as j.
    rewrite <- (N2Z.inj_pow 2). intros j Hj Heq.
    rewrite <- N2Z.inj_mul, <- N2Z.inj_add, <- N2Z.inj_mod in Heq.
    apply N2Z.inj in Heq. apply N2Z.inj_lt in Hj || (destruct Hj as [_ Hj]; apply N2Z.inj_lt in Hj).
    assert (line_base h (2 ^ K - 1) j / 8 = p / 8) as Hl.
    { unfold line_base. rewrite ones_pred, land_ones_mod, Hst, !w64_mod.
      rewrite <- N.Div0.add_mod_idemp_r, N.Div0.mul_mod_idemp_r, N.Div0.add_mod_idemp_r.
      assert (forall x, (x mod 2 ^ 64) mod 2 ^ K = x mod 2 ^ K) as ->.
      { intros x. replace (2 ^ 64) with (2 ^ K * 2 ^ (64 - K))
          by (rewrite <- N.pow_add_r; f_equal; lia).
        rewrite N.Div0.mod_mul_r, (N.mul_comm (2 ^ K)), N.Div0.mod_add. apply N.Div0.mod_mod. }
      rewrite H2K, N.Div0.mod_mul_r, (N.mul_comm 8 (_ mod 2 ^ n)), N.div_add by done.
      rewrite (N.div_small (_ mod 8) 8) by (by apply N.mod_lt). rewrite N.add_0_l.
      rewrite <- Heq. f_equal.
      replace (h + j * (8 * o)) with (h + (j * o) * 8) by lia. by rewrite N.div_add. }
    set (b := line_base h (2 ^ K - 1) j) in *.
    exists (8 * j + (p + 8 - b mod 8) mod 8).
    assert ((8 * j + (p + 8 - b mod 8) mod 8) / 8 = j) as Hdiv by (clear; modlia).
    split.
    + rewrite H2K. pose proof (N.mod_lt (p + 8 - b mod 8) 8 ltac:(done)). lia.
    + unfold probe. rewrite Hdiv. fold b. rewrite Hl. clear -Hl. modlia.
Qed.

(** ** Counting occupied slots *)

Fixpoint occ (n : nat) (t : gmap N N) : N :=
  match n with
  | O => 0
  | S n => (if mget t (N.of_nat n) =? 0 then 0 else 1) + occ n t
  end.

Lemma occ_mset n t p v : occ n (mset t p v) <= occ n t + 1 /\
  (N.of_nat n <= p -> occ n (mset t p v) = occ n t).
Proof.
  induction n as [|n [IH1 IH2]]; cbn [occ]; [lia|].
  rewrite mget_mset. case_decide as Hp; [subst p; rewrite IH2 by lia|].
  - split; [|lia]. repeat case_match; lia.
  - split; [lia|]. intros. rewrite IH2; lia.
Qed.

Lemma occ_free n t : occ n t < N.of_nat n -> exists p, p < N.of_nat n /\ mget t p = 0.
Proof.
  induction n as [|n IH]; cbn [occ]; [lia|].
  destruct (N.eqb_spec (mget t (N.of_nat n)) 0) as [E|E]; intros H.
  - exists (N.of_nat n). split; [lia|done].
  - destruct IH as (p & ? & ?); [lia|]. exists p. split; [lia|done].
Qed.

Lemma occ_empty n : occ n ∅ = 0.
Proof. induction n as [|n IH]; cbn [occ]; [done|]. by rewrite mget_empty, IH. Qed.

(** ** Placing one bucket *)

(** Two states that differ at most in the hash array and the probing bound. *)
Definition hashes_differ (s s' : llmsset) : Prop :=
  exists t th, s' = upd_table (fun _ => t) (set_threshold th s).

#[export] Instance hashes_differ_preorder : PreOrder hashes_differ.
Proof.
  split.
  - intros s. exists (table s), (threshold s). by destruct s.
  - intros s1 s2 s3 (t & th & ->) (t' & th' & ->). by exists t', th'.
Qed.

Lemma rehash_loop_run h K fuel k j v s :
  is64 h -> 3 <= K <= 64 -> mask s = 2 ^ K - 1 -> k / 8 < threshold s -> k <= j ->
  mget (table s) (probe h (mask s) j) = 0 ->
  (forall i, k <= i < j -> mget (table s) (probe h (mask s) i) <> 0) ->
  j < k + N.of_nat fuel ->
  exists th, threshold s <= th /\ j / 8 < th /\
    rehash_loop fuel v (probe_step h) (probe h (mask s) k) (line_base h (mask s) (k / 8))
      (k / 8) (w64 (h + k / 8 * probe_step h)) s =
    Done 1 (upd_table (fun t => mset t (probe h (mask s) j) v) (set_threshold th s)).
Proof.
  intros Hh HK. revert k s; induction fuel as [|fuel IH]; intros k s Hm Hth Hkj Hj Hbf Hf; [lia|].
  cbn [rehash_loop]. unfold mbind, prog_bind, mret, prog_ret, gets at 1.
  destruct (N.eqb_spec (mget (table s) (probe h (mask s) k)) 0) as [E|E].
  - assert (k = j) as <-.
    { destruct (N.eq_dec k j); [done|]. exfalso. apply (Hbf k); [lia|done]. }
    exists (threshold s). split; [lia|]. split; [done|]. by destruct s.
  - assert (k + 1 <= j) as Hk1.
    { destruct (N.eq_dec k j) as [->|]; [by destruct E|lia]. }
    rewrite Hm in *. rewrite (next_idx_last h K) by lia.
    case_bool_decide as Hk8.
    + destruct (div8_end k Hk8) as [Hdiv Hk8'].
      set (th1 := if k / 8 + 1 =? threshold s then threshold s + 1 else threshold s).
      assert ((if k / 8 + 1 =? threshold s then modify (set_threshold (threshold s + 1))
               else fun s => Done tt s) s = Done tt (set_threshold th1 s)) as Hmod.
      { unfold th1. case_match; [done|]. by destruct s. }
      unfold gets at 1. rewrite Hmod. unfold gets. cbn [mask set_threshold].
      rewrite Hm, (line_step h K) by lia. fold (line_base h (2 ^ K - 1) (k / 8 + 1)).
      destruct (IH (k + 1) (set_threshold th1 s)) as (th & Hth1 & Hth2 & Hrun).
      * done.
      * cbn. rewrite Hdiv. unfold th1. destruct (N.eqb_spec (k / 8 + 1) (threshold s)); lia.
      * done.
      * cbn. by rewrite Hm.
      * cbn. rewrite Hm. intros i Hi. apply Hbf. lia.
      * lia.
      * exists th. cbn [threshold set_threshold] in Hth1. split.
        { etrans; [|exact Hth1]. unfold th1. case_match; lia. }
        split; [done|]. cbn [mask set_threshold] in Hrun. rewrite Hm, Hdiv, Hk8' in Hrun.
        rewrite (probe_start h K) in Hrun by lia. exact Hrun.
    + pose proof (div8_in k Hk8) as Hdiv.
      destruct (IH (k + 1) s) as (th & Hth1 & Hth2 & Hrun); rewrite ?Hm; try done.
      * by rewrite Hdiv.
      * intros i Hi. apply Hbf. lia.
      * lia.
      * exists th. split; [done|]. split; [done|]. rewrite Hm, Hdiv in Hrun.
        by rewrite (next_idx_probe h K), decide_False by done || lia.
Qed.

(** The state of a rehash that has placed the buckets [D]. *)
Record partial (D : N -> Prop) (s : llmsset) : Prop := {
  pa_shape : shape s;
  pa_slots : slots_ok s;
  pa_find : forall c, D c -> used s c -> findable s c
}.

Lemma probe_0 h m : probe h m 0 = line_base h m 0.
Proof.
  unfold probe. change (0 / 8) with 0. generalize (line_base h m 0). intros x. modlia.
Qed.

Lemma least_empty s h K :
  is64 h -> 3 <= K <= 64 -> mask s = 2 ^ K - 1 -> table_size s = 2 ^ K ->
  occ (N.to_nat (table_size s)) (table s) < table_size s ->
  exists j, j < table_size s /\ mget (table s) (probe h (mask s) j) = 0 /\
    forall i, i < j -> mget (table s) (probe h (mask s) i) <> 0.
Proof.
  intros Hh HK Hm Hts Hocc.
  destruct (occ_free (N.to_nat (table_size s)) (table s)) as (p & Hp & Hp0); [lia|].
  destruct (probe_cover h K p Hh HK ltac:(lia)) as (k & Hk & Hkp).
  destruct (first_from (N.to_nat (table_size s))
    (fun j => mget (table s) (probe h (mask s) j) =? 0) 0) as [j|] eqn:E.
  - apply first_from_Some in E as (Hj & Hj0 & Hbf). exists j. apply N.eqb_eq in Hj0.
    split_and!; [lia|done|]. intros i Hi. apply N.eqb_neq, Hbf. lia.
  - pose proof (first_from_None _ _ _ k E ltac:(lia)) as Hf. apply N.eqb_neq in Hf.
    rewrite Hm, Hkp in Hf. done.
Qed.

Section same_but_hashes.
Context (s s' : llmsset) (Hd : hashes_differ s s').

Lemma hd_data c : data_at s' c = data_at s c.
Proof using Hd. by destruct Hd as (? & ? & ->). Qed.
Lemma hd_used c : used s' c <-> used s c.
Proof using Hd. by destruct Hd as (? & ? & ->). Qed.
Lemma hd_hash c : hash_of s' c = hash_of s c.
Proof using Hd. by destruct Hd as (? & ? & ->). Qed.
Lemma hd_mask : mask s' = mask s.
Proof using Hd. by destruct Hd as (? & ? & ->). Qed.
Lemma hd_size : table_size s' = table_size s.
Proof using Hd. by destruct Hd as (? & ? & ->). Qed.
Lemma hd_bitmap2 : bitmap2 s' = bitmap2 s.
Proof using Hd. by destruct Hd as (? & ? & ->). Qed.
Lemma hd_shape : 0 < threshold s' -> shape s -> shape s'.
Proof using Hd. destruct Hd as (? & ? & ->). intros Hth []. by split. Qed.
End same_but_hashes.

(** What placing [count] buckets guarantees. *)
Definition placed (D : N -> Prop) (count : N) (s s' : llmsset) : Prop :=
  partial D s' /\ hashes_differ s s' /\
  occ (N.to_nat (table_size s)) (table s') <= occ (N.to_nat (table_size s)) (table s) + count.

Lemma rehash_bucket_spec D s c :
  partial D s -> used s c \/ c < 2 ->
  occ (N.to_nat (table_size s)) (table s) < table_size s ->
  exists s', llmsset_rehash_bucket c s = Done 1 s' /\
    placed (fun c' => c' = c \/ D c') 1 s s'.
Proof.
  intros [Hs Hsl Hfi] Hc Hocc. destruct (shape_mask s Hs) as (K & HK3 & HK64 & Hm & Hts).
  set (h := hash_of s c).
  assert (is64 h) as Hh by apply key_hash_lt.
  destruct (least_empty s h K Hh (conj HK3 HK64) Hm Hts Hocc) as (j & Hj & Hj0 & Hbf).
  pose proof (sh_th s Hs) as Hth0.
  destruct (rehash_loop_run h K (S (N.to_nat (table_size s))) 0 j (entry h c) s)
    as (th & Hth & Hjth & Hrun); try done; try lia.
  { intros i Hi. apply Hbf. lia. }
  set (p := probe h (mask s) j) in *.
  set (s' := upd_table (fun t => mset t p (entry h c)) (set_threshold th s)) in *.
  assert (hashes_differ s s') as Hd by (by eexists _, _).
  exists s'. split; [|split; [split|split]].
  - unfold llmsset_rehash_bucket, mbind, prog_bind, gets, id, is_custom_bucket.
    rewrite (sh_nocustom s Hs).
    destruct (data_at s c) as [a b] eqn:E. cbn [mret prog_ret].
    assert (key_hash None a b = h) as -> by (unfold h, hash_of; by rewrite E).
    change (N.lor (N.land h MASK_HASH) c) with (entry h c).
    rewrite probe_0 in Hrun. change (0 / 8) with 0 in Hrun.
    unfold line_base in Hrun. rewrite N.mul_0_l, N.add_0_r, (w64_small h Hh) in Hrun.
    exact Hrun.
  - apply (hd_shape s s' Hd); [cbn; lia|done].
  - intros q. cbn [s' upd_table table set_threshold]. rewrite mget_mset. case_decide as Hq.
    + intros _. exists c. by rewrite (hd_used s s' Hd), (hd_hash s s' Hd).
    + intros Hnz. destruct (Hsl q Hnz) as (c' & Hu & Hv). exists c'.
      by rewrite (hd_used s s' Hd), (hd_hash s s' Hd).
  - intros c' HD Hu. apply (hd_used s s' Hd) in Hu. unfold findable.
    rewrite (hd_hash s s' Hd), (hd_mask s s' Hd). cbn [s' upd_table table set_threshold threshold].
    assert (c' <> 0) as Hc0 by (destruct Hu; lia).
    destruct (decide (c' = c)) as [->|Hne].
    + exists j. fold h p. rewrite mget_mset_eq. split_and!; [|done|].
      * clear -Hjth. modlia.
      * intros k' Hk'. rewrite mget_mset. case_decide; [by apply entry_nonzero|by apply Hbf].
    + destruct HD as [?|HD]; [done|]. destruct (Hfi c' HD Hu) as (k & Hk & Hat & Hkb).
      exists k. split; [lia|]. split.
      * rewrite mget_mset. case_decide as E; [|done]. exfalso. rewrite <- E, Hj0 in Hat.
        symmetry in Hat. by apply entry_nonzero in Hat.
      * intros k' Hk'. rewrite mget_mset. case_decide as E; [|by apply Hkb].
        intros H0. apply N.lor_eq_0_iff in H0 as [H0 Hc00]. destruct (Hkb k' Hk').
        by rewrite <- E.
  - done.
  - cbn. apply occ_mset.
Qed.


(** ** Placing all the marked buckets *)

Lemma placed_trans D D1 D2 n1 n2 s s1 s2 :
  placed D1 n1 s s1 -> placed D2 n2 s1 s2 -> (forall c, D c -> D2 c) ->
  placed D (n1 + n2) s s2.
Proof.
  intros (_ & Hd1 & Ho1) ([Hs Hsl Hf] & Hd2 & Ho2) HD.
  rewrite (hd_size s s1 Hd1) in Ho2. split; [split; [done..|auto]|]. split; [by etrans|lia].
Qed.

Lemma placed_refl D s : partial D s -> placed D 0 s s.
Proof. intros H. split; [done|]. split; [done|lia]. Qed.

Lemma rehash_range_spec n D s k :
  partial D s -> k + N.of_nat n <= table_size s ->
  occ (N.to_nat (table_size s)) (table s) + N.of_nat n <= table_size s ->
  exists s', rehash_range n k s = Done 0 s' /\
    placed (fun c => k <= c < k + N.of_nat n \/ D c) (N.of_nat n) s s'.
Proof.
  revert D s k; induction n as [|n IH]; intros D s k Hp Hk Hocc.
  { exists s. split; [done|]. destruct (placed_refl D s Hp) as ([? ? Hf] & ? & ?).
    split; [split|split]; try done. intros c [?|?]; [lia|by apply Hf]. }
  assert (exists s1, (if bm_get (bitmap2 s) k
            then llmsset_rehash_bucket k ≫= fun r => mret (if r =? 0 then 1 else 0)
            else mret 0) s = Done 0 s1 /\ placed (fun c => c = k \/ D c) 1 s s1)
    as (s1 & Hr1 & Hp1).
  { destruct (bm_get (bitmap2 s) k) eqn:Hb.
    - destruct (rehash_bucket_spec D s k Hp) as (s1 & Hr & Hp1).
      + destruct (N.lt_ge_cases k 2); [by right|left]. split_and!; [done|lia|done].
      + lia.
      + exists s1. unfold mbind, prog_bind. rewrite Hr. done.
    - exists s. split; [done|]. destruct (placed_refl D s Hp) as ([? ? Hf] & ? & ?).
      split; [split|split]; try done; [|lia].
      intros c [->|?]; [|by apply Hf]. intros (_ & _ & Hb'). congruence. }
  pose proof Hp1 as (Hpa & Hd & Ho). pose proof (hd_size s s1 Hd) as Hts.
  destruct (IH (fun c => c = k \/ D c) s1 (k + 1) Hpa) as (s2 & Hr2 & Hp2);
    rewrite ?Hts; try lia.
  exists s2. split.
  - cbn [rehash_range]. unfold mbind at 1, prog_bind at 1, gets, id.
    unfold mbind at 1, prog_bind at 1. rewrite Hr1. unfold mbind, prog_bind. rewrite Hr2. done.
  - replace (N.of_nat (S n)) with (1 + N.of_nat n) by lia.
    eapply placed_trans; [exact Hp1|exact Hp2|]. simpl. intros c [Hc|Hc]; [|auto].
    destruct (N.eq_dec c k) as [->|]; [by auto|left; lia].
Qed.

Lemma rehash_par_S fuel k count :
  llmsset_rehash_par (S fuel) k count =
    if 512 <? count then
      bad ← llmsset_rehash_par fuel (k + count / 2) (count - count / 2);
      r ← llmsset_rehash_par fuel k (count / 2);
      mret (bad + r)
    else rehash_range (N.to_nat count) k.
Proof. done. Qed.

Lemma rehash_par_spec fuel D s k count :
  count <= 512 * 2 ^ N.of_nat fuel -> partial D s -> k + count <= table_size s ->
  occ (N.to_nat (table_size s)) (table s) + count <= table_size s ->
  exists s', llmsset_rehash_par (S fuel) k count s = Done 0 s' /\
    placed (fun c => k <= c < k + count \/ D c) count s s'.
Proof.
  revert D s k count; induction fuel as [|fuel IH]; intros D s k count Hfu Hp Hk Hocc;
    rewrite rehash_par_S; destruct (N.ltb_spec 512 count) as [Hc|Hc]; try lia.
  1, 3: destruct (rehash_range_spec (N.to_nat count) D s k Hp) as (s' & Hr & Hpl); try lia;
    rewrite N2Nat.id in Hpl; eauto.
  assert (count / 2 + (count - count / 2) = count) as Hsum by (clear; modlia).
  assert (count - count / 2 <= 512 * 2 ^ N.of_nat fuel /\ count / 2 <= 512 * 2 ^ N.of_nat fuel)
    as [Hf1 Hf2].
  { rewrite Nat2N.inj_succ, N.pow_succ_r' in Hfu. revert Hfu. clear.
    generalize (2 ^ N.of_nat fuel). intros x Hfu. split; modlia. }
  destruct (IH D s (k + count / 2) (count - count / 2) Hf1 Hp) as (s1 & Hr1 & Hp1);
    [lia|clear -Hsum Hocc; generalize dependent (count / 2); lia|].
  pose proof Hp1 as (Hpa & Hd & Ho). pose proof (hd_size s s1 Hd) as Hts.
  destruct (IH _ s1 k (count / 2) Hf2 Hpa) as (s2 & Hr2 & Hp2); rewrite ?Hts;
    [revert Hsum; clear -Hk; generalize (count / 2); lia|revert Hsum Ho; clear -Hocc; generalize (count / 2); lia|].
  exists s2. split.
  - unfold mbind, prog_bind. rewrite Hr1, Hr2. done.
  - assert (forall n, n = count -> placed (fun c => k <= c < k + count \/ D c) n s s2) as Hg.
    { intros n Hn. assert (n = (count - count / 2) + count / 2) as -> by (rewrite Hn; clear -Hsum; lia).
      eapply placed_trans; [exact Hp1|exact Hp2|]. simpl. intros c [Hc'|Hc']; [|auto].
      destruct (N.lt_ge_cases c (k + count / 2)); [by left; lia|right; left; lia]. }
    by apply Hg.
Qed.

Lemma rehash_spec s :
  shape s -> table s = ∅ ->
  exists s', llmsset_rehash s = Done 0 s' /\ inv s' /\ hashes_differ s s'.
Proof.
  intros Hs Ht. destruct (sh_size s Hs) as (K & HK & HsK).
  assert (partial (fun _ => False) s) as Hp.
  { split; [done| |done]. intros p. by rewrite Ht, mget_empty. }
  destruct (rehash_par_spec 63 (fun _ => False) s 0 (table_size s)) as (s' & Hr & Hpa & Hd & _);
    [|exact Hp|lia|rewrite Ht, occ_empty; lia|].
  { rewrite HsK. change (512 * 2 ^ N.of_nat 63) with (2 ^ 72). apply N.pow_le_mono_r; lia. }
  exists s'. split; [exact Hr|]. split; [|done]. destruct Hpa as [Hs' Hsl Hf]. split; [done..|].
  intros c Hu. apply Hf; [|done]. left. apply (hd_used s s' Hd) in Hu. destruct Hu. lia.
Qed.

(** ** The other operations of the cycle *)

Definition same_data (s s' : llmsset) : Prop := forall c, data_at s' c = data_at s c.

Lemma clear_data_bits s c :
  bm_get (bitmap2 (llmsset_clear_data s)) c = bool_decide (c < 2).
Proof.
  rewrite bm_get_bit. cbn [llmsset_clear_data llmsset_reset_region set_region upd_bitmap2
    upd_bitmap1 bitmap2]. rewrite mget_mset. case_decide as H.
  - assert (c mod 64 = c) as -> by (clear -H; modlia).
    change 0xc000000000000000 with (2 ^ 63 + 2 ^ 62).
    rewrite <- lor_add, N.lor_spec, !pow2_eqb_bit by done.
    assert (c < 64) by (clear -H; modlia).
    repeat case_bool_decide; try done; lia.
  - rewrite mget_empty, N.bits_0. case_bool_decide as Hc; [|done]. destruct H. clear -Hc. modlia.
Qed.

Lemma clear_data_spec s :
  shape s -> let s' := llmsset_clear_data s in
  shape s' /\ (forall c, ~ used s' c) /\ same_data s s' /\ table s' = table s.
Proof.
  intros Hs s'. assert (forall c, ~ used s' c) as Hu.
  { intros c (H2 & _ & Hb). unfold s' in Hb. rewrite clear_data_bits in Hb.
    apply bool_decide_eq_true in Hb. lia. }
  split_and!; [|done..]. destruct Hs. split; try done.
  - intros c. unfold s'. rewrite clear_data_bits. case_bool_decide; [|done]. cbn.
    destruct sh_size0 as (K & HK & ->). assert (2 ^ 9 <= 2 ^ K) by (apply N.pow_le_mono_r; lia).
    change (2 ^ 9) with 512 in *. lia.
  - intros w. cbn. rewrite mget_mset. case_decide; [done|]. by rewrite mget_empty.
  - by left.
  - intros c c' Hc. by apply Hu in Hc.
Qed.

(** Marking bucket [c], which held a key of the table [s0] that is being collected. *)
Lemma mark_spec s0 s c :
  shape s0 -> shape s -> same_data s0 s -> (forall c', used s c' -> used s0 c') ->
  table_size s0 <= table_size s -> used s0 c ->
  exists s', llmsset_mark c s = Done (negb (bm_get (bitmap2 s) c)) s' /\
    shape s' /\ same_data s s' /\ (forall c', used s' c' <-> c' = c \/ used s c') /\
    table_size s' = table_size s.
Proof.
  intros Hs0 Hs Hd Hsub Hts Hc. unfold llmsset_mark, mbind, prog_bind, gets, id.
  assert (c < table_size s) as Hlt by (eapply N.lt_le_trans; [apply Hc|done]).
  assert (2 <= c) as H2 by apply Hc.
  destruct (bm_get (bitmap2 s) c) eqn:Hb.
  { exists s. split; [done|]. split_and!; [done|done| |done].
    intros c'. split; [by right|]. intros [->|?]; [|done]. done. }
  set (s' := upd_bitmap2 (fun bm => bm_set bm c) s). exists s'. split; [done|].
  assert (forall c', used s' c' <-> c' = c \/ used s c') as Hu.
  { intros c'. unfold used, s'. cbn [upd_bitmap2 bitmap2 table_size]. rewrite bm_get_set.
    case_bool_decide; subst; simpl; naive_solver. }
  split_and!; [|done..].
  pose proof Hs as Hs'. destruct Hs. split; try done; try (unfold s'; cbn [upd_bitmap2 bitmap2]).
  - by rewrite bm_get_set, sh_bit2, orb_true_r.
  - by rewrite bm_get_set, sh_bit3, orb_true_r.
  - intros c'. rewrite bm_get_set. case_bool_decide; [by subst|apply sh_above0].
  - intros w. unfold bm_set. rewrite mget_mset. case_decide; [|done].
    apply lor_lt; [apply sh_words0|]. rewrite bm_mask_pow2.
    apply N.pow_lt_mono_r; [done|]. clear. modlia.
  - intros c1 c2 H1 H2'. change (data_at s c1 = data_at s c2 -> c1 = c2). rewrite !Hd.
    assert (forall x, used s' x -> used s0 x) as Hx by (intros x; rewrite Hu; naive_solver).
    apply (sh_inj s0 Hs0); by apply Hx.
Qed.

(** Growing the table. *)
Lemma set_size_spec s size :
  shape s -> size = 2 * table_size s -> size <= max_size s ->
  let s' := llmsset_set_size s size in
  shape s' /\ (forall c, used s' c <-> used s c) /\ same_data s s' /\ table_size s' = size /\
  max_size s' = max_size s.
Proof.
  intros Hs Hsz Hmax s'. assert (size <= 2 ^ 40) as H40.
  { destruct (sh_maxpow s Hs) as (Km & HKm & Hm). rewrite Hm in Hmax. etrans; [exact Hmax|].
    by apply N.pow_le_mono_r. }
  pose proof (sh_above s Hs) as Hb. pose proof (shape_512 s Hs).
  unfold s', llmsset_set_size. rewrite (proj2 (N.ltb_lt 128 size)), (proj2 (N.leb_le size _)) by lia.
  cbn [andb]. assert (forall c, 2 <= c /\ c < size /\ bm_get (bitmap2 s) c = true <-> used s c)
    as Hu.
  { intros c. unfold used. split; intros (? & ? & Hc); split_and!; try done; [by apply Hb|lia]. }
  split_and!; try done. destruct Hs. split; try done.
  - destruct sh_size0 as (K & HK & HsK). exists (K + 1). cbn [table_size].
    assert (size = 2 ^ (K + 1)) as Heq by (rewrite Hsz, HsK, N.add_1_r, N.pow_succ_r'; done).
    split; [|done]. split; [lia|]. rewrite Heq in H40. by apply N.pow_le_mono_r_iff in H40.
  - cbn [threshold]. unfold clz64. lia.
  - intros c Hc. apply Hb in Hc. cbn. lia.
  - destruct sh_region0 as [?|Hr]; [by left|right]. cbn. eapply N.lt_le_trans; [exact Hr|].
    apply N.Div0.div_le_mono. lia.
  - intros c c' Hc Hc'. apply Hu in Hc, Hc'. by apply sh_inj0.
Qed.

Lemma clear_hashes_spec s :
  shape s -> let s' := llmsset_clear_hashes s in
  shape s' /\ (forall c, used s' c <-> used s c) /\ same_data s s' /\ table s' = ∅ /\
  table_size s' = table_size s.
Proof. intros [] s'. split_and!; try done. Qed.

Lemma popcount_pow2 n : popcount (2 ^ n) = 1.
Proof.
  induction n as [|n IH] using N.peano_ind; [done|].
  rewrite N.pow_succ_r'. by destruct (2 ^ n).
Qed.

(** A new table is empty and satisfies the invariant. *)
Lemma create_spec K K' w n :
  9 <= K -> K <= K' -> K' <= 40 ->
  exists s, llmsset_create (2 ^ K) (2 ^ K') w n = Some s /\ inv s /\ (forall c, ~ used s c) /\
    table_size s = 2 ^ K /\ max_size s = 2 ^ K'.
Proof.
  intros HK HK' H40. unfold llmsset_create. rewrite !popcount_pow2. cbn [N.eqb Pos.eqb negb].
  assert (2 ^ 9 <= 2 ^ K) as H512 by (by apply N.pow_le_mono_r).
  change (2 ^ 9) with 512 in H512.
  assert (2 ^ K <= 2 ^ K') as Hmx by (by apply N.pow_le_mono_r).
  rewrite (proj2 (N.ltb_ge _ _) Hmx), (proj2 (N.ltb_ge _ _) H512). cbn zeta.
  unfold llmsset_set_size. cbn [max_size].
  rewrite (proj2 (N.ltb_lt 128 (2 ^ K))), (proj2 (N.leb_le _ _) Hmx) by lia. cbn [andb].
  eexists. split; [reflexivity|].
  set (s := upd_bitmap2 _ _).
  assert (forall c, bm_get (bitmap2 s) c = bool_decide (c < 2)) as Hb.
  { intros c. rewrite <- (clear_data_bits s c). reflexivity. }
  assert (forall c, ~ used s c) as Hu.
  { intros c (H2 & _ & Hc). rewrite Hb in Hc. apply bool_decide_eq_true in Hc. lia. }
  split_and!; [|done..]. split; [split| |]; try done.
  - exists K. split; [lia|done].
  - by exists K'.
  - cbn. unfold clz64. lia.
  - intros c. rewrite Hb. case_bool_decide; [|done]. cbn. lia.
  - intros i. cbn [s upd_bitmap2 bitmap2]. rewrite mget_mset. case_decide; [done|]. by rewrite mget_empty.
  - by left.
  - intros c c' Hc. by apply Hu in Hc.
  - intros c Hc. by destruct Hc.
  - intros c Hc. by apply Hu in Hc.
Qed.

(** With no bucket that uses custom functions there is nothing to destroy. *)
Lemma destroy_range_id n k s :
  (forall c, bm_get (bitmapc s) c = false) -> destroy_range n k s = s.
Proof.
  intros H. revert k; induction n as [|n IH]; intros k; simpl; [done|].
  by rewrite H, andb_false_r.
Qed.

Lemma destroy_par_id fuel k count s :
  (forall c, bm_get (bitmapc s) c = false) -> count <= 1024 * 2 ^ N.of_nat fuel ->
  llmsset_destroy_par (S fuel) k count s = Some s.
Proof.
  intros H. revert k count; induction fuel as [|fuel IH]; intros k count Hc.
  - cbn [llmsset_destroy_par]. destruct (N.ltb_spec 1024 count); [lia|].
    by rewrite destroy_range_id.
  - remember (S fuel) as f eqn:Hf. cbn [llmsset_destroy_par]. subst f.
    destruct (N.ltb_spec 1024 count) as [Hlt|Hge]; [|by rewrite destroy_range_id].
    rewrite Nat2N.inj_succ, N.pow_succ_r' in Hc.
    assert (count - count / 2 <= 1024 * 2 ^ N.of_nat fuel /\ count / 2 <= 1024 * 2 ^ N.of_nat fuel)
      as [H1 H2].
    { revert Hc. clear. generalize (2 ^ N.of_nat fuel). intros x Hc. split; modlia. }
    rewrite (IH _ _ H1). cbn [mbind option_bind]. by apply IH.
Qed.

Lemma destroy_unmarked_spec s : shape s -> llmsset_destroy_unmarked s = Some s.
Proof.
  intros Hs. unfold llmsset_destroy_unmarked. destruct (custom s); [|done].
  apply destroy_par_id; [apply sh_nocustom, Hs|].
  destruct (sh_size s Hs) as (K & HK & ->). change (1024 * 2 ^ N.of_nat 63) with (2 ^ 73).
  apply N.pow_le_mono_r; lia.
Qed.

End LLMSSetGC.
