(* ===== verification/TableConc.v ===== *)
(** The node table of sylvan/src/sylvan_table.c as several workers use it at the same time: the
    steps of [llmsset_lookup], one access to shared memory at a time, in any interleaving.

    The shared memory is the record [llmsset]; its thread-local words are not used, each worker
    has its own region.  A step is a read, a write or a compare-and-swap of a word, with what the
    code computes from it.  The words of the two bitmaps are updated as the code does: those of
    [bitmap1] by compare-and-swap, those of [bitmap2] by a read and a later write, which in
    [claim_data_bucket] is the read that the test has made, as a compiler does. *)

From S2P Require Import Prelude SylvanHash SylvanTable SylvanTableFacts.

Module TableConc.
Import Hash LLMSSet LLMSSetFacts.

(** The variables [idx], [last], [i] and [hash_rehash] of [llmsset_lookup2]. *)
Record cursor := mk_cursor { at_idx : N; at_last : N; at_i : N; at_hash : N }.

(** Where a worker is in a lookup: about to do the access that the comment names. *)
Inductive pc :=
| Idle
| Load (p : cursor) (cidx : N)            (* v = *bucket *)
| Scan (p : cursor) (i : N)               (* v = *ptr, word i of the own region *)
| SetBit (p : cursor) (i v : N)           (* *ptr |= 0x8000000000000000 >> j *)
| ReadRegion (p : cursor) (region count : N)   (* v = *ptr, the word of a region to claim *)
| CasRegion (p : cursor) (region count v : N)  (* cas(ptr, v, v|mask) *)
| Write0 (p : cursor) (cidx : N)          (* d_ptr[0] = a *)
| Write1 (p : cursor) (cidx : N)          (* d_ptr[1] = b *)
| Cas (p : cursor) (cidx : N)             (* cas(bucket, 0, hash | cidx) *)
| Reload (p : cursor) (cidx : N)          (* v = *bucket, when the swap has failed *)
| Match0 (p : cursor) (cidx v : N)        (* d_ptr[0] == a *)
| Match1 (p : cursor) (cidx d_idx : N)    (* d_ptr[1] == b *)
| ReadBit (d_idx cidx : N)                (* *ptr of release_data_bucket *)
| ClearBit (d_idx cidx v : N)             (* *ptr &= ~mask *)
| Return (index : N) (created : bool).

Record worker := mk_worker { key_a : N; key_b : N; region_of : N; at_pc : pc }.

Definition w_hash (w : worker) : N := key_hash None (key_a w) (key_b w).
Definition goto (c : pc) (w : worker) : worker := mk_worker (key_a w) (key_b w) (region_of w) c.
Definition in_region (r : N) (w : worker) : worker := mk_worker (key_a w) (key_b w) r (at_pc w).

(** ** The probe sequence *)

Definition first_cursor (s : llmsset) (a b : N) : cursor :=
  let h := key_hash None a b in
  mk_cursor (N.land h (mask s)) (N.land h (mask s)) 0 h.

Definition next_cursor (s : llmsset) (w : worker) (p : cursor) : option cursor :=
  let idx := next_idx (at_idx p) in
  if idx =? at_last p then
    let i := at_i p + 1 in
    if i =? threshold s then None
    else
      let hash_rehash := add64 (at_hash p) (probe_step (w_hash w)) in
      let idx := N.land hash_rehash (mask s) in
      Some (mk_cursor idx idx i hash_rehash)
  else Some (mk_cursor idx (at_last p) (at_i p) (at_hash p)).

(** The end of the loop body. *)
Definition advance (s : llmsset) (w : worker) (p : cursor) (cidx : N) : pc :=
  match next_cursor s w p with None => Return 0 false | Some p => Load p cidx end.

(** ** Claiming a data bucket *)

Definition regions (s : llmsset) : N := table_size s / (64 * 8).

(** The head of the inner loop of [claim_data_bucket]. *)
Definition try_region (s : llmsset) (p : cursor) (region count : N) : pc :=
  if count =? 0 then Return 0 false
  else ReadRegion p (next_region (regions s) region) (count - 1).

(** The head of its outer loop. *)
Definition claim (s : llmsset) (id : N) (w : worker) (p : cursor) : pc :=
  if region_of w =? minus1_64 then
    try_region s p (add64 (region_of w) (mul64 id (regions s) / lace_n_workers_id s)) (regions s)
  else Scan p 0.

Definition upd_fst (d : gmap N (N * N)) (c a : N) : gmap N (N * N) := mset d c (a, (default (0, 0) (d !! c)).2).
Definition upd_snd (d : gmap N (N * N)) (c b : N) : gmap N (N * N) := mset d c ((default (0, 0) (d !! c)).1, b).

(** ** Steps *)

Definition step (id : N) (s : llmsset) (w : worker) : option (llmsset * worker) :=
  let hash := N.land (w_hash w) MASK_HASH in
  match at_pc w with
  | Idle | Return _ _ => None
  | Load p cidx =>
      let v := mget (table s) (at_idx p) in
      Some (s, goto (if v =? 0 then (if cidx =? 0 then claim s id w p else Cas p cidx)
                     else Match0 p cidx v) w)
  | Scan p i =>
      if 8 <=? i then Some (s, goto (try_region s p (region_of w) (regions s)) w)
      else
        let v := mget (bitmap2 s) (region_of w * 8 + i) in
        Some (s, goto (if v =? 0xffffffffffffffff then Scan p (i + 1) else SetBit p i v) w)
  | SetBit p i v =>
      let j := clz64 (not64 v) in
      Some (upd_bitmap2 (fun bm => mset bm (region_of w * 8 + i) (N.lor v (N.shiftr 0x8000000000000000 j))) s,
            goto (Write0 p ((8 * region_of w + i) * 64 + j)) w)
  | ReadRegion p region count =>
      let v := mget (bitmap1 s) (region / 64) in
      Some (s, goto (if negb (N.land v (bm_mask region) =? 0) then try_region s p region count
                     else CasRegion p region count v) w)
  | CasRegion p region count v =>
      if mget (bitmap1 s) (region / 64) =? v then
        Some (upd_bitmap1 (fun bm => mset bm (region / 64) (N.lor v (bm_mask region))) s,
              goto (Scan p 0) (in_region region w))
      else Some (s, goto (ReadRegion p region count) w)
  | Write0 p cidx => Some (upd_data (fun d => upd_fst d cidx (key_a w)) s, goto (Write1 p cidx) w)
  | Write1 p cidx => Some (upd_data (fun d => upd_snd d cidx (key_b w)) s, goto (Cas p cidx) w)
  | Cas p cidx =>
      if mget (table s) (at_idx p) =? 0 then
        Some (upd_table (fun t => mset t (at_idx p) (N.lor hash cidx)) s, goto (Return cidx true) w)
      else Some (s, goto (Reload p cidx) w)
  | Reload p cidx => Some (s, goto (Match0 p cidx (mget (table s) (at_idx p))) w)
  | Match0 p cidx v =>
      let d_idx := N.land v MASK_INDEX in
      Some (s, goto (if (hash =? N.land v MASK_HASH) && ((data_at s d_idx).1 =? key_a w)
                     then Match1 p cidx d_idx else advance s w p cidx) w)
  | Match1 p cidx d_idx =>
      Some (s, goto (if (data_at s d_idx).2 =? key_b w then
                       (if cidx =? 0 then Return d_idx false else ReadBit d_idx cidx)
                     else advance s w p cidx) w)
  | ReadBit d_idx cidx => Some (s, goto (ClearBit d_idx cidx (mget (bitmap2 s) (cidx / 64))) w)
  | ClearBit d_idx cidx v =>
      Some (upd_bitmap2 (fun bm => mset bm (cidx / 64) (N.land v (not64 (bm_mask cidx)))) s,
            goto (Return d_idx false) w)
  end.

(** A worker that is not in a lookup starts one, for a key that is not that of the reserved
    buckets. *)
Definition idle (w : worker) : bool :=
  match at_pc w with Idle | Return _ _ => true | _ => false end.
Definition call_lookup (s : llmsset) (a b : N) (w : worker) : worker :=
  mk_worker a b (region_of w) (Load (first_cursor s a b) 0).

Record sys := mk_sys { mem : llmsset; workers : gmap N worker }.

Inductive sys_step : sys -> sys -> Prop :=
| step_call s ws n w a b :
    ws !! n = Some w -> idle w -> (a, b) <> (0, 0) ->
    sys_step (mk_sys s ws) (mk_sys s (<[n := call_lookup s a b w]> ws))
| step_worker s ws n w s' w' :
    ws !! n = Some w -> step n s w = Some (s', w') ->
    sys_step (mk_sys s ws) (mk_sys s' (<[n := w']> ws)).

(** A run of the workers in the order of [schedule]: an entry starts a call, or is a step; one
    that is not possible is skipped. *)
Fixpoint run_schedule (schedule : list (N * option (N * N))) (c : sys) : sys :=
  match schedule with
  | [] => c
  | (n, what) :: schedule =>
      run_schedule schedule
        match workers c !! n, what with
        | Some w, Some (a, b) =>
            if idle w && negb ((a =? 0) && (b =? 0))
            then mk_sys (mem c) (<[n := call_lookup (mem c) a b w]> (workers c)) else c
        | Some w, None =>
            match step n (mem c) w with
            | Some (s', w') => mk_sys s' (<[n := w']> (workers c))
            | None => c
            end
        | None, _ => c
        end
  end.

(** All workers idle and without a region, as after [llmsset_clear_data] and
    [llmsset_reset_region]. *)
Definition fresh : worker := mk_worker 0 0 minus1_64 Idle.
Definition started (s : llmsset) (n : nat) : sys :=
  mk_sys s (list_to_map (map (fun i => (N.of_nat i, fresh)) (seq 0 n))).

(** The buckets that the hash array points to. *)
Definition inserted (s : llmsset) (c : N) : Prop :=
  exists p, mget (table s) p <> 0 /\ N.land (mget (table s) p) MASK_INDEX = c.
End TableConc.
