(* ===== verification/TableConcFacts.v ===== *)
(** Lookups of several workers on one node table: what holds in every state that the interleaving
    of their steps reaches.  A region of buckets belongs to the worker that has claimed it, so
    that the updates of [bitmap2], which are not atomic, do not interfere; a key that the hash
    array points to is found by its probe sequence, and is there once. *)

From S2P Require Import Prelude SylvanHash SylvanTable SylvanTableFacts TableConc.

Module TableConcFacts.
Import Hash LLMSSet LLMSSetFacts TableConc.

#[local] Opaque key_hash.

Implicit Types (s : llmsset) (w : worker) (owner : gmap N N).

(** ** The invariant *)

Definition index_at s (q : N) : N := N.land (mget (table s) q) MASK_INDEX.

(** The bucket [c] is reached by the probe sequence of its key. *)
Definition reachable_at s (c k : N) : Prop :=
  k < 8 * threshold s /\
  mget (table s) (probe (hash_of s c) (mask s) k) = entry (hash_of s c) c /\
  forall k', k' < k -> mget (table s) (probe (hash_of s c) (mask s) k') <> 0.

Record shared_ok owner s : Prop := {
  so_size : exists K, 9 <= K <= 40 /\ table_size s = 2 ^ K;
  so_mask : mask s = table_size s - 1;
  so_th : 0 < threshold s;
  so_words : forall x, is64 (mget (bitmap2 s) x);
  so_reserved : bm_get (bitmap2 s) 0 = true /\ bm_get (bitmap2 s) 1 = true;
  so_zero : forall c, c < 2 -> data_at s c = (0, 0);
  so_owner : forall r n, owner !! r = Some n -> r < regions s /\ bm_get (bitmap1 s) r = true;
  so_slot : forall q, mget (table s) q <> 0 ->
    mget (table s) q = entry (hash_of s (index_at s q)) (index_at s q);
  so_bit : forall c, inserted s c -> c < table_size s /\ bm_get (bitmap2 s) c = true;
  so_found : forall c, inserted s c -> 2 <= c -> exists k, reachable_at s c k;
  so_inj : forall c c', inserted s c -> inserted s c' -> 2 <= c -> 2 <= c' ->
    data_at s c = data_at s c' -> c = c'
}.

(** The worker [n] has claimed bucket [c] and not yet given it away. *)
Definition held owner s (n c : N) : Prop :=
  owner !! (c / 512) = Some n /\ 2 <= c < table_size s /\ bm_get (bitmap2 s) c = true /\ ~ inserted s c.

(** The slot at position [q] is taken, by another key than that of the worker. *)
Definition other_key s w (q : N) : Prop :=
  mget (table s) q <> 0 /\
  ~ (N.land (w_hash w) MASK_HASH = N.land (mget (table s) q) MASK_HASH /\
     data_at s (index_at s q) = (key_a w, key_b w)).

(** The cursor [p] is at position [k] of the probe sequence, ... *)
Definition place s w (p : cursor) (k : N) : Prop :=
  let h := w_hash w in
  k < 8 * threshold s /\
  at_idx p = probe h (mask s) k /\ at_last p = line_base h (mask s) (k / 8) /\ at_i p = k / 8 /\
  at_hash p = w64 (h + k / 8 * probe_step h).

(** ... and the key is at none before. *)
Definition cursor_ok s w (p : cursor) (k : N) : Prop :=
  place s w p k /\ forall k', k' < k -> other_key s w (probe (w_hash w) (mask s) k').

Definition at_cursor s w p : Prop := exists k, cursor_ok s w p k.

Definition claimed owner s n w (c : N) : Prop :=
  c = 0 \/ held owner s n c /\ data_at s c = (key_a w, key_b w).

Definition pc_ok owner s n w (c : pc) : Prop :=
  match c with
  | Idle => True
  | Load p cidx => at_cursor s w p /\ claimed owner s n w cidx
  | Scan p _ => at_cursor s w p /\ owner !! region_of w = Some n
  | SetBit p i v => at_cursor s w p /\ owner !! region_of w = Some n /\ i < 8 /\
      v = mget (bitmap2 s) (region_of w * 8 + i) /\ v <> 0xffffffffffffffff
  | ReadRegion p region _ => at_cursor s w p /\ region < regions s
  | CasRegion p region _ v => at_cursor s w p /\ region < regions s /\ N.land v (bm_mask region) = 0
  | Write0 p cidx => at_cursor s w p /\ held owner s n cidx
  | Write1 p cidx => at_cursor s w p /\ held owner s n cidx /\ (data_at s cidx).1 = key_a w
  | Cas p cidx => at_cursor s w p /\ held owner s n cidx /\ data_at s cidx = (key_a w, key_b w)
  | Reload p cidx => at_cursor s w p /\ claimed owner s n w cidx /\ mget (table s) (at_idx p) <> 0
  | Match0 p cidx v => at_cursor s w p /\ claimed owner s n w cidx /\ v = mget (table s) (at_idx p) /\ v <> 0
  | Match1 p cidx d => at_cursor s w p /\ claimed owner s n w cidx /\
      mget (table s) (at_idx p) <> 0 /\ d = index_at s (at_idx p) /\ (data_at s d).1 = key_a w
  | ReadBit d cidx => held owner s n cidx /\ inserted s d /\ data_at s d = (key_a w, key_b w)
  | ClearBit d cidx v => held owner s n cidx /\ inserted s d /\ data_at s d = (key_a w, key_b w) /\
      v = mget (bitmap2 s) (cidx / 64)
  | Return c created => c = 0 \/ inserted s c /\ 2 <= c /\ data_at s c = (key_a w, key_b w)
  end.

Record worker_ok owner s n w : Prop := {
  wo_region : region_of w = minus1_64 \/ owner !! region_of w = Some n;
  wo_key : idle w \/ (key_a w, key_b w) <> (0, 0);
  wo_pc : pc_ok owner s n w (at_pc w)
}.

Definition sys_ok (c : sys) : Prop :=
  exists owner, shared_ok owner (mem c) /\
    forall n w, workers c !! n = Some w -> worker_ok owner (mem c) n w.

(** ** What the steps of another worker leave alone *)

Record frame n owner owner' s s' : Prop := {
  fr_size : table_size s' = table_size s;
  fr_mask : mask s' = mask s;
  fr_th : threshold s' = threshold s;
  fr_owner : forall r m, owner !! r = Some m -> owner' !! r = Some m;
  fr_table : forall q, mget (table s) q <> 0 -> mget (table s') q = mget (table s) q;
  fr_mine : forall c, owner !! (c / 512) <> Some n -> data_at s' c = data_at s c /\ (inserted s' c -> inserted s c);
  fr_bits : forall x, owner !! (x / 8) <> Some n -> mget (bitmap2 s') x = mget (bitmap2 s) x;
  fr_data : forall c, inserted s c -> data_at s' c = data_at s c
}.

Section frame.
Context n owner owner' s s' (Hf : frame n owner owner' s s').

Lemma frame_index q : mget (table s) q <> 0 -> index_at s' q = index_at s q.
Proof. intros Hq. unfold index_at. by rewrite (fr_table _ _ _ _ _ Hf). Qed.

Lemma frame_inserted c : inserted s c -> inserted s' c.
Proof. intros (q & Hq & Hc). exists q. rewrite !(fr_table _ _ _ _ _ Hf) by done. by split. Qed.

Lemma index_inserted q : mget (table s) q <> 0 -> inserted s (index_at s q).
Proof. intros Hq. by exists q. Qed.

Lemma frame_other w q : other_key s w q -> other_key s' w q.
Proof.
  intros [Hq Hk]. unfold other_key. rewrite frame_index, (fr_table _ _ _ _ _ Hf) by done. split; [done|].
  by rewrite (fr_data _ _ _ _ _ Hf) by by apply index_inserted.
Qed.

Lemma frame_place w p k : place s w p k -> place s' w p k.
Proof. unfold place. by rewrite (fr_mask _ _ _ _ _ Hf), (fr_th _ _ _ _ _ Hf). Qed.

Lemma frame_cursor w p : at_cursor s w p -> at_cursor s' w p.
Proof.
  intros (k & Hk & Hb). exists k. split; [by apply frame_place|]. rewrite (fr_mask _ _ _ _ _ Hf).
  intros k' Hk'. by apply frame_other, Hb.
Qed.

Lemma frame_held m c : m <> n -> held owner s m c -> held owner' s' m c /\ data_at s' c = data_at s c.
Proof.
  intros Hmn (Ho & Hc & Hb & Hi). assert (owner !! (c / 512) <> Some n) as Hno by congruence.
  destruct (fr_mine _ _ _ _ _ Hf c Hno) as [Hd Hins]. split; [|done].
  split; [by apply (fr_owner _ _ _ _ _ Hf)|]. rewrite (fr_size _ _ _ _ _ Hf). split; [done|]. split; [|naive_solver].
  rewrite bm_get_bit in *. rewrite (fr_bits _ _ _ _ _ Hf); [done|].
  by replace (c / 64 / 8) with (c / 512) by (rewrite N.Div0.div_div; done).
Qed.

Lemma frame_claimed m w c : m <> n -> claimed owner s m w c -> claimed owner' s' m w c.
Proof.
  intros Hmn [->|[Hh Hd]]; [by left|right]. destruct (frame_held m c Hmn Hh) as [Hh' Hd']. split; [done|congruence].
Qed.

Lemma frame_found w c :
  inserted s c /\ data_at s c = (key_a w, key_b w) -> inserted s' c /\ data_at s' c = (key_a w, key_b w).
Proof. intros [Hi Hd]. split; [by apply frame_inserted|]. by rewrite (fr_data _ _ _ _ _ Hf). Qed.

Lemma frame_word m x : m <> n -> owner !! (x / 8) = Some m -> mget (bitmap2 s') x = mget (bitmap2 s) x.
Proof. intros Hmn Ho. apply (fr_bits _ _ _ _ _ Hf). congruence. Qed.

Lemma frame_worker m w : m <> n -> worker_ok owner s m w -> worker_ok owner' s' m w.
Proof.
  intros Hmn [Hr Hk Hp]. split; [|done|].
  { destruct Hr as [?|Hr]; [by left|right]. by apply (fr_owner _ _ _ _ _ Hf). }
  pose proof (fr_owner _ _ _ _ _ Hf) as Howner. pose proof (fr_table _ _ _ _ _ Hf) as Ht.
  assert (regions s' = regions s) as Hreg by (unfold regions; by rewrite (fr_size _ _ _ _ _ Hf)).
  destruct (at_pc w) as [|p c|p i|p i v|p r k|p r k v|p c|p c|p c|p c|p c v|p c d|d c|d c v|c cr]; cbn in *;
    rewrite ?Hreg.
  - done.
  - destruct Hp. split; [by apply frame_cursor|by apply frame_claimed].
  - destruct Hp. split; [by apply frame_cursor|by apply Howner].
  - destruct Hp as (Hc & Ho & Hi & -> & Hv). split_and!; [by apply frame_cursor|by apply Howner|done| |done].
    symmetry. apply (frame_word m); [done|]. by replace ((region_of w * 8 + i) / 8) with (region_of w) by modlia.
  - destruct Hp. split; [by apply frame_cursor|done].
  - destruct Hp as (? & ? & ?). split; [by apply frame_cursor|done].
  - destruct Hp as [? Hh]. split; [by apply frame_cursor|]. by apply frame_held.
  - destruct Hp as (? & Hh & Hd). destruct (frame_held m c Hmn Hh) as [Hh' Hd'].
    split; [by apply frame_cursor|]. split; [done|congruence].
  - destruct Hp as (? & Hh & Hd). destruct (frame_held m c Hmn Hh) as [Hh' Hd'].
    split; [by apply frame_cursor|]. split; [done|congruence].
  - destruct Hp as (? & ? & Hv). split; [by apply frame_cursor|]. split; [by apply frame_claimed|]. by rewrite Ht.
  - destruct Hp as (? & ? & -> & Hv). split_and!; [by apply frame_cursor|by apply frame_claimed| |done].
    by rewrite Ht.
  - destruct Hp as (? & ? & Hv & -> & Hd). rewrite Ht, frame_index by done.
    split_and!; [by apply frame_cursor|by apply frame_claimed|done|done|].
    by rewrite (fr_data _ _ _ _ _ Hf) by by apply index_inserted.
  - destruct Hp as [Hh Hfd]. split; [by apply frame_held|by apply frame_found].
  - destruct Hp as (Hh & Hi & Hd & ->). split_and!; [by apply frame_held|by apply frame_inserted| |].
    + by apply frame_found.
    + symmetry. apply (frame_word m); [done|]. rewrite N.Div0.div_div. apply Hh.
  - destruct Hp as [?|(Hi & H2 & Hd)]; [by left|right]. split_and!; [by apply frame_inserted|done|by apply frame_found].
Qed.
End frame.

Lemma frame_same n owner s : frame n owner owner s s.
Proof. by split. Qed.

(** The step of worker [n] that leaves the others alone. *)
Lemma sys_ok_step ws owner owner' s s' n w' :
  frame n owner owner' s s' -> shared_ok owner' s' -> worker_ok owner' s' n w' ->
  (forall m w, ws !! m = Some w -> worker_ok owner s m w) -> sys_ok (mk_sys s' (<[n := w']> ws)).
Proof.
  intros Hf Hs Hw Hws. exists owner'. split; [done|]. cbn. intros m w. destruct (decide (m = n)) as [->|Hmn].
  - rewrite lookup_insert_eq. by intros [= <-].
  - rewrite lookup_insert_ne by done. intros Hm. eapply frame_worker; [exact Hf|done|by apply Hws].
Qed.

(** ** Cursors *)

Lemma shared_mask owner s :
  shared_ok owner s -> exists K, 3 <= K /\ K <= 64 /\ mask s = 2 ^ K - 1 /\ table_size s = 2 ^ K.
Proof.
  intros Hs. destruct (so_size _ s Hs) as (K & HK & Hz). exists K.
  rewrite (so_mask _ s Hs), Hz. split_and!; lia || done.
Qed.

Lemma first_cursor_ok owner s a b r c :
  shared_ok owner s -> at_cursor s (mk_worker a b r c) (first_cursor s a b).
Proof.
  intros Hs. exists 0. pose proof (so_th _ s Hs). unfold cursor_ok, place, first_cursor, w_hash. cbn -[N.mul N.div].
  assert (w64 (key_hash None a b + 0 / 8 * probe_step (key_hash None a b)) = key_hash None a b) as Hw.
  { rewrite N.div_small, N.mul_0_l, N.add_0_r by lia. apply w64_small, key_hash_lt. }
  destruct (shared_mask _ s Hs) as (K & HK3 & HK64 & Hm & _).
  pose proof (probe_start (key_hash None a b) K HK3 HK64 0) as Hp. rewrite N.mul_0_r in Hp. rewrite <- Hm in Hp.
  rewrite Hp. unfold line_base. change (0 / 8) with 0. change (0 / 8) with 0 in Hw. rewrite Hw.
  split_and!; [lia|done..|lia].
Qed.

Lemma next_place owner s w p k :
  shared_ok owner s -> place s w p k ->
  match next_cursor s w p with None => True | Some p' => place s w p' (k + 1) end.
Proof.
  intros Hs (Hk & Hi & Hl & Hn & Hh). destruct (shared_mask _ s Hs) as (K & HK3 & HK64 & Hm & _).
  unfold next_cursor. rewrite Hi, Hl, Hn, Hh, Hm, (next_idx_last (w_hash w) K), <- Hm by done.
  case_bool_decide as Hk8.
  - destruct (div8_end k Hk8) as [Hdiv Hk1]. destruct (N.eqb_spec (k / 8 + 1) (threshold s)) as [Hth|Hth]; [done|].
    rewrite Hm, (line_step (w_hash w) K), <- Hm by done. fold (line_base (w_hash w) (mask s) (k / 8 + 1)).
    unfold place. cbn [at_idx at_last at_i at_hash]. rewrite Hdiv. split_and!; try done.
    + clear -Hk Hth Hk8. modlia.
    + rewrite Hk1, Hm, (probe_start (w_hash w) K) by done. done.
  - pose proof (div8_in k Hk8) as Hdiv. rewrite Hm, (next_idx_probe (w_hash w) K), decide_False, <- Hm by done.
    unfold place. cbn [at_idx at_last at_i at_hash]. rewrite Hdiv. split_and!; try done. clear -Hk Hk8. modlia.
Qed.

Lemma next_cursor_ok owner s w p k :
  shared_ok owner s -> cursor_ok s w p k -> other_key s w (at_idx p) ->
  match next_cursor s w p with None => True | Some p' => at_cursor s w p' end.
Proof.
  intros Hs [Hp Hb] Ho. pose proof (next_place owner s w p k Hs Hp) as Hn. destruct Hp as (_ & Hi & _).
  destruct (next_cursor s w p) as [p'|]; [|done]. exists (k + 1). split; [done|].
  intros k' Hk'. destruct (decide (k' = k)) as [->|]; [by rewrite <- Hi|]. apply Hb. lia.
Qed.

Lemma advance_ok owner s n w p c :
  shared_ok owner s -> at_cursor s w p -> other_key s w (at_idx p) -> claimed owner s n w c ->
  pc_ok owner s n w (advance s w p c).
Proof.
  intros Hs (k & Hk) Ho Hc. pose proof (next_cursor_ok owner s w p k Hs Hk Ho) as Hn. unfold advance.
  destruct (next_cursor s w p) as [p'|]; [done|by left].
Qed.

(** ** Claims *)

Lemma regions_pos owner s : shared_ok owner s -> 0 < regions s.
Proof.
  intros Hs. destruct (so_size _ s Hs) as (K & HK & Hz). unfold regions. rewrite Hz. change (64 * 8) with (2 ^ 9).
  apply N.div_str_pos. split; [done|]. apply N.pow_le_mono_r; lia.
Qed.

Lemma try_region_ok owner s n w p region count :
  shared_ok owner s -> at_cursor s w p -> pc_ok owner s n w (try_region s p region count).
Proof.
  intros Hs Hc. unfold try_region. destruct (count =? 0); [by left|]. split; [done|].
  pose proof (regions_pos owner s Hs). unfold next_region. destruct (N.leb_spec (regions s) (add64 region 1)); lia.
Qed.

Lemma claim_ok owner s n w p :
  shared_ok owner s -> at_cursor s w p -> (region_of w = minus1_64 \/ owner !! region_of w = Some n) ->
  pc_ok owner s n w (claim s n w p).
Proof.
  intros Hs Hc Hr. unfold claim. destruct (N.eqb_spec (region_of w) minus1_64) as [Hm|Hm]; [by apply try_region_ok|].
  destruct Hr as [?|Hr]; [done|]. by split.
Qed.

(** ** The steps that write *)

(** [*ptr |= bit], in a region of the worker, of the first bit that is clear. *)
Lemma free_bit owner s r i v :
  shared_ok owner s -> i < 8 -> v = mget (bitmap2 s) (r * 8 + i) -> v <> 0xffffffffffffffff ->
  let j := clz64 (not64 v) in let c := (8 * r + i) * 64 + j in
  c / 512 = r /\ bm_get (bitmap2 s) c = false /\
  mset (bitmap2 s) (r * 8 + i) (N.lor v (N.shiftr 0x8000000000000000 j)) = bm_set (bitmap2 s) c.
Proof.
  intros Hs Hi -> Hv j c.
  assert (scan_region 1 (bitmap2 s) r i = Some (i, j)) as Hscan.
  { cbn [scan_region]. apply N.eqb_neq in Hv. by rewrite Hv. }
  apply scan_region_Some in Hscan as (_ & Hj & Hbit); [|apply (so_words _ s Hs)].
  destruct (scan_region_bucket (bitmap2 s) r i j Hi Hj Hbit) as [Hb Hset]. split; [|done].
  unfold c. revert Hi Hj. generalize j. clear. intros j Hi Hj. modlia.
Qed.

Lemma mset_bits s c v' :
  is64 v' -> forall x, is64 (mget (bitmap2 s) x) -> is64 (mget (mset (bitmap2 s) c v') x).
Proof. intros Hv x Hx. rewrite mget_mset. by case_decide. Qed.

Lemma set_bit_ok owner s n c :
  shared_ok owner s -> owner !! (c / 512) = Some n -> bm_get (bitmap2 s) c = false ->
  let s' := upd_bitmap2 (fun bm => bm_set bm c) s in
  shared_ok owner s' /\ frame n owner owner s s' /\ held owner s' n c.
Proof.
  intros Hs Ho Hb s'. assert (~ inserted s c) as Hni by (intros Hi; destruct (so_bit _ s Hs c Hi); congruence).
  assert (forall x, bm_get (bitmap2 s) x = true -> bm_get (bitmap2 s') x = true) as Hmono.
  { intros x Hx. cbn. by rewrite bm_get_set, Hx, orb_true_r. }
  split; [|split].
  - pose proof (so_words _ s Hs) as Hwd. destruct Hs. split; try done; cbn.
    + intros x. unfold bm_set. rewrite mget_mset. case_decide; [|done]. apply lor_lt; [apply Hwd|].
      rewrite bm_mask_pow2. apply N.pow_lt_mono_r; [done|]. clear. modlia.
    + split; apply Hmono; apply so_reserved0.
    + intros c' Hc'. split; [by apply so_bit0|]. by apply Hmono, so_bit0.
  - split; try done. intros x Hx. cbn. unfold bm_set. rewrite mget_mset_ne; [done|]. intros <-.
    rewrite N.Div0.div_div in Hx. done.
  - destruct (so_reserved _ s Hs) as [H0 H1]. destruct (so_owner _ s Hs _ _ Ho) as [Hr _]. split; [done|].
    split; [|by split; [cbn; apply bm_get_set_eq|]].
    assert (c <> 0 /\ c <> 1) as [? ?] by (split; intros ->; congruence).
    split; [lia|]. cbn. destruct (so_size _ s Hs) as (K & HK & Hz). unfold regions in Hr. change (64 * 8) with 512 in Hr.
    clear -Hr. modlia.
Qed.

(** [*ptr &= ~mask]: the claimed bucket is free again. *)
Lemma clear_bit_ok owner s n c :
  shared_ok owner s -> held owner s n c ->
  let s' := upd_bitmap2 (fun bm => bm_clear bm c) s in
  shared_ok owner s' /\ frame n owner owner s s'.
Proof.
  intros Hs (Ho & Hc & Hb & Hni) s'.
  assert (forall x, x <> c -> bm_get (bitmap2 s) x = true -> bm_get (bitmap2 s') x = true) as Hmono.
  { intros x Hne Hx. cbn. by rewrite bm_get_clear, Hx, bool_decide_eq_true_2. }
  split.
  - pose proof (so_words _ s Hs) as Hwd. destruct Hs. split; try done; cbn.
    + intros x. unfold bm_clear. rewrite mget_mset. case_decide; [|done]. apply land_lt, Hwd.
    + split; apply Hmono; try apply so_reserved0; lia.
    + intros c' Hc'. split; [by apply so_bit0|]. apply Hmono; [by intros ->|]. by apply so_bit0.
  - split; try done. intros x Hx. cbn. unfold bm_clear. rewrite mget_mset_ne; [done|]. intros <-.
    rewrite N.Div0.div_div in Hx. done.
Qed.

(** The compare-and-swap that claims a region. *)
Lemma region_ok_step owner s n r v :
  shared_ok owner s -> r < regions s -> N.land v (bm_mask r) = 0 -> mget (bitmap1 s) (r / 64) = v ->
  let s' := upd_bitmap1 (fun bm => mset bm (r / 64) (N.lor v (bm_mask r))) s in
  shared_ok (<[r := n]> owner) s' /\ frame n owner (<[r := n]> owner) s s'.
Proof.
  intros Hs Hr Hv <- s'. assert (owner !! r = None) as Hno.
  { destruct (owner !! r) as [m|] eqn:Ho; [|done]. destruct (so_owner _ s Hs _ _ Ho) as [_ Hb].
    unfold bm_get in Hb. by rewrite Hv in Hb. }
  split.
  - destruct Hs. split; try done. intros r' m. cbn. fold (bm_set (bitmap1 s) r). rewrite bm_get_set.
    destruct (decide (r = r')) as [<-|Hne].
    + rewrite bool_decide_eq_true_2 by done. done.
    + rewrite lookup_insert_ne by done. intros Ho. destruct (so_owner0 _ _ Ho) as [? ->]. by rewrite orb_true_r.
  - split; try done. intros r' m Ho. rewrite lookup_insert_ne; [done|]. congruence.
Qed.

(** Writing the data of a bucket that is held. *)
Lemma write_ok owner s n c d :
  shared_ok owner s -> held owner s n c ->
  let s' := upd_data (fun _ => mset (data s) c d) s in
  shared_ok owner s' /\ frame n owner owner s s' /\ held owner s' n c /\ data_at s' c = d.
Proof.
  intros Hs Hh s'. pose proof Hh as (Ho & Hc & Hb & Hni).
  assert (forall x, x <> c -> data_at s' x = data_at s x) as Hd.
  { intros x Hx. unfold data_at. cbn. unfold mset. by rewrite lookup_insert_ne. }
  assert (forall x, inserted s x -> data_at s' x = data_at s x) as Hdi by (intros x Hx; apply Hd; congruence).
  assert (forall x, inserted s x -> hash_of s' x = hash_of s x) as Hhi.
  { intros x Hx. unfold hash_of. by rewrite Hdi. }
  split; [|split; [|split; [done|]]].
  - destruct Hs. split; try done.
    + intros x Hx. rewrite Hd by lia. by apply so_zero0.
    + intros q Hq. cbn in Hq |- *. change (index_at s' q) with (index_at s q).
      rewrite Hhi by by apply index_inserted. by apply so_slot0.
    + intros x Hx H2. destruct (so_found0 x Hx H2) as (k & Hk). exists k. unfold reachable_at in *. by rewrite Hhi.
    + intros x x' Hx Hx'. rewrite !Hdi by done. by apply so_inj0.
  - split; try done. intros x Hx. split; [|done]. apply Hd. congruence.
  - unfold data_at. cbn. unfold mset. by rewrite lookup_insert_eq.
Qed.

Lemma inserted_lt40 owner s c : shared_ok owner s -> c < table_size s -> c < 2 ^ 40.
Proof.
  intros Hs Hc. destruct (so_size _ s Hs) as (K & HK & Hz). rewrite Hz in Hc.
  eapply N.lt_le_trans; [exact Hc|]. apply N.pow_le_mono_r; lia.
Qed.

Lemma hash_of_64 s c : is64 (hash_of s c).
Proof. apply key_hash_lt. Qed.

(** A key that is in the table is not behind a cursor, nor at an empty slot that it is at. *)
Lemma absent owner s w p k x :
  shared_ok owner s -> cursor_ok s w p k -> mget (table s) (at_idx p) = 0 ->
  inserted s x -> 2 <= x -> data_at s x <> (key_a w, key_b w).
Proof.
  intros Hs ((_ & Hi & _ & _ & _) & Hb) H0 Hx H2 Hd. destruct (so_found _ s Hs x Hx H2) as (k0 & _ & Hat & Hbefore).
  assert (hash_of s x = w_hash w) as Hh by (unfold hash_of, w_hash; by rewrite Hd).
  rewrite Hh in *. rewrite Hi in H0. destruct (N.lt_trichotomy k0 k) as [Hlt|[->|Hgt]].
  - destruct (Hb k0 Hlt) as [_ Hno]. apply Hno. unfold index_at. rewrite Hat.
    destruct (so_bit _ s Hs x Hx) as [Hxs _].
    destruct (entry_parts (w_hash w) x) as [-> ->]; [apply key_hash_lt|by eapply inserted_lt40|done].
  - rewrite H0 in Hat. symmetry in Hat. apply entry_nonzero in Hat; [done|lia].
  - by apply (Hbefore k).
Qed.

(** The compare-and-swap that makes the bucket visible. *)
Lemma cas_ok owner s n w p c :
  shared_ok owner s -> at_cursor s w p -> held owner s n c -> data_at s c = (key_a w, key_b w) ->
  mget (table s) (at_idx p) = 0 ->
  let s' := upd_table (fun t => mset t (at_idx p) (N.lor (N.land (w_hash w) MASK_HASH) c)) s in
  shared_ok owner s' /\ frame n owner owner s s' /\ forall x, inserted s' x <-> inserted s x \/ x = c.
Proof.
  intros Hs [k Hk] (Ho & [H2 Hc] & Hb & Hni) Hd H0 s'. set (q0 := at_idx p) in *.
  assert (hash_of s c = w_hash w) as Hh by (unfold hash_of, w_hash; by rewrite Hd).
  assert (forall q, mget (table s') q = if decide (q0 = q) then entry (w_hash w) c else mget (table s) q) as Ht.
  { intros q. cbn. apply mget_mset. }
  assert (forall q, mget (table s) q <> 0 -> mget (table s') q = mget (table s) q) as Hkeep.
  { intros q Hq. rewrite Ht. case_decide; [congruence|done]. }
  destruct (entry_parts (w_hash w) c) as [Hpi Hph]; [apply key_hash_lt|by eapply inserted_lt40|].
  assert (entry (w_hash w) c <> 0) as Hnz by (apply entry_nonzero; lia).
  assert (forall x, inserted s' x <-> inserted s x \/ x = c) as Hins.
  { intros x. split.
    - intros (q & Hq & Hx). rewrite Ht in Hq, Hx. case_decide; [right; congruence|left; by exists q].
    - intros [(q & Hq & Hx)| ->]; [exists q; by rewrite Hkeep|]. exists q0. by rewrite Ht, decide_True. }
  assert (forall x, inserted s x -> 2 <= x -> data_at s x <> data_at s c) as Hnew.
  { intros x Hx Hx2. rewrite Hd. by apply (absent owner s w p k). }
  split; [|split; [|exact Hins]].
  - pose proof Hs as []. split; try done.
    + intros q. unfold index_at. change (hash_of s') with (hash_of s). rewrite Ht. case_decide; [|apply so_slot0].
      intros _. by rewrite Hpi, Hh.
    + intros x [Hx| ->]%Hins; [by apply so_bit0|done].
    + intros x Hx Hx2. change (reachable_at s') with (fun x k => k < 8 * threshold s /\
        mget (table s') (probe (hash_of s x) (mask s) k) = entry (hash_of s x) x /\
        forall k', k' < k -> mget (table s') (probe (hash_of s x) (mask s) k') <> 0). cbn beta.
      apply Hins in Hx as [Hx| ->].
      * destruct (so_found0 x Hx Hx2) as (k0 & Hk0 & Hat & Hbef). exists k0. split; [done|].
        rewrite Hkeep; [|rewrite Hat; apply entry_nonzero; lia]. split; [done|].
        intros k' Hk'. rewrite Hkeep by by apply Hbef. by apply Hbef.
      * exists k. destruct Hk as ((Hlt & Hi & _) & Hbef). rewrite Hh, Ht. split; [done|].
        split; [by rewrite decide_True|]. intros k' Hk'. destruct (Hbef k' Hk') as [Hz _]. by rewrite Hkeep.
    + intros x x' Hx Hx' Hx2 Hx2'. change (data_at s') with (data_at s).
      apply Hins in Hx as [Hx| ->]; apply Hins in Hx' as [Hx'| ->]; [by apply so_inj0|..].
      * intros Heq. by destruct (Hnew x Hx Hx2).
      * intros Heq. by destruct (Hnew x' Hx' Hx2').
      * done.
  - split; try done. intros x Hx. split; [done|]. intros [?| ->]%Hins; done.
Qed.

(** ** Steps *)

Definition step_post owner s n (o : llmsset * worker) : Prop :=
  exists owner', frame n owner owner' s o.1 /\ shared_ok owner' o.1 /\ worker_ok owner' o.1 n o.2.

(** A step that writes nothing. *)
Lemma step_reads owner s n w c :
  shared_ok owner s -> worker_ok owner s n w -> ~ idle w -> pc_ok owner s n w c ->
  step_post owner s n (s, goto c w).
Proof.
  intros Hs [Hr Hk Hp] Hidle Hc. exists owner. split; [apply frame_same|]. split; [done|].
  split; [done| |done]. right. cbn. by destruct Hk.
Qed.

(** A step that writes, and leaves the worker with its region and its key. *)
Lemma step_writes owner s s' n w c :
  shared_ok owner s' -> frame n owner owner s s' -> worker_ok owner s n w -> ~ idle w ->
  pc_ok owner s' n w c -> step_post owner s n (s', goto c w).
Proof.
  intros Hs Hf [Hr Hk Hp] Hidle Hc. exists owner. split; [done|]. split; [done|].
  split; [done| |done]. right. cbn. by destruct Hk.
Qed.

Lemma cursor_idx s w p k q : cursor_ok s w p k -> at_idx p = q -> probe (w_hash w) (mask s) k = q.
Proof. intros ((_ & Hi & _) & _) <-. done. Qed.

Lemma match_inserted owner s w q :
  shared_ok owner s -> mget (table s) q <> 0 -> data_at s (index_at s q) = (key_a w, key_b w) ->
  (key_a w, key_b w) <> (0, 0) -> inserted s (index_at s q) /\ 2 <= index_at s q.
Proof.
  intros Hs Hq Hd Hk. split; [by apply index_inserted|].
  destruct (N.lt_ge_cases (index_at s q) 2) as [Hlt|]; [|done]. rewrite (so_zero _ s Hs) in Hd by done. congruence.
Qed.

Lemma step_ok owner s n w o :
  shared_ok owner s -> worker_ok owner s n w -> step n s w = Some o -> step_post owner s n o.
Proof.
  intros Hs Hw. pose proof Hw as [Hr Hk Hp]. unfold step.
  destruct (at_pc w) as [|p c|p i|p i v|p r k|p r k v|p c|p c|p c|p c|p c v|p c d|d c|d c v|c cr] eqn:Hpc;
    [done|..|done]; cbn in Hp;
    (assert (~ idle w) as Hni by (unfold idle; rewrite Hpc; tauto));
    (assert ((key_a w, key_b w) <> (0, 0)) as Hkey by (by destruct Hk)).
  - destruct Hp as [Hc Hcl]. intros [= <-]. apply step_reads; [done..|].
    destruct (N.eqb_spec (mget (table s) (at_idx p)) 0) as [E|E]; [|by split].
    destruct (N.eqb_spec c 0) as [->|Hc0]; [by apply claim_ok|]. destruct Hcl as [?|[? ?]]; [done|by split].
  - destruct Hp as [Hc Ho]. destruct (N.leb_spec 8 i) as [Hi|Hi]; intros [= <-]; apply step_reads; try done.
    + by apply try_region_ok.
    + destruct (N.eqb_spec (mget (bitmap2 s) (region_of w * 8 + i)) 0xffffffffffffffff) as [E|E]; [done|].
      split_and!; done.
  - destruct Hp as (Hc & Ho & Hi & Hv & Hne). intros [= <-].
    destruct (free_bit owner s (region_of w) i v Hs Hi Hv Hne) as (Hreg & Hb & Hset).
    set (c := (8 * region_of w + i) * 64 + clz64 (not64 v)) in *. rewrite <- Hreg in Ho.
    destruct (set_bit_ok owner s n c Hs Ho Hb) as (Hs' & Hf & Hh). revert Hs' Hf Hh. unfold upd_bitmap2. rewrite <- Hset.
    intros Hs' Hf Hh. eapply step_writes; [exact Hs'|exact Hf|done|done|]. split; [by eapply frame_cursor|done].
  - destruct Hp as [Hc Hlt]. intros [= <-]. apply step_reads; [done..|].
    destruct (N.eqb_spec (N.land (mget (bitmap1 s) (r / 64)) (bm_mask r)) 0) as [E|E]; cbn [negb].
    + by split.
    + by apply try_region_ok.
  - destruct Hp as (Hc & Hlt & Hm).
    destruct (N.eqb_spec (mget (bitmap1 s) (r / 64)) v) as [E|E]; intros [= <-]; [|by apply step_reads].
    destruct (region_ok_step owner s n r v Hs Hlt Hm E) as [Hs' Hf]. exists (<[r := n]> owner).
    split; [done|]. split; [done|]. split; cbn.
    + right. apply lookup_insert_eq.
    + by right.
    + split; [by apply (frame_cursor _ _ _ _ _ Hf w)|]. apply lookup_insert_eq.
  - destruct Hp as [Hc Hh]. intros [= <-].
    destruct (write_ok owner s n c (key_a w, (data_at s c).2) Hs Hh) as (Hs' & Hf & Hh' & Hd).
    eapply step_writes; [exact Hs'|exact Hf|done|done|]. split; [by eapply frame_cursor|]. split; [done|]. exact (f_equal fst Hd).
  - destruct Hp as (Hc & Hh & Ha). intros [= <-].
    destruct (write_ok owner s n c ((data_at s c).1, key_b w) Hs Hh) as (Hs' & Hf & Hh' & Hd).
    eapply step_writes; [exact Hs'|exact Hf|done|done|]. split; [by eapply frame_cursor|]. split; [done|].
    etrans; [exact Hd|]. by rewrite Ha.
  - destruct Hp as (Hc & Hh & Hd). destruct (N.eqb_spec (mget (table s) (at_idx p)) 0) as [E|E]; intros [= <-].
    + destruct (cas_ok owner s n w p c Hs Hc Hh Hd E) as (Hs' & Hf & Hi).
      eapply step_writes; [exact Hs'|exact Hf|done|done|]. right. split; [apply Hi; by right|]. destruct Hh as (_ & ? & _). by split; [lia|].
    + apply step_reads; try done. split_and!; [done| |done]. by right.
  - destruct Hp as (Hc & Hcl & Hv). intros [= <-]. apply step_reads; [done..|]. by split_and!.
  - destruct Hp as (Hc & Hcl & -> & Hv). intros [= <-]. apply step_reads; [done..|].
    destruct (N.eqb_spec (N.land (w_hash w) MASK_HASH) (N.land (mget (table s) (at_idx p)) MASK_HASH)) as [Eh|Eh];
      [destruct (N.eqb_spec (data_at s (N.land (mget (table s) (at_idx p)) MASK_INDEX)).1 (key_a w)) as [Ea|Ea]|];
      cbn [andb]; [by split_and!| |]; apply advance_ok; try done; (split; [done|]); intros [He Hd]; [|done].
    apply Ea. unfold index_at in Hd. by rewrite Hd.
  - destruct Hp as (Hc & Hcl & Hv & -> & Ha). intros [= <-]. apply step_reads; [done..|].
    destruct (N.eqb_spec (data_at s (index_at s (at_idx p))).2 (key_b w)) as [Eb|Eb].
    + assert (data_at s (index_at s (at_idx p)) = (key_a w, key_b w)) as Hd.
      { destruct (data_at s (index_at s (at_idx p))). cbn in *. congruence. }
      destruct (match_inserted owner s w (at_idx p) Hs Hv Hd Hkey) as [Hi H2].
      destruct (N.eqb_spec c 0) as [->|Hc0]; [by right|]. destruct Hcl as [?|[Hh _]]; [done|]. by split_and!.
    + apply advance_ok; try done. split; [done|]. intros [_ Hd]. apply Eb. by rewrite Hd.
  - destruct Hp as (Hh & Hi & Hd). intros [= <-]. apply step_reads; [done..|]. by split_and!.
  - destruct Hp as (Hh & Hi & Hd & ->). intros [= <-]. destruct (clear_bit_ok owner s n c Hs Hh) as [Hs' Hf].
    eapply step_writes; [exact Hs'|exact Hf|done|done|]. right. split; [done|]. split; [|done].
    destruct (N.lt_ge_cases d 2) as [Hlt|]; [|done]. rewrite (so_zero _ s Hs) in Hd by done. congruence.
Qed.

Lemma sys_step_ok c c' : sys_step c c' -> sys_ok c -> sys_ok c'.
Proof.
  intros Hstep (owner & Hs & Hws). destruct Hstep as [s ws n w a b Hn Hidle Hab|s ws n w s' w' Hn Hst]; cbn in *.
  - apply (sys_ok_step ws owner owner s s); [apply frame_same|done| |done].
    destruct (Hws n w Hn) as [Hr _ _]. split; [done|by right|]. split; [by eapply first_cursor_ok|by left].
  - destruct (step_ok owner s n w (s', w') Hs (Hws n w Hn) Hst) as (owner' & Hf & Hs' & Hw').
    by apply (sys_ok_step ws owner owner' s s').
Qed.

(** ** The start *)

Lemma started_ok s n : inv s -> sys_ok (started s n).
Proof.
  intros [Hs Hsl Hfi]. exists ∅. split; cbn.
  - assert (forall c, inserted s c -> (used s c \/ c < 2) /\ exists q, mget (table s) q = entry (hash_of s c) c) as Hins.
    { intros c (q & Hq & <-). destruct (Hsl q Hq) as (c & Hu & Hc). rewrite Hc.
      destruct (entry_parts (hash_of s c) c) as [-> _]; [apply key_hash_lt| |by eauto].
      destruct Hu as [Hu|Hlt]; [by eapply used_lt40|]. eapply N.lt_trans; [exact Hlt|done]. }
    pose proof Hs as []. split; try done.
    + intros q Hq. destruct (Hsl q Hq) as (c & Hu & Hc). unfold index_at. rewrite Hc.
      destruct (entry_parts (hash_of s c) c) as [-> _]; [apply key_hash_lt| |done].
      destruct Hu as [Hu|Hlt]; [by eapply used_lt40|]. eapply N.lt_trans; [exact Hlt|done].
    + intros c Hc. destruct (Hins c Hc) as [[(? & ? & ?)|Hlt] _]; [done|]. pose proof (shape_512 s Hs).
      assert (c = 0 \/ c = 1) as [-> | ->] by lia; (split; [lia|done]).
    + intros c Hc H2. destruct (Hins c Hc) as [[Hu|Hlt] _]; [|lia]. apply (Hfi c Hu).
    + intros c c' Hc Hc' H2 H2'. destruct (Hins c Hc) as [[Hu|?] _]; [|lia]. destruct (Hins c' Hc') as [[Hu'|?] _]; [|lia].
      by apply sh_inj.
  - intros m w Hm. apply elem_of_list_to_map_2, list_elem_of_fmap in Hm as (i & [= _ ->] & _).
    split; [by left|by left|done].
Qed.

Lemma reach_ok s n c : inv s -> rtc sys_step (started s n) c -> sys_ok c.
Proof.
  intros Hi Hr. assert (sys_ok (started s n)) as H0 by by apply started_ok.
  induction Hr as [|c1 c2 c3 Hs _ IH]; [done|]. apply IH. by eapply sys_step_ok.
Qed.
End TableConcFacts.
