(* ===== verification/TableConcWait.v ===== *)
(** How long a lookup takes among others: a bound on the steps that are left, which every step of
    the worker lowers and no step of another worker raises.  A compare-and-swap for a region may
    fail again and again, but only after another worker has claimed a region for good. *)

From S2P Require Import Prelude SylvanHash SylvanTable SylvanTableFacts TableConc TableConcFacts.

Module TableConcWait.
Import Hash LLMSSet LLMSSetFacts TableConc TableConcFacts.

#[local] Opaque key_hash.

Implicit Types (s : llmsset) (w : worker) (owner : gmap N N).

(** ** The steps that are left *)

(** The regions that no worker has claimed. *)
Definition free s : N := regions s - count_range (N.to_nat (regions s)) (bitmap1 s) 0.

(** The most steps that it takes to claim a bucket after a region. *)
Definition per_region s : N := 3 * regions s + 20.

Definition max_steps s : N := 40 * threshold s + 4 + (regions s + 1) * per_region s.

Definition unclaimed s (cidx : N) : N := if cidx =? 0 then free s * per_region s + per_region s else 0.

(** With [r] positions of the probe sequence left, the one of the cursor included. *)
Definition budget s (c : pc) (r : N) : N :=
  match c with
  | Idle | Return _ _ => 0
  | ClearBit _ _ _ => 1
  | ReadBit _ _ => 2
  | Match1 _ c _ => 5 * r + unclaimed s c
  | Match0 _ c _ => 5 * r + 1 + unclaimed s c
  | Reload _ c => 5 * r + 2 + unclaimed s c
  | Cas _ _ => 5 * r + 3
  | Load _ c => 5 * r + 4 + unclaimed s c
  | Write1 _ _ => 5 * r + 4
  | Write0 _ _ => 5 * r + 5
  | SetBit _ _ _ => 5 * r + 6
  | Scan _ i => 5 * r + 7 + free s * per_region s + (3 * regions s + 5 + (9 - i))
  | ReadRegion _ _ count => 5 * r + 7 + free s * per_region s + (3 * count + 2)
  | CasRegion _ region count v =>
      5 * r + 7 + free s * per_region s +
      (3 * count + (if mget (bitmap1 s) (region / 64) =? v then 1 else 3))
  end.

Definition cursor_of (c : pc) : option cursor :=
  match c with
  | Load p _ | Scan p _ | SetBit p _ _ | ReadRegion p _ _ | CasRegion p _ _ _ | Write0 p _
  | Write1 p _ | Cas p _ | Reload p _ | Match0 p _ _ | Match1 p _ _ => Some p
  | Idle | ReadBit _ _ | ClearBit _ _ _ | Return _ _ => None
  end.

(** At most [m] steps are left to worker [w]. *)
Definition within s w (m : N) : Prop :=
  exists k, match cursor_of (at_pc w) with Some p => place s w p k | None => True end /\
    budget s (at_pc w) (8 * threshold s - k) <= m.

Lemma within_le s w m m' : within s w m -> m <= m' -> within s w m'.
Proof. intros (k & Hp & Hb) Hm. exists k. split; [done|]. lia. Qed.

(** ** The words of [bitmap1] *)

Definition claims s s' : Prop :=
  bitmap1 s' = bitmap1 s \/
  exists r, r < regions s /\ bm_get (bitmap1 s) r = false /\ bitmap1 s' = bm_set (bitmap1 s) r.

Lemma bm_get_land bm r : N.land (mget bm (r / 64)) (bm_mask r) = 0 -> bm_get bm r = false.
Proof. intros H. unfold bm_get. by rewrite H. Qed.

Lemma step_claims owner s n w o : worker_ok owner s n w -> step n s w = Some o -> claims s o.1.
Proof.
  intros Hw. pose proof (wo_pc _ _ _ _ Hw) as Hp. unfold step.
  destruct (at_pc w) as [|p c|p i|p i v|p r k|p r k v|p c|p c|p c|p c|p c v|p c d|d c|d c v|c cr] eqn:Hpc; try discriminate;
    repeat match goal with |- (if ?b then _ else _) = _ -> _ => destruct b eqn:? end;
    intros Ho; apply (inj Some) in Ho; subst o; cbn [fst]; try (by left).
  right. destruct Hp as (_ & Hr & Hm). exists r. apply N.eqb_eq in Heqb. subst v.
  split; [done|]. split; [by apply bm_get_land|done].
Qed.

Lemma free_set s s' r :
  table_size s' = table_size s -> r < regions s -> bm_get (bitmap1 s) r = false ->
  bitmap1 s' = bm_set (bitmap1 s) r -> free s = free s' + 1.
Proof.
  intros Hz Hr Hb Hs. unfold free. assert (regions s' = regions s) as -> by (unfold regions; by rewrite Hz).
  pose proof (count_range_le (N.to_nat (regions s)) (bm_set (bitmap1 s) r) 0) as Hle. rewrite Hs.
  rewrite count_range_set in * by done. rewrite decide_True in * by lia. lia.
Qed.

Lemma free_claims s s' :
  table_size s' = table_size s -> claims s s' ->
  bitmap1 s' = bitmap1 s /\ free s' = free s \/ free s = free s' + 1.
Proof.
  intros Hz [E|(r & Hr & Hb & Hs)]; [left|right; by eapply free_set].
  split; [done|]. unfold free, regions. by rewrite Hz, E.
Qed.

Lemma free_le s : free s <= regions s.
Proof. unfold free. lia. Qed.

(** ** Steps of other workers *)

Section other.
Context n owner owner' s s' (Hf : frame n owner owner' s s') (Hc : claims s s').

Lemma budget_le c r : budget s' c r <= budget s c r.
Proof.
  pose proof (free_claims s s' (fr_size _ _ _ _ _ Hf) Hc) as Hfree.
  assert (regions s' = regions s) as Hr by (unfold regions; by rewrite (fr_size _ _ _ _ _ Hf)).
  assert (per_region s' = per_region s) as Hw by (unfold per_region; by rewrite Hr).
  assert (per_region s = 3 * regions s + 20) as Hw' by done.
  unfold budget, unclaimed. rewrite Hr, Hw. destruct Hfree as [[-> ->]| ->]; [done|].
  rewrite N.mul_add_distr_r, N.mul_1_l.
  destruct c; repeat match goal with |- context [if ?b then _ else _] => destruct b end; lia.
Qed.

Lemma within_other w m : within s w m -> within s' w m.
Proof.
  intros (k & Hp & Hb). exists k. split.
  - destruct (cursor_of (at_pc w)); [|done]. by eapply frame_place.
  - rewrite (fr_th _ _ _ _ _ Hf). etrans; [apply budget_le|done].
Qed.
End other.

(** ** Steps of the worker *)

(** Going to [c] at the same position, or at the next one. *)
Lemma within_write s s' w w' k p m :
  mask s' = mask s -> threshold s' = threshold s ->
  w_hash w' = w_hash w -> cursor_of (at_pc w') = Some p -> place s w p k ->
  budget s' (at_pc w') (8 * threshold s - k) <= m -> within s' w' m.
Proof.
  intros Hm Ht Hh Hp Hk Hb. exists k. rewrite Hp, Ht. split; [|done]. unfold place. by rewrite Hh, Hm, Ht.
Qed.

Lemma within_goto s w w' k p m :
  w_hash w' = w_hash w -> cursor_of (at_pc w') = Some p -> place s w p k ->
  budget s (at_pc w') (8 * threshold s - k) <= m -> within s w' m.
Proof. by apply within_write. Qed.

Lemma within_out s w m : cursor_of (at_pc w) = None -> budget s (at_pc w) 0 <= m -> within s w m.
Proof.
  intros Hc Hb. exists 0. rewrite Hc. split; [done|]. etrans; [|exact Hb]. by destruct (at_pc w).
Qed.

Lemma within_advance owner s w p c k m :
  shared_ok owner s -> place s w p k -> 5 * (8 * threshold s - k) + unclaimed s c <= m + 1 ->
  within s (goto (advance s w p c) w) m.
Proof.
  intros Hs Hk Hb. pose proof (next_place owner s w p k Hs Hk) as Hn. destruct Hk as [Hk _]. unfold advance.
  destruct (next_cursor s w p) as [p'|]; [|apply within_out; [done|cbn; lia]].
  eapply within_goto; [done|done|exact Hn|]. cbn [budget at_pc goto]. lia.
Qed.

Lemma within_try s w w' p region count k m :
  w_hash w' = w_hash w -> at_pc w' = try_region s p region count -> place s w p k ->
  5 * (8 * threshold s - k) + 7 + free s * per_region s + 3 * count <= m -> within s w' m.
Proof.
  unfold try_region. intros Hh Hc Hk Hb. destruct (N.eqb_spec count 0) as [->|Hc0].
  - apply within_out; rewrite Hc; [done|]. cbn. lia.
  - eapply within_goto; [done|by rewrite Hc|exact Hk|]. rewrite Hc. cbn [budget at_pc goto]. lia.
Qed.

Lemma within_claim s w n p k m :
  place s w p k -> 5 * (8 * threshold s - k) + 4 + unclaimed s 0 <= m + 1 ->
  within s (goto (claim s n w p) w) m.
Proof.
  intros Hk Hb. assert (per_region s = 3 * regions s + 20) as Hw by done.
  unfold claim. cbn [unclaimed N.eqb Pos.eqb] in Hb.
  destruct (region_of w =? minus1_64).
  - eapply within_try; [done|done|exact Hk|]. lia.
  - eapply within_goto; [done|done|exact Hk|]. cbn [budget at_pc goto]. lia.
Qed.

Lemma step_within owner s n w o m :
  shared_ok owner s -> worker_ok owner s n w -> step n s w = Some o -> within s w m ->
  0 < m /\ within o.1 o.2 (m - 1).
Proof.
  intros Hs Hw Hst (k & Hk & Hb). pose proof (wo_pc _ _ _ _ Hw) as Hp. revert Hst. unfold step.
  assert (per_region s = 3 * regions s + 20) as HW by done. pose proof (N.le_0_l (free s * per_region s)).
  destruct (at_pc w) as [|p c|p i|p i v|p r n'|p r n' v|p c|p c|p c|p c|p c v|p c d|d c|d c v|c cr] eqn:Hpc;
    try discriminate; cbn [cursor_of budget] in Hk, Hb.
  - intros [= <-]. cbn [fst snd]. split; [lia|].
    destruct (mget (table s) (at_idx p) =? 0); [destruct (N.eqb_spec c 0) as [->|Hc]|].
    + apply within_claim with k; [done|lia].
    + eapply within_goto; [done|done|exact Hk|]. cbn [budget at_pc goto]. lia.
    + eapply within_goto; [done|done|exact Hk|]. cbn [budget at_pc goto]. lia.
  - destruct (N.leb_spec 8 i) as [Hi|Hi]; intros [= <-]; cbn [fst snd]; (split; [lia|]).
    + eapply within_try; [done|done|exact Hk|]. lia.
    + destruct (_ =? 0xffffffffffffffff); (eapply within_goto; [done|done|exact Hk|]); cbn [budget at_pc goto]; lia.
  - intros Ho; apply (inj Some) in Ho; subst o; cbn [fst snd]. split; [lia|].
    eapply within_write; [| | | |exact Hk|]; [done..|]. cbn [budget at_pc goto]. lia.
  - intros [= <-]; cbn [fst snd]. split; [lia|]. destruct (N.land (mget _ _) _ =? 0); cbn [negb].
    + eapply within_goto; [done|done|exact Hk|]. cbn [budget at_pc goto]. rewrite N.eqb_refl. lia.
    + eapply within_try; [done|done|exact Hk|]. lia.
  - destruct (N.eqb_spec (mget (bitmap1 s) (r / 64)) v) as [E|E]; intros Ho; apply (inj Some) in Ho; subst o; cbn [fst snd];
      (split; [lia|]).
    + destruct Hp as (_ & Hr & Hm). rewrite <- E in Hm. subst v.
      match goal with |- within ?x _ _ => set (s' := x) end.
      pose proof (free_set s s' r eq_refl Hr (bm_get_land _ _ Hm) eq_refl) as Hfree.
      rewrite Hfree, N.mul_add_distr_r, N.mul_1_l in Hb.
      eapply within_write; [| | | |exact Hk|]; [done..|]. cbn [budget at_pc goto].
      change (per_region s') with (per_region s). change (regions s') with (regions s). lia.
    + eapply within_goto; [done|done|exact Hk|]. cbn [budget at_pc goto]. lia.
  - intros Ho; apply (inj Some) in Ho; subst o; cbn [fst snd]. split; [lia|].
    eapply within_write; [| | | |exact Hk|]; [done..|]. cbn [budget at_pc goto]. lia.
  - intros Ho; apply (inj Some) in Ho; subst o; cbn [fst snd]. split; [lia|].
    eapply within_write; [| | | |exact Hk|]; [done..|]. cbn [budget at_pc goto]. lia.
  - destruct Hp as (_ & (_ & [Hc _] & _) & _).
    destruct (_ =? 0); intros Ho; apply (inj Some) in Ho; subst o; cbn [fst snd]; (split; [lia|]).
    + apply within_out; [done|]. cbn. lia.
    + eapply within_goto; [done|done|exact Hk|]. cbn [budget at_pc goto]. unfold unclaimed.
      destruct (N.eqb_spec c 0); lia.
  - intros [= <-]; cbn [fst snd]. split; [lia|].
    eapply within_goto; [done|done|exact Hk|]. cbn [budget at_pc goto]. lia.
  - intros [= <-]; cbn [fst snd]. split; [lia|]. destruct (_ && _).
    + eapply within_goto; [done|done|exact Hk|]. cbn [budget at_pc goto]. lia.
    + eapply within_advance; [exact Hs|exact Hk|]. lia.
  - intros [= <-]; cbn [fst snd]. destruct Hk as [Hlt Hk']. split; [lia|].
    destruct (_ =? key_b w); [destruct (c =? 0); apply within_out; done || (cbn; lia)|].
    eapply within_advance; [exact Hs|by split|]. lia.
  - intros [= <-]; cbn [fst snd]. split; [lia|]. apply within_out; [done|]. cbn. lia.
  - intros Ho; apply (inj Some) in Ho; subst o; cbn [fst snd]. split; [lia|]. apply within_out; [done|]. cbn. lia.
Qed.

(** ** Runs *)

Lemma step_idle n s w : idle w = match step n s w with None => true | Some _ => false end.
Proof.
  unfold step, idle. destruct (at_pc w); try done;
    repeat match goal with |- context [match (if ?b then _ else _) with _ => _ end] => destruct b end; done.
Qed.

(** What a step of a lookup keeps. *)
Definition same_lookup w w' : Prop :=
  key_a w' = key_a w /\ key_b w' = key_b w /\ (at_pc w <> Idle -> at_pc w' <> Idle).

Lemma same_lookup_trans w1 w2 w3 : same_lookup w1 w2 -> same_lookup w2 w3 -> same_lookup w1 w3.
Proof. intros (Ha & Hb & Hi) (Ha' & Hb' & Hi'). split_and!; [congruence..|auto]. Qed.

Lemma step_same n s w o : step n s w = Some o -> same_lookup w o.2.
Proof.
  assert (forall p r k, try_region s p r k <> Idle) as Htry.
  { intros p r k. unfold try_region. by destruct (k =? 0). }
  assert (forall p c, advance s w p c <> Idle) as Hadv.
  { intros p c. unfold advance. by destruct (next_cursor s w p). }
  assert (forall p, claim s n w p <> Idle) as Hclaim.
  { intros p. unfold claim. destruct (_ =? _); [apply Htry|done]. }
  unfold step. destruct (at_pc w) eqn:Hpc; try discriminate;
    repeat match goal with |- (if ?b then _ else _) = _ -> _ => destruct b end;
    intros Ho; apply (inj Some) in Ho; subst o; (split; [done|]; split; [done|]); intros _; cbn [at_pc goto in_region snd];
    repeat match goal with |- (if ?b then _ else _) <> _ => destruct b end;
    first [apply Htry|apply Hadv|apply Hclaim|discriminate].
Qed.

Lemma max_steps_frame n owner owner' s s' : frame n owner owner' s s' -> max_steps s' = max_steps s.
Proof.
  intros Hf. unfold max_steps, per_region, regions. by rewrite (fr_size _ _ _ _ _ Hf), (fr_th _ _ _ _ _ Hf).
Qed.

Lemma within_call owner s a b w : shared_ok owner s -> within s (call_lookup s a b w) (max_steps s).
Proof.
  intros Hs. destruct (first_cursor_ok owner s a b (region_of w) (Load (first_cursor s a b) 0) Hs) as (k & Hk & _).
  exists k. split; [exact Hk|]. cbn [call_lookup at_pc budget]. unfold max_steps, unclaimed. cbn [N.eqb].
  pose proof (N.mul_le_mono_r _ _ (per_region s) (free_le s)). lia.
Qed.

(** The steps that are left after a step of any worker. *)
Lemma worker_step_within s (ws : gmap N worker) owner n w0 o m w b :
  shared_ok owner s -> (forall m w, ws !! m = Some w -> worker_ok owner s m w) ->
  ws !! n = Some w0 -> step n s w0 = Some o -> ws !! m = Some w -> within s w b ->
  exists w', <[n := o.2]> ws !! m = Some w' /\ same_lookup w w' /\
    if decide (n = m) then 0 < b /\ within o.1 w' (b - 1) else within o.1 w' b.
Proof.
  intros Hs Hws Hn Hst Hm Hb. destruct (step_ok owner s n w0 o Hs (Hws _ _ Hn) Hst) as (owner' & Hf & _).
  case_decide as E.
  - subst m. rewrite Hm in Hn. injection Hn as ->. exists o.2. rewrite lookup_insert_eq. split; [done|].
    split; [by eapply step_same|]. eapply step_within; [exact Hs|by apply Hws|exact Hst|done].
  - exists w. rewrite lookup_insert_ne by done. split; [done|]. split; [done|].
    eapply within_other; [exact Hf| |done]. by apply (step_claims owner s n w0), Hst; apply Hws.
Qed.

Lemma reach_within s n c m w :
  inv s -> rtc sys_step (started s n) c -> workers c !! m = Some w -> within (mem c) w (max_steps (mem c)).
Proof.
  intros Hi Hr. revert c Hr m w.
  apply (rtc_ind_r (fun c => forall m w, workers c !! m = Some w -> within (mem c) w (max_steps (mem c))));
    [intros m w Hw|intros c c' Hr Hstep IH m w Hw].
  - apply elem_of_list_to_map_2, list_elem_of_fmap in Hw as (i & [= _ ->] & _).
    apply within_out; [done|]. cbn. lia.
  - destruct (reach_ok s n c Hi Hr) as (owner & Hs & Hws).
    destruct Hstep as [s0 ws n0 w0 a b Hn Hidle Hab|s0 ws n0 w0 s' w' Hn Hst]; cbn [mem workers] in *.
    + destruct (decide (n0 = m)) as [->|Hne].
      * rewrite lookup_insert_eq in Hw. injection Hw as <-. by apply (within_call owner).
      * rewrite lookup_insert_ne in Hw by done. by eapply IH.
    + destruct (step_ok owner s0 n0 w0 (s', w') Hs (Hws _ _ Hn) Hst) as (owner' & Hf & _). cbn [fst snd] in Hf.
      rewrite (max_steps_frame _ _ _ _ _ Hf). destruct (decide (n0 = m)) as [->|Hne].
      * destruct (worker_step_within s0 ws owner m w0 (s', w') m w0 _ Hs Hws Hn Hst Hn (IH _ _ Hn)) as (w1 & Hw1 & _ & Hd).
        cbn [fst snd] in *. rewrite Hw in Hw1. injection Hw1 as <-. rewrite decide_True in Hd by done.
        apply (within_le _ _ _ _ (proj2 Hd)). lia.
      * rewrite lookup_insert_ne in Hw by done.
        destruct (worker_step_within s0 ws owner n0 w0 (s', w') m w _ Hs Hws Hn Hst Hw (IH _ _ Hw)) as (w1 & Hw1 & _ & Hd).
        cbn [fst snd] in *. rewrite lookup_insert_ne, Hw in Hw1 by done. injection Hw1 as <-. by rewrite decide_False in Hd.
Qed.

(** The steps of a worker in a schedule. *)
Definition own (m : N) (schedule : list (N * option (N * N))) : N :=
  N.of_nat (length (filter (fun e => e.1 = m) schedule)).

Lemma own_cons m n what schedule :
  own m ((n, what) :: schedule) = (if decide (n = m) then 1 else 0) + own m schedule.
Proof. unfold own. rewrite filter_cons. cbn [fst]. case_decide; cbn [length]; lia. Qed.

Lemma idle_within s w b : idle w -> within s w b.
Proof. unfold idle. intros Hi. destruct (at_pc w) eqn:Hpc; try done; by apply within_out; rewrite Hpc; cbn; [|lia]. Qed.

Lemma run_within schedule m c w b :
  sys_ok c -> workers c !! m = Some w -> within (mem c) w b -> (forall x, (m, Some x) ∉ schedule) ->
  exists w', workers (run_schedule schedule c) !! m = Some w' /\ same_lookup w w' /\
    (idle w' \/ own m schedule < b).
Proof.
  revert c w b. induction schedule as [|[n what] schedule IH]; intros c w b Hok Hw Hb Hno.
  - exists w. split; [done|]. split; [done|]. destruct (idle w) eqn:Hi; [by left|right].
    rewrite (step_idle m (mem c)) in Hi. destruct (step m (mem c) w) as [o|] eqn:Hst; [|done].
    destruct Hok as (owner & Hs & Hws). exact (proj1 (step_within owner _ m w o b Hs (Hws _ _ Hw) Hst Hb)).
  - assert (forall x, (m, Some x) ∉ schedule) as Hno' by set_solver.
    assert (forall c', sys_ok c' -> (exists w', workers c' !! m = Some w' /\ same_lookup w w' /\
        exists b', within (mem c') w' b' /\ (b' = 0 \/ b' + (if decide (n = m) then 1 else 0) <= b)) ->
      exists w', workers (run_schedule schedule c') !! m = Some w' /\ same_lookup w w' /\
        (idle w' \/ own m ((n, what) :: schedule) < b)) as Hnext.
    { intros c' Hok' (w1 & Hw1 & Hsame & b' & Hb' & Hle). destruct (IH c' w1 b' Hok' Hw1 Hb' Hno') as (w' & Hw' & Hsame' & Hend).
      exists w'. split; [done|]. split; [by eapply same_lookup_trans|]. destruct Hend as [?|Hlt]; [by left|right].
      rewrite own_cons. destruct (decide (n = m)); lia. }
    assert (n <> m \/ idle w -> exists w', workers (run_schedule schedule c) !! m = Some w' /\ same_lookup w w' /\
        (idle w' \/ own m ((n, what) :: schedule) < b)) as Hskip.
    { intros Hnm. apply Hnext; [done|]. exists w. split; [done|]. split; [done|]. destruct (decide (n = m)) as [E|E].
      - exists 0. split; [|by left]. apply idle_within. by destruct Hnm.
      - exists b. split; [done|]. right. lia. }
    destruct c as [s ws]. cbn [run_schedule mem workers] in *.
    destruct (ws !! n) as [w0|] eqn:Hn; [|apply Hskip; left; congruence]. destruct what as [[a1 b1]|].
    + assert (n <> m) as Hne by (intros ->; apply (Hno (a1, b1)); left).
      destruct (idle w0) eqn:Hi; [|by apply Hskip; left]. destruct ((a1 =? 0) && (b1 =? 0)) eqn:Hz; [by apply Hskip; left|].
      cbn [andb negb]. apply Hnext; cbn [workers mem].
      * eapply sys_step_ok; [|exact Hok]. apply step_call; [done|by rewrite Hi|]. intros [= -> ->]. discriminate.
      * exists w. rewrite lookup_insert_ne by done. split; [done|]. split; [done|].
        exists b. split; [done|]. right. rewrite decide_False by done. lia.
    + destruct (step n s w0) as [[s' w']|] eqn:Hst.
      * apply Hnext; cbn [workers mem]; [eapply sys_step_ok; [by apply step_worker with w0|done]|].
        destruct Hok as (owner & Hs & Hws).
        destruct (worker_step_within s ws owner n w0 (s', w') m w b Hs Hws Hn Hst Hw Hb) as (w1 & Hw1 & Hsame & Hd).
        cbn [fst snd] in *. exists w1. split; [done|]. split; [done|].
        destruct (decide (n = m)); [exists (b - 1)|exists b]; intuition lia.
      * apply Hskip. destruct (decide (n = m)) as [E|E]; [right|by left]. subst n.
        assert (w0 = w) as -> by congruence. by rewrite (step_idle m s), Hst.
Qed.
End TableConcWait.
