(* ===== verification/SylvanCache.v ===== *)
(** The operation cache of sylvan/src/sylvan_cache.c and sylvan_cache.h: a lossy hash table
    from keys of three words to a word, one status word per bucket.  The entries are kept as
    the C code keeps them, as consecutive words of one memory, because the six-word entries of
    [cache_put6] overlay two buckets.  The run is that of one worker: a compare-and-swap
    succeeds, and a status word read twice in one call has not changed. *)

From S2P Require Import Prelude SylvanHash.

Module Cache.

Record cache := mk_cache {
  cache_size : N;
  cache_max : N;
  cache_mask : N;
  cache_table : gmap N N;     (* four words per bucket: a, b, c, res *)
  cache_status : gmap N N;    (* one 32-bit status per bucket *)
  next_opid : N
}.

Definition upd_bucket (f : gmap N N -> gmap N N) (g : gmap N N -> gmap N N) (c : cache) : cache :=
  mk_cache (cache_size c) (cache_max c) (cache_mask c) (f (cache_table c)) (g (cache_status c))
    (next_opid c).

(** The new identifier and the incremented counter. *)
Definition cache_next_opid (c : cache) : N * cache :=
  (next_opid c,
   mk_cache (cache_size c) (cache_max c) (cache_mask c) (cache_table c) (cache_status c)
     (add64 (next_opid c) (N.shiftl 1 40))).

Definition prime : N := 1099511628211.
Definition offset_basis : N := 14695981039346656037.

Definition cache_hash (a b c : N) : N :=
  let hash := offset_basis in
  let hash := N.lxor hash (N.shiftr a 32) in
  let hash := mul64 (N.lxor hash a) prime in
  let hash := mul64 (N.lxor hash b) prime in
  mul64 (N.lxor hash c) prime.

Definition cache_hash6 (a b c d e f : N) : N :=
  let hash := offset_basis in
  let hash := N.lxor hash (N.shiftr a 32) in
  let hash := mul64 (N.lxor hash a) prime in
  let hash := mul64 (N.lxor hash b) prime in
  let hash := mul64 (N.lxor hash c) prime in
  let hash := mul64 (N.lxor hash d) prime in
  let hash := mul64 (N.lxor hash e) prime in
  mul64 (N.lxor hash f) prime.

(** ** One-bucket entries *)

Definition cache_get (c : cache) (a b k : N) : option N :=
  let hash := cache_hash a b k in
  let bucket := N.land hash (cache_mask c) in
  let s := mget (cache_status c) bucket in
  if negb (N.land s 0xc0000000 =? 0) then None
  else if negb (N.land (N.lxor s (N.shiftr hash 32)) 0x3fff0000 =? 0) then None
  else if negb (mget (cache_table c) (4 * bucket) =? a)
       || negb (mget (cache_table c) (4 * bucket + 1) =? b)
       || negb (mget (cache_table c) (4 * bucket + 2) =? k) then None
  else Some (mget (cache_table c) (4 * bucket + 3)).

Definition cache_put (c : cache) (a b k res : N) : bool * cache :=
  let hash := cache_hash a b k in
  let bucket := N.land hash (cache_mask c) in
  let s := mget (cache_status c) bucket in
  if negb (N.land s 0x80000000 =? 0) then (false, c)
  else
    let hash_mask := N.land (N.shiftr hash 32) 0x3fff0000 in
    let new_s := N.lor (N.land (s + 1) 0x0000ffff) hash_mask in
    (true,
     upd_bucket
       (fun t => mset (mset (mset (mset t (4 * bucket) a) (4 * bucket + 1) b)
                   (4 * bucket + 2) k) (4 * bucket + 3) res)
       (fun st => mset st bucket new_s) c).

(** ** Two-bucket entries *)

(** The 64-bit view of the status words of buckets [2 * i] and [2 * i + 1]. *)
Definition status_pair (c : cache) (i : N) : N :=
  N.lor (mget (cache_status c) (2 * i)) (N.shiftl (mget (cache_status c) (2 * i + 1)) 32).

Definition status6 (hash : N) : N :=
  let x := N.lor (N.land (N.shiftr hash 32) 0x7fff0000) 0x04000000 in
  N.lor x (shl64 x 32).

Definition cache_get6 (c : cache) (a b k d e f : N) : option (N * N) :=
  let hash := cache_hash6 a b k d e f in
  let i := N.land hash (cache_mask c) / 2 in
  let s := status_pair c i in
  let w n := mget (cache_table c) (8 * i + n) in
  if negb (N.land s 0xffff0000ffff0000 =? status6 hash) then None
  else if negb (w 0 =? a) || negb (w 1 =? b) || negb (w 2 =? k) then None
  else if negb (w 4 =? d) || negb (w 5 =? e) || negb (w 6 =? f) then None
  else Some (w 3, w 7).

Definition cache_put6 (c : cache) (a b k d e f res1 res2 : N) : bool * cache :=
  let hash := cache_hash6 a b k d e f in
  let i := N.land hash (cache_mask c) / 2 in
  let s := status_pair c i in
  if negb (N.land s 0x8000000080000000 =? 0) then (false, c)
  else
    let new_s := status6 hash in
    let new_s := N.lor new_s (N.shiftl (N.land (N.shiftr s 32 + 1) 0xffff) 32) in
    let new_s := N.lor new_s (N.land (add64 s 1) 0xffff) in
    let put t n v := mset t (8 * i + n) v in
    (true,
     upd_bucket
       (fun t => put (put (put (put (put (put (put (put t 0 a) 1 b) 2 k) 4 d) 5 e) 6 f) 3 res1)
                   7 res2)
       (fun st => mset (mset st (2 * i) (N.land new_s 0xffffffff)) (2 * i + 1)
                    (N.shiftr new_s 32)) c).

(** ** Keys of operations *)

Definition cache_get3 (c : cache) (opid dd d2 d3 : N) : option N :=
  cache_get c (N.lor dd opid) d2 d3.
Definition cache_put3 (c : cache) (opid dd d2 d3 res : N) : bool * cache :=
  cache_put c (N.lor dd opid) d2 d3 res.

(** Four diagrams in three words: 20 bits of the fourth and its complement bit go to the
    second word, the other 20 bits to the third. *)
Definition key4_p2 (dd2 dd4 : N) : N :=
  let p2 := N.lor dd2 (shl64 (N.land dd4 0x00000000000fffff) 40) in
  if N.land dd4 0x8000000000000000 =? 0 then p2 else N.lor p2 0x4000000000000000.
Definition key4_p3 (dd3 dd4 : N) : N :=
  N.lor dd3 (shl64 (N.land dd4 0x000000fffff00000) 20).

Definition cache_get4 (c : cache) (opid dd dd2 dd3 dd4 : N) : option N :=
  cache_get3 c opid dd (key4_p2 dd2 dd4) (key4_p3 dd3 dd4).
Definition cache_put4 (c : cache) (opid dd dd2 dd3 dd4 res : N) : bool * cache :=
  cache_put3 c opid dd (key4_p2 dd2 dd4) (key4_p3 dd3 dd4) res.

(** ** Management *)

(** [None] is the [exit(1)] on a bad size. *)
Definition cache_create (size max : N) : option cache :=
  if negb (popcount size =? 1) || negb (popcount max =? 1) then None
  else if max <? size then None
  else Some (mk_cache size max (size - 1) ∅ ∅ (N.shiftl 512 40)).

Definition cache_clear (c : cache) : option cache := cache_create (cache_size c) (cache_max c).
Definition cache_setsize (c : cache) (size : N) : option cache := cache_create size (cache_max c).
Definition cache_getsize (c : cache) : N := cache_size c.
Definition cache_getmaxsize (c : cache) : N := cache_max c.

Fixpoint used_range (n : nat) (st : gmap N N) (i : N) : N :=
  match n with
  | O => 0
  | S n => (if mget st i =? 0 then 0 else 1) + used_range n st (i + 1)
  end.
Definition cache_getused (c : cache) : N :=
  used_range (N.to_nat (cache_size c)) (cache_status c) 0.

(** ** Properties *)

Definition key_neq (a b k a' b' k' : N) : Prop := a <> a' \/ b <> b' \/ k <> k'.

Lemma get_entry c a b k r :
  cache_get c a b k = Some r ->
  let i := N.land (cache_hash a b k) (cache_mask c) in
  mget (cache_table c) (4 * i) = a /\ mget (cache_table c) (4 * i + 1) = b /\
  mget (cache_table c) (4 * i + 2) = k.
Proof.
  unfold cache_get. intros H. cbv zeta.
  destruct (negb _); [done|]. destruct (negb _); [done|].
  destruct (N.eqb_spec (mget (cache_table c) (4 * N.land (cache_hash a b k) (cache_mask c))) a);
    [|done].
  destruct (N.eqb_spec (mget (cache_table c) (4 * N.land (cache_hash a b k) (cache_mask c) + 1)) b);
    [|done].
  destruct (N.eqb_spec (mget (cache_table c) (4 * N.land (cache_hash a b k) (cache_mask c) + 2)) k);
    [|done]. done.
Qed.

(** A hit of the cache after a put is the value put, or a hit of the cache before it. *)
Lemma put_get_other c a b k res a' b' k' r :
  cache_get (cache_put c a b k res).2 a' b' k' = Some r ->
  a' = a /\ b' = b /\ k' = k /\ r = res \/ cache_get c a' b' k' = Some r.
Proof.
  intros H. unfold cache_put in H. destruct (negb _) eqn:Hl; [by right|]. clear Hl.
  cbn [snd] in H. set (i := N.land (cache_hash a b k) (cache_mask c)) in *.
  set (c' := upd_bucket _ _ c) in *.
  set (j := N.land (cache_hash a' b' k') (cache_mask c)).
  destruct (N.eq_dec j i) as [Hji|Hji].
  - left. pose proof (get_entry _ _ _ _ _ H) as He. cbv zeta in He.
    change (cache_mask c') with (cache_mask c) in He. fold j in He. rewrite Hji in He.
    unfold cache_get in H. change (cache_mask c') with (cache_mask c) in H. fold j in H.
    rewrite Hji in H. destruct (negb _); [done|]. destruct (negb _); [done|].
    destruct (_ || _); [done|]. injection H as <-.
    unfold c' in *. cbn [upd_bucket cache_table] in *. rewrite !mget_mset in *.
    decide_addr_in He. decide_addr. destruct He as (<- & <- & <-). done.
  - right. unfold cache_get in *. change (cache_mask c') with (cache_mask c) in H. fold j in H |- *.
    unfold c' in H. cbn [upd_bucket cache_table cache_status] in H.
    rewrite !mget_mset in H. rewrite !(decide_False (P := _ = _)) in H by lia. exact H.
Qed.

Lemma hash_mask_match h t :
  N.land (N.lxor (N.lor (N.land t 0xffff) (N.land h 0x3fff0000)) h) 0x3fff0000 = 0.
Proof.
  apply N.bits_inj. intros i. rewrite N.land_spec, N.lxor_spec, N.lor_spec, !N.land_spec, N.bits_0.
  change 0x3fff0000 with (N.shiftl (N.ones 14) 16). change 0xffff with (N.ones 16).
  destruct (N.lt_ge_cases i 16) as [Hi|Hi].
  - rewrite N.shiftl_spec_low by done. by rewrite andb_false_r.
  - rewrite (ones_bit 16), (bool_decide_eq_false_2 (i < 16)) by lia.
    rewrite andb_false_r. destruct (N.testbit h i), (N.testbit (N.shiftl (N.ones 14) 16) i); done.
Qed.

Lemma hash_mask_unlocked h t :
  N.land (N.lor (N.land t 0xffff) (N.land h 0x3fff0000)) 0xc0000000 = 0.
Proof.
  rewrite N.land_lor_distr_l, <- !N.land_assoc.
  change (N.land 65535 3221225472) with 0. change (N.land 1073676288 3221225472) with 0.
  by rewrite !N.land_0_r.
Qed.

(** A put into a bucket that is not locked succeeds, and the value can be read back. *)
Lemma put_get_same c a b k res :
  N.land (mget (cache_status c) (N.land (cache_hash a b k) (cache_mask c))) 0x80000000 = 0 ->
  exists c', cache_put c a b k res = (true, c') /\ cache_get c' a b k = Some res.
Proof.
  intros Hl. unfold cache_put. rewrite Hl. cbn [N.eqb negb]. eexists. split; [reflexivity|].
  unfold cache_get. cbn [upd_bucket cache_table cache_status cache_mask].
  set (i := N.land (cache_hash a b k) (cache_mask c)). rewrite !mget_mset.
  decide_addr.
  rewrite hash_mask_unlocked, hash_mask_match, !N.eqb_refl. done.
Qed.

(** Nothing is found in a cache that was just created or cleared. *)
Lemma create_get size max c a b k : cache_create size max = Some c -> cache_get c a b k = None.
Proof.
  unfold cache_create. destruct (_ || _); [done|]. destruct (_ <? _); [done|]. intros [= <-].
  destruct (cache_get _ a b k) as [r|] eqn:E; [|done]. exfalso.
  pose proof (get_entry _ _ _ _ _ E) as He. cbn [cache_table] in He. cbv zeta in He.
  rewrite !mget_empty in He. destruct He as (<- & <- & <-).
  unfold cache_get in E. cbn [cache_table cache_status] in E. rewrite !mget_empty in E.
  vm_compute in E. done.
Qed.

End Cache.
