(* ===== verification/Avl.v ===== *)
(** The balanced trees of sylvan/src/avl.h, which [sylvan_serialize_*] keeps its numbers in.  A
    subtree is a value; what the C code reaches through a null pointer is [None].  The macro AVL
    takes the comparison of the elements as its body: here it is the class [AvlCompare]. *)

From S2P Require Import Prelude.

Module Avl.

Inductive avl_node (A : Type) : Type :=
| Null
| Tree (left : avl_node A) (data : A) (right : avl_node A) (height : Z).
Arguments Null {A}.
Arguments Tree {A}.

(** [NAME##_AVL_compare(left, right)]: negative, zero or positive. *)
Class AvlCompare (A : Type) := avl_compare : A -> A -> Z.

#[local] Open Scope Z_scope.

Section avl.
Context {A : Type} `{AvlCompare A}.
Notation tree := (avl_node A).

Definition avl_get_height (node : tree) : Z := match node with Null => 0 | Tree _ _ _ h => h end.

(** [avl_update_height] and [avl_update_height_get_balance] *)
Definition height_of (l r : tree) : Z :=
  let h1 := avl_get_height l in
  let h2 := avl_get_height r in
  1 + (if h2 <? h1 then h1 else h2).
Definition avl_update_height (node : tree) : option tree :=
  match node with Null => None | Tree l x r _ => Some (Tree l x r (height_of l r)) end.
Definition avl_update_height_get_balance (node : tree) : option (tree * Z) :=
  match node with
  | Null => None
  | Tree l x r _ => Some (Tree l x r (height_of l r), avl_get_height l - avl_get_height r)
  end.

Fixpoint avl_check_consistent (root : tree) : bool :=
  match root with
  | Null => true
  | Tree l _ r h => avl_check_consistent l && avl_check_consistent r && (height_of l r =? h)
  end.

(** ** Rotations *)

Definition avl_rotate_LL (parent : tree) : option tree :=
  match parent with
  | Tree (Tree cl cx cr ch) x r h =>
      parent ← avl_update_height (Tree cr x r h);
      avl_update_height (Tree cl cx parent ch)
  | _ => None
  end.

Definition avl_rotate_RR (parent : tree) : option tree :=
  match parent with
  | Tree l x (Tree cl cx cr ch) h =>
      parent ← avl_update_height (Tree l x cl h);
      avl_update_height (Tree parent cx cr ch)
  | _ => None
  end.

Definition avl_rotate_RL (parent : tree) : option tree :=
  match parent with
  | Null => None
  | Tree l x child h => child ← avl_rotate_LL child; avl_rotate_RR (Tree l x child h)
  end.

Definition avl_rotate_LR (parent : tree) : option tree :=
  match parent with
  | Null => None
  | Tree child x r h => child ← avl_rotate_RR child; avl_rotate_LL (Tree child x r h)
  end.

Definition avl_get_balance (node : tree) : Z :=
  match node with Null => 0 | Tree l _ r _ => avl_get_height l - avl_get_height r end.

Definition avl_balance_tree (node : tree) : option tree :=
  '(node, factor) ← avl_update_height_get_balance node;
  match node with
  | Null => None
  | Tree l _ r _ =>
      if 1 <? factor then
        if 0 <? avl_get_balance l then avl_rotate_LL node else avl_rotate_LR node
      else if factor <? -1 then
        if avl_get_balance r <? 0 then avl_rotate_RR node else avl_rotate_RL node
      else Some node
  end.

Fixpoint avl_count (node : tree) : N :=
  match node with Null => 0 | Tree l _ r _ => 1 + avl_count l + avl_count r end%N.

(** ** The functions of the macro *)

(** The tree, the element of the key in it, and whether it is new. *)
Fixpoint put (root : tree) (data : A) : option (tree * A * bool) :=
  match root with
  | Null => Some (Tree Null data Null 1, data, true)
  | Tree l x r h =>
      let cmp := avl_compare data x in
      if cmp =? 0 then Some (root, x, false)
      else if cmp <? 0 then
        '(l, result, inserted) ← put l data;
        root ← avl_balance_tree (Tree l x r h);
        Some (root, result, inserted)
      else
        '(r, result, inserted) ← put r data;
        root ← avl_balance_tree (Tree l x r h);
        Some (root, result, inserted)
  end.

Definition insert_elt (root : tree) (data : A) : option (tree * bool) :=
  '(root, _, inserted) ← put root data; Some (root, inserted).

(** The least element moves to the target, and its node is freed. *)
Fixpoint exchange_and_balance (node : tree) : option (A * tree) :=
  match node with
  | Null => None
  | Tree Null x r h =>
      node ← avl_balance_tree r; Some (x, node)
  | Tree l x r h =>
      '(data, l) ← exchange_and_balance l;
      node ← avl_balance_tree (Tree l x r h);
      Some (data, node)
  end.

Fixpoint delete_elt (node : tree) (data : A) : option (tree * bool) :=
  match node with
  | Null => Some (Null, false)
  | Tree l x r h =>
      let cmp := avl_compare data x in
      if cmp <? 0 then
        '(l, res) ← delete_elt l data;
        let node := Tree l x r h in
        if (res : bool) then node ← avl_balance_tree node; Some (node, res) else Some (node, res)
      else if 0 <? cmp then
        '(r, res) ← delete_elt r data;
        let node := Tree l x r h in
        if (res : bool) then node ← avl_balance_tree node; Some (node, res) else Some (node, res)
      else
        let h_left := avl_get_height l in
        let h_right := avl_get_height r in
        if h_left =? 0 then
          if h_right =? 0 then Some (Null, true) else Some (r, true)
        else if h_right =? 0 then Some (l, true)
        else
          '(x, r) ← exchange_and_balance r;
          node ← avl_balance_tree (Tree l x r h);
          Some (node, true)
  end.

Fixpoint search (node : tree) (data : A) : option A :=
  match node with
  | Null => None
  | Tree l x r _ =>
      let result := avl_compare x data in
      if result =? 0 then Some x else if 0 <? result then search l data else search r data
  end.

(** [free] leaves the empty tree. *)
Definition free_all (node : tree) : tree := Null.

Fixpoint toarray_rec (node : tree) : option (list A) :=
  match node with
  | Null => None
  | Tree l x r _ =>
      a ← match l with Null => Some [] | _ => toarray_rec l end;
      b ← match r with Null => Some [] | _ => toarray_rec r end;
      Some (a ++ x :: b)
  end.
Definition toarray (node : tree) : option (list A) := toarray_rec node.

(** A write through the pointer that [put] or [search] has returned: to the element of the tree
    that compares equal to [data]. *)
Fixpoint write_elt (node : tree) (data new : A) : tree :=
  match node with
  | Null => Null
  | Tree l x r h =>
      let result := avl_compare x data in
      if result =? 0 then Tree l new r h
      else if 0 <? result then Tree (write_elt l data new) x r h
      else Tree l x (write_elt r data new) h
  end.
End avl.

(** ** Iterators *)

(** A pointer to a node is its path from the root. *)
Notation path := (list bool).
Notation pointer := (option path).

Record avl_iter_t := mk_iter { iter_height : nat; iter_nodes : list pointer }.

Section iter.
Context {A : Type}.
Notation tree := (avl_node A).

Fixpoint at_path (t : tree) (p : path) {struct p} : tree :=
  match p with
  | [] => t
  | go_right :: p => match t with Null => Null | Tree l _ r _ => at_path (if go_right then r else l) p end
  end.

(** [node->left], or [node->right] *)
Definition child (t : tree) (p : path) (go_right : bool) : pointer :=
  match at_path t (p ++ [go_right]) with Null => None | _ => Some (p ++ [go_right]) end.

Definition write_node (nodes : list pointer) (i : nat) (p : pointer) : option (list pointer) :=
  if decide (i < length nodes)%nat then Some (<[i := p]> nodes) else None.

Definition avl_iter (t : tree) : avl_iter_t :=
  let max := match t with Null => 1%nat | Tree _ _ _ h => Z.to_nat (h + 1) end in
  mk_iter 0 ((match t with Null => None | _ => Some [] end) :: replicate (max - 1) None).

(** [while (iter->nodes[iter->height] != NULL)] *)
Fixpoint descend (fuel : nat) (t : tree) (h : nat) (nodes : list pointer) : option (nat * list pointer) :=
  match fuel with
  | O => None
  | S fuel =>
      head ← nodes !! h;
      match head with
      | None => Some (h, nodes)
      | Some p => nodes ← write_node nodes (S h) (child t p false); descend fuel t (S h) nodes
      end
  end.

(** [do iter->height--; while (...)] *)
Fixpoint backtrack (t : tree) (h : nat) (nodes : list pointer) : option nat :=
  match h with
  | O => None
  | S h =>
      match h with
      | O => Some O
      | S h' =>
          p ← nodes !! h;
          above ← nodes !! h';
          q ← above;
          if decide (p = child t q true) then backtrack t h nodes else Some h
      end
  end.

(** [Some None] when there is no next element. *)
Definition avl_iter_next (t : tree) (iter : avl_iter_t) : option (option A * avl_iter_t) :=
  first ← iter_nodes iter !! 0%nat;
  match first with
  | None => Some (None, iter)
  | Some _ =>
      '(h, nodes) ← descend (S (length (iter_nodes iter))) t (iter_height iter) (iter_nodes iter);
      h' ← match h with O => None | S h' => Some h' end;
      node ← nodes !! h';
      result ← node;
      match at_path t result with
      | Null => None
      | Tree _ x _ _ =>
          match child t result true with
          | Some q => nodes ← write_node nodes h (Some q); Some (Some x, mk_iter h nodes)
          | None =>
              h ← backtrack t h nodes;
              nodes ← write_node nodes h None;
              Some (Some x, mk_iter h nodes)
          end
      end
  end.

(** [while ((s = NAME##_iter_next(it)))], at most [n] times. *)
Fixpoint iter_all (n : nat) (t : tree) (iter : avl_iter_t) : option (list A) :=
  match n with
  | O => None
  | S n =>
      '(x, iter) ← avl_iter_next t iter;
      match x with None => Some [] | Some x => l ← iter_all n t iter; Some (x :: l) end
  end.
End iter.
End Avl.
