(* ===== verification/AvlFacts.v ===== *)
(** The balanced trees of [Avl] as sorted lists: the rotations keep the elements and the heights,
    insertion keeps the balance, removal keeps the heights only, and an iterator visits the
    elements in order, inside its array. *)

From stdpp Require Import sorting.
From Stdlib Require Import Sorted.
From S2P Require Import Prelude Avl.

Module AvlFacts.
Import Avl.

#[local] Open Scope Z_scope.

(** The comparison is that of a key. *)
Class AvlOrder (A : Type) `{AvlCompare A} := {
  avl_key : A -> N;
  avl_compare_key x y : (avl_compare x y ?= 0) = (avl_key x ?= avl_key y)%N
}.

Fixpoint elements {A} (t : avl_node A) : list A :=
  match t with Null => [] | Tree l x r _ => elements l ++ x :: elements r end.

(** The fields [height] are the heights. *)
Fixpoint heights_ok {A} (t : avl_node A) : Prop :=
  match t with Null => True | Tree l _ r h => heights_ok l /\ heights_ok r /\ h = height_of l r end.

Fixpoint balanced {A} (t : avl_node A) : Prop :=
  match t with
  | Null => True
  | Tree l _ r _ => balanced l /\ balanced r /\ -1 <= avl_get_height l - avl_get_height r <= 1
  end.

Section heights.
Context {A : Type}.
Implicit Types (t l r : avl_node A) (x : A).

Lemma check_consistent_ok t : avl_check_consistent t = true <-> heights_ok t.
Proof.
  induction t as [|l IHl x r IHr h]; [done|]. cbn. rewrite !andb_true_iff, IHl, IHr, Z.eqb_eq.
  intuition congruence.
Qed.

Lemma height_of_max l r : height_of l r = 1 + Z.max (avl_get_height l) (avl_get_height r).
Proof. unfold height_of. destruct (Z.ltb_spec (avl_get_height r) (avl_get_height l)); lia. Qed.

Lemma height_nonneg t : heights_ok t -> 0 <= avl_get_height t /\ (avl_get_height t = 0 <-> t = Null).
Proof.
  induction t as [|l IHl x r IHr h]; [done|]. cbn. rewrite height_of_max. intros (Hl & Hr & ->).
  apply IHl in Hl. apply IHr in Hr. split; [lia|]. split; [lia|done].
Qed.

Lemma count_elements t : avl_count t = N.of_nat (length (elements t)).
Proof. induction t as [|l IHl x r IHr h]; [done|]. cbn. rewrite length_app. cbn. lia. Qed.

(** Knows that the height of a tree is not negative, and 0 for the empty tree only. *)
Ltac heights :=
  repeat match goal with
  | H : heights_ok ?t |- _ =>
      lazymatch goal with
      | _ : 0 <= avl_get_height t /\ _ |- _ => fail
      | _ => pose proof (height_nonneg t H)
      end
  end.

(** ** Rotations *)

Lemma update_balance_spec l x r h :
  avl_update_height_get_balance (Tree l x r h) =
  Some (Tree l x r (height_of l r), avl_get_height l - avl_get_height r).
Proof. done. Qed.

(** What [avl_balance_tree] returns, for children whose heights are right. *)
Variant rebalanced l x r : avl_node A -> Prop :=
| rebalanced_none :
    -1 <= avl_get_height l - avl_get_height r <= 1 -> rebalanced l x r (Tree l x r (height_of l r))
| rebalanced_LL a y b h :
    l = Tree a y b h -> 1 < avl_get_height l - avl_get_height r -> avl_get_height b < avl_get_height a ->
    rebalanced l x r (Tree a y (Tree b x r (height_of b r)) (height_of a (Tree b x r (height_of b r))))
| rebalanced_LR a y b z c h h' :
    l = Tree a y (Tree b z c h') h -> 1 < avl_get_height l - avl_get_height r -> avl_get_height a <= h' ->
    rebalanced l x r (Tree (Tree a y b (height_of a b)) z (Tree c x r (height_of c r))
      (height_of (Tree a y b (height_of a b)) (Tree c x r (height_of c r))))
| rebalanced_RR a y b h :
    r = Tree a y b h -> avl_get_height l - avl_get_height r < -1 -> avl_get_height a < avl_get_height b ->
    rebalanced l x r (Tree (Tree l x a (height_of l a)) y b (height_of (Tree l x a (height_of l a)) b))
| rebalanced_RL a y b z c h h' :
    r = Tree (Tree a y b h') z c h -> avl_get_height l - avl_get_height r < -1 -> avl_get_height c <= h' ->
    rebalanced l x r (Tree (Tree l x a (height_of l a)) y (Tree b z c (height_of b c))
      (height_of (Tree l x a (height_of l a)) (Tree b z c (height_of b c)))).

Lemma balance_cases l x r h :
  heights_ok l -> heights_ok r -> exists t, avl_balance_tree (Tree l x r h) = Some t /\ rebalanced l x r t.
Proof.
  intros Hl Hr. heights. unfold avl_balance_tree. rewrite update_balance_spec. cbn [mbind option_bind].
  destruct (Z.ltb_spec 1 (avl_get_height l - avl_get_height r)) as [E1|E1].
  - destruct l as [|a y b hl]; [cbn in *; lia|]. cbn [avl_get_balance].
    destruct Hl as (Ha & Hb & Eh). heights.
    destruct (Z.ltb_spec 0 (avl_get_height a - avl_get_height b)) as [E2|E2].
    + eexists. split; [done|]. eapply rebalanced_LL; [done..|lia].
    + destruct b as [|b z c h']; [exfalso; cbn in *; rewrite height_of_max in *; cbn in *; lia|].
      eexists. split; [done|]. eapply rebalanced_LR; [done..|cbn in *; lia].
  - destruct (Z.ltb_spec (avl_get_height l - avl_get_height r) (-1)) as [E3|E3].
    + destruct r as [|a y b hr]; [cbn in *; lia|]. cbn [avl_get_balance].
      destruct Hr as (Ha & Hb & Eh). heights.
      destruct (Z.ltb_spec (avl_get_height a - avl_get_height b) 0) as [E2|E2].
      * eexists. split; [done|]. eapply rebalanced_RR; [done..|lia].
      * destruct a as [|a z c h']; [exfalso; cbn in *; rewrite height_of_max in *; cbn in *; lia|].
        eexists. split; [done|]. eapply rebalanced_RL; [done..|cbn in *; lia].
    + eexists. split; [done|]. apply rebalanced_none. lia.
Qed.

Lemma rebalanced_elements l x r t : rebalanced l x r t -> elements t = elements l ++ x :: elements r.
Proof. destruct 1; subst; cbn [elements]; rewrite <- ?app_assoc; cbn [app]; by rewrite <- ?app_assoc. Qed.

Lemma rebalanced_heights l x r t : heights_ok l -> heights_ok r -> rebalanced l x r t -> heights_ok t.
Proof. intros Hl Hr Hb. destruct Hb; subst; cbn [heights_ok] in *; tauto. Qed.

(** After an insertion: the higher child leans to one side. *)
Lemma rebalanced_balanced l x r t :
  heights_ok l -> heights_ok r -> balanced l -> balanced r ->
  -2 <= avl_get_height l - avl_get_height r <= 2 ->
  (avl_get_height l - avl_get_height r = 2 -> avl_get_balance l <> 0) ->
  (avl_get_height l - avl_get_height r = -2 -> avl_get_balance r <> 0) ->
  rebalanced l x r t ->
  balanced t /\
  (-1 <= avl_get_height l - avl_get_height r <= 1 -> t = Tree l x r (height_of l r)) /\
  (avl_get_height l - avl_get_height r = 2 -> avl_get_height t = avl_get_height l) /\
  (avl_get_height l - avl_get_height r = -2 -> avl_get_height t = avl_get_height r).
Proof.
  intros Hl Hr Bl Br Hd Nl Nr Hb.
  destruct Hb; subst; cbn [heights_ok balanced avl_get_balance avl_get_height] in *;
    decompose [and] Hl; decompose [and] Hr; decompose [and] Bl; decompose [and] Br; subst; heights;
    rewrite ?height_of_max in *; cbn [avl_get_height] in *; rewrite ?height_of_max in *;
    (split; [split_and!; try done; lia|]); (split; [try done; lia|]); split; lia.
Qed.
End heights.

(** ** Keys *)

Section keys.
Context {A : Type} `{AvlOrder A}.
Implicit Types (t l r : avl_node A) (x y data : A) (k : N).

Definition key_lt x y : Prop := (avl_key x < avl_key y)%N.
Definition sorted : list A -> Prop := StronglySorted key_lt.

(** The invariants of a tree: of any tree, and of one that has not been deleted from. *)
Definition tree_ok t : Prop := heights_ok t /\ sorted (elements t).
Definition avl_ok t : Prop := tree_ok t /\ balanced t.

Lemma sorted_app (l : list A) x (r : list A) :
  sorted (l ++ x :: r) <->
  sorted l /\ sorted r /\ (forall y, y ∈ l -> key_lt y x) /\ (forall y, y ∈ r -> key_lt x y).
Proof.
  unfold sorted. rewrite StronglySorted_app, StronglySorted_cons, Forall_forall.
  split; [intros (Hb & Hl & Hx & Hr)|intros (Hl & Hr & Hb & Hx)].
  - split_and!; [done..| |done]. intros y Hy. apply Hb; [done|left].
  - split_and!; try done. intros y z Hy Hz. apply elem_of_cons in Hz as [->|Hz]; [by apply Hb|].
    unfold key_lt in *. specialize (Hb y Hy). specialize (Hx z Hz). lia.
Qed.

(** The sign of a comparison. *)
Lemma compare_cases x y :
  (avl_compare x y = 0 /\ avl_key x = avl_key y) \/
  (avl_compare x y < 0 /\ (avl_key x < avl_key y)%N) \/
  (0 < avl_compare x y /\ (avl_key y < avl_key x)%N).
Proof.
  pose proof (avl_compare_key x y) as Hc.
  destruct (Z.compare_spec (avl_compare x y) 0) as [E|E|E], (N.compare_spec (avl_key x) (avl_key y)) as [F|F|F];
    try discriminate; tauto.
Qed.

(** ** Insertion *)

(** The tree [t'] has the elements of [t] and [data], unless one of its key is there. *)
Variant put_post t data : avl_node A -> A -> bool -> Prop :=
| put_old t' y : elements t' = elements t -> y ∈ elements t -> avl_key y = avl_key data -> put_post t data t' y false
| put_new t' (l r : list A) :
    elements t = l ++ r -> elements t' = l ++ data :: r ->
    (forall y, y ∈ l -> key_lt y data) -> (forall y, y ∈ r -> key_lt data y) -> put_post t data t' data true.

Lemma put_post_left l x r h data l' t' y b :
  put_post l data l' y b -> elements t' = elements l' ++ x :: elements r ->
  key_lt data x -> (forall y, y ∈ elements r -> key_lt x y) -> put_post (Tree l x r h) data t' y b.
Proof.
  intros Hp He Hx Hr. destruct Hp as [l' y E Hy Hk|l' la lb E E' Ha Hb].
  - apply put_old; [cbn; congruence| |done]. cbn. set_solver.
  - apply (put_new _ _ _ la (lb ++ x :: elements r)); [cbn; by rewrite E, <- app_assoc| |done|].
    + by rewrite He, E', <- app_assoc.
    + intros z [Hz|[->|Hz]%elem_of_cons]%elem_of_app; [by apply Hb|done|].
      specialize (Hr z Hz). unfold key_lt in *. lia.
Qed.

Lemma put_post_right l x r h data r' t' y b :
  put_post r data r' y b -> elements t' = elements l ++ x :: elements r' ->
  key_lt x data -> (forall y, y ∈ elements l -> key_lt y x) -> put_post (Tree l x r h) data t' y b.
Proof.
  intros Hp He Hx Hl. destruct Hp as [r' y E Hy Hk|r' ra rb E E' Ha Hb].
  - apply put_old; [cbn; congruence| |done]. cbn. set_solver.
  - apply (put_new _ _ _ (elements l ++ x :: ra) rb); [cbn; by rewrite E, <- app_assoc| | |done].
    + by rewrite He, E', <- app_assoc.
    + intros z [Hz|[->|Hz]%elem_of_cons]%elem_of_app; [|done|by apply Ha].
      specialize (Hl z Hz). unfold key_lt in *. lia.
Qed.

(** The balance after a child has grown. *)
Definition grown t t' : Prop :=
  avl_get_height t' = avl_get_height t \/
  avl_get_height t' = avl_get_height t + 1 /\ (t = Null \/ avl_get_balance t' <> 0).

Lemma balance_grown l x r h l' r' :
  heights_ok (Tree l x r h) -> balanced (Tree l x r h) ->
  heights_ok l' -> heights_ok r' -> balanced l' -> balanced r' ->
  grown l l' /\ r' = r \/ l' = l /\ grown r r' ->
  exists t', avl_balance_tree (Tree l' x r' h) = Some t' /\ elements t' = elements l' ++ x :: elements r' /\
    heights_ok t' /\ balanced t' /\ grown (Tree l x r h) t'.
Proof.
  intros (Hl & Hr & ->) (Bl & Br & Hd) Hl' Hr' Bl' Br' Hg.
  destruct (balance_cases l' x r' (height_of l r)) as (t' & Et & Hre); [done..|].
  pose proof (height_nonneg l Hl) as Nl. pose proof (height_nonneg r Hr) as Nr.
  assert (l = Null -> avl_get_height l = 0) as Zl by (by intros ->).
  assert (r = Null -> avl_get_height r = 0) as Zr by (by intros ->).
  pose proof (rebalanced_balanced l' x r' t') as Hbal. unfold grown in *. cbn [avl_get_height].
  destruct Hbal as (Bt & Hsame & Hup & Hup'); try done.
  1-3: intuition (subst; lia).
  exists t'. split; [done|]. split; [by apply rebalanced_elements|].
  split; [by apply (rebalanced_heights l' x r')|]. split; [done|].
  destruct (decide (-1 <= avl_get_height l' - avl_get_height r' <= 1)) as [Hin|Hout].
  - rewrite (Hsame Hin). cbn [avl_get_height avl_get_balance]. rewrite !height_of_max.
    assert (Tree l x r (height_of l r) <> Null) by done. intuition (subst; lia).
  - left. rewrite !height_of_max. intuition (subst; lia).
Qed.

Lemma put_spec t data :
  avl_ok t ->
  exists t' y b, put t data = Some (t', y, b) /\ put_post t data t' y b /\ heights_ok t' /\ balanced t' /\ grown t t'.
Proof.
  intros [[Hh Hs] Hb]. induction t as [|l IHl x r IHr h].
  - exists (Tree Null data Null 1), data, true. split; [done|]. split.
    + by apply (put_new Null data _ [] []); [| |intros y Hy%elem_of_nil..].
    + split_and!; try done; cbn; try lia. right. by split; [|left].
  - cbn [put]. cbn [elements] in Hs. apply sorted_app in Hs as (Sl & Sr & Hxl & Hxr).
    pose proof Hh as (Hl & Hr & Eh). pose proof Hb as (Bl & Br & Hd).
    destruct (compare_cases data x) as [[-> Hk]|[[Hc Hk]|[Hc Hk]]].
    + exists (Tree l x r h), x, false. split; [done|]. split; [|split_and!; try done; by left].
      apply put_old; [done| |done]. cbn. set_solver.
    + rewrite (proj2 (Z.eqb_neq _ _)), (proj2 (Z.ltb_lt _ _)) by lia.
      destruct (IHl Hl Sl Bl) as (l' & y & b & -> & Hp & Hl' & Bl' & Hgrow). cbn [mbind option_bind].
      destruct (balance_grown l x r h l' r) as (t' & -> & He & Hr'); try done; [by left|].
      exists t', y, b. split; [done|]. split; [by eapply put_post_left|done].
    + rewrite (proj2 (Z.eqb_neq _ _)), (proj2 (Z.ltb_ge _ _)) by lia.
      destruct (IHr Hr Sr Br) as (r' & y & b & -> & Hp & Hr' & Br' & Hgrow). cbn [mbind option_bind].
      destruct (balance_grown l x r h l r') as (t' & -> & He & Hre); try done; [by right|].
      exists t', y, b. split; [done|]. split; [by eapply put_post_right|done].
Qed.

(** ** Search *)

Lemma search_spec t data :
  sorted (elements t) ->
  match search t data with
  | Some x => x ∈ elements t /\ avl_key x = avl_key data
  | None => forall x, x ∈ elements t -> avl_key x <> avl_key data
  end.
Proof.
  induction t as [|l IHl x r IHr h]; [by intros _ x ?%elem_of_nil|]. cbn [elements search].
  intros (Sl & Sr & Hxl & Hxr)%sorted_app. specialize (IHl Sl). specialize (IHr Sr).
  destruct (compare_cases x data) as [[-> Hk]|[[Hc Hk]|[Hc Hk]]].
  - split; [set_solver|done].
  - rewrite (proj2 (Z.eqb_neq _ _)), (proj2 (Z.ltb_ge _ _)) by lia.
    destruct (search r data) as [y|]; [set_solver|]. intros y [Hy|[->|Hy]%elem_of_cons]%elem_of_app; [|lia|by apply IHr].
    specialize (Hxl y Hy). unfold key_lt in *. lia.
  - rewrite (proj2 (Z.eqb_neq _ _)), (proj2 (Z.ltb_lt _ _)) by lia.
    destruct (search l data) as [y|]; [set_solver|]. intros y [Hy|[->|Hy]%elem_of_cons]%elem_of_app; [by apply IHl|lia|].
    specialize (Hxr y Hy). unfold key_lt in *. lia.
Qed.

(** ** Removal *)

(** The least element is in a node without children. *)
Fixpoint first_is_leaf t : bool :=
  match t with
  | Null => true
  | Tree Null _ Null _ => true
  | Tree Null _ _ _ => false
  | Tree l _ _ _ => first_is_leaf l
  end.

Lemma exchange_spec t :
  heights_ok t ->
  match exchange_and_balance t with
  | None => first_is_leaf t = true
  | Some (x, t') => first_is_leaf t = false /\ heights_ok t' /\ elements t = x :: elements t'
  end.
Proof.
  induction t as [|l IHl x r _ h]; [done|]. intros (Hl & Hr & Eh). specialize (IHl Hl).
  destruct l as [|l1 y l2 hl].
  - cbn. destruct r as [|r1 z r2 hr]; [done|]. destruct Hr as (Hr1 & Hr2 & Er).
    destruct (balance_cases r1 z r2 hr Hr1 Hr2) as (t' & -> & Hb). cbn [mbind option_bind]. split; [done|].
    split; [by apply (rebalanced_heights r1 z r2)|]. by rewrite (rebalanced_elements _ _ _ _ Hb).
  - change (exchange_and_balance (Tree (Tree l1 y l2 hl) x r h)) with
      ('(data, l) ← exchange_and_balance (Tree l1 y l2 hl); node ← avl_balance_tree (Tree l x r h); Some (data, node)).
    change (first_is_leaf (Tree (Tree l1 y l2 hl) x r h)) with (first_is_leaf (Tree l1 y l2 hl)).
    set (l := Tree l1 y l2 hl) in *. destruct (exchange_and_balance l) as [[m l']|]; [|done].
    destruct IHl as (Hf & Hl' & He). cbn [mbind option_bind].
    destruct (balance_cases l' x r h Hl' Hr) as (t' & -> & Hb). cbn [mbind option_bind]. split; [done|].
    split; [by apply (rebalanced_heights l' x r)|]. cbn [elements]. fold (elements l).
    by rewrite (rebalanced_elements _ _ _ _ Hb), He.
Qed.

(** The subtree at the element of a key. *)
Fixpoint find_node t data : avl_node A :=
  match t with
  | Null => Null
  | Tree l x r _ =>
      if avl_compare data x <? 0 then find_node l data
      else if 0 <? avl_compare data x then find_node r data else t
  end.

Definition unlink_fails t data : bool :=
  match find_node t data with
  | Tree (Tree _ _ _ _) _ r _ => match r with Null => false | _ => first_is_leaf r end
  | _ => false
  end.

Variant delete_post t data : avl_node A -> bool -> Prop :=
| delete_none : (forall y, y ∈ elements t -> avl_key y <> avl_key data) -> delete_post t data t false
| delete_some t' (l : list A) x (r : list A) : elements t = l ++ x :: r -> elements t' = l ++ r -> avl_key x = avl_key data ->
    delete_post t data t' true.

Lemma delete_post_left l x r h data l' t' b :
  delete_post l data l' b -> key_lt data x -> (forall y, y ∈ elements r -> key_lt x y) ->
  (if b then elements t' = elements l' ++ x :: elements r else t' = Tree l' x r h) ->
  delete_post (Tree l x r h) data t' b.
Proof.
  intros Hp Hx Hr He. destruct Hp as [Hno|l' la y lb E E' Hk].
  - subst t'. apply delete_none. cbn. unfold key_lt in *.
    intros z [Hz|[->|Hz]%elem_of_cons]%elem_of_app; [by apply Hno|lia|]. specialize (Hr z Hz). lia.
  - apply (delete_some _ _ _ la y (lb ++ x :: elements r)); [| |done].
    + cbn. by rewrite E, <- app_assoc.
    + by rewrite He, E', <- app_assoc.
Qed.

Lemma delete_post_right l x r h data r' t' b :
  delete_post r data r' b -> key_lt x data -> (forall y, y ∈ elements l -> key_lt y x) ->
  (if b then elements t' = elements l ++ x :: elements r' else t' = Tree l x r' h) ->
  delete_post (Tree l x r h) data t' b.
Proof.
  intros Hp Hx Hl He. destruct Hp as [Hno|r' ra y rb E E' Hk].
  - subst t'. apply delete_none. cbn. unfold key_lt in *.
    intros z [Hz|[->|Hz]%elem_of_cons]%elem_of_app; [|lia|by apply Hno]. specialize (Hl z Hz). lia.
  - apply (delete_some _ _ _ (elements l ++ x :: ra) y rb); [| |done].
    + cbn. by rewrite E, <- app_assoc.
    + by rewrite He, E', <- app_assoc.
Qed.

Lemma delete_spec t data :
  tree_ok t ->
  match delete_elt t data with
  | None => unlink_fails t data = true
  | Some (t', b) => unlink_fails t data = false /\ heights_ok t' /\ delete_post t data t' b
  end.
Proof.
  intros [Hh Hs]. unfold unlink_fails. induction t as [|l IHl x r IHr h].
  { cbn. split; [done|]. split; [done|]. apply delete_none. by intros y ?%elem_of_nil. }
  pose proof Hh as (Hl & Hr & Eh). cbn [elements] in Hs. apply sorted_app in Hs as (Sl & Sr & Hxl & Hxr).
  cbn [delete_elt find_node]. destruct (compare_cases data x) as [[-> Hk]|[[Hc Hk]|[Hc Hk]]].
  - cbn [Z.ltb Z.compare]. pose proof (height_nonneg l Hl) as [_ Nl]. pose proof (height_nonneg r Hr) as [_ Nr].
    destruct l as [|l1 y l2 hl]; [|destruct (Z.eqb_spec (avl_get_height (Tree l1 y l2 hl)) 0) as [E|_]; [by apply Nl in E|]].
    + cbn [avl_get_height Z.eqb]. destruct (Z.eqb_spec (avl_get_height r) 0) as [E|E].
      * apply Nr in E as ->. split; [done|]. split; [done|]. by apply (delete_some _ _ _ [] x []).
      * split; [done|]. split; [done|]. by apply (delete_some _ _ _ [] x (elements r)).
    + destruct (Z.eqb_spec (avl_get_height r) 0) as [E|E].
      * apply Nr in E as ->. split; [done|]. split; [done|].
        apply (delete_some _ _ _ (elements (Tree l1 y l2 hl)) x []); [done|by rewrite app_nil_r|done].
      * pose proof (exchange_spec r Hr) as Hx. destruct r as [|r1 z r2 hr]; [done|].
        set (r := Tree r1 z r2 hr) in *. set (l := Tree l1 y l2 hl) in *.
        destruct (exchange_and_balance r) as [[m r']|]; [|done]. destruct Hx as (Hf & Hr' & He).
        cbn [mbind option_bind]. destruct (balance_cases l m r' h Hl Hr') as (t' & -> & Hb). cbn [mbind option_bind].
        split; [done|]. split; [by apply (rebalanced_heights l m r')|].
        apply (delete_some _ _ _ (elements l) x (elements r)); [done| |done].
        by rewrite (rebalanced_elements _ _ _ _ Hb), He.
  - rewrite (proj2 (Z.ltb_lt _ _)) by lia. specialize (IHl Hl Sl).
    destruct (delete_elt l data) as [[l' b]|]; [|done]. destruct IHl as (Hf & Hl' & Hp). cbn [mbind option_bind].
    destruct b.
    + destruct (balance_cases l' x r h Hl' Hr) as (t' & -> & Hb). cbn [mbind option_bind]. split; [done|].
      split; [by apply (rebalanced_heights l' x r)|]. eapply delete_post_left; [exact Hp|done..|].
      by apply rebalanced_elements.
    + split; [done|]. inversion Hp as [Hno|]; subst l'. split; [done|]. by eapply delete_post_left; [exact Hp|..].
  - rewrite (proj2 (Z.ltb_ge _ _)), (proj2 (Z.ltb_lt _ _)) by lia. specialize (IHr Hr Sr).
    destruct (delete_elt r data) as [[r' b]|]; [|done]. destruct IHr as (Hf & Hr' & Hp). cbn [mbind option_bind].
    destruct b.
    + destruct (balance_cases l x r' h Hl Hr') as (t' & -> & Hb). cbn [mbind option_bind]. split; [done|].
      split; [by apply (rebalanced_heights l x r')|]. eapply delete_post_right; [exact Hp|done..|].
      by apply rebalanced_elements.
    + split; [done|]. inversion Hp as [Hno|]; subst r'. split; [done|]. by eapply delete_post_right; [exact Hp|..].
Qed.

(** ** Trees as finite maps *)

Definition contents t : gmap N A := list_to_map ((fun x => (avl_key x, x)) <$> elements t).

Lemma sorted_keys (l : list A) : sorted l -> NoDup (avl_key <$> l).
Proof.
  induction 1 as [|x l Hs IH Hx]; [constructor|]. cbn. constructor; [|done].
  intros (y & E & Hy)%list_elem_of_fmap. rewrite Forall_forall in Hx. specialize (Hx y Hy).
  unfold key_lt in Hx. lia.
Qed.

Lemma contents_lookup t k x :
  sorted (elements t) -> contents t !! k = Some x <-> x ∈ elements t /\ avl_key x = k.
Proof.
  intros Hs. unfold contents. rewrite <- elem_of_list_to_map.
  - rewrite list_elem_of_fmap. split; [by intros (y & [= -> ->] & Hy)|]. intros [Hx <-]. by exists x.
  - rewrite <- list_fmap_compose. by apply sorted_keys.
Qed.

Lemma contents_none t k :
  sorted (elements t) -> contents t !! k = None <-> forall x, x ∈ elements t -> avl_key x <> k.
Proof.
  intros Hs. rewrite eq_None_not_Some. split.
  - intros Hn x Hx Hk. apply Hn. exists x. by apply contents_lookup.
  - intros Hno [x Hx]. apply contents_lookup in Hx as [Hx Hk]; [|done]. by apply (Hno x).
Qed.

Lemma search_contents t data : sorted (elements t) -> search t data = contents t !! avl_key data.
Proof.
  intros Hs. pose proof (search_spec t data Hs) as Hp. destruct (search t data) as [x|]; symmetry.
  - by apply contents_lookup.
  - by apply contents_none.
Qed.

Lemma contents_ext t (m : gmap N A) :
  sorted (elements t) -> (forall k x, m !! k = Some x <-> x ∈ elements t /\ avl_key x = k) -> contents t = m.
Proof.
  intros Hs Hm. apply map_eq. intros k. apply option_eq. intros x. by rewrite Hm, contents_lookup.
Qed.

Lemma put_contents t data t' y b :
  sorted (elements t) -> put_post t data t' y b ->
  sorted (elements t') /\
  (y, b) = match contents t !! avl_key data with Some x => (x, false) | None => (data, true) end /\
  contents t' = if b then <[avl_key data := data]> (contents t) else contents t.
Proof.
  intros Hs [t1 x E Hx Hk|t1 l r E E' Hl Hr].
  - rewrite E. split; [done|]. split.
    + assert (contents t !! avl_key data = Some x) as -> by (by apply contents_lookup). done.
    + unfold contents. by rewrite E.
  - assert (contents t !! avl_key data = None) as Hno.
    { apply contents_none; [done|]. rewrite E. unfold key_lt in *.
      intros z [Hz|Hz]%elem_of_app; [specialize (Hl z Hz)|specialize (Hr z Hz)]; lia. }
    rewrite Hno. assert (sorted (elements t1)) as Hs1.
    { rewrite E'. rewrite E in Hs. apply StronglySorted_app in Hs as (Hb & Sl & Sr). by apply sorted_app. }
    split; [done|]. split; [done|]. apply contents_ext; [done|]. intros k x. rewrite E'.
    rewrite lookup_insert_Some, contents_lookup, E by done. rewrite !elem_of_app, elem_of_cons.
    split; [intuition congruence|]. intros [Hx Hk]. destruct (decide (avl_key data = k)) as [Ek|Ek].
    + left. split; [done|]. subst k. unfold key_lt in *.
      destruct Hx as [Hx|[->|Hx]]; [specialize (Hl x Hx); lia|done|specialize (Hr x Hx); lia].
    + right. split; [done|]. split; [|done]. destruct Hx as [Hx|[->|Hx]]; [tauto|done|tauto].
Qed.

Lemma put_ok t data t' y b :
  avl_ok t -> put t data = Some (t', y, b) ->
  avl_ok t' /\ (y, b) = match contents t !! avl_key data with Some x => (x, false) | None => (data, true) end /\
  contents t' = if b then <[avl_key data := data]> (contents t) else contents t.
Proof.
  intros Hok Hput. destruct (put_spec t data Hok) as (t1 & y1 & b1 & E & Hp & Hh & Hb & _).
  rewrite Hput in E. apply (inj Some) in E. injection E as <- <- <-.
  destruct (put_contents _ _ _ _ _ (proj2 (proj1 Hok)) Hp) as (Hs & Hy & Hc). done.
Qed.

Lemma delete_ok t data t' b :
  tree_ok t -> delete_elt t data = Some (t', b) ->
  tree_ok t' /\ b = bool_decide (is_Some (contents t !! avl_key data)) /\ contents t' = delete (avl_key data) (contents t).
Proof.
  intros Hok Hd. pose proof (delete_spec t data Hok) as Hp. rewrite Hd in Hp. destruct Hp as (_ & Hh & Hp).
  destruct Hok as [_ Hs]. destruct Hp as [Hno|t1 l x r E E' Hk].
  - split; [done|]. apply contents_none in Hno; [|done]. rewrite Hno. split; [done|]. by rewrite delete_id.
  - assert (sorted (elements t1)) as Hs1.
    { rewrite E in Hs. rewrite E'. apply sorted_app in Hs as (Sl & Sr & Hl & Hr). apply StronglySorted_app.
      split; [|done]. intros u v Hu Hv. specialize (Hl u Hu). specialize (Hr v Hv). unfold key_lt in *. lia. }
    split; [done|]. assert (contents t !! avl_key data = Some x) as ->.
    { apply contents_lookup; [done|]. rewrite E. set_solver. }
    split; [done|]. apply contents_ext; [done|]. intros k y.
    rewrite lookup_delete_Some, contents_lookup, E, E' by done. rewrite !elem_of_app, elem_of_cons.
    rewrite E in Hs. apply sorted_app in Hs as (Sl & Sr & Hl & Hr). unfold key_lt in *.
    split; [intros (Hne & Hy & Hyk); split; [|done]; destruct Hy as [Hy|[->|Hy]]; [tauto|congruence|tauto]|].
    intros [Hy Hyk]. split; [|tauto]. intros <-. destruct Hy as [Hy|Hy]; [specialize (Hl y Hy)|specialize (Hr y Hy)]; lia.
Qed.

(** A write through a pointer to an element that keeps its key. *)
Lemma write_shape t data new :
  avl_get_height (write_elt t data new) = avl_get_height t /\
  (heights_ok t -> heights_ok (write_elt t data new)) /\ (balanced t -> balanced (write_elt t data new)).
Proof.
  induction t as [|l IHl x r IHr h]; [done|]. cbn [write_elt]. destruct IHl as (El & Hl & Bl), IHr as (Er & Hr & Br).
  destruct (_ =? 0); [done|]. destruct (0 <? _); cbn; unfold height_of; rewrite ?El, ?Er; tauto.
Qed.

Lemma write_elements t data new :
  sorted (elements t) -> avl_key new = avl_key data ->
  elements (write_elt t data new) = (fun x => if decide (avl_key x = avl_key data) then new else x) <$> elements t.
Proof.
  intros Hs Hn. induction t as [|l IHl x r IHr h]; [done|]. cbn [elements write_elt] in *.
  apply sorted_app in Hs as (Sl & Sr & Hl & Hr). rewrite fmap_app, fmap_cons. unfold key_lt in *.
  assert (forall t', (forall y, y ∈ elements t' -> avl_key y <> avl_key data) ->
    (fun x => if decide (avl_key x = avl_key data) then new else x) <$> elements t' = elements t') as Hid.
  { intros t' Hno. rewrite <- list_fmap_id. apply list_fmap_ext. intros i y Hy.
    rewrite decide_False; [done|]. by eapply Hno, list_elem_of_lookup_2. }
  destruct (compare_cases x data) as [[-> Hk]|[[Hc Hk]|[Hc Hk]]].
  - cbn [Z.eqb elements]. rewrite decide_True, (Hid l), (Hid r)
      by (done || (intros y Hy; specialize (Hl y Hy); lia) || (intros y Hy; specialize (Hr y Hy); lia)). done.
  - rewrite (proj2 (Z.eqb_neq _ _)), (proj2 (Z.ltb_ge _ _)) by lia. cbn [elements].
    rewrite IHr, decide_False, (Hid l) by (done || lia || (intros y Hy; specialize (Hl y Hy); lia)). done.
  - rewrite (proj2 (Z.eqb_neq _ _)), (proj2 (Z.ltb_lt _ _)) by lia. cbn [elements].
    rewrite IHl, decide_False, (Hid r) by (done || lia || (intros y Hy; specialize (Hr y Hy); lia)). done.
Qed.

Lemma sorted_same_keys (l l' : list A) : avl_key <$> l' = avl_key <$> l -> sorted l -> sorted l'.
Proof.
  intros E Hs. revert l' E. induction Hs as [|x l Hs IH Hx]; intros [|x' l'] E; try discriminate; [constructor|].
  cbn in E. injection E as Ex El. constructor; [by apply IH|]. rewrite Forall_forall in Hx |- *. unfold key_lt in *.
  intros y Hy. rewrite Ex. assert (avl_key y ∈ avl_key <$> l') as Hin by (apply list_elem_of_fmap; eauto).
  rewrite El in Hin. apply list_elem_of_fmap in Hin as (z & -> & Hz). by apply Hx.
Qed.

Lemma elt_write_ok t data new :
  avl_ok t -> avl_key new = avl_key data -> is_Some (contents t !! avl_key data) ->
  avl_ok (write_elt t data new) /\ contents (write_elt t data new) = <[avl_key data := new]> (contents t).
Proof.
  intros [[Hh Hs] Hb] Hn [old Hold]. destruct (write_shape t data new) as (_ & Hh' & Hb').
  pose proof (write_elements t data new Hs Hn) as He.
  assert (sorted (elements (write_elt t data new))) as Hs'.
  { eapply sorted_same_keys; [|exact Hs]. rewrite He, <- list_fmap_compose. apply list_fmap_ext.
    intros i x _. cbn. case_decide; congruence. }
  split; [split; [split|]; auto|]. apply contents_ext; [done|]. intros k x.
  rewrite lookup_insert_Some, contents_lookup by done. rewrite He, list_elem_of_fmap.
  apply contents_lookup in Hold as [Hold Hko]; [|done]. split.
  - intros [[<- ->]|(Hne & Hx & Hk)].
    + split; [|done]. exists old. by rewrite decide_True.
    + split; [|done]. exists x. by rewrite decide_False by congruence.
  - intros [(y & -> & Hy) Hk]. case_decide as E; [left; split; congruence|right]. by split; [congruence|].
Qed.
End keys.
#[global] Arguments contents {_ _ _} _ : simpl never.

(** ** Arrays *)

Lemma toarray_spec {A} (t : avl_node A) : t <> Null -> toarray t = Some (elements t).
Proof.
  unfold toarray. induction t as [|l IHl x r IHr h]; [done|]. intros _. cbn [toarray_rec elements].
  assert (forall t : avl_node A, (t <> Null -> toarray_rec t = Some (elements t)) ->
    match t with Null => Some [] | _ => toarray_rec t end = Some (elements t)) as Hc.
  { intros [|l' x' r' h'] Ht; [done|]. by apply Ht. }
  by rewrite (Hc l IHl), (Hc r IHr).
Qed.

(** ** Iterators *)

Section iterator.
Context {A : Type} (t : avl_node A).
Hypothesis Ht : heights_ok t.

(** What comes after the subtree at a path. *)
Fixpoint after (t : avl_node A) (p : path) {struct p} : list A :=
  match p with
  | [] => []
  | b :: p =>
      match t with
      | Null => []
      | Tree l x r _ => if b then after r p else after l p ++ x :: elements r
      end
  end.

Lemma at_path_app (u : avl_node A) p q : at_path u (p ++ q) = at_path (at_path u p) q.
Proof.
  revert u. induction p as [|b p IH]; intros u; [done|]. cbn.
  destruct u as [|l x r h]; [by destruct q|]. apply IH.
Qed.

Lemma after_snoc (u : avl_node A) p b l x r h :
  at_path u p = Tree l x r h ->
  after u (p ++ [b]) = (if b then [] else x :: elements r) ++ after u p.
Proof.
  revert u. induction p as [|b' p IH]; intros u Hp.
  - cbn in Hp. subst u. destruct b; cbn; by rewrite ?app_nil_r.
  - destruct u as [|l' x' r' h']; [done|]. destruct b'; cbn in *.
    + by apply IH.
    + rewrite (IH l' Hp), <- app_assoc. done.
Qed.

Lemma path_height (u : avl_node A) p :
  heights_ok u -> at_path u p <> Null -> Z.of_nat (length p) < avl_get_height u.
Proof.
  revert u. induction p as [|b p IH]; intros u Hu Hp.
  - pose proof (height_nonneg u Hu) as [Hn Hz]. assert (avl_get_height u <> 0) by (intros E; by apply Hp, Hz). cbn [length]. lia.
  - destruct u as [|l x r h]; [done|]. destruct Hu as (Hl & Hr & ->). cbn [avl_get_height]. rewrite height_of_max.
    destruct b; cbn in Hp; [specialize (IH r Hr Hp)|specialize (IH l Hl Hp)]; cbn [length]; lia.
Qed.

(** The first entries of the array lead to the node at [p]. *)
Definition leads (nodes : list pointer) (p : path) : Prop :=
  at_path t p <> Null /\ length nodes = Z.to_nat (avl_get_height t + 1) /\
  forall i, (i <= length p)%nat -> nodes !! i = Some (Some (take i p)).

(** What an iterator still visits. *)
Variant pending : avl_iter_t -> list A -> Prop :=
| pending_end nodes h : nodes !! 0%nat = Some None -> pending (mk_iter h nodes) []
| pending_enter nodes p : leads nodes p -> pending (mk_iter (length p) nodes) (elements (at_path t p) ++ after t p)
| pending_node nodes p l x r h :
    leads nodes p -> nodes !! S (length p) = Some None -> at_path t p = Tree l x r h ->
    pending (mk_iter (S (length p)) nodes) (x :: elements r ++ after t p).

Lemma pending_start : pending (avl_iter t) (elements t).
Proof using Ht.
  assert (t = Null \/ t <> Null) as [E|Hne] by (destruct t; auto).
  { rewrite E. by apply pending_end. }
  pose proof (height_nonneg t Ht) as [Hn Hz].
  replace (elements t) with (elements (at_path t []) ++ after t []) by (cbn; apply app_nil_r).
  replace (avl_iter t) with (mk_iter (length (@nil bool)) (Some [] :: replicate (Z.to_nat (avl_get_height t + 1) - 1) None))
    by (by destruct t).
  apply pending_enter. split; [done|]. split.
  - cbn [length]. rewrite length_replicate. lia.
  - intros i Hi. by assert (i = 0)%nat as -> by (cbn in Hi; lia).
Qed.

Lemma leads_room nodes p i : leads nodes p -> (i <= S (length p))%nat -> (i < length nodes)%nat.
Proof using Ht.
  intros (Hp & Hlen & _) Hi. pose proof (path_height t p Ht Hp). rewrite Hlen. lia.
Qed.

Lemma write_room nodes p i q : leads nodes p -> (i <= S (length p))%nat -> write_node nodes i q = Some (<[i := q]> nodes).
Proof using Ht. intros Hl Hi. unfold write_node. rewrite decide_True; [done|]. by eapply leads_room. Qed.

(** Going down from [p]. *)
Lemma leads_child nodes p b q :
  leads nodes p -> child t p b = Some q -> q = p ++ [b] /\ leads (<[S (length p) := Some q]> nodes) q.
Proof using Ht.
  intros Hl Hc. pose proof (leads_room nodes p _ Hl (Nat.le_refl _)) as Hroom. destruct Hl as (Hp & Hlen & Hn).
  unfold child in Hc. destruct (at_path t (p ++ [b])) eqn:E; [discriminate|]. injection Hc as <-. split; [done|].
  split; [by rewrite E|]. split; [by rewrite length_insert|]. rewrite length_app. cbn [length]. intros i Hi.
  destruct (decide (i = S (length p))) as [->|Hne].
  - rewrite list_lookup_insert_eq by done. rewrite take_ge; [done|]. rewrite length_app. cbn. lia.
  - rewrite list_lookup_insert_ne by done. rewrite Hn by lia. by rewrite take_app_le by lia.
Qed.

Lemma leads_write nodes p q : leads nodes p -> leads (<[S (length p) := q]> nodes) p.
Proof.
  intros (Hp & Hlen & Hn). split; [done|]. split; [by rewrite length_insert|].
  intros i Hi. rewrite list_lookup_insert_ne by lia. by apply Hn.
Qed.

Lemma leads_prefix nodes p b : leads nodes (p ++ [b]) -> leads nodes p /\ exists l x r h, at_path t p = Tree l x r h.
Proof.
  intros (Hp & Hlen & Hn). rewrite at_path_app in Hp. destruct (at_path t p) as [|l x r h] eqn:E; [done|].
  split; [|by eauto]. split; [by rewrite E|]. split; [done|]. intros i Hi. rewrite Hn by (rewrite length_app; cbn; lia).
  by rewrite take_app_le by lia.
Qed.

Lemma leads_head nodes p : leads nodes p -> nodes !! length p = Some (Some p).
Proof. intros (_ & _ & Hn). by rewrite Hn, take_ge by lia. Qed.

Lemma descend_spec fuel nodes p :
  leads nodes p -> (length nodes <= fuel + length p)%nat ->
  exists nodes' q l x r h, descend fuel t (length p) nodes = Some (S (length q), nodes') /\
    leads nodes' q /\ nodes' !! S (length q) = Some None /\ at_path t q = Tree l x r h /\
    elements (at_path t p) ++ after t p = x :: elements r ++ after t q.
Proof using Ht.
  revert nodes p. induction fuel as [|fuel IH]; intros nodes p Hl Hf.
  - pose proof (leads_room nodes p _ Hl (Nat.le_refl _)). lia.
  - pose proof (leads_room nodes p _ Hl (Nat.le_refl _)) as Hroom. cbn [descend]. rewrite (leads_head nodes p Hl).
    cbn [mbind option_bind]. rewrite (write_room nodes p) by done. cbn [mbind option_bind].
    destruct (at_path t p) as [|l x r h] eqn:E; [by destruct Hl|].
    destruct (child t p false) as [q|] eqn:Hc.
    + destruct (leads_child nodes p false q Hl Hc) as [-> Hlq].
      destruct (IH _ _ Hlq) as (nodes' & q & l' & x' & r' & h' & Hd & Hq & Hnone & Eq & Hel).
      { rewrite length_insert, length_app. cbn. lia. }
      exists nodes', q, l', x', r', h'. split; [by rewrite length_app, Nat.add_1_r in Hd|].
      do 3 (split; [done|]). rewrite <- Hel, at_path_app, E, (after_snoc t p false l x r h E). cbn. by rewrite <- app_assoc.
    + unfold child in Hc. rewrite at_path_app, E in Hc. cbn in Hc. destruct l; [|discriminate].
      exists (<[S (length p) := None]> nodes), p, Null, x, r, h.
      assert (<[S (length p) := None]> nodes !! S (length p) = Some None) as Hn by by apply list_lookup_insert_eq.
      destruct fuel as [|fuel]; [lia|]. cbn [descend]. rewrite Hn.
      split; [done|]. split; [by apply leads_write|done].
Qed.

Lemma backtrack_S n nodes :
  backtrack t (S (S n)) nodes =
  (p ← nodes !! S n; above ← nodes !! n; q ← above;
   if decide (p = child t q true) then backtrack t (S n) nodes else Some (S n)).
Proof. done. Qed.

Lemma backtrack_spec nodes p :
  leads nodes p ->
  exists h', backtrack t (S (length p)) nodes = Some h' /\
    (h' = 0%nat /\ after t p = [] \/
     exists q l x r h, h' = S (length q) /\ leads nodes q /\ at_path t q = Tree l x r h /\
       after t p = x :: elements r ++ after t q).
Proof.
  induction p as [|b p IH] using rev_ind; intros Hl.
  - exists 0%nat. split; [done|]. by left.
  - pose proof (leads_head nodes _ Hl) as Hh. destruct (leads_prefix nodes p b Hl) as (Hlp & l & x & r & h & E).
    pose proof (leads_head nodes _ Hlp) as Hh'. rewrite (after_snoc t p b l x r h E).
    rewrite length_app in *. cbn [length] in *. rewrite Nat.add_1_r in *.
    rewrite backtrack_S, Hh, Hh'. cbn [mbind option_bind].
    destruct Hl as [Hne _]. unfold child. destruct b.
    + destruct (at_path t (p ++ [true])); [done|]. rewrite decide_True by done. by apply IH.
    + rewrite decide_False.
      * exists (S (length p)). split; [done|]. right. by exists p, l, x, r, h.
      * destruct (at_path t (p ++ [true])); [done|]. intros [= Heq]. by apply app_inj_2 in Heq as [_ [=]].
Qed.

Lemma iter_next_spec it L :
  pending it L -> exists it', avl_iter_next t it = Some (head L, it') /\ pending it' (tail L).
Proof using Ht.
  assert (forall nodes p l x r h fuel, leads nodes p -> nodes !! S (length p) = Some None -> at_path t p = Tree l x r h ->
    descend (S fuel) t (S (length p)) nodes = Some (S (length p), nodes)) as Hstay.
  { intros nodes p l x r h fuel Hl Hn E. cbn [descend]. by rewrite Hn. }
  assert (forall it nodes p l x r h, iter_nodes it !! 0%nat = Some (Some []) ->
    descend (S (length (iter_nodes it))) t (iter_height it) (iter_nodes it) = Some (S (length p), nodes) ->
    leads nodes p -> nodes !! S (length p) = Some None -> at_path t p = Tree l x r h ->
    exists it', avl_iter_next t it = Some (Some x, it') /\ pending it' (elements r ++ after t p)) as Hvisit.
  { intros it0 nodes p l x r h H0 Hd Hl Hn E. unfold avl_iter_next. rewrite H0. cbn [mbind option_bind].
    rewrite Hd. cbn [mbind option_bind]. rewrite (leads_head nodes p Hl). cbn [mbind option_bind]. rewrite E.
    destruct (child t p true) as [q|] eqn:Hc.
    - rewrite (write_room nodes p) by done. cbn [mbind option_bind]. eexists. split; [done|].
      destruct (leads_child nodes p true q Hl Hc) as [-> Hq]. apply pending_enter in Hq.
      rewrite length_app, Nat.add_1_r, at_path_app, E, (after_snoc t p true l x r h E) in Hq. exact Hq.
    - unfold child in Hc. rewrite at_path_app, E in Hc. cbn in Hc. destruct r; [|discriminate]. cbn [elements app].
      destruct (backtrack_spec nodes p Hl) as (h' & -> & Hcase). cbn [mbind option_bind].
      destruct Hcase as [[-> Ha]|(q & l' & x' & r' & hq & -> & Hq & Eq & Ha)]; rewrite Ha.
      + rewrite (write_room nodes p) by (done || lia). eexists. split; [done|]. apply pending_end.
        apply list_lookup_insert_eq. by eapply leads_room; [|lia].
      + rewrite (write_room nodes q) by done. eexists. split; [done|].
        eapply pending_node; [by apply leads_write| |exact Eq]. apply list_lookup_insert_eq. by eapply leads_room. }
  intros Hp. destruct Hp as [nodes h H0|nodes p Hl|nodes p l x r h Hl Hn E].
  - exists (mk_iter h nodes). unfold avl_iter_next. cbn [iter_nodes]. rewrite H0. split; [done|]. by apply pending_end.
  - destruct (descend_spec (S (length nodes)) nodes p Hl) as (nodes' & q & l & x & r & h & Hd & Hq & Hn & Eq & ->); [lia|].
    cbn [head tail]. apply (Hvisit _ nodes' q l x r h); try done. apply (proj2 (proj2 Hl) 0%nat). lia.
  - cbn [head tail]. apply (Hvisit _ nodes p l x r h); try done; [|by eapply Hstay].
    apply (proj2 (proj2 Hl) 0%nat). lia.
Qed.

Lemma iter_all_spec n it L : pending it L -> (length L < n)%nat -> iter_all n t it = Some L.
Proof using Ht.
  revert it L. induction n as [|n IH]; intros it L Hp Hn; [lia|].
  destruct (iter_next_spec it L Hp) as (it' & Hx & Hp'). cbn [iter_all]. rewrite Hx. cbn [mbind option_bind].
  destruct L as [|x L]; [done|]. cbn [head]. rewrite (IH it' L Hp'); [done|]. cbn in Hn. lia.
Qed.
End iterator.
End AvlFacts.
