(* ===== verification/SylvanRefs.v ===== *)
(** The tables of external references and of protected pointers, sylvan/src/sylvan_refs.c:
    resizable hash tables with linear probing and tombstones.  A reference is a 40-bit value
    with its count in the higher bits; a protected pointer is a 64-bit address, as often in the
    table as it is protected.  The run is that of one worker: a compare-and-swap succeeds, no
    resize is found in progress, and a wait for other workers ends at once or never.  The fuel
    bounds the rounds of such waits and the repetitions after a resize. *)

From S2P Require Import Prelude SylvanHash.

Module Refs.
Import Hash.

Record refs_table_t := mk_refs {
  refs_table : gmap N N;
  refs_size : N;
  refs_control : N;             (* 32 bits: users, or the stage of a resize *)
  refs_resize_table : gmap N N;
  refs_resize_size : N;
  refs_resize_part : N;
  refs_resize_done : N
}.

Definition set_table (t : gmap N N) (r : refs_table_t) : refs_table_t :=
  mk_refs t (refs_size r) (refs_control r) (refs_resize_table r) (refs_resize_size r)
    (refs_resize_part r) (refs_resize_done r).
Definition set_control (v : N) (r : refs_table_t) : refs_table_t :=
  mk_refs (refs_table r) (refs_size r) v (refs_resize_table r) (refs_resize_size r)
    (refs_resize_part r) (refs_resize_done r).
Definition set_progress (part done_ : N) (r : refs_table_t) : refs_table_t :=
  mk_refs (refs_table r) (refs_size r) (refs_control r) (refs_resize_table r) (refs_resize_size r)
    part done_.
Definition set_bucket (bucket v : N) (r : refs_table_t) : refs_table_t :=
  set_table (mset (refs_table r) bucket v) r.

Notation rprog := (prog refs_table_t).

Definition refs_ts : N := 0x7fffffffffffffff.
Definition fnvhash8 (a : N) : N := sylvan_fnvhash8 a 14695981039346656037.
Definition key_mask : N := 0x000000ffffffffff.

(** A bucket that is neither empty nor a tombstone. *)
Definition in_use (v : N) : bool := negb (v =? 0) && negb (v =? refs_ts).

(** [if (++bucket == end) bucket = tbl->refs_table]. *)
Definition next_bucket (size bucket : N) : N := if bucket + 1 =? size then 0 else bucket + 1.

Definition tries : nat := 128.

Fixpoint count_loop (n : nat) (bucket : N) (t : gmap N N) : N :=
  match n with
  | O => 0
  | S n => (if in_use (mget t bucket) then 1 else 0) + count_loop n (bucket + 1) t
  end.
Definition refs_count (r : refs_table_t) : N :=
  count_loop (N.to_nat (refs_size r)) 0 (refs_table r).
Definition protect_count : refs_table_t -> N := refs_count.

(** ** Resizing *)

(** The first empty bucket; [None] when none of the buckets tried is empty. *)
Fixpoint place_loop (i : nat) (size bucket v : N) (t : gmap N N) : option (gmap N N) :=
  match i with
  | O => None
  | S i =>
      if mget t bucket =? 0 then Some (mset t bucket v)
      else place_loop i size (next_bucket size bucket) v t
  end.

Definition refs_rehash (v : N) : rprog unit :=
  if v =? 0 then mret tt
  else if v =? refs_ts then mret tt
  else
    r ← gets id;
    match place_loop tries (refs_size r) (fnvhash8 (N.land v key_mask) mod refs_size r) v
            (refs_table r) with
    | Some t => modify (set_table t)
    | None => mret tt
    end.

Definition protect_rehash (v : N) : rprog unit :=
  if v =? 0 then mret tt
  else if v =? refs_ts then mret tt
  else
    r ← gets id;
    match place_loop tries (refs_size r) (fnvhash8 v mod refs_size r) v (refs_table r) with
    | Some t => modify (set_table t)
    | None => exit AssertFailed
    end.

Definition resizing (control : N) : bool := negb (N.land control 0xf0000000 =? 0).

(** The two tables have the same resize up to the function that places a bucket. *)
Section resize.
Context (rehash : N -> rprog unit).

Definition resize_help : rprog bool :=
  r ← gets id;
  if negb (resizing (refs_control r)) then mret false
  else if negb (N.land (refs_control r) 0x80000000 =? 0) then mret true
  else if refs_resize_size r / 128 <=? refs_resize_part r then mret true
  else
    let part := refs_resize_part r in
    _ ← modify (set_progress (part + 1) (refs_resize_done r));
    _ ← for_loop 128 (part * 128) (fun bucket => rehash (mget (refs_resize_table r) bucket));
    _ ← modify (fun r => set_progress (refs_resize_part r) (refs_resize_done r + 1) r);
    mret true.

(** [while (resize_help(tbl)) continue]. *)
Fixpoint help_all (fuel : nat) : rprog unit :=
  match fuel with
  | O => no_fuel
  | S fuel => again ← resize_help; if (again : bool) then help_all fuel else mret tt
  end.

(** [while (tbl->refs_resize_done < tbl->refs_resize_size/128) resize_help(tbl)]; the other
    table compares with [!=], and no worker counts a part twice. *)
Fixpoint help_parts (fuel : nat) : rprog unit :=
  r ← gets id;
  if refs_resize_done r <? refs_resize_size r / 128 then
    match fuel with
    | O => no_fuel
    | S fuel => _ ← resize_help; help_parts fuel
    end
  else mret tt.

Definition resize (fuel : nat) : rprog unit :=
  v ← gets refs_control;
  if resizing v then help_all fuel
  else
    _ ← modify (set_control (N.lor 0x80000000 v));
    r ← gets id;
    if negb (refs_control r =? 0x80000000) then no_fuel
    else
      let old_size := refs_size r in
      let new_size := if old_size <? refs_count r * 4 then old_size * 2 else old_size in
      _ ← modify (fun r => mk_refs ∅ new_size 0x40000000 (refs_table r) old_size 0 0);
      _ ← help_parts (N.to_nat (old_size / 128));
      modify (set_control 0).

Fixpoint enter (fuel : nat) : rprog unit :=
  match fuel with
  | O => no_fuel
  | S fuel =>
      v ← gets refs_control;
      if resizing v then _ ← help_all fuel; enter fuel
      else modify (set_control (w32 (v + 1)))
  end.
End resize.

Definition refs_resize_help : rprog bool := resize_help refs_rehash.
Definition refs_resize : nat -> rprog unit := resize refs_rehash.
Definition refs_enter : nat -> rprog unit := enter refs_rehash.
Definition refs_leave : rprog unit := modify (fun r => set_control (sub32 (refs_control r) 1) r).

Definition protect_resize_help : rprog bool := resize_help protect_rehash.
Definition protect_resize : nat -> rprog unit := resize protect_rehash.
Definition protect_enter : nat -> rprog unit := enter protect_rehash.
Definition protect_leave : rprog unit := refs_leave.

(** ** Looking up and changing *)

(** What linear probing meets: an empty bucket, a bucket with the key, or neither; and the
    first tombstone on the way. *)
Inductive probe :=
| Absent (bucket : N) (ts_bucket : option N)
| Found (bucket v : N)
| Exhausted (ts_bucket : option N).

Fixpoint probe_loop (i : nat) (size : N) (is_key : N -> bool) (bucket : N)
    (ts_bucket : option N) (t : gmap N N) : probe :=
  match i with
  | O => Exhausted ts_bucket
  | S i =>
      let v := mget t bucket in
      if v =? refs_ts then
        probe_loop i size is_key (next_bucket size bucket)
          (match ts_bucket with None => Some bucket | Some _ => ts_bucket end) t
      else if v =? 0 then Absent bucket ts_bucket
      else if is_key v then Found bucket v
      else probe_loop i size is_key (next_bucket size bucket) ts_bucket t
  end.

Definition probe_from (is_key : N -> bool) (a : N) (r : refs_table_t) : probe :=
  probe_loop tries (refs_size r) is_key (N.land (fnvhash8 a) (refs_size r - 1)) None (refs_table r).

Definition has_key (a v : N) : bool := N.land v key_mask =? a.
Definition one_ref (a : N) : N := N.lor a (N.shiftl 1 40).

(** [up] is [dir > 0]; the result tells whether the value was found. *)
Fixpoint refs_modify (fuel : nat) (a : N) (up : bool) : rprog bool :=
  match fuel with
  | O => no_fuel
  | S fuel =>
      _ ← refs_enter (S fuel);
      r ← gets id;
      match probe_from (has_key a) a r with
      | Absent bucket ts_bucket =>
          _ ← (if up then modify (set_bucket (default bucket ts_bucket) (one_ref a)) else mret tt);
          _ ← refs_leave;
          mret false
      | Found bucket v =>
          let count := N.shiftr v 40 in
          _ ← (if count =? 0x7fffff then mret tt
               else
                 let count := if up then add64 count 1 else sub64 count 1 in
                 modify (set_bucket bucket
                   (if count =? 0 then refs_ts else N.lor a (shl64 count 40))));
          _ ← refs_leave;
          mret true
      | Exhausted ts_bucket =>
          if negb up then _ ← refs_leave; mret false
          else
            match ts_bucket with
            | Some bucket =>
                _ ← modify (set_bucket bucket (one_ref a));
                _ ← refs_leave;
                mret true
            | None =>
                _ ← refs_leave;
                _ ← refs_resize fuel;
                refs_modify fuel a up
            end
      end
  end.

Definition refs_up (fuel : nat) (a : N) : rprog unit := _ ← refs_modify fuel a true; mret tt.
Definition refs_down (fuel : nat) (a : N) : rprog unit :=
  res ← refs_modify fuel a false;
  if (res : bool) then mret tt else exit AssertFailed.

Fixpoint protect_up_loop (fuel : nat) (a : N) : rprog unit :=
  match fuel with
  | O => no_fuel
  | S fuel =>
      r ← gets id;
      match probe_from (fun _ => false) a r with
      | Absent bucket ts_bucket =>
          _ ← modify (set_bucket (default bucket ts_bucket) a);
          protect_leave
      | Found _ _ => no_fuel  (* not with this test *)
      | Exhausted (Some bucket) =>
          _ ← modify (set_bucket bucket a);
          protect_leave
      | Exhausted None =>
          _ ← protect_leave;
          _ ← protect_resize fuel;
          _ ← protect_enter fuel;
          protect_up_loop fuel a
      end
  end.
Definition protect_up (fuel : nat) (a : N) : rprog unit :=
  _ ← protect_enter fuel;
  protect_up_loop fuel a.

Fixpoint find_bucket (i : nat) (size a bucket : N) (t : gmap N N) : option N :=
  match i with
  | O => None
  | S i =>
      if mget t bucket =? a then Some bucket
      else find_bucket i size a (next_bucket size bucket) t
  end.

Definition protect_down (fuel : nat) (a : N) : rprog unit :=
  _ ← protect_enter fuel;
  r ← gets id;
  match find_bucket tries (refs_size r) a (N.land (fnvhash8 a) (refs_size r - 1)) (refs_table r) with
  | Some bucket =>
      _ ← modify (set_bucket bucket refs_ts);
      protect_leave
  | None => exit AssertFailed
  end.

(** ** Iterating *)

(** The first bucket in use among [n] from [bucket] on. *)
Fixpoint iter_loop (n : nat) (bucket : N) (t : gmap N N) : option N :=
  match n with
  | O => None
  | S n => if in_use (mget t bucket) then Some bucket else iter_loop n (bucket + 1) t
  end.
Definition refs_iter (r : refs_table_t) (first end_ : N) : option N :=
  iter_loop (N.to_nat (end_ - first)) first (refs_table r).
Definition refs_next (r : refs_table_t) (bucket end_ : N) : N * option N :=
  (N.land (mget (refs_table r) bucket) key_mask,
   iter_loop (N.to_nat (end_ - (bucket + 1))) (bucket + 1) (refs_table r)).
Definition protect_iter : refs_table_t -> N -> N -> option N := refs_iter.
Definition protect_next (r : refs_table_t) (bucket end_ : N) : N * option N :=
  (mget (refs_table r) bucket,
   iter_loop (N.to_nat (end_ - (bucket + 1))) (bucket + 1) (refs_table r)).

(** [while (it != NULL) ... next(&it)]: the values in the order of the spawned tasks. *)
Fixpoint walk (fuel : nat) (next : N -> N * option N) (it : option N) : list N :=
  match fuel, it with
  | S fuel, Some bucket => let '(v, it) := next bucket in v :: walk fuel next it
  | _, _ => []
  end.
Definition refs_walk (r : refs_table_t) : list N :=
  walk (N.to_nat (refs_size r)) (fun b => refs_next r b (refs_size r)) (refs_iter r 0 (refs_size r)).
Definition protect_walk (r : refs_table_t) : list N :=
  walk (N.to_nat (refs_size r)) (fun b => protect_next r b (refs_size r))
    (protect_iter r 0 (refs_size r)).

(** ** Creation; the memory that is mapped reads zero, as do the control fields of a global. *)
Definition refs_create (size : N) : rprog unit :=
  if negb (popcount size =? 1) then exit BadSize
  else modify (fun r => mk_refs ∅ size (refs_control r) (refs_resize_table r) (refs_resize_size r)
                          (refs_resize_part r) (refs_resize_done r)).
Definition protect_create : N -> rprog unit := refs_create.
End Refs.
