(* ===== verification/SylvanRefsFacts.v ===== *)
(** Facts on the tables of [SylvanRefs]: where probing ends, the values in use as a list up to
    order, and the effect on it of each operation. *)

From S2P Require Import Prelude SylvanHash SylvanRefs.

Module RefsFacts.
Import Hash Refs.

(** ** The values in use *)

Definition cell (v : N) : list N := if in_use v then [v] else [].

Fixpoint entries_upto (n : nat) (t : gmap N N) : list N :=
  match n with
  | O => []
  | S n => entries_upto n t ++ cell (mget t (N.of_nat n))
  end.
Definition entries (r : refs_table_t) : list N :=
  entries_upto (N.to_nat (refs_size r)) (refs_table r).

Lemma in_use_ne v : in_use v = true <-> v <> 0 /\ v <> refs_ts.
Proof. unfold in_use. rewrite andb_true_iff, !negb_true_iff, !N.eqb_neq. done. Qed.

Lemma in_use_not v : in_use v = false <-> v = 0 \/ v = refs_ts.
Proof. unfold in_use. rewrite andb_false_iff, !negb_false_iff, !N.eqb_eq. done. Qed.

Lemma entries_upto_beyond n t p v : N.of_nat n <= p -> entries_upto n (mset t p v) = entries_upto n t.
Proof.
  induction n as [|n IH]; intros Hp; cbn [entries_upto]; [done|].
  rewrite IH by lia. by rewrite mget_mset_ne by lia.
Qed.

Lemma entries_upto_set n t p v :
  p < N.of_nat n -> entries_upto n (mset t p v) ++ cell (mget t p) ≡ₚ entries_upto n t ++ cell v.
Proof.
  induction n as [|n IH]; intros Hp; [lia|]. cbn [entries_upto].
  destruct (decide (p = N.of_nat n)) as [->|Hne].
  - rewrite entries_upto_beyond, mget_mset_eq by lia. by rewrite <- !app_assoc, (Permutation_app_comm (cell v)).
  - rewrite mget_mset_ne by done. specialize (IH ltac:(lia)).
    rewrite <- !app_assoc, (Permutation_app_comm (cell (mget t (N.of_nat n)))), app_assoc, IH.
    rewrite <- app_assoc. apply Permutation_app_head, Permutation_app_comm.
Qed.

Lemma elem_of_entries_upto n t v :
  v ∈ entries_upto n t <-> exists p, p < N.of_nat n /\ mget t p = v /\ in_use v = true.
Proof.
  induction n as [|n IH]; cbn [entries_upto]; [split; [by intros ?%elem_of_nil|intros (p & Hp & _); cbn in Hp; lia]|].
  rewrite elem_of_app, IH. unfold cell. split.
  - intros [(p & Hp & Hv)|Hv]; [exists p; split; [lia|done]|].
    case_match eqn:Eu; [|by apply elem_of_nil in Hv]. apply list_elem_of_singleton in Hv as ->.
    exists (N.of_nat n). split; [lia|done].
  - intros (p & Hp & Hv & Hu). destruct (decide (p = N.of_nat n)) as [->|Hne].
    + right. rewrite Hv, Hu. by apply list_elem_of_singleton.
    + left. exists p. split; [lia|done].
Qed.

Lemma elem_of_entries r v :
  v ∈ entries r <-> exists p, p < refs_size r /\ mget (refs_table r) p = v /\ in_use v = true.
Proof. unfold entries. by rewrite elem_of_entries_upto, N2Nat.id. Qed.

Lemma entries_set r p v :
  p < refs_size r -> entries (set_bucket p v r) ++ cell (mget (refs_table r) p) ≡ₚ entries r ++ cell v.
Proof. intros Hp. apply (entries_upto_set (N.to_nat (refs_size r))). lia. Qed.

(** The buckets in use, in order. *)
Definition used (t : gmap N N) (ps : list N) : list N := filter (fun p => in_use (mget t p) = true) ps.

Lemma entries_used n t : entries_upto n t = map (mget t) (used t (nseq 0 n)).
Proof.
  induction n as [|n IH]; [done|]. rewrite nseq_snoc. unfold used in *. rewrite filter_app, map_app.
  cbn [entries_upto]. rewrite IH, N.add_0_l. f_equal. unfold cell. rewrite filter_cons, filter_nil.
  by destruct (in_use (mget t (N.of_nat n))).
Qed.

Lemma count_loop_used n t k : count_loop n k t = N.of_nat (length (used t (nseq k n))).
Proof.
  revert k. induction n as [|n IH]; intros k; [done|]. cbn [count_loop nseq]. unfold used in *.
  rewrite filter_cons, IH. destruct (in_use (mget t k)); cbn [length decide]; case_decide; cbn [length]; try done; lia.
Qed.

Lemma refs_count_entries r : refs_count r = N.of_nat (length (entries r)).
Proof. unfold refs_count, entries. by rewrite count_loop_used, entries_used, length_map. Qed.

(** ** Probing *)

Definition pos (size h i : N) : N := (h + i) mod size.

Lemma pos_lt size h i : 0 < size -> pos size h i < size.
Proof. intros Hs. apply N.mod_lt. lia. Qed.

Lemma next_pos size h i : 0 < size -> next_bucket size (pos size h i) = pos size h (i + 1).
Proof.
  intros Hs. unfold next_bucket, pos. rewrite (N.add_assoc h i 1), <- (N.Div0.add_mod_idemp_l (h + i)).
  pose proof (N.mod_lt (h + i) size ltac:(lia)) as Hlt.
  destruct (N.eqb_spec ((h + i) mod size + 1) size) as [->|Hne].
  - by rewrite N.Div0.mod_same.
  - rewrite (N.mod_small (_ + 1)) by lia. done.
Qed.

Lemma pos_start size h : pos size h 0 = h mod size.
Proof. unfold pos. by rewrite N.add_0_r. Qed.

Lemma pos_inj size h i j : i < size -> j < size -> pos size h i = pos size h j -> i = j.
Proof.
  unfold pos. intros Hi Hj Heq. pose proof (N.Div0.div_mod (h + i) size) as Ei.
  pose proof (N.Div0.div_mod (h + j) size) as Ej. rewrite Heq in Ei. revert Ei Ej.
  generalize ((h + i) / size), ((h + j) / size). intros q q' Ei Ej.
  destruct (N.lt_trichotomy q q') as [Hq|[->|Hq]]; nia.
Qed.

(** All of some buckets are in use, or one is not. *)
Lemma used_all t (ps : list N) :
  (forall p, p ∈ ps -> in_use (mget t p) = true) \/ exists p, p ∈ ps /\ in_use (mget t p) = false.
Proof.
  induction ps as [|p ps [IH|(q & Hq & Hf)]]; [left; by intros p ?%elem_of_nil| |].
  - destruct (in_use (mget t p)) eqn:E; [left|right; exists p; split; [by left|done]].
    intros q [->|Hq]%elem_of_cons; [done|by apply IH].
  - right. exists q. split; [by right|done].
Qed.

Section probing.
Context (size h : N) (size_pos : 0 < size) (t : gmap N N).
Notation at_ i := (mget t (pos size h i)).

Lemma place_loop_spec n i v :
  match place_loop n size (pos size h i) v t with
  | Some t' => exists k, i <= k < i + N.of_nat n /\ t' = mset t (pos size h k) v /\
      at_ k = 0 /\ forall j, i <= j < k -> at_ j <> 0
  | None => forall j, i <= j < i + N.of_nat n -> at_ j <> 0
  end.
Proof.
  revert i. induction n as [|n IH]; intros i; cbn [place_loop]; [lia|].
  destruct (N.eqb_spec (at_ i) 0) as [E|E].
  - exists i. split_and!; [lia|lia|done|done|lia].
  - rewrite next_pos by done. specialize (IH (i + 1)). case_match.
    + destruct IH as (k & Hk & Ht & H0 & Hj). exists k. split_and!; [lia|lia|done|done|].
      intros j Hj'. destruct (decide (j = i)) as [->|]; [done|apply Hj; lia].
    + intros j Hj'. destruct (decide (j = i)) as [->|]; [done|apply IH; lia].
Qed.

Definition find_post (n : nat) (i a : N) (o : option N) : Prop :=
  match o with
  | Some b => exists k, i <= k < i + N.of_nat n /\ b = pos size h k /\ at_ k = a
  | None => forall j, i <= j < i + N.of_nat n -> at_ j <> a
  end.

Lemma find_bucket_spec n i a : find_post n i a (find_bucket n size a (pos size h i) t).
Proof.
  revert i. induction n as [|n IH]; intros i; cbn [find_bucket]; unfold find_post in *; [lia|].
  destruct (N.eqb_spec (at_ i) a) as [E|E].
  - exists i. split_and!; [lia|lia|done|done].
  - rewrite next_pos by done. specialize (IH (i + 1)). case_match.
    + destruct IH as (k & Hk & Hb). exists k. split; [lia|done].
    + intros j Hj'. destruct (decide (j = i)) as [->|]; [done|apply IH; lia].
Qed.

(** The buckets passed before the probe ends are neither empty nor have the key. *)
Definition passed (is_key : N -> bool) (i k : N) : Prop :=
  forall j, i <= j < k -> at_ j <> 0 /\ (in_use (at_ j) = true -> is_key (at_ j) = false).
Definition tombstone (ts ts' : option N) (i k : N) : Prop :=
  match ts' with
  | Some b => ts = Some b \/ exists j, i <= j < k /\ b = pos size h j /\ at_ j = refs_ts
  | None => ts = None /\ forall j, i <= j < k -> at_ j <> refs_ts
  end.

Definition probe_post (is_key : N -> bool) (n : nat) (i : N) (ts : option N) (p : probe) : Prop :=
  match p with
  | Absent b ts' => exists k, i <= k < i + N.of_nat n /\ b = pos size h k /\ at_ k = 0 /\
      passed is_key i k /\ tombstone ts ts' i k
  | Found b v => exists k, i <= k < i + N.of_nat n /\ b = pos size h k /\ at_ k = v /\
      in_use v = true /\ is_key v = true
  | Exhausted ts' => passed is_key i (i + N.of_nat n) /\ tombstone ts ts' i (i + N.of_nat n)
  end.

Lemma probe_loop_spec is_key n i ts :
  probe_post is_key n i ts (probe_loop n size is_key (pos size h i) ts t).
Proof.
  revert i ts. induction n as [|n IH]; intros i ts; cbn [probe_loop].
  { split; [intros j Hj; lia|]. destruct ts; [by left|]. split; [done|]. intros j Hj. lia. }
  assert (forall k, at_ i <> 0 /\ (in_use (at_ i) = true -> is_key (at_ i) = false) ->
    passed is_key (i + 1) k -> passed is_key i k) as Hpass.
  { intros k Hi Hp j Hj. destruct (decide (j = i)) as [->|]; [done|apply Hp; lia]. }
  assert (forall ts0 ts' k, i < k ->
      (ts0 = ts /\ at_ i <> refs_ts \/ ts = None /\ ts0 = Some (pos size h i) /\ at_ i = refs_ts \/
       ts0 = ts /\ ts <> None) ->
      tombstone ts0 ts' (i + 1) k -> tombstone ts ts' i k) as Hts.
  { intros ts0 ts' k Hk Hc. destruct ts' as [b|]; cbn.
    - intros [Ht|(j & Hj & Hb)]; [|right; exists j; split; [lia|done]].
      destruct Hc as [[-> _]|[(-> & -> & Hi)|[-> _]]]; [by left| |by left].
      injection Ht as <-. right. exists i. split; [lia|done].
    - intros [-> Hj]. destruct Hc as [[<- Hi]|[(_ & Hc & _)|[<- Hc]]]; [|done..].
      split; [done|]. intros j Hj'. destruct (decide (j = i)) as [->|]; [done|apply Hj; lia]. }
  assert (forall ts0, at_ i <> 0 /\ (in_use (at_ i) = true -> is_key (at_ i) = false) ->
    (ts0 = ts /\ at_ i <> refs_ts \/ ts = None /\ ts0 = Some (pos size h i) /\ at_ i = refs_ts \/
     ts0 = ts /\ ts <> None) ->
    probe_post is_key (S n) i ts (probe_loop n size is_key (pos size h (i + 1)) ts0 t)) as Hstep.
  { intros ts0 Hi Hc. specialize (IH (i + 1) ts0). unfold probe_post in *. case_match.
    - destruct IH as (k & Hk & Hb & H0 & Hp & Ht). exists k. split; [lia|]. split_and!; try done.
      + by apply Hpass.
      + by apply (Hts ts0); [lia|..].
    - destruct IH as (k & Hk & Hb). exists k. split; [lia|done].
    - destruct IH as [Hp Ht]. replace (i + N.of_nat (S n)) with (i + 1 + N.of_nat n) by lia.
      split; [by apply Hpass|by apply (Hts ts0); [lia|..]]. }
  rewrite next_pos by done.
  destruct (N.eqb_spec (at_ i) refs_ts) as [Ets|Ets];
    [|destruct (N.eqb_spec (at_ i) 0) as [E0|E0]; [|destruct (is_key (at_ i)) eqn:Ek]].
  - apply Hstep; [rewrite Ets; by split|]. destruct ts; [right; right|right; left]; done.
  - exists i. split_and!; [lia|lia|done|done|intros j Hj; lia|].
    destruct ts; [by left|]. split; [done|]. intros j Hj. lia.
  - exists i. split_and!; [lia|lia|done|done|by apply in_use_ne|done].
  - apply Hstep; [by split|by left].
Qed.
End probing.

(** ** The invariant *)

Section table.
(** What of a value is hashed. *)
Context (key : N -> N).

(** The value is within the tries from where its key hashes to, past no empty bucket. *)
Definition reaches (r : refs_table_t) (v p : N) : Prop :=
  exists i, i < 128 /\ p = pos (refs_size r) (fnvhash8 (key v)) i /\
    forall j, j < i -> mget (refs_table r) (pos (refs_size r) (fnvhash8 (key v)) j) <> 0.

Record table_inv (r : refs_table_t) : Prop := {
  ti_size : exists k, 7 <= k /\ refs_size r = 2 ^ k;
  ti_placed : forall p, p < refs_size r -> in_use (mget (refs_table r) p) = true ->
    reaches r (mget (refs_table r) p) p
}.

Lemma inv_pos r : table_inv r -> 0 < refs_size r.
Proof. intros [(k & _ & ->) _]. apply N.neq_0_lt_0, N.pow_nonzero. done. Qed.

Lemma hash_land r a : table_inv r -> N.land (fnvhash8 a) (refs_size r - 1) = pos (refs_size r) (fnvhash8 a) 0.
Proof. intros [(k & _ & ->) _]. by rewrite ones_pred, land_ones_mod, pos_start. Qed.

(** Writing a value that is not zero keeps every path. *)
Lemma inv_set r p v :
  table_inv r -> p < refs_size r -> v <> 0 -> (in_use v = true -> reaches r v p) ->
  table_inv (set_bucket p v r).
Proof.
  intros Hi Hp Hv Hr. split; [apply Hi|]. intros q Hq. cbn [set_bucket set_table refs_table refs_size] in *.
  assert (forall w, reaches r w q -> reaches (set_bucket p v r) w q) as Hmono.
  { intros w (i & Hi' & Hw & Hj). exists i. split_and!; [done..|]. intros j Hlt.
    cbn [set_bucket set_table refs_table refs_size]. rewrite mget_mset. case_decide; [done|by apply Hj]. }
  rewrite mget_mset. case_decide as Hpq; intros Hu; apply Hmono; [subst q; by apply Hr|by apply (ti_placed r Hi)].
Qed.

Lemma inv_control r c : table_inv r -> table_inv (set_control c r).
Proof. intros [Hs Hp]. by split. Qed.

Lemma inv_progress r part done_ : table_inv r -> table_inv (set_progress part done_ r).
Proof. intros [Hs Hp]. by split. Qed.

Lemma inv_new r size :
  (exists k, 7 <= k /\ size = 2 ^ k) -> refs_table r = ∅ -> refs_size r = size ->
  table_inv r /\ entries r = [].
Proof.
  intros Hs Ht <-. split; [split; [done|]|].
  - intros p _ Hu. rewrite Ht, mget_empty in Hu. done.
  - unfold entries. rewrite Ht. induction (N.to_nat (refs_size r)) as [|n IH]; cbn; [done|].
    by rewrite IH, mget_empty.
Qed.

Lemma place_loop_inv r v t :
  table_inv r -> in_use v = true ->
  place_loop tries (refs_size r) (fnvhash8 (key v) mod refs_size r) v (refs_table r) = Some t ->
  table_inv (set_table t r) /\ entries (set_table t r) ≡ₚ entries r ++ [v].
Proof.
  intros Hi Hu Ht. pose proof (inv_pos r Hi) as Hpos.
  pose proof (place_loop_spec (refs_size r) (fnvhash8 (key v)) Hpos (refs_table r) tries 0 v) as Hl.
  rewrite pos_start, Ht in Hl. destruct Hl as (k & Hk & -> & H0 & Hj).
  pose proof (pos_lt (refs_size r) (fnvhash8 (key v)) k Hpos) as Hlt. split.
  - apply (inv_set r _ v); [done|done|by apply in_use_ne|]. intros _. exists k.
    split; [unfold tries in Hk; lia|]. split; [done|]. intros j Hjk. apply Hj. lia.
  - pose proof (entries_set r _ v Hlt) as He. rewrite H0 in He. unfold cell in He.
    rewrite Hu in He. cbn in He. by rewrite app_nil_r in He.
Qed.

(** ** Resizing *)

Section resize.
(** What placing a value does, [le] being equality up to order, or inclusion. *)
Context (rehash : N -> prog refs_table_t unit) (le : list N -> list N -> Prop)
  (E : exit_reason -> refs_table_t -> Prop)
  (le_nil : le [] [])
  (rehash_spec : forall r v l, table_inv r -> le (entries r) l ->
    wp (rehash v) (fun _ r' => (exists t, r' = set_table t r) /\ table_inv r' /\
      le (entries r') (l ++ cell v)) E r).

Section parts.
Context (T : gmap N N) (size new : N).

(** The values of the old table up to [j] are in the new one. *)
Record moved (part done_ j : N) (r : refs_table_t) : Prop := {
  mv_inv : table_inv r;
  mv_new : refs_size r = new;
  mv_control : refs_control r = 0x40000000;
  mv_table : refs_resize_table r = T;
  mv_size : refs_resize_size r = size;
  mv_part : refs_resize_part r = part;
  mv_done : refs_resize_done r = done_;
  mv_entries : le (entries r) (entries_upto (N.to_nat j) T)
}.

Lemma move_bucket part done_ j r :
  moved part done_ j r -> wp (rehash (mget T j)) (fun _ => moved part done_ (j + 1)) E r.
Proof.
  intros [Hi Hn Hc Ht Hsz Hp Hd He]. eapply wp_mono; [by apply rehash_spec|].
  intros [] r' ((t & ->) & Hi' & He'). split; try done.
  replace (N.to_nat (j + 1)) with (S (N.to_nat j)) by lia. cbn [entries_upto]. by rewrite N2Nat.id.
Qed.

Lemma help_part part r :
  part < size / 128 -> moved part part (128 * part) r ->
  wp (resize_help rehash) (fun _ => moved (part + 1) (part + 1) (128 * (part + 1))) E r.
Proof.
  intros Hlt [Hi Hn Hc Ht Hsz Hp Hd He]. unfold resize_help. do 2 wp_step. cbn [id].
  rewrite Hc, Hsz, Hp. change (negb (resizing 0x40000000)) with false.
  change (negb (N.land 0x40000000 0x80000000 =? 0)) with false. cbv iota.
  rewrite (proj2 (N.leb_gt _ _)) by done. do 3 wp_step. rewrite Ht, Hd.
  apply (wp_for (fun j => moved (part + 1) part j)).
  - replace (part * 128) with (128 * part) by lia.
    split; [by apply inv_progress|done..].
  - intros j r' _. apply move_bucket.
  - intros r' Hm. replace (part * 128 + N.of_nat 128) with (128 * (part + 1)) in Hm by lia.
    destruct Hm as [Hi' ? ? ? ? ? Hd' ?]. do 3 wp_step. split; [by apply inv_progress|done..| |done].
    cbn. by rewrite Hd'.
Qed.

Lemma help_parts_spec n part r :
  part + N.of_nat n = size / 128 -> moved part part (128 * part) r ->
  wp (help_parts rehash n) (fun _ => moved (size / 128) (size / 128) (128 * (size / 128))) E r.
Proof.
  revert part r. induction n as [|n IH]; intros part r Hn Hm; cbn [help_parts]; do 2 wp_step; cbn [id];
    rewrite (mv_done _ _ _ _ Hm), (mv_size _ _ _ _ Hm).
  - rewrite N.add_0_r in Hn. subst part. rewrite N.ltb_irrefl. by wp_step.
  - rewrite (proj2 (N.ltb_lt _ _)) by lia. wp_step. eapply wp_mono; [apply (help_part part); [lia|done]|].
    intros ? r' Hm'. apply (IH (part + 1)); [lia|done].
Qed.
End parts.

Lemma resize_spec fuel r :
  table_inv r -> refs_control r = 0 ->
  wp (resize rehash fuel)
    (fun _ r' => table_inv r' /\ refs_control r' = 0 /\ le (entries r') (entries r) /\
       (refs_size r' = refs_size r \/ refs_size r' = refs_size r * 2)) E r.
Proof.
  intros Hi Hc. unfold resize. wp_step. wp_step. rewrite Hc. change (resizing 0) with false. cbv iota.
  do 4 wp_step. cbn [id]. change (refs_control (set_control (N.lor 0x80000000 0) r)) with 0x80000000.
  change (negb (0x80000000 =? 0x80000000)) with false. cbv iota. do 3 wp_step.
  set (new_size := if _ <? _ then _ else _). set (r1 := mk_refs _ _ _ _ _ _ _).
  destruct (ti_size r Hi) as (k & Hk & Hs).
  assert (new_size = refs_size r \/ new_size = refs_size r * 2) as Hnew.
  { unfold new_size. case_match; [by right|by left]. }
  destruct (inv_new r1 new_size) as [Hi1 He1]; [|done..|].
  { destruct Hnew as [-> | ->]; [exists k|exists (k + 1)]; rewrite Hs; split; try lia.
    by rewrite N.pow_add_r. }
  assert (refs_size r = 128 * (refs_size r / 128)) as Hdiv.
  { rewrite Hs. replace k with (7 + (k - 7)) by lia. rewrite N.pow_add_r. change (2 ^ 7) with 128.
    rewrite (N.mul_comm 128), N.div_mul by done. lia. }
  eapply wp_mono; [apply (help_parts_spec (refs_table r) (refs_size r) new_size _ 0)|].
  - cbn. lia.
  - split; try done. rewrite He1. done.
  - intros [] r2 [Hi2 Hn2 _ _ _ _ _ He2]. wp_step. split; [by apply inv_control|]. split; [done|].
    rewrite <- Hdiv in He2. split; [exact He2|].
    cbn. by rewrite Hn2.
Qed.
End resize.

(** ** Writing one bucket *)

Lemma probe_from_spec is_key a r :
  table_inv r -> probe_post (refs_size r) (fnvhash8 a) (refs_table r) is_key tries 0 None (probe_from is_key a r).
Proof.
  intros Hi. unfold probe_from. rewrite (hash_land r a Hi). apply probe_loop_spec, (inv_pos r Hi).
Qed.

(** A new value goes to a bucket on its path that is not in use. *)
Lemma insert_placed r v k :
  table_inv r -> in_use v = true -> k < 128 ->
  let p := pos (refs_size r) (fnvhash8 (key v)) k in
  in_use (mget (refs_table r) p) = false ->
  (forall j, j < k -> mget (refs_table r) (pos (refs_size r) (fnvhash8 (key v)) j) <> 0) ->
  table_inv (set_bucket p v r) /\ entries (set_bucket p v r) ≡ₚ v :: entries r.
Proof.
  intros Hi Hv Hk p Hp Hj. pose proof (pos_lt (refs_size r) (fnvhash8 (key v)) k (inv_pos r Hi)) as Hlt.
  split.
  - apply inv_set; [done|done|by apply in_use_ne|]. intros _. by exists k.
  - pose proof (entries_set r p v Hlt) as He. unfold cell in He. rewrite Hp, Hv, app_nil_r in He.
    rewrite He. by rewrite <- Permutation_cons_append.
Qed.

(** The bucket that an insertion takes: the first tombstone, or the empty bucket. *)
Definition insert_post (r : refs_table_t) (v a : N) (is_key : N -> bool) (pr : probe) : Prop :=
  match pr with
  | Absent bucket ts | Exhausted (Some bucket as ts) =>
      let p := default bucket ts in
      table_inv (set_bucket p v r) /\ entries (set_bucket p v r) ≡ₚ v :: entries r
  | Found bucket w => bucket < refs_size r /\ mget (refs_table r) bucket = w /\ in_use w = true /\
      is_key w = true /\ reaches r w bucket
  | Exhausted None => forall k, k < 128 ->
      in_use (mget (refs_table r) (pos (refs_size r) (fnvhash8 a) k)) = true /\
      is_key (mget (refs_table r) (pos (refs_size r) (fnvhash8 a) k)) = false
  end.

Lemma insert_probe_post r v is_key pr :
  table_inv r -> in_use v = true ->
  probe_post (refs_size r) (fnvhash8 (key v)) (refs_table r) is_key tries 0 None pr ->
  insert_post r v (key v) is_key pr.
Proof.
  intros Hi Hv Hp. unfold probe_post, insert_post in *.
  assert (forall b k n, n <= 128 -> k < n -> b = pos (refs_size r) (fnvhash8 (key v)) k ->
    mget (refs_table r) b = refs_ts ->
    passed (refs_size r) (fnvhash8 (key v)) (refs_table r) is_key 0 n ->
    table_inv (set_bucket b v r) /\ entries (set_bucket b v r) ≡ₚ v :: entries r) as Hts.
  { intros b k n Hn Hk -> Hb Hpass. apply insert_placed; [done|done|lia|by rewrite Hb|].
    intros j Hj. apply Hpass. lia. }
  destruct pr as [b ts|b w|[b|]].
  - destruct Hp as (k & Hk & -> & H0 & Hpass & Ht). unfold tries in Hk. destruct ts as [b|]; cbn.
    + destruct Ht as [?|(j & Hj & Hb & Hat)]; [done|]. apply (Hts b j k); [lia|lia|done|by rewrite Hb|done].
    + apply insert_placed; [done|done|lia|by rewrite H0|]. intros j Hj. apply Hpass. lia.
  - destruct Hp as (k & Hk & -> & Hw & Hu & Hkey).
    pose proof (pos_lt (refs_size r) (fnvhash8 (key v)) k (inv_pos r Hi)) as Hlt.
    split_and!; try done. rewrite <- Hw in *. by apply (ti_placed r Hi).
  - destruct Hp as [Hpass [?|(j & Hj & Hb & Hat)]]; [done|]. cbn.
    apply (Hts b j (0 + N.of_nat tries)); [done|lia|done|by rewrite Hb|done].
  - destruct Hp as [Hpass [_ Ht]]. intros k Hk. destruct (Hpass k) as [H0 Hkey]; [unfold tries; lia|].
    assert (in_use (mget (refs_table r) (pos (refs_size r) (fnvhash8 (key v)) k)) = true) as Hu.
    { apply in_use_ne. split; [done|]. apply Ht. unfold tries. lia. }
    split; [done|by apply Hkey].
Qed.

Lemma insert_probe r v a is_key pr :
  table_inv r -> in_use v = true -> key v = a -> pr = probe_from is_key a r ->
  insert_post r v a is_key pr.
Proof. intros Hi Hv <- ->. apply insert_probe_post; [done|done|]. by apply probe_from_spec. Qed.

Lemma enter_spec rehash n r E :
  refs_control r = 0 -> wp (enter rehash (S n)) (fun _ r' => r' = set_control 1 r) E r.
Proof. intros Hc. cbn [enter]. do 2 wp_step. rewrite Hc. change (resizing 0) with false. cbv iota. by wp_step. Qed.

(** Entering and leaving. *)
Lemma leave_spec r : refs_control r = 1 -> wp refs_leave (fun _ r' => r' = set_control 0 r) (fun _ _ => False) r.
Proof. intros Hc. unfold refs_leave. wp_step. by rewrite Hc. Qed.

Lemma set_control_same r c c' : refs_control r = c -> set_control c (set_control c' r) = r.
Proof. intros <-. by destruct r. Qed.
End table.

(** ** Protected pointers *)

Notation protect_inv := (table_inv id).
Definition protects (r : refs_table_t) : list N := entries r.

(** The pointer has a bucket to go to. *)
Definition room (r : refs_table_t) (a : N) : Prop :=
  exists k, k < 128 /\ in_use (mget (refs_table r) (pos (refs_size r) (fnvhash8 a) k)) = false.

Definition asserts : exit_reason -> refs_table_t -> Prop := fun x _ => x = AssertFailed.

Lemma protect_rehash_spec r v l :
  protect_inv r -> entries r ≡ₚ l ->
  wp (protect_rehash v) (fun _ r' => (exists t, r' = set_table t r) /\ protect_inv r' /\
    entries r' ≡ₚ l ++ cell v) asserts r.
Proof.
  intros Hi Hl. unfold protect_rehash. assert (r = set_table (refs_table r) r) as Hsame by by destruct r.
  destruct (N.eqb_spec v 0) as [->|H0]; [|destruct (N.eqb_spec v refs_ts) as [->|Hts]].
  1,2: apply wp_ret; split; [by eexists|]; split; [done|by rewrite app_nil_r].
  assert (in_use v = true) as Hu by by apply in_use_ne.
  do 2 wp_step. cbn [id]. case_match eqn:E; [|done]. wp_step. split; [by eexists|].
  destruct (place_loop_inv id r v _ Hi Hu E) as [Hi' He]. split; [done|].
  rewrite He, Hl. unfold cell. by rewrite Hu.
Qed.

Lemma protect_resize_spec fuel r :
  protect_inv r -> refs_control r = 0 ->
  wp (protect_resize fuel)
    (fun _ r' => protect_inv r' /\ refs_control r' = 0 /\ protects r' ≡ₚ protects r /\
       (refs_size r' = refs_size r \/ refs_size r' = refs_size r * 2)) asserts r.
Proof. apply (resize_spec id protect_rehash (≡ₚ)); [done|]. intros. by apply protect_rehash_spec. Qed.

Lemma probe_control is_key a c r : probe_from is_key a (set_control c r) = probe_from is_key a r.
Proof. unfold probe_from. generalize tries. reflexivity. Qed.

Lemma inv_entered r c : refs_control r = 0 -> entries (set_control c r) = entries r.
Proof. done. Qed.

Lemma set_bucket_control p v r c : set_bucket p v (set_control c r) = set_control c (set_bucket p v r).
Proof. done. Qed.

(** What an operation does to a table at rest: the outcome is a table at rest. *)
Definition rest (key : N -> N) (r : refs_table_t) : Prop := table_inv key r /\ refs_control r = 0.

Lemma leave_bucket key p v r (Q : refs_table_t -> Prop) :
  table_inv key (set_bucket p v r) -> Q (set_control 0 (set_bucket p v r)) ->
  wp refs_leave (fun _ r' => rest key r' /\ Q r') (fun _ _ => False)
    (set_bucket p v (set_control 1 r)).
Proof.
  intros Hi Hq. eapply wp_mono; [by apply leave_spec|]. intros [] r' ->. split; [|done].
  split; [|done]. rewrite set_bucket_control. by do 2 apply inv_control.
Qed.

Lemma protect_up_spec fuel r a :
  rest id r -> in_use a = true -> room r a ->
  wp (protect_up (S fuel) a)
    (fun _ r' => rest id r' /\ protects r' ≡ₚ a :: protects r) (fun _ _ => False) r.
Proof.
  intros [Hi Hc] Ha (k & Hk & Hfree). unfold protect_up. wp_step. unfold protect_enter.
  eapply wp_mono; [by apply enter_spec|]. intros [] r1 ->. cbn [protect_up_loop]. do 2 wp_step.
  cbn [id]. rewrite probe_control.
  remember (probe_from (fun _ => false) a r) as pr eqn:Epr.
  pose proof (insert_probe id r a a (fun _ => false) pr Hi Ha eq_refl Epr) as Hp. clear Epr.
  destruct pr as [b ts|b w|[b|]]; cbn [insert_post] in Hp.
  - do 2 wp_step. destruct Hp as [Hi' He]. by apply (leave_bucket id _ a r (fun r' => entries r' ≡ₚ a :: entries r)).
  - by destruct Hp as (_ & _ & _ & ? & _).
  - do 2 wp_step. destruct Hp as [Hi' He]. by apply (leave_bucket id b a r (fun r' => entries r' ≡ₚ a :: entries r)).
  - destruct (Hp k Hk) as [Hu _]. congruence.
Qed.

(** A tombstone leaves room. *)
Lemma room_down r p a : room r a -> room (set_control 0 (set_bucket p refs_ts r)) a.
Proof.
  intros (k & Hk & Hf). exists k. split; [done|].
  cbn [set_control set_bucket set_table refs_table refs_size]. rewrite mget_mset. by case_decide.
Qed.

Lemma protect_down_spec fuel r a :
  rest id r -> a ∈ protects r ->
  wp (protect_down (S fuel) a)
    (fun _ r' => rest id r' /\ a :: protects r' ≡ₚ protects r /\ forall b, room r b -> room r' b)
    (fun _ _ => False) r.
Proof.
  intros [Hi Hc] Ha. unfold protect_down. wp_step. unfold protect_enter.
  eapply wp_mono; [by apply enter_spec|]. intros [] r1 ->. do 2 wp_step. cbn [id].
  apply elem_of_entries in Ha as (p & Hp & Hv & Hu).
  pose proof (ti_placed id r Hi p Hp) as Hreach. rewrite Hv in Hreach.
  destruct (Hreach Hu) as (i & Hi' & Hpos & _). change (id a) with a in Hpos.
  change (refs_size (set_control 1 r)) with (refs_size r).
  change (refs_table (set_control 1 r)) with (refs_table r). rewrite (hash_land id r a Hi).
  pose proof (find_bucket_spec (refs_size r) (fnvhash8 a) (inv_pos id r Hi) (refs_table r) tries 0 a) as Hf.
  revert Hf. generalize (find_bucket tries (refs_size r) a (pos (refs_size r) (fnvhash8 a) 0) (refs_table r)).
  intros [b|] Hf; cbn in Hf.
  - destruct Hf as (k & Hk & -> & Hat). do 2 wp_step.
    pose proof (pos_lt (refs_size r) (fnvhash8 a) k (inv_pos id r Hi)) as Hlt.
    apply (leave_bucket id _ refs_ts r (fun r' => a :: entries r' ≡ₚ entries r /\ forall b, room r b -> room r' b));
      [by apply inv_set|]. split; [|intros c; by apply room_down].
    pose proof (entries_set r _ refs_ts Hlt) as He. rewrite Hat in He. unfold cell in He.
    change (in_use refs_ts) with false in He. rewrite Hu, (app_nil_r (entries r)) in He.
    rewrite <- He. by rewrite Permutation_cons_append.
  - exfalso. apply (Hf i); [unfold tries; lia|]. by rewrite <- Hpos.
Qed.

(** A table with few pointers has room. *)
Lemma room_few r a :
  protect_inv r -> N.of_nat (length (protects r)) < 128 -> room r a.
Proof.
  intros Hi Hl. destruct (used_all (refs_table r) (pos (refs_size r) (fnvhash8 a) <$> nseq 0 128))
    as [Hall|(p & Hp & Hfree)].
  - exfalso. destruct (ti_size id r Hi) as (k & Hk & Hs).
    assert (128 <= refs_size r) as Hbig.
    { rewrite Hs. change 128 with (2 ^ 7). by apply N.pow_le_mono_r. }
    assert (length (pos (refs_size r) (fnvhash8 a) <$> nseq 0 128) <= length (protects r))%nat as Hle.
    { unfold protects, entries. rewrite entries_used, (length_map (mget (refs_table r))). apply submseteq_length, NoDup_submseteq.
      - apply (NoDup_fmap_2_strong (pos (refs_size r) (fnvhash8 a)) (nseq 0 128)); [|apply NoDup_nseq]. intros x y Hx%elem_of_nseq Hy%elem_of_nseq Heq.
        apply (pos_inj (refs_size r) (fnvhash8 a)); [lia|lia|done].
      - intros p Hp. unfold used. apply list_elem_of_filter. split; [by apply Hall|].
        apply list_elem_of_fmap in Hp as (x & -> & _). apply elem_of_nseq.
        pose proof (pos_lt (refs_size r) (fnvhash8 a) x (inv_pos id r Hi)). lia. }
    rewrite length_fmap, length_nseq in Hle. lia.
  - apply list_elem_of_fmap in Hp as (x & -> & Hx%elem_of_nseq). exists x. split; [lia|done].
Qed.

(** ** Iterating *)

Lemma walk_used next f t size :
  (forall b, next b = (f (mget t b), iter_loop (N.to_nat (size - (b + 1))) (b + 1) t)) ->
  forall n k fuel, k + N.of_nat n = size -> (n <= fuel)%nat ->
  walk fuel next (iter_loop n k t) = map f (map (mget t) (used t (nseq k n))).
Proof.
  intros Hnext. induction n as [|n IH]; intros k fuel Hk Hf; cbn [iter_loop nseq used].
  { by destruct fuel. }
  unfold used in *. rewrite filter_cons. destruct (in_use (mget t k)) eqn:Eu.
  - destruct fuel as [|fuel]; [lia|]. cbn [walk]. rewrite Hnext.
    replace (N.to_nat (size - (k + 1))) with n by lia. rewrite decide_True by done. cbn [map].
    f_equal. apply IH; lia.
  - rewrite decide_False by done. apply IH; lia.
Qed.

Lemma walk_entries next f r :
  (forall b, next b = (f (mget (refs_table r) b),
     iter_loop (N.to_nat (refs_size r - (b + 1))) (b + 1) (refs_table r))) ->
  walk (N.to_nat (refs_size r)) next (refs_iter r 0 (refs_size r)) = map f (entries r).
Proof.
  intros Hn. unfold refs_iter, entries. rewrite N.sub_0_r, entries_used.
  apply (walk_used next f _ (refs_size r) Hn); lia.
Qed.

Lemma protect_walk_spec r : protect_walk r = protects r.
Proof. unfold protect_walk. rewrite (walk_entries _ id) by done. apply map_id. Qed.

Lemma refs_walk_spec r : refs_walk r = map (fun v => N.land v key_mask) (entries r).
Proof. unfold refs_walk. by rewrite (walk_entries _ (fun v => N.land v key_mask)). Qed.

(** ** Counted references *)

Definition key_of (v : N) : N := N.land v key_mask.
Definition count_of (v : N) : N := N.shiftr v 40.

(** The references to [a]. *)
Fixpoint refs_to (l : list N) (a : N) : N :=
  match l with
  | [] => 0
  | v :: l => (if key_of v =? a then count_of v else 0) + refs_to l a
  end.

Lemma refs_to_perm l l' a : l ≡ₚ l' -> refs_to l a = refs_to l' a.
Proof. induction 1; cbn; lia. Qed.

Lemma refs_to_absent l a : a ∉ map key_of l -> refs_to l a = 0.
Proof.
  induction l as [|v l IH]; intros Ha; [done|]. cbn in *. apply not_elem_of_cons in Ha as [Hv Ha].
  rewrite (proj2 (N.eqb_neq _ _)) by done. by rewrite IH.
Qed.

(** The word of a value and a count. *)
Lemma entry_word a c :
  a < 2 ^ 40 - 1 -> 0 < c < 2 ^ 24 -> let v := N.lor a (shl64 c 40) in
  key_of v = a /\ count_of v = c /\ (c < 2 ^ 23 -> in_use v = true).
Proof.
  intros Ha Hc v. assert (shl64 c 40 = c * 2 ^ 40) as Hs.
  { unfold shl64. rewrite N.shiftl_mul_pow2. apply w64_small. nia. }
  assert (v = a + c * 2 ^ 40) as Hv.
  { unfold v. rewrite Hs. apply lor_add, N.bits_inj. intros i. rewrite N.land_spec, N.bits_0.
    destruct (N.lt_ge_cases i 40) as [Hi|Hi].
    - by rewrite N.mul_pow2_bits_low, andb_false_r.
    - by rewrite (testbit_high a 40) by lia. }
  assert (key_of v = a) as Hk.
  { unfold key_of, key_mask. change 0x000000ffffffffff with (N.ones 40).
    rewrite N.land_ones, Hv, N.Div0.mod_add. apply N.mod_small. lia. }
  split; [exact Hk|]. split.
  - unfold count_of. rewrite N.shiftr_div_pow2, Hv, N.div_add by done. rewrite N.div_small; lia.
  - intros Hlt. apply in_use_ne. split; [rewrite Hv; lia|]. intros Hts. rewrite Hts in Hk.
    vm_compute in Hk. lia.
Qed.

(** Keys occur once, with positive counts that fit in 23 bits. *)
Definition counted (l : list N) : Prop :=
  NoDup (map key_of l) /\ forall v, v ∈ l -> 0 < count_of v < 2 ^ 23.

Lemma counted_perm l l' : l ≡ₚ l' -> counted l -> counted l'.
Proof.
  intros Hp [Hn Hc]. split; [by rewrite <- Hp|]. intros v Hv. apply Hc. by rewrite Hp.
Qed.

(** The counts after one is set. *)
Definition set_count (l : list N) (a c : N) (l' : list N) : Prop :=
  counted l' /\ forall b, refs_to l' b = if b =? a then c else refs_to l b.

Lemma set_count_trans l l1 l2 a c c' : set_count l a c l1 -> set_count l1 a c' l2 -> set_count l a c' l2.
Proof.
  intros [_ H1] [Hc H2]. split; [done|]. intros b. rewrite H2, H1. by destruct (b =? a).
Qed.

Lemma insert_count l a c :
  counted l -> a ∉ map key_of l -> a < 2 ^ 40 - 1 -> 0 < c < 2 ^ 23 ->
  set_count l a c (N.lor a (shl64 c 40) :: l).
Proof.
  intros [Hn Hc] Hni Ha Hlt. destruct (entry_word a c Ha ltac:(lia)) as (Hk & Hv & _).
  split; [split; [cbn; rewrite Hk; by constructor|]|].
  - intros w [->|Hw]%elem_of_cons; [by rewrite Hv|by apply Hc].
  - intros b. cbn [refs_to]. rewrite Hk, Hv, (N.eqb_sym a b). destruct (N.eqb_spec b a) as [->|Hne]; [|done].
    by rewrite refs_to_absent, N.add_0_r.
Qed.

Lemma counted_cons v l :
  counted (v :: l) -> key_of v ∉ map key_of l /\ counted l /\ 0 < count_of v < 2 ^ 23 /\
    refs_to (v :: l) (key_of v) = count_of v.
Proof.
  intros [Hn Hc]. cbn [map] in Hn. apply NoDup_cons in Hn as [Hni Hn].
  split_and!; [done|split; [done|intros w Hw; apply Hc; by right]|apply Hc; by left..|].
  cbn [refs_to]. by rewrite N.eqb_refl, refs_to_absent, N.add_0_r.
Qed.

Lemma remove_count v l : counted (v :: l) -> set_count (v :: l) (key_of v) 0 l.
Proof.
  intros Hl. destruct (counted_cons v l Hl) as (Hni & Hc & _). split; [done|].
  intros b. cbn [refs_to]. rewrite (N.eqb_sym (key_of v)). destruct (N.eqb_spec b (key_of v)) as [->|Hne]; [|done].
  by apply refs_to_absent.
Qed.

Lemma set_count_same l a : counted l -> set_count l a (refs_to l a) l.
Proof. intros Hl. split; [done|]. intros b. by destruct (N.eqb_spec b a) as [->|]. Qed.

Lemma set_count_perm l1 l2 a c l1' l2' :
  l1 ≡ₚ l1' -> l2 ≡ₚ l2' -> set_count l1 a c l2 -> set_count l1' a c l2'.
Proof.
  intros H1 H2 [Hc Hr]. split; [by apply (counted_perm l2)|]. intros b.
  rewrite <- (refs_to_perm l2 l2'), <- (refs_to_perm l1 l1') by done. apply Hr.
Qed.

(** A value whose key the probe does not find is not in the table. *)
Lemma probe_none r a pr :
  table_inv key_of r -> pr = probe_from (has_key a) a r -> (forall b v, pr <> Found b v) ->
  a ∉ map key_of (entries r).
Proof.
  intros Hi Epr Hnf (v & -> & Hv)%list_elem_of_fmap.
  pose proof (probe_from_spec key_of (has_key (key_of v)) (key_of v) r Hi) as Hp. rewrite <- Epr in Hp.
  clear Epr. apply elem_of_entries in Hv as (p & Hlt & Hat & Hu).
  pose proof (ti_placed key_of r Hi p Hlt) as Hreach. rewrite Hat in Hreach.
  destruct (Hreach Hu) as (i & Hi' & Hpos & Hj). rewrite Hpos in Hat.
  assert (forall n, i < n -> passed (refs_size r) (fnvhash8 (key_of v)) (refs_table r)
    (has_key (key_of v)) 0 n -> False) as Hno.
  { intros n Hn Hpass. destruct (Hpass i ltac:(lia)) as [_ Hkey]. rewrite Hat in Hkey.
    specialize (Hkey Hu). unfold has_key in Hkey. by apply N.eqb_neq in Hkey. }
  destruct pr as [b ts|b w|ts]; cbn [probe_post] in Hp.
  - destruct Hp as (k & Hk & _ & H0 & Hpass & _). destruct (N.lt_trichotomy i k) as [Hik|[->|Hki]].
    + by apply (Hno k).
    + rewrite H0 in Hat. by subst v.
    + by apply (Hj k).
  - by apply (Hnf b w).
  - destruct Hp as [Hpass _]. apply (Hno _ Hi'). exact Hpass.
Qed.

(** Replacing a value found by another with its key, or by a tombstone. *)
Lemma replace_entry key r b v w :
  table_inv key r -> b < refs_size r -> mget (refs_table r) b = v -> in_use v = true ->
  reaches key r v b -> w <> 0 -> (in_use w = true -> key w = key v) ->
  table_inv key (set_bucket b w r) /\
  exists l, entries r ≡ₚ v :: l /\ entries (set_bucket b w r) ≡ₚ cell w ++ l.
Proof.
  intros Hi Hb Hv Hu Hr Hw Hk. split.
  - apply inv_set; [done..|]. intros Huw. unfold reaches. by rewrite (Hk Huw).
  - assert (v ∈ entries r) as (l & Hl)%elem_of_Permutation by (apply elem_of_entries; by exists b).
    exists l. split; [done|]. pose proof (entries_set r b w Hb) as He. rewrite Hv in He.
    unfold cell in He at 1. rewrite Hu, Hl in He.
    apply (Permutation_cons_inv (a := v)). rewrite Permutation_cons_append, He.
    cbn. by rewrite (Permutation_app_comm l).
Qed.

Definition refs_inv (r : refs_table_t) : Prop := rest key_of r /\ counted (entries r).

(** The count after one reference more or less: a count that has reached its limit stays. *)
Definition bump (up : bool) (c : N) : N :=
  if c =? 0x7fffff then c else if up then c + 1 else c - 1.

Lemma leave_same key r :
  rest key r -> wp refs_leave (fun _ r' => r' = r) (fun _ _ => False) (set_control 1 r).
Proof.
  intros [_ Hc]. eapply wp_mono; [by apply leave_spec|]. intros [] r' ->. by apply (set_control_same r 0).
Qed.

Lemma one_ref_ok a :
  a < 2 ^ 40 - 1 ->
  in_use (one_ref a) = true /\ key_of (one_ref a) = a /\ one_ref a = N.lor a (shl64 1 40).
Proof.
  intros Ha. assert (one_ref a = N.lor a (shl64 1 40)) as E by reflexivity.
  rewrite E. destruct (entry_word a 1 Ha ltac:(lia)) as (Hk & _ & Hu). split_and!; [by apply Hu|done|done].
Qed.

(** A new reference goes into the table. *)
Lemma insert_ref r p a :
  counted (entries r) -> a ∉ map key_of (entries r) -> a < 2 ^ 40 - 1 ->
  table_inv key_of (set_bucket p (one_ref a) r) ->
  entries (set_bucket p (one_ref a) r) ≡ₚ one_ref a :: entries r ->
  wp refs_leave
    (fun _ r' => rest key_of r' /\ set_count (entries r) a (bump true (refs_to (entries r) a)) (entries r'))
    (fun _ _ => False) (set_bucket p (one_ref a) (set_control 1 r)).
Proof.
  intros Hc Hni Ha Hi He.
  apply (leave_bucket key_of _ _ r (fun r' => set_count (entries r) a _ (entries r'))); [done|].
  apply (set_count_perm (entries r) (one_ref a :: entries r)); [done|by symmetry|].
  rewrite (refs_to_absent _ _ Hni).
  change (bump true 0) with 1. rewrite (proj2 (proj2 (one_ref_ok a Ha))). by apply insert_count.
Qed.

(** The count of a reference that is found changes. *)
Lemma found_ref r b v (up : bool) :
  refs_inv r -> b < refs_size r -> mget (refs_table r) b = v -> in_use v = true ->
  reaches key_of r v b -> key_of v < 2 ^ 40 - 1 -> count_of v <> 0x7fffff ->
  let count := if up then add64 (count_of v) 1 else sub64 (count_of v) 1 in
  wp refs_leave
    (fun _ r' => rest key_of r' /\
       set_count (entries r) (key_of v) (bump up (refs_to (entries r) (key_of v))) (entries r'))
    (fun _ _ => False)
    (set_bucket b (if count =? 0 then refs_ts else N.lor (key_of v) (shl64 count 40)) (set_control 1 r)).
Proof.
  intros [[Hi Hc0] Hc] Hb Hv Hu Hr Hk Hsat count.
  set (w := if count =? 0 then refs_ts else N.lor (key_of v) (shl64 count 40)).
  assert (v ∈ entries r) as (l & Hl)%elem_of_Permutation by (apply elem_of_entries; by exists b).
  destruct (counted_cons v l) as (Hni & Hcl & Hlt & Hto); [by apply (counted_perm (entries r))|].
  rewrite (refs_to_perm _ _ _ Hl), Hto. assert (bump up (count_of v) = count /\ count < 2 ^ 23) as [Hbump Hcnt].
  { unfold bump, count. rewrite (proj2 (N.eqb_neq _ _)) by done. destruct up.
    - unfold add64. rewrite w64_small by lia. lia.
    - rewrite sub64_small by lia. lia. }
  rewrite Hbump. assert (w <> 0 /\ (in_use w = true -> key_of w = key_of v) /\
    cell w = if count =? 0 then [] else [w]) as (Hw0 & Hwk & Hcell).
  { unfold w. destruct (N.eqb_spec count 0) as [E|E]; [done|].
    destruct (entry_word (key_of v) count Hk ltac:(lia)) as (Hkw & _ & Huw). specialize (Huw Hcnt).
    split_and!; [exact (proj1 (proj1 (in_use_ne _) Huw))|done|unfold cell; by rewrite Huw]. }
  destruct (replace_entry key_of r b v w) as (Hi' & l' & Hl1 & Hl2); try done.
  assert (l' ≡ₚ l) as Hll by (apply (Permutation_cons_inv (a := v)); by rewrite <- Hl1).
  apply (leave_bucket key_of _ _ r (fun r' => set_count (entries r) (key_of v) _ (entries r'))); [done|].
  apply (set_count_perm (v :: l) (cell w ++ l)); [by symmetry|by rewrite Hl2, Hll|].
  rewrite Hcell. eapply set_count_trans; [apply remove_count; by apply (counted_perm (entries r))|].
  unfold w. destruct (N.eqb_spec count 0) as [E|E]; cbn [app].
  - rewrite E. pose proof (set_count_same l (key_of v) Hcl) as Hsame. by rewrite refs_to_absent in Hsame.
  - apply insert_count; [done..|lia].
Qed.

Definition ref_room (r : refs_table_t) (a : N) : Prop := a ∈ map key_of (entries r) \/ room r a.

Lemma refs_modify_spec fuel r a up :
  refs_inv r -> a < 2 ^ 40 - 1 -> (up = true -> ref_room r a) ->
  wp (refs_modify (S fuel) a up)
    (fun found r' => rest key_of r' /\
       set_count (entries r) a (bump up (refs_to (entries r) a)) (entries r') /\
       (up = false -> found = negb (refs_to (entries r) a =? 0)))
    (fun _ _ => False) r.
Proof.
  intros Hinv Ha Hroom. pose proof Hinv as [[Hi Hc0] Hc]. cbn [refs_modify]. wp_step. unfold refs_enter.
  eapply wp_mono; [by apply enter_spec|]. intros [] r1 ->. do 2 wp_step. cbn [id]. rewrite probe_control.
  remember (probe_from (has_key a) a r) as pr eqn:Epr. destruct (one_ref_ok a Ha) as (Hu1 & Hk1 & _).
  pose proof (insert_probe key_of r (one_ref a) a (has_key a) pr Hi Hu1 Hk1 Epr) as Hp.
  pose proof (probe_none r a pr Hi Epr) as Hnone. clear Epr.
  destruct pr as [b ts|b v|ts]; cbn [insert_post] in Hp.
  - specialize (Hnone ltac:(done)). destruct up; do 2 wp_step; [|]; wp_step.
    + eapply wp_mono; [by apply insert_ref; destruct Hp|]. intros _ r' [Hr Hs]. by wp_step.
    + eapply wp_mono; [by apply (leave_same key_of)|]. intros [] r' ->. wp_step.
      split; [done|]. rewrite refs_to_absent by done. split; [|done].
      pose proof (set_count_same (entries r) a Hc) as Hs. by rewrite refs_to_absent in Hs.
  - destruct Hp as (Hb & Hat & Hu & Hkey & Hr). apply N.eqb_eq in Hkey. change (key_of v = a) in Hkey.
    assert (refs_to (entries r) a = count_of v /\ count_of v <> 0) as [Hto Hpos].
    { assert (v ∈ entries r) as (l & Hl)%elem_of_Permutation by (apply elem_of_entries; by exists b).
      destruct (counted_cons v l) as (_ & _ & Hlt & Hto); [by apply (counted_perm (entries r))|].
      rewrite (refs_to_perm _ _ _ Hl), <- Hkey. split; [done|lia]. }
    assert (true = negb (refs_to (entries r) a =? 0)) as Hfound
      by (rewrite Hto, (proj2 (N.eqb_neq _ _)); done).
    change (N.shiftr v 40) with (count_of v). wp_step. destruct (N.eqb_spec (count_of v) 0x7fffff) as [Hsat|Hsat].
    + wp_step. wp_step. eapply wp_mono; [by apply (leave_same key_of)|]. intros [] r' ->. wp_step.
      split_and!; [done..| |done]. rewrite Hto. unfold bump. rewrite Hsat, N.eqb_refl, <- Hsat, <- Hto.
      by apply set_count_same.
    + wp_step. wp_step. pose proof (found_ref r b v up Hinv Hb Hat Hu Hr) as Hf. rewrite Hkey in Hf.
      eapply wp_mono; [by apply Hf|]. intros [] r' [Hr' Hs]. by wp_step.
  - specialize (Hnone ltac:(done)). destruct up; cbn [negb].
    + destruct ts as [b|].
      * do 2 wp_step. wp_step. eapply wp_mono; [by apply insert_ref; destruct Hp|].
        intros [] r' [Hr Hs]. by wp_step.
      * destruct (Hroom eq_refl) as [?|(k & Hk & Hfree)]; [done|]. destruct (Hp k Hk) as [Hu _]. congruence.
    + wp_step. eapply wp_mono; [by apply (leave_same key_of)|]. intros [] r' ->. wp_step.
      split; [done|]. rewrite refs_to_absent by done. split; [|done].
      pose proof (set_count_same (entries r) a Hc) as Hs. by rewrite refs_to_absent in Hs.
Qed.
End RefsFacts.
