(* ===== verification/ProtectStore.v ===== *)
(** The interface of the set of protected pointers that garbage collection marks from, and its
    implementation by the table of sylvan/src/sylvan_refs.c.  A client keeps the addresses of
    its diagram variables in it; what it relies on is the multiset of addresses. *)

From S2P Require Import Prelude SylvanRefs SylvanRefsFacts.

Module ProtectStore.
Import Refs RefsFacts.

Class PointerTable (P : Type) := {
  pt_list : P -> list N;         (* in the order in which they are marked *)
  pt_up : N -> prog P unit;
  pt_down : N -> prog P unit
}.

Class PointerTableLaws (P : Type) `{PointerTable P} := {
  pt_inv : P -> Prop;
  (** The address can be added without making the table larger. *)
  pt_room : P -> N -> Prop;

  pt_up_spec t a :
    pt_inv t -> in_use a = true -> pt_room t a ->
    wp (pt_up a) (fun _ t' => pt_inv t' /\ pt_list t' ≡ₚ a :: pt_list t) (fun _ _ => False) t;
  pt_down_spec t a :
    pt_inv t -> a ∈ pt_list t ->
    wp (pt_down a)
      (fun _ t' => pt_inv t' /\ a :: pt_list t' ≡ₚ pt_list t /\ forall b, pt_room t b -> pt_room t' b)
      (fun _ _ => False) t
}.

(** The retries that one insertion is given; with room it needs none. *)
Definition protect_fuel : nat := 64.

#[export] Instance protect_table : PointerTable refs_table_t := {
  pt_list := protect_walk;
  pt_up := protect_up protect_fuel;
  pt_down := protect_down protect_fuel
}.

#[export] Instance protect_table_laws : PointerTableLaws refs_table_t.
Proof.
  refine {| pt_inv := rest id; pt_room := room |}.
  - intros t a Hi Ha Hr. cbn [pt_list pt_up protect_table]. eapply wp_mono; [by apply protect_up_spec|].
    intros [] t' [Hi' He]. by rewrite !protect_walk_spec.
  - intros t a Hi Ha. cbn [pt_list pt_down protect_table] in *. rewrite protect_walk_spec in Ha.
    eapply wp_mono; [by apply protect_down_spec|]. intros [] t' (Hi' & He & Hroom).
    by rewrite !protect_walk_spec.
Defined.
End ProtectStore.
