(* ===== verification/RefsProps.v ===== *)
(** The properties of the tables of external references and protected pointers. *)

From S2P Require Import Prelude SylvanHash SylvanRefs SylvanRefsFacts.

Module RefsProps.
Import Hash Refs RefsFacts.

(** ** Protected pointers as a multiset *)




Definition protect_rest : refs_table_t -> Prop := rest id.


(** a resize of the table of protected pointers keeps every pointer, as often as it was
    protected, and the size or its double; it ends by an assertion if more than 128 pointers
    collide. *)
Theorem protect_resize_keeps fuel r :
  protect_rest r ->
  wp (protect_resize fuel)
    (fun _ r' => protect_rest r' /\ protect_walk r' ≡ₚ protect_walk r /\
       (refs_size r' = refs_size r \/ refs_size r' = refs_size r * 2)) asserts r.
Proof.
  intros [Hi Hc]. eapply wp_mono; [by apply protect_resize_spec|].
  intros [] r' (Hi' & Hc' & He & Hs). rewrite !protect_walk_spec. by split_and!.
Qed.

(** An increment or decrement in the table of references changes the count of its value by one
    and no other count; a count that has reached 2^23 - 1 stays, and a decrement tells whether
    the value had references. *)
Theorem refs_modify_counts fuel r a up :
  refs_inv r -> a < 2 ^ 40 - 1 -> (up = true -> ref_room r a) ->
  wp (refs_modify (S fuel) a up)
    (fun found r' => refs_inv r' /\
       refs_to (entries r') a = bump up (refs_to (entries r) a) /\
       (forall b, b <> a -> refs_to (entries r') b = refs_to (entries r) b) /\
       (up = false -> found = negb (refs_to (entries r) a =? 0)))
    (fun _ _ => False) r.
Proof.
  intros Hr Ha Hroom. eapply wp_mono; [by apply refs_modify_spec|].
  intros found r' (Hrest & [Hc Hto] & Hfound). split_and!; [by split| | |done].
  - by rewrite Hto, N.eqb_refl.
  - intros b Hb. rewrite Hto. by rewrite (proj2 (N.eqb_neq b a)).
Qed.

(** ** Concrete tables *)

Definition ex_table : refs_table_t := mk_refs ∅ 128 0 ∅ 0 0 0.

Lemma ex_table_rest key : rest key ex_table /\ entries ex_table = [].
Proof.
  destruct (inv_new key ex_table 128) as [Hi He]; [by exists 7|done|done|]. by split.
Qed.


Lemma protect_resize_keeps_witness :
  wp (protect_resize 0)
    (fun _ r' => protect_rest r' /\ protect_walk r' ≡ₚ protect_walk ex_table /\
       (refs_size r' = 128 \/ refs_size r' = 128 * 2)) asserts ex_table.
Proof. exact (protect_resize_keeps 0 ex_table (proj1 (ex_table_rest id))). Defined.

Lemma refs_modify_counts_witness :
  wp (refs_modify 1 5 true)
    (fun found r' => refs_inv r' /\ refs_to (entries r') 5 = bump true (refs_to (entries ex_table) 5) /\
       (forall b, b <> 5 -> refs_to (entries r') b = refs_to (entries ex_table) b) /\
       (true = false -> found = negb (refs_to (entries ex_table) 5 =? 0)))
    (fun _ _ => False) ex_table.
Proof.
  destruct (ex_table_rest key_of) as [Hr He]. apply (refs_modify_counts 0 ex_table 5 true).
  - split; [exact Hr|]. rewrite He. split; [constructor|]. intros v Hv. apply elem_of_nil in Hv. destruct Hv.
  - reflexivity.
  - intros _. right. apply room_few; [exact (proj1 (proj1 (ex_table_rest id)))|]. unfold protects. rewrite He.
    reflexivity.
Defined.
End RefsProps.
