(* ===== verification/MtbddNode.v ===== *)
(** Diagrams and nodes as sylvan/src/sylvan_mtbdd_int.h packs them in words: a diagram is a
    40-bit node index with the complement mark in bit 63; a node is two words, of which the
    first holds the high edge (or the leaf type) and flags, the second the variable in its
    upper 24 bits and the low edge (or the leaf value). *)

From S2P Require Import Prelude.

Module MtbddNode.

Definition mtbdd_complement : N := 0x8000000000000000.
Definition mtbdd_false : N := 0.
Definition mtbdd_true : N := 0x8000000000000000.
Definition mtbdd_invalid : N := 0xffffffffffffffff.
Definition sylvan_false : N := mtbdd_false.
Definition sylvan_true : N := mtbdd_true.
Definition sylvan_invalid : N := mtbdd_invalid.

(** ** Diagrams *)

(** The index that [MTBDD_GETNODE] looks up in the node table. *)
Definition MTBDD_INDEX (dd : N) : N := N.land dd 0x000000ffffffffff.
Definition MTBDD_HASMARK (dd : N) : bool := negb (N.land dd mtbdd_complement =? 0).
Definition MTBDD_TOGGLEMARK (dd : N) : N := N.lxor dd mtbdd_complement.
Definition MTBDD_STRIPMARK (dd : N) : N := N.land dd (not64 mtbdd_complement).
Definition MTBDD_TRANSFERMARK (from to : N) : N := N.lxor to (N.land from mtbdd_complement).
Definition MTBDD_EQUALM (a b : N) : bool :=
  N.land (N.lxor a b) (not64 mtbdd_complement) =? 0.

(** [sylvan_not] is [MTBDD_TOGGLEMARK] (sylvan_bdd.h). *)
Definition sylvan_not (a : N) : N := N.lxor a sylvan_true.

(** ** Nodes *)

Definition mtbddnode : Type := N * N.

Definition mtbddnode_isleaf (n : mtbddnode) : bool :=
  negb (N.land n.1 0x4000000000000000 =? 0).
Definition mtbddnode_gettype (n : mtbddnode) : N := N.land n.1 0x00000000ffffffff.
Definition mtbddnode_getvalue (n : mtbddnode) : N := n.2.
Definition mtbddnode_getcomp (n : mtbddnode) : bool :=
  negb (N.land n.1 0x8000000000000000 =? 0).
Definition mtbddnode_getlow (n : mtbddnode) : N := N.land n.2 0x000000ffffffffff.
Definition mtbddnode_gethigh (n : mtbddnode) : N := N.land n.1 0x800000ffffffffff.
Definition mtbddnode_getvariable (n : mtbddnode) : N :=
  N.land (N.shiftr n.2 40) 0xffffffff.
Definition mtbddnode_getmark (n : mtbddnode) : bool :=
  negb (N.land n.1 0x2000000000000000 =? 0).
Definition mtbddnode_setmark (n : mtbddnode) (mark : bool) : mtbddnode :=
  ((if mark then N.lor n.1 0x2000000000000000 else N.land n.1 0xdfffffffffffffff), n.2).
Definition mtbddnode_makeleaf (type value : N) : mtbddnode :=
  (N.lor 0x4000000000000000 type, value).
Definition mtbddnode_makenode (var low high : N) : mtbddnode :=
  (high, N.lor (shl64 var 40) low).
Definition mtbddnode_makemapnode (var low high : N) : mtbddnode :=
  (N.lor high 0x1000000000000000, N.lor (shl64 var 40) low).
Definition mtbddnode_ismapnode (n : mtbddnode) : bool :=
  negb (N.land n.1 0x1000000000000000 =? 0).
Definition mtbddnode_followlow (mtbdd : N) (n : mtbddnode) : N :=
  MTBDD_TRANSFERMARK mtbdd (mtbddnode_getlow n).
Definition mtbddnode_followhigh (mtbdd : N) (n : mtbddnode) : N :=
  MTBDD_TRANSFERMARK mtbdd (mtbddnode_gethigh n).

(** ** Edges: a mark and an index *)

Definition mk_edge (c : bool) (i : N) : N := if c then N.lor mtbdd_complement i else i.

(** The words that are diagrams. *)
Definition is_edge (d : N) : Prop := N.land d 0x800000ffffffffff = d.

(** The edge mask by its bits. *)
Lemma emask_bit k : N.testbit 0x800000ffffffffff k = bool_decide (k = 63) || bool_decide (k < 40).
Proof.
  change 0x800000ffffffffff with (N.lor (2 ^ 63) (N.ones 40)). autorewrite with bits.
  f_equal. by apply bool_decide_ext.
Qed.

Lemma comp_bit k : N.testbit mtbdd_complement k = bool_decide (k = 63).
Proof.
  change mtbdd_complement with (2 ^ 63). rewrite pow2_eqb_bit. by apply bool_decide_ext.
Qed.

Lemma ncomp_bit k : N.testbit (not64 mtbdd_complement) k = bool_decide (k < 63).
Proof. change (not64 mtbdd_complement) with (N.ones 63). apply ones_bit. Qed.

Lemma index_bit k : N.testbit 0x000000ffffffffff k = bool_decide (k < 40).
Proof. change 0x000000ffffffffff with (N.ones 40). apply ones_bit. Qed.

#[export] Hint Rewrite emask_bit comp_bit ncomp_bit index_bit : bits.

(** Proves equalities of words below 2^40 with some flag bits, bit by bit. *)
Ltac edge_bits :=
  apply N.bits_inj; intros k; autorewrite with bits;
  repeat match goal with
  | H : ?i < 2 ^ 40 |- context [N.testbit ?i k] =>
      lazymatch goal with
      | _ : k < 40 |- _ => fail
      | _ : N.testbit i k = false |- _ => fail
      | _ => let E := fresh in
          destruct (N.lt_ge_cases k 40) as [E|E];
          [|pose proof (testbit_high i 40 k H E)]
      end
  end;
  repeat match goal with H : N.testbit _ k = false |- _ => rewrite H end;
  repeat case_bool_decide; try lia;
  rewrite ?andb_true_r, ?andb_false_r, ?orb_false_r, ?orb_true_r, ?xorb_false_r, ?xorb_false_l,
    ?andb_true_l, ?andb_false_l, ?orb_false_l;
  try reflexivity.

Section edge.
Context (c : bool) (i : N) (Hi : i < 2 ^ 40).

Lemma mk_edge_edge : is_edge (mk_edge c i).
Proof using Hi. unfold is_edge, mk_edge. destruct c; edge_bits. Qed.

Lemma index_mk : MTBDD_INDEX (mk_edge c i) = i.
Proof using Hi. unfold MTBDD_INDEX, mk_edge. destruct c; edge_bits. Qed.

Lemma hasmark_mk : MTBDD_HASMARK (mk_edge c i) = c.
Proof using Hi.
  unfold MTBDD_HASMARK. change mtbdd_complement with (2 ^ 63). rewrite land_pow2_eqb, negb_involutive.
  unfold mk_edge. destruct c; autorewrite with bits; rewrite ?(testbit_high i 40); done || lia.
Qed.

Lemma togglemark_mk : MTBDD_TOGGLEMARK (mk_edge c i) = mk_edge (negb c) i.
Proof using Hi. unfold MTBDD_TOGGLEMARK, mk_edge. destruct c; simpl; edge_bits. Qed.

Lemma stripmark_mk : MTBDD_STRIPMARK (mk_edge c i) = i.
Proof using Hi. unfold MTBDD_STRIPMARK, mk_edge. destruct c; edge_bits. Qed.

Lemma transfermark_mk c' i' :
  i' < 2 ^ 40 -> MTBDD_TRANSFERMARK (mk_edge c' i') (mk_edge c i) = mk_edge (xorb c' c) i.
Proof using Hi.
  intros Hi'. unfold MTBDD_TRANSFERMARK, mk_edge. destruct c, c'; simpl; edge_bits.
Qed.
End edge.

(** Indices are the edges without mark. *)
Lemma index_small i : i < 2 ^ 40 -> MTBDD_INDEX i = i.
Proof. exact (index_mk false i). Qed.

Lemma hasmark_small i : i < 2 ^ 40 -> MTBDD_HASMARK i = false.
Proof. exact (hasmark_mk false i). Qed.

Lemma edge_small i : i < 2 ^ 40 -> is_edge i.
Proof. exact (mk_edge_edge false i). Qed.

Lemma edge_mk d : is_edge d -> exists c i, i < 2 ^ 40 /\ d = mk_edge c i.
Proof.
  intros H. exists (N.testbit d 63), (N.land d 0x000000ffffffffff). split.
  { rewrite N.land_comm. by apply land_lt. }
  unfold is_edge in H. rewrite <- H at 1. unfold mk_edge.
  destruct (N.testbit d 63) eqn:E; apply N.bits_inj; intros k; autorewrite with bits;
    (destruct (N.eq_dec k 63) as [->|]; [rewrite E|]); repeat case_bool_decide; try lia;
    rewrite ?andb_true_r, ?andb_false_r, ?orb_false_r; done.
Qed.

Lemma mk_edge_inj c i c' i' :
  i < 2 ^ 40 -> i' < 2 ^ 40 -> mk_edge c i = mk_edge c' i' -> c = c' /\ i = i'.
Proof.
  intros Hi Hi' H. split.
  - by rewrite <- (hasmark_mk c i Hi), H, hasmark_mk.
  - by rewrite <- (index_mk c i Hi), H, index_mk.
Qed.

(** ** Packing and unpacking nodes *)

Lemma and_flag x n : negb (N.land x (2 ^ n) =? 0) = N.testbit x n.
Proof. by rewrite land_pow2_eqb, negb_involutive. Qed.

Lemma edge_bit d k : is_edge d -> N.testbit d k = true -> k = 63 \/ k < 40.
Proof.
  intros H Hb. unfold is_edge in H. rewrite <- H in Hb. autorewrite with bits in Hb.
  repeat case_bool_decide; auto. by rewrite andb_false_r in Hb.
Qed.

Lemma edge_nobit d k : is_edge d -> 40 <= k -> k <> 63 -> N.testbit d k = false.
Proof.
  intros H Hk Hne. destruct (N.testbit d k) eqn:E; [|done].
  apply edge_bit in E; [lia|done].
Qed.

Lemma shl40_bit var k : var < 2 ^ 24 ->
  N.testbit (shl64 var 40) k = bool_decide (40 <= k) && N.testbit var (k - 40).
Proof.
  intros Hv.
  unfold shl64, w64. change 0xFFFFFFFFFFFFFFFF with (N.ones 64). autorewrite with bits.
  destruct (N.lt_ge_cases k 40) as [Hk|Hk].
  - rewrite N.shiftl_spec_low, (bool_decide_eq_false_2 (40 <= k)) by lia. done.
  - rewrite N.shiftl_spec_high', (bool_decide_eq_true_2 (40 <= k)) by done. simpl.
    case_bool_decide; [by rewrite andb_true_r|].
    rewrite (testbit_high var 24) by (done || lia). done.
Qed.

Section node.
Context (var low high : N) (Hv : var < 2 ^ 24) (Hl : low < 2 ^ 40) (Hh : is_edge high).

Let n := mtbddnode_makenode var low high.
Let m := mtbddnode_makemapnode var low high.

Lemma low_word_bit k : N.testbit (N.lor (shl64 var 40) low) k =
  if decide (k < 40) then N.testbit low k else N.testbit var (k - 40).
Proof.
  rewrite N.lor_spec, shl40_bit by done. case_decide as Hk.
  - by rewrite bool_decide_eq_false_2 by lia.
  - rewrite bool_decide_eq_true_2 by lia. rewrite (testbit_high low 40) by (done || lia).
    by rewrite orb_false_r.
Qed.

Lemma getlow_makenode : mtbddnode_getlow n = low.
Proof.
  unfold mtbddnode_getlow. cbn [n mtbddnode_makenode snd].
  apply N.bits_inj; intros k. rewrite N.land_spec, low_word_bit, index_bit.
  repeat case_bool_decide || case_decide; try done; rewrite ?andb_true_r, ?andb_false_r; try done.
  by rewrite (testbit_high low 40) by (done || lia).
Qed.

Lemma getvariable_makenode : mtbddnode_getvariable n = var.
Proof.
  unfold mtbddnode_getvariable. cbn [n mtbddnode_makenode snd].
  change 0xffffffff with (N.ones 32).
  apply N.bits_inj; intros k. rewrite N.land_spec, N.shiftr_spec', low_word_bit, ones_bit.
  rewrite decide_False by lia. replace (k + 40 - 40) with k by lia.
  case_bool_decide; [by rewrite andb_true_r|].
  by rewrite (testbit_high var 24) by (done || lia).
Qed.

Lemma gethigh_makenode : mtbddnode_gethigh n = high.
Proof. exact Hh. Qed.

Lemma isleaf_makenode : mtbddnode_isleaf n = false.
Proof.
  unfold mtbddnode_isleaf. change 0x4000000000000000 with (2 ^ 62). rewrite and_flag.
  cbn. by apply edge_nobit.
Qed.

Lemma ismapnode_makenode : mtbddnode_ismapnode n = false.
Proof.
  unfold mtbddnode_ismapnode. change 0x1000000000000000 with (2 ^ 60). rewrite and_flag.
  cbn. by apply edge_nobit.
Qed.

Lemma getlow_makemapnode : mtbddnode_getlow m = low.
Proof. exact getlow_makenode. Qed.

Lemma getvariable_makemapnode : mtbddnode_getvariable m = var.
Proof. exact getvariable_makenode. Qed.

Lemma gethigh_makemapnode : mtbddnode_gethigh m = high.
Proof.
  unfold mtbddnode_gethigh. cbn [m mtbddnode_makemapnode fst].
  rewrite N.land_lor_distr_l. change (N.land 0x1000000000000000 _) with 0.
  by rewrite N.lor_0_r.
Qed.

Lemma isleaf_makemapnode : mtbddnode_isleaf m = false.
Proof.
  unfold mtbddnode_isleaf. cbn [m mtbddnode_makemapnode fst].
  rewrite N.land_lor_distr_l. change (N.land 0x1000000000000000 _) with 0.
  rewrite N.lor_0_r. apply isleaf_makenode.
Qed.

Lemma ismapnode_makemapnode : mtbddnode_ismapnode m = true.
Proof.
  unfold mtbddnode_ismapnode. change 0x1000000000000000 with (2 ^ 60). rewrite and_flag.
  cbn [m mtbddnode_makemapnode fst]. by rewrite N.lor_spec, orb_true_r.
Qed.
End node.

Lemma makenode_inj v l h v' l' h' :
  v < 2 ^ 24 -> v' < 2 ^ 24 -> l < 2 ^ 40 -> l' < 2 ^ 40 ->
  mtbddnode_makenode v l h = mtbddnode_makenode v' l' h' -> v = v' /\ l = l' /\ h = h'.
Proof.
  intros Hv Hv' Hl Hl' H. split_and!.
  - by rewrite <- (getvariable_makenode v l h Hv Hl), H, getvariable_makenode.
  - by rewrite <- (getlow_makenode v l h Hv Hl), H, getlow_makenode.
  - by injection H.
Qed.

(** The reserved key (0, 0) is no node. *)
Lemma makenode_nonzero v l h :
  v < 2 ^ 24 -> l < 2 ^ 40 -> l <> h -> mtbddnode_makenode v l h <> (0, 0).
Proof.
  intros Hv Hl Hne H. injection H as Hh Hw. subst h.
  apply N.lor_eq_0_iff in Hw as [_ ->]. done.
Qed.

(** A leaf is read back, and differs from every node in its leaf flag. *)
Lemma makeleaf_get type value :
  type < 2 ^ 32 ->
  let n := mtbddnode_makeleaf type value in
  mtbddnode_isleaf n = true /\ mtbddnode_gettype n = type /\ mtbddnode_getvalue n = value.
Proof.
  intros Ht n. split_and!; [| |done].
  - unfold mtbddnode_isleaf. change 0x4000000000000000 with (2 ^ 62) at 1. rewrite and_flag.
    cbn [n mtbddnode_makeleaf fst]. by rewrite N.lor_spec.
  - unfold mtbddnode_gettype. cbn [n mtbddnode_makeleaf fst].
    change 0x4000000000000000 with (2 ^ 62). change 0xffffffff with (N.ones 32).
    apply N.bits_inj; intros k. autorewrite with bits.
    repeat case_bool_decide; try lia; rewrite ?andb_true_r, ?andb_false_r; try done;
      by rewrite (testbit_high type 32) by (done || lia).
Qed.

End MtbddNode.
