(* ===== verification/BddTree.v ===== *)
(** What diagrams stand for: binary decision trees, the Boolean functions they compute, the
    reduced and ordered trees and their canonicity, and the representation of a tree by a
    diagram in a store of nodes.  Nothing here is code; it is the specification against which
    the node store and the operations are proved. *)

From S2P Require Import Prelude MtbddNode.

Module BddTree.
Import MtbddNode.

(** ** Trees *)

Inductive bdd :=
| Leaf (b : bool)
| Node (v : N) (lo hi : bdd).

#[export] Instance bdd_eq_dec : EqDecision bdd.
Proof. solve_decision. Defined.

(** The Boolean function of a tree. *)
Fixpoint sem (t : bdd) (e : N -> bool) : bool :=
  match t with
  | Leaf b => b
  | Node v lo hi => if e v then sem hi e else sem lo e
  end.

Fixpoint neg (t : bdd) : bdd :=
  match t with
  | Leaf b => Leaf (negb b)
  | Node v lo hi => Node v (neg lo) (neg hi)
  end.

Definition xneg (c : bool) (t : bdd) : bdd := if c then neg t else t.

(** Ordered, with variables at least [n] (and within 24 bits), and reduced. *)
Fixpoint wf (n : N) (t : bdd) : Prop :=
  match t with
  | Leaf _ => True
  | Node v lo hi => n <= v /\ v < 2 ^ 24 /\ lo <> hi /\ wf (v + 1) lo /\ wf (v + 1) hi
  end.

Fixpoint height (t : bdd) : nat :=
  match t with
  | Leaf _ => O
  | Node _ lo hi => S (Nat.max (height lo) (height hi))
  end.

Fixpoint leftmost (t : bdd) : bool :=
  match t with
  | Leaf b => b
  | Node _ lo _ => leftmost lo
  end.

(** The cofactor for variable [v], which is not below the root. *)
Definition cof (b : bool) (v : N) (t : bdd) : bdd :=
  match t with
  | Leaf _ => t
  | Node v' lo hi => if v' =? v then (if b then hi else lo) else t
  end.

(** The reduced node. *)
Definition mknode (v : N) (lo hi : bdd) : bdd := if decide (lo = hi) then lo else Node v lo hi.

Lemma neg_neg t : neg (neg t) = t.
Proof. induction t as [[]|v lo IH1 hi IH2]; simpl; [done..|]. by rewrite IH1, IH2. Qed.

Lemma neg_inj t t' : neg t = neg t' -> t = t'.
Proof. intros H. by rewrite <- (neg_neg t), H, neg_neg. Qed.

Lemma sem_neg t e : sem (neg t) e = negb (sem t e).
Proof. induction t; simpl; [done|]. by case_match. Qed.

Lemma sem_xneg c t e : sem (xneg c t) e = xorb c (sem t e).
Proof. destruct c; simpl; [apply sem_neg|]. by destruct (sem t e). Qed.

Lemma wf_neg n t : wf n (neg t) <-> wf n t.
Proof.
  revert n; induction t as [|v lo IH1 hi IH2]; intros n; simpl; [done|].
  rewrite IH1, IH2. split; intros (? & ? & Hne & ?); split_and!; try naive_solver.
  intros Heq. destruct Hne. by apply neg_inj.
Qed.

Lemma wf_xneg n c t : wf n (xneg c t) <-> wf n t.
Proof. destruct c; [apply wf_neg|done]. Qed.

Lemma wf_mono n m t : m <= n -> wf n t -> wf m t.
Proof. destruct t; simpl; [done|]. intros ? (? & ?). split; [lia|done]. Qed.

Lemma height_neg t : height (neg t) = height t.
Proof. induction t; simpl; congruence. Qed.

Lemma height_xneg c t : height (xneg c t) = height t.
Proof. destruct c; [apply height_neg|done]. Qed.

Lemma leftmost_neg t : leftmost (neg t) = negb (leftmost t).
Proof. by induction t. Qed.

Lemma xneg_xneg c c' t : xneg c (xneg c' t) = xneg (xorb c c') t.
Proof. destruct c, c'; simpl; by rewrite ?neg_neg. Qed.

(** A tree depends only on the variables from its root on. *)
Lemma sem_agree n t e e' : wf n t -> (forall v, n <= v -> e v = e' v) -> sem t e = sem t e'.
Proof.
  revert n; induction t as [|v lo IH1 hi IH2]; intros n; simpl; [done|].
  intros (? & ? & ? & H1 & H2) He. rewrite (He v) by done.
  case_match; [apply (IH2 _ H2)|apply (IH1 _ H1)]; intros; apply He; lia.
Qed.

Definition env_set (e : N -> bool) (v : N) (b : bool) : N -> bool :=
  fun w => if w =? v then b else e w.

(** ** Canonicity *)

Lemma sem_node_branch n v lo hi e b :
  wf n (Node v lo hi) -> sem (Node v lo hi) (env_set e v b) = sem (if b then hi else lo) e.
Proof.
  intros (_ & _ & _ & H1 & H2). simpl. unfold env_set at 1. rewrite N.eqb_refl.
  destruct b; (eapply sem_agree; [eassumption|]); intros w Hw; unfold env_set;
    destruct (N.eqb_spec w v); (lia || done).
Qed.

Lemma canonical_leaf n t b : wf n t -> (forall e, sem t e = b) -> t = Leaf b.
Proof.
  revert n; induction t as [b'|v lo IH1 hi IH2]; intros n Hw Hs.
  - f_equal. apply (Hs (fun _ => false)).
  - pose proof Hw as (_ & _ & Hne & H1 & H2). destruct Hne.
    rewrite (IH1 _ H1), (IH2 _ H2); [done|..]; intros e;
      [rewrite <- (sem_node_branch n v lo hi e true Hw)
      |rewrite <- (sem_node_branch n v lo hi e false Hw)]; apply Hs.
Qed.

(** A tree whose variables are all above [v] agrees with both branches of an equivalent node. *)
Lemma sem_node_above n v lo hi t b :
  wf n (Node v lo hi) -> wf (v + 1) t -> (forall e, sem (Node v lo hi) e = sem t e) ->
  forall e, sem (if b : bool then hi else lo) e = sem t e.
Proof.
  intros Hw Ht Hs e. rewrite <- (sem_node_branch n v lo hi e b Hw), Hs.
  apply (sem_agree (v + 1)); [done|]. intros w Hw2. unfold env_set.
  destruct (N.eqb_spec w v); [lia|done].
Qed.

(** Reduced ordered trees that compute the same function are equal. *)
Lemma canonical n t t' :
  wf n t -> wf n t' -> (forall e, sem t e = sem t' e) -> t = t'.
Proof.
  remember (height t + height t')%nat as k eqn:Hk. revert n t t' Hk.
  induction k as [k IH] using lt_wf_ind. intros n t t' Hk Hw Hw' Hs.
  destruct t as [b|v lo hi].
  { symmetry. apply (canonical_leaf n); [done|]. intros e. by rewrite <- Hs. }
  destruct t' as [b|v' lo' hi']; [by apply (canonical_leaf n)|].
  pose proof Hw as (Hv1 & Hv2 & Hne & H1 & H2).
  pose proof Hw' as (Hv1' & Hv2' & Hne' & H1' & H2').
  cbn [height] in Hk. destruct (N.lt_trichotomy v v') as [Hlt|[->|Hlt]].
  - exfalso. assert (wf (v + 1) (Node v' lo' hi')) as Hw1 by (split_and!; [lia|done..]).
    pose proof (sem_node_above n v lo hi _ false Hw Hw1 Hs) as Hlo.
    pose proof (sem_node_above n v lo hi _ true Hw Hw1 Hs) as Hhi.
    apply Hne. transitivity (Node v' lo' hi'); [|symmetry];
      (eapply IH; [|reflexivity|..]; [|eassumption..]); cbn [height]; lia.
  - f_equal; (eapply (IH _ ltac:(shelve) (v' + 1)); [reflexivity|done..|]); intros e.
    + rewrite <- (sem_node_branch n v' lo hi e false Hw), Hs.
      by apply (sem_node_branch n _ _ _ _ false).
    + rewrite <- (sem_node_branch n v' lo hi e true Hw), Hs.
      by apply (sem_node_branch n _ _ _ _ true).
    Unshelve. all: lia.
  - exfalso. assert (wf (v' + 1) (Node v lo hi)) as Hw1 by (split_and!; [lia|done..]).
    assert (forall e, sem (Node v' lo' hi') e = sem (Node v lo hi) e) as Hs' by done.
    pose proof (sem_node_above n v' lo' hi' _ false Hw' Hw1 Hs') as Hlo.
    pose proof (sem_node_above n v' lo' hi' _ true Hw' Hw1 Hs') as Hhi.
    apply Hne'. transitivity (Node v lo hi); [|symmetry];
      (eapply IH; [|reflexivity|..]; [|eassumption..]); cbn [height]; lia.
Qed.

(** ** Cofactors *)

(** [v] is at or above the root. *)
Lemma wf_cof v t b : wf v t -> wf (v + 1) (cof b v t).
Proof.
  destruct t as [|v' lo hi]; simpl; [done|]. intros (Hv & ? & ? & H1 & H2).
  destruct (N.eqb_spec v' v) as [->|Hne]; [by destruct b|]. split_and!; [lia|done..].
Qed.

Lemma sem_cof v t e : wf v t -> sem t e = sem (cof (e v) v t) e.
Proof.
  destruct t as [|v' lo hi]; simpl; [done|]. intros _.
  destruct (N.eqb_spec v' v) as [->|Hne]; [by destruct (e v)|done].
Qed.

Lemma sem_cof_set v t e b : wf v t -> sem (cof b v t) e = sem t (env_set e v b).
Proof.
  intros Hw. destruct t as [|v' lo hi]; [done|]. cbn [cof].
  destruct (N.eqb_spec v' v) as [->|Hne].
  - symmetry. apply (sem_node_branch v _ _ _ _ b Hw).
  - destruct Hw as (? & ? & ? & ? & ?). apply (sem_agree (v + 1)); [split_and!; [lia|done..]|].
    intros w Hw. unfold env_set. destruct (N.eqb_spec w v); [lia|done].
Qed.

Lemma height_cof b v t : (height (cof b v t) <= height t)%nat.
Proof.
  destruct t as [|v' lo hi]; simpl; [lia|]. destruct (v' =? v); simpl; [destruct b|]; lia.
Qed.

Lemma height_cof_node b v lo hi : (height (cof b v (Node v lo hi)) < height (Node v lo hi))%nat.
Proof. simpl. rewrite N.eqb_refl. destruct b; lia. Qed.

Lemma cof_neg b v t : cof b v (neg t) = neg (cof b v t).
Proof. destruct t; simpl; [done|]. by repeat case_match. Qed.

Lemma sem_mknode v lo hi e : sem (mknode v lo hi) e = if e v then sem hi e else sem lo e.
Proof. unfold mknode. case_decide; [subst; by case_match|done]. Qed.

Lemma wf_mknode n v lo hi :
  n <= v -> v < 2 ^ 24 -> wf (v + 1) lo -> wf (v + 1) hi -> wf n (mknode v lo hi).
Proof.
  intros ??? ?. unfold mknode. case_decide; [|done]. eapply (wf_mono (v + 1)); [lia|done].
Qed.

Lemma neg_mknode v lo hi : neg (mknode v lo hi) = mknode v (neg lo) (neg hi).
Proof.
  unfold mknode. repeat case_decide; try done; [congruence|].
  exfalso. by apply H, neg_inj.
Qed.

(** ** Representation *)

(** A store maps the used indices to the two words of their nodes. *)
Definition store : Type := N -> option mtbddnode.

Inductive rep (st : store) : N -> bdd -> Prop :=
| rep_leaf c : rep st (mk_edge c 0) (Leaf c)
| rep_node c i v l h lo hi :
    0 < i < 2 ^ 40 -> v < 2 ^ 24 -> l < 2 ^ 40 -> is_edge h ->
    st i = Some (mtbddnode_makenode v l h) ->
    rep st l lo -> rep st h hi ->
    rep st (mk_edge c i) (xneg c (Node v lo hi)).

Lemma rep_edge st d t : rep st d t -> is_edge d.
Proof. destruct 1; apply mk_edge_edge; lia. Qed.

Lemma rep_toggle st d t : rep st d t -> rep st (MTBDD_TOGGLEMARK d) (neg t).
Proof.
  destruct 1.
  - rewrite togglemark_mk by done. simpl. constructor.
  - rewrite togglemark_mk by lia. change (neg ?x) with (xneg true x).
    rewrite xneg_xneg. simpl. by econstructor.
Qed.

Lemma rep_mono (st st' : store) d t :
  (forall i n, st i = Some n -> st' i = Some n) -> rep st d t -> rep st' d t.
Proof. intros Hst. induction 1; econstructor; eauto. Qed.

(** The tree of an edge by its mark and index. *)
Lemma rep_inv st c i t :
  i < 2 ^ 40 -> rep st (mk_edge c i) t ->
  (i = 0 /\ t = Leaf c) \/
  (exists v l h lo hi, 0 < i /\ v < 2 ^ 24 /\ l < 2 ^ 40 /\ is_edge h /\
     st i = Some (mtbddnode_makenode v l h) /\ rep st l lo /\ rep st h hi /\
     t = xneg c (Node v lo hi)).
Proof.
  intros Hi H. inversion H as [c' Heq|c' i' v l h lo hi Hi' Hv Hl Hh Hst Hlo Hhi Heq]; subst.
  - apply mk_edge_inj in Heq as [-> <-]; [by left|done..].
  - apply mk_edge_inj in Heq as [-> ->]; [|lia..]. right. eexists _, _, _, _, _. split_and!; eauto. lia.
Qed.

Lemma rep_functional st d t t' : rep st d t -> rep st d t' -> t = t'.
Proof.
  intros H. revert t'. induction H as [c|c i v l h lo hi Hi Hv Hl Hh Hst Hlo IH1 Hhi IH2];
    intros t' H'.
  - apply rep_inv in H' as [[_ ->]|H']; [done| |done]. destruct H' as (? & ? & ? & ? & ? & ? & _). lia.
  - apply rep_inv in H' as [[-> _]|H']; [lia| |lia].
    destruct H' as (v' & l' & h' & lo' & hi' & _ & Hv' & Hl' & Hh' & Hst' & Hlo' & Hhi' & ->).
    rewrite Hst in Hst'. apply (inj Some) in Hst'. apply makenode_inj in Hst' as (-> & -> & ->); try done.
    by rewrite (IH1 _ Hlo'), (IH2 _ Hhi').
Qed.

(** The mark is the value of the leftmost leaf, since low edges carry no mark. *)
Lemma rep_leftmost st c i t : i < 2 ^ 40 -> rep st (mk_edge c i) t -> leftmost t = c.
Proof.
  intros Hi H. remember (mk_edge c i) as d eqn:Hd. revert c i Hi Hd.
  induction H as [c'|c' i' v l h lo hi Hi' Hv Hl Hh Hst Hlo IH1 Hhi IH2]; intros c i Hi Hd.
  - by apply mk_edge_inj in Hd as [-> _].
  - apply mk_edge_inj in Hd as [-> _]; [|lia..].
    specialize (IH1 false l Hl eq_refl). destruct c; simpl; [rewrite leftmost_neg|]; by rewrite IH1.
Qed.

(** In a store without duplicates equal trees have equal edges. *)
Lemma rep_injective st d d' t :
  (forall i j n, st i = Some n -> st j = Some n -> i = j) ->
  rep st d t -> rep st d' t -> d = d'.
Proof.
  intros Hinj H. revert d'. induction H as [c|c i v l h lo hi Hi Hv Hl Hh Hst Hlo IH1 Hhi IH2];
    intros d' H'.
  - destruct (edge_mk d') as (c' & i' & Hi' & ->); [by eapply rep_edge|].
    apply rep_inv in H' as [[-> [= ->]]|H']; [done| |done].
    destruct H' as (v & l & h & lo & hi & H'). decompose [and] H'. destruct c'; discriminate.
  - pose proof (rep_node st c i v l h lo hi Hi Hv Hl Hh Hst Hlo Hhi) as H.
    destruct (edge_mk d') as (c' & i' & Hi' & ->); [by eapply rep_edge|].
    assert (c' = c) as ->.
    { rewrite <- (rep_leftmost st c' i' _ Hi' H'). apply (rep_leftmost st c i); [lia|done]. }
    f_equal. apply rep_inv in H' as [[_ H']|H']; [destruct c; discriminate| |done].
    destruct H' as (v' & l' & h' & lo' & hi' & _ & Hv' & Hl' & Hh' & Hst' & Hlo' & Hhi' & Heq).
    assert (Node v lo hi = Node v' lo' hi') as [= -> -> ->].
    { destruct c; [by apply neg_inj|done]. }
    rewrite (IH1 _ Hlo'), (IH2 _ Hhi') in Hst. by eapply Hinj.
Qed.

(** ** Diagrams that compute a function *)

(** The diagram [d] stands for a reduced ordered tree over the variables from [n] on. *)
Definition denotes (st : store) (n : N) (d : N) (t : bdd) : Prop := rep st d t /\ wf n t.

End BddTree.
