(* ===== verification/OpSpecs.v ===== *)
(** Abstract specifications of the cached diagram operations: what a cache entry asserts about
    the diagrams it relates.  An entry's key starts with a diagram combined with the 23-bit
    operation identifier in bits 40 to 62 (sylvan_int.h). *)

From S2P Require Import Prelude MtbddNode BddTree.

Module OpSpecs.
Import MtbddNode BddTree.

(** Operation identifiers. *)
Definition CACHE_BDD_ITE : N := N.shiftl 0 40.
Definition CACHE_BDD_AND : N := N.shiftl 1 40.
Definition CACHE_BDD_XOR : N := N.shiftl 2 40.
Definition CACHE_BDD_EXISTS : N := N.shiftl 3 40.
Definition CACHE_BDD_PROJECT : N := N.shiftl 4 40.
Definition CACHE_BDD_AND_EXISTS : N := N.shiftl 5 40.
Definition CACHE_BDD_AND_PROJECT : N := N.shiftl 6 40.
Definition CACHE_BDD_RELNEXT : N := N.shiftl 7 40.
Definition CACHE_BDD_RELPREV : N := N.shiftl 8 40.
Definition CACHE_BDD_COMPOSE : N := N.shiftl 10 40.
Definition CACHE_BDD_RESTRICT : N := N.shiftl 11 40.
Definition CACHE_BDD_CONSTRAIN : N := N.shiftl 12 40.
Definition CACHE_BDD_CLOSURE : N := N.shiftl 13 40.

(** ** Boolean functions *)

Definition bfun : Type := (N -> bool) -> bool.

(** The diagram [d] computes [f]. *)
Definition den (st : store) (d : N) (f : bfun) : Prop :=
  exists t, denotes st 0 d t /\ forall e, sem t e = f e.

(** [g] is [f] with the variables in [q] existentially quantified. *)
Definition quant (q : N -> Prop) (f g : bfun) : Prop :=
  forall e, g e = true <-> exists e', (forall v, ~ q v -> e' v = e v) /\ f e' = true.

(** Variable sets are conjunctions of positive literals. *)
Fixpoint set_ok (t : bdd) : Prop :=
  match t with
  | Leaf b => b = true
  | Node _ lo hi => lo = Leaf false /\ set_ok hi
  end.
Fixpoint set_vars (t : bdd) : list N :=
  match t with
  | Leaf _ => []
  | Node v _ hi => v :: set_vars hi
  end.

(** The diagram [d] is the set of the variables [vs]. *)
Definition is_set (st : store) (d : N) (vs : list N) : Prop :=
  exists t, denotes st 0 d t /\ set_ok t /\ set_vars t = vs.

(** ** Entries *)

Definition op_spec (st : store) (k a b c r : N) : Prop :=
  match k with
  | 0 => exists f g h, den st a f /\ den st b g /\ den st c h /\
           den st r (fun e => if f e then g e else h e)
  | 1 => exists f g, den st a f /\ den st b g /\ den st r (fun e => f e && g e)
  | 2 => exists f g, den st a f /\ den st b g /\ den st r (fun e => xorb (f e) (g e))
  | 3 => exists f vs g, den st a f /\ is_set st b vs /\
           quant (fun v => v ∈ vs) f g /\ den st r g
  | 4 => exists f vs g, den st a f /\ is_set st c vs /\
           quant (fun v => v ∉ vs) f g /\ den st r g
  | 5 => exists f1 f2 vs g, den st a f1 /\ den st b f2 /\ is_set st c vs /\
           quant (fun v => v ∈ vs) (fun e => f1 e && f2 e) g /\ den st r g
  | 11 | 12 => exists tf tc tr, denotes st 0 a tf /\ denotes st 0 b tc /\ denotes st 0 r tr /\
           (forall n, wf n tf -> wf n tc -> wf n tr) /\
           forall e, sem tc e = true -> sem tr e = sem tf e
  | _ => False
  end.

Definition entry_valid (st : store) (x b c r : N) : Prop :=
  exists k a, k < 2 ^ 23 /\ is_edge a /\ x = N.lor a (N.shiftl k 40) /\ op_spec st k a b c r.

(** The identifier and the diagram can be read off the key. *)
Lemma opkey_inj a a' k k' :
  is_edge a -> is_edge a' -> k < 2 ^ 23 -> k' < 2 ^ 23 ->
  N.lor a (N.shiftl k 40) = N.lor a' (N.shiftl k' 40) -> a = a' /\ k = k'.
Proof.
  intros Ha Ha' Hk Hk' H.
  assert (forall i, N.testbit (N.lor a (N.shiftl k 40)) i = N.testbit (N.lor a' (N.shiftl k' 40)) i)
    as Hb by (by rewrite H).
  split; apply N.bits_inj; intros i.
  - destruct (decide (i = 63 \/ i < 40)) as [Hi|Hi].
    + specialize (Hb i). rewrite !N.lor_spec in Hb.
      assert (forall x, x < 2 ^ 23 -> N.testbit (N.shiftl x 40) i = false) as Hs.
      { intros x Hx. destruct Hi as [->|Hi]; [|by apply N.shiftl_spec_low].
        rewrite N.shiftl_spec_high' by lia. by apply (testbit_high x 23). }
      by rewrite !Hs, !orb_false_r in Hb.
    + destruct (N.testbit a i) eqn:E; [apply edge_bit in E; [|done]; destruct Hi; tauto|].
      destruct (N.testbit a' i) eqn:E'; [apply edge_bit in E'; [|done]; destruct Hi; tauto|done].
  - destruct (N.lt_ge_cases i 23) as [Hi|Hi];
      [|by rewrite (testbit_high k 23), (testbit_high k' 23)].
    specialize (Hb (i + 40)). rewrite !N.lor_spec, !N.shiftl_spec_high' in Hb by lia.
    rewrite !N.add_sub in Hb. by rewrite !(edge_nobit _ (i + 40)) in Hb by (done || lia).
Qed.

Lemma entry_op st k a b c r :
  k < 2 ^ 23 -> is_edge a -> entry_valid st (N.lor a (N.shiftl k 40)) b c r -> op_spec st k a b c r.
Proof.
  intros Hk Ha (k' & a' & Hk' & Ha' & Heq & Hop).
  apply opkey_inj in Heq as [-> ->]; done.
Qed.

(** ** Growth of the store *)

Definition grows (st st' : store) : Prop := forall i n, st i = Some n -> st' i = Some n.

#[export] Instance grows_preorder : PreOrder grows.
Proof. split; [by intros st i n|]. intros s1 s2 s3 H1 H2 i n H. auto. Qed.

Lemma denotes_grows st st' n d t : grows st st' -> denotes st n d t -> denotes st' n d t.
Proof. intros Hg [Hr Hw]. split; [by eapply rep_mono|done]. Qed.

Lemma den_grows st st' d f : grows st st' -> den st d f -> den st' d f.
Proof. intros Hg (t & Hd & Hs). exists t. split; [by eapply denotes_grows|done]. Qed.

Lemma is_set_grows st st' d vs : grows st st' -> is_set st d vs -> is_set st' d vs.
Proof. intros Hg (t & Hd & Hs). exists t. split; [by eapply denotes_grows|done]. Qed.

#[export] Hint Resolve denotes_grows den_grows is_set_grows : specs.

Lemma op_spec_grows st st' k a b c r : grows st st' -> op_spec st k a b c r -> op_spec st' k a b c r.
Proof.
  intros Hg. assert (forall d f, den st d f -> den st' d f) as Hd by eauto with specs.
  assert (forall d f, is_set st d f -> is_set st' d f) as Hi by eauto with specs.
  assert (forall n d f, denotes st n d f -> denotes st' n d f) as Ht by eauto with specs.
  unfold op_spec. repeat (case_match; try done); naive_solver eauto 10.
Qed.

Lemma entry_valid_grows st st' x b c r :
  grows st st' -> entry_valid st x b c r -> entry_valid st' x b c r.
Proof.
  intros Hg (k & a & Hk & Ha & Heq & Hop). exists k, a. split_and!; [done..|].
  by eapply op_spec_grows.
Qed.

End OpSpecs.
