(* ===== verification/NodeStore.v ===== *)
(** The interfaces between the diagram operations and the two tables they share: what the
    node table and the operation cache promise ([NodeTable], [OpCache] and their laws), and
    the instances that the table of [SylvanTable] and the cache of [SylvanCache] provide. *)

From S2P Require Import Prelude SylvanHash SylvanTable SylvanTableFacts SylvanTableGC SylvanCache.

Module NodeStore.

(** ** The node table *)

Class NodeTable (T : Type) := {
  nt_lookup : N -> N -> prog T (N * bool);
  nt_lookupc : N -> N -> prog T (N * bool);
  nt_data : T -> N -> N * N;
  nt_used : T -> N -> bool;
  nt_get_size : T -> N;
  nt_get_max_size : T -> N;
  nt_set_size : T -> N -> T;
  nt_clear_data : T -> T;
  nt_mark : N -> prog T bool;
  nt_destroy_unmarked : T -> option T;
  nt_clear_hashes : T -> T;
  nt_rehash : prog T N
}.

(** The bucket [c] of [t] is still there in [t'] with its data. *)
Definition kept `{NodeTable T} (t t' : T) (c : N) : Prop :=
  nt_used t c = true -> nt_used t' c = true /\ nt_data t' c = nt_data t c.

Class NodeTableLaws (T : Type) `{NodeTable T} := {
  nt_inv : T -> Prop;
  (** There is no room for the key. *)
  nt_full : T -> N -> N -> Prop;
  (** [nt_phase t0 t]: the garbage collection of [t0] has reached [t]. *)
  nt_phase : T -> T -> Prop;

  nt_used_range t c : nt_inv t -> nt_used t c = true -> 0 < c < 2 ^ 40 /\ c < nt_get_size t;
  nt_data_inj t c c' :
    nt_inv t -> nt_used t c = true -> nt_used t c' = true -> nt_data t c = nt_data t c' -> c = c';

  (** Lookup returns the bucket of the key, old or new, or 0 when it found no room. *)
  nt_lookup_spec t a b :
    nt_inv t -> (a, b) <> (0, 0) ->
    exists c created t', nt_lookup a b t = Done (c, created) t' /\ nt_inv t' /\
      (forall c', kept t t' c') /\
      (c <> 0 -> nt_used t' c = true /\ nt_data t' c = (a, b)) /\
      (c = 0 -> nt_full t' a b) /\
      nt_get_size t' = nt_get_size t;

  nt_clear_data_spec t :
    nt_inv t -> nt_phase t (nt_clear_data t) /\ forall c, nt_used (nt_clear_data t) c = false;
  nt_phase_inv t0 t : nt_phase t0 t -> nt_inv t0;
  nt_phase_sub t0 t c : nt_phase t0 t -> nt_used t c = true -> nt_used t0 c = true;
  nt_phase_size t0 t : nt_phase t0 t -> nt_get_size t0 <= nt_get_size t;
  nt_phase_data t0 t c : nt_phase t0 t -> nt_data t c = nt_data t0 c;
  nt_mark_spec t0 t c :
    nt_phase t0 t -> nt_used t0 c = true ->
    exists t', nt_mark c t = Done (negb (nt_used t c)) t' /\ nt_phase t0 t' /\
      forall c', nt_used t' c' = bool_decide (c' = c) || nt_used t c';
  nt_destroy_spec t0 t :
    nt_phase t0 t -> exists t', nt_destroy_unmarked t = Some t' /\ nt_phase t0 t' /\
      forall c, nt_used t' c = nt_used t c;
  nt_set_size_spec t0 t :
    nt_phase t0 t -> nt_get_size t < nt_get_max_size t ->
    2 * nt_get_size t <= nt_get_max_size t < 2 ^ 64 /\
    nt_phase t0 (nt_set_size t (2 * nt_get_size t)) /\
    forall c, nt_used (nt_set_size t (2 * nt_get_size t)) c = nt_used t c;
  nt_rehash_spec t0 t :
    nt_phase t0 t ->
    exists t', nt_rehash (nt_clear_hashes t) = Done 0 t' /\ nt_inv t' /\
      forall c, nt_used t' c = nt_used t c /\ nt_data t' c = nt_data t c
}.

(** ** The operation cache *)

Class OpCache (C : Type) := {
  oc_get : C -> N -> N -> N -> option N;
  oc_put : C -> N -> N -> N -> N -> bool * C;
  oc_clear : C -> option C;
  oc_getsize : C -> N;
  oc_getmaxsize : C -> N;
  oc_setsize : C -> N -> option C
}.

(** Nothing is found in the cache. *)
Definition no_hits `{OpCache C} (c : C) : Prop := forall a b k, oc_get c a b k = None.

Class OpCacheLaws (C : Type) `{OpCache C} := {
  oc_inv : C -> Prop;
  (** The cache may forget, and never makes an entry up. *)
  oc_put_spec c a b k res :
    oc_inv c ->
    oc_inv (oc_put c a b k res).2 /\
    forall a' b' k' r, oc_get (oc_put c a b k res).2 a' b' k' = Some r ->
      a' = a /\ b' = b /\ k' = k /\ r = res \/ oc_get c a' b' k' = Some r;
  oc_clear_spec c :
    oc_inv c -> exists c', oc_clear c = Some c' /\ oc_inv c' /\ no_hits c';
  oc_setsize_spec c :
    oc_inv c -> oc_getsize c < oc_getmaxsize c ->
    2 * oc_getsize c <= oc_getmaxsize c < 2 ^ 64 /\
    exists c', oc_setsize c (2 * oc_getsize c) = Some c' /\ oc_inv c' /\ no_hits c'
}.

(** ** The node table of sylvan_table.c *)

Import LLMSSet LLMSSetFacts LLMSSetGC.

Definition usedb (s : llmsset) (c : N) : bool :=
  (2 <=? c) && (c <? table_size s) && bm_get (bitmap2 s) c.

Lemma usedb_spec s c : usedb s c = true <-> used s c.
Proof.
  unfold usedb, used. rewrite !andb_true_iff, N.leb_le, N.ltb_lt. tauto.
Qed.

#[export] Instance llmsset_NodeTable : NodeTable llmsset := {
  nt_lookup := llmsset_lookup;
  nt_lookupc := llmsset_lookupc;
  nt_data := data_at;
  nt_used := usedb;
  nt_get_size := llmsset_get_size;
  nt_get_max_size := llmsset_get_max_size;
  nt_set_size := llmsset_set_size;
  nt_clear_data := llmsset_clear_data;
  nt_mark := llmsset_mark;
  nt_destroy_unmarked := llmsset_destroy_unmarked;
  nt_clear_hashes := llmsset_clear_hashes;
  nt_rehash := llmsset_rehash
}.

Definition phase (s0 s : llmsset) : Prop :=
  inv s0 /\ shape s /\ same_data s0 s /\ (forall c, used s c -> used s0 c) /\
  table_size s0 <= table_size s.

Lemma usedb_iff s s' :
  (forall c, used s' c <-> used s c) -> forall c, usedb s' c = usedb s c.
Proof. intros H c. apply eq_true_iff_eq. by rewrite !usedb_spec. Qed.

Lemma pow2_double K K' : 2 ^ K < 2 ^ K' -> 2 * 2 ^ K <= 2 ^ K'.
Proof.
  intros H. apply N.pow_lt_mono_r_iff in H; [|done]. rewrite <- N.pow_succ_r'.
  apply N.pow_le_mono_r; [done|lia].
Qed.

#[export] Instance llmsset_NodeTableLaws : NodeTableLaws llmsset.
Proof.
  refine {| nt_inv := inv; nt_full := no_room; nt_phase := phase |}.
  - intros s c Hi Hu%usedb_spec. pose proof (used_lt40 s c (inv_shape s Hi) Hu).
    destruct Hu as (? & ? & ?). split; [lia|done].
  - intros s c c' Hi Hc%usedb_spec Hc'%usedb_spec. by apply (sh_inj s (inv_shape s Hi)).
  - intros s a b Hi Hab. destruct (lookup_spec s a b Hi Hab) as (c & cr & s' & Hr & Hi' & Hpost).
    exists c, cr, s'. split; [exact Hr|]. split; [done|]. cbn [nt_data nt_used llmsset_NodeTable].
    unfold kept. setoid_rewrite usedb_spec.
    destruct Hpost as [c Hu Hd|c s' _ Hu Hus Hd Hk Hsz|s' _ Hk Hsz Hno].
    + split_and!; [done|done| |done]. destruct Hu as [Hu _]. intros ->. lia.
    + split_and!; [|by rewrite Hus; auto| |done].
      * intros c' Hc'. rewrite Hus. auto.
      * intros ->. destruct (proj2 (Hus 0) (or_introl eq_refl)) as [Hu0 _]. lia.
    + split_and!; [|done|done|done]. intros c' Hc'. destruct (Hk c'). naive_solver.
  - intros s Hi. destruct (clear_data_spec s (inv_shape s Hi)) as (Hs & Hu & Hd & _). split.
    + split_and!; [done..| |done]. intros c Hc. by apply Hu in Hc.
    + intros c. apply not_true_iff_false. rewrite usedb_spec. apply Hu.
  - by intros s0 s [? _].
  - intros s0 s c (_ & _ & _ & Hsub & _). cbn. rewrite !usedb_spec. apply Hsub.
  - by intros s0 s (_ & _ & _ & _ & Hts).
  - intros s0 s c (_ & _ & Hd & _). apply Hd.
  - intros s0 s c (Hi & Hs & Hd & Hsub & Hts) Hc%usedb_spec.
    destruct (mark_spec s0 s c (inv_shape s0 Hi) Hs Hd Hsub Hts Hc) as
      (s' & Hr & Hs' & Hd' & Hu' & Hts'). exists s'.
    assert (usedb s c = bm_get (bitmap2 s) c) as Hb.
    { unfold usedb. destruct Hc as (H2 & Hlt & _). rewrite (proj2 (N.leb_le _ _) H2).
      rewrite (proj2 (N.ltb_lt c _)) by lia. done. }
    split; [cbn; rewrite Hb; exact Hr|]. split.
    + split_and!; [done|done|..].
      * intros c'. by rewrite Hd'.
      * intros c'. rewrite Hu'. intros [->|?]; auto.
      * by rewrite Hts'.
    + intros c'. apply eq_true_iff_eq. cbn.
      rewrite orb_true_iff, bool_decide_eq_true, !usedb_spec. apply Hu'.
  - intros s0 s (Hi & Hs & ?). exists s. split; [by apply destroy_unmarked_spec|]. done.
  - intros s0 s (Hi & Hs & Hd & Hsub & Hts). cbn [nt_get_size nt_get_max_size nt_set_size nt_used
      llmsset_NodeTable]. unfold llmsset_get_size, llmsset_get_max_size. intros Hlt.
    assert (max_size s < 2 ^ 64) as H64.
    { destruct (sh_maxpow s Hs) as (K' & HK' & ->). apply N.pow_lt_mono_r; [done|lia]. }
    assert (2 * table_size s <= max_size s) as Hle.
    { destruct (sh_size s Hs) as (K & _ & HK), (sh_maxpow s Hs) as (K' & _ & HK').
      rewrite HK, HK' in *. by apply pow2_double. }
    destruct (set_size_spec s (2 * table_size s) Hs eq_refl Hle) as (Hs' & Hu & Hd' & Hts' & _).
    split; [done|]. split; [|by apply usedb_iff]. split_and!; [done|done|..].
    + intros c. by rewrite Hd'.
    + intros c Hc. by apply Hsub, Hu.
    + rewrite Hts'. lia.
  - intros s0 s (Hi & Hs & Hd & Hsub & Hts).
    destruct (clear_hashes_spec s Hs) as (Hs1 & Hu1 & Hd1 & Ht1 & _).
    destruct (rehash_spec _ Hs1 Ht1) as (s' & Hr & Hi' & Hdf). exists s'. split; [exact Hr|].
    split; [done|]. intros c. split.
    + apply usedb_iff. intros c'. rewrite (hd_used _ _ Hdf). apply Hu1.
    + cbn. rewrite (hd_data _ _ Hdf). apply Hd1.
Defined.

(** ** The operation cache of sylvan_cache.c *)

Import Cache.

#[export] Instance cache_OpCache : OpCache cache := {
  oc_get := cache_get;
  oc_put := cache_put;
  oc_clear := cache_clear;
  oc_getsize := cache_getsize;
  oc_getmaxsize := cache_getmaxsize;
  oc_setsize := cache_setsize
}.

(** The sizes are the powers of two that [cache_create] asks for. *)
Definition cache_ok (c : cache) : Prop :=
  exists K K', K <= K' < 64 /\ cache_size c = 2 ^ K /\ cache_max c = 2 ^ K'.

Lemma create_ok K K' :
  K <= K' < 64 -> exists c, cache_create (2 ^ K) (2 ^ K') = Some c /\ cache_ok c /\ no_hits c.
Proof.
  intros H. destruct (cache_create (2 ^ K) (2 ^ K')) as [c|] eqn:E.
  - exists c. split; [done|]. split; [|intros a b k; by apply (create_get _ _ _ _ _ _ E)].
    exists K, K'. unfold cache_create in E. destruct (_ || _); [done|]. destruct (_ <? _); [done|].
    by injection E as <-.
  - unfold cache_create in E. rewrite !popcount_pow2 in E. cbn [N.eqb Pos.eqb negb orb] in E.
    rewrite (proj2 (N.ltb_ge _ _)) in E; [done|]. by apply N.pow_le_mono_r; [|apply H].
Qed.

#[export] Instance cache_OpCacheLaws : OpCacheLaws cache.
Proof.
  refine {| oc_inv := cache_ok |}.
  - intros c a b k res (K & K' & HK & Hs & Hm). split; [|by intros; apply put_get_other].
    exists K, K'. cbn. unfold cache_put. by destruct (negb _).
  - intros c (K & K' & HK & Hs & Hm). cbn. unfold cache_clear. rewrite Hs, Hm. by apply create_ok.
  - intros c (K & K' & HK & Hs & Hm). cbn. unfold cache_getsize, cache_getmaxsize, cache_setsize.
    rewrite Hs, Hm. intros Hlt. split; [split; [by apply pow2_double|apply N.pow_lt_mono_r; [done|apply HK]]|].
    rewrite <- N.pow_succ_r'. apply create_ok. apply N.pow_lt_mono_r_iff in Hlt; [lia|done].
Defined.

End NodeStore.
