(* ===== verification/MtbddCore.v ===== *)
(** The diagram manager of sylvan/src/sylvan_mtbdd.c and sylvan/src/sylvan_common.c: the shared
    state of node table, operation cache and roots, the reference stack, garbage collection, and
    the creation of nodes.  The state of the two tables is a parameter that satisfies the
    interfaces of [NodeStore].  The model is the run of one Lace worker, in which no task is
    stolen: [SPAWN] defers a call to the matching [SYNC]. *)

From S2P Require Import Prelude MtbddNode NodeStore.

Module MtbddCore.
Import MtbddNode NodeStore.

Section core.
Context {T C : Type} `{NodeTable T} `{OpCache C}.

Record mgr := mk_mgr {
  nodes : T;
  opcache : C;
  rstack : list N;          (* mtbdd_refs_key, rbegin to rcur; the last pushed comes first *)
  pstack : list N;          (* the diagrams that pbegin to pcur point to, last pushed first *)
  mtbdd_refs : list N;      (* the keys of the external reference table, in iteration order *)
  mtbdd_protected : list N; (* the diagrams the protected pointers point to, in that order *)
  gc_enabled : bool;
  granularity : N;
  has_custom_hash : N -> bool  (* sylvan_mt_has_custom_hash, of the leaf types of sylvan_mt.c *)
}.

Definition set_nodes (t : T) (m : mgr) : mgr :=
  mk_mgr t (opcache m) (rstack m) (pstack m) (mtbdd_refs m) (mtbdd_protected m) (gc_enabled m)
    (granularity m) (has_custom_hash m).
Definition set_opcache (c : C) (m : mgr) : mgr :=
  mk_mgr (nodes m) c (rstack m) (pstack m) (mtbdd_refs m) (mtbdd_protected m) (gc_enabled m)
    (granularity m) (has_custom_hash m).
Definition set_rstack (l : list N) (m : mgr) : mgr :=
  mk_mgr (nodes m) (opcache m) l (pstack m) (mtbdd_refs m) (mtbdd_protected m) (gc_enabled m)
    (granularity m) (has_custom_hash m).
Definition set_gc_enabled (b : bool) (m : mgr) : mgr :=
  mk_mgr (nodes m) (opcache m) (rstack m) (pstack m) (mtbdd_refs m) (mtbdd_protected m) b
    (granularity m) (has_custom_hash m).

(** A program on the node table, run on the manager. *)
Definition on_nodes {A} (p : prog T A) : prog mgr A := fun m =>
  match p (nodes m) with
  | Done a t => Done a (set_nodes t m)
  | Exit r t => Exit r (set_nodes t m)
  | NoFuel => NoFuel
  end.

Definition MTBDD_GETNODE (m : mgr) (dd : N) : mtbddnode := nt_data (nodes m) (MTBDD_INDEX dd).

(** ** Primitives *)

Definition mtbdd_isleaf (m : mgr) (bdd : N) : bool :=
  if (bdd =? mtbdd_true) || (bdd =? mtbdd_false) then true
  else mtbddnode_isleaf (MTBDD_GETNODE m bdd).
Definition mtbdd_getvar (m : mgr) (node : N) : N := mtbddnode_getvariable (MTBDD_GETNODE m node).
Definition mtbdd_getlow (m : mgr) (mtbdd : N) : N :=
  mtbddnode_followlow mtbdd (MTBDD_GETNODE m mtbdd).
Definition mtbdd_gethigh (m : mgr) (mtbdd : N) : N :=
  mtbddnode_followhigh mtbdd (MTBDD_GETNODE m mtbdd).
Definition mtbdd_gettype (m : mgr) (leaf : N) : N := mtbddnode_gettype (MTBDD_GETNODE m leaf).
Definition mtbdd_getvalue (m : mgr) (leaf : N) : N := mtbddnode_getvalue (MTBDD_GETNODE m leaf).

(** ** The reference stack *)

Definition mtbdd_refs_push (mtbdd : N) : prog mgr N :=
  _ ← modify (fun m => set_rstack (mtbdd :: rstack m) m);
  mret mtbdd.
Definition mtbdd_refs_pop (amount : nat) : prog mgr unit :=
  modify (fun m => set_rstack (drop amount (rstack m)) m).

Definition sylvan_gc_enable (m : mgr) : mgr := set_gc_enabled true m.
Definition sylvan_gc_disable (m : mgr) : mgr := set_gc_enabled false m.

(** ** Marking *)

(** The low edge is spawned: it runs at the [SYNC], after the high edge. *)
Fixpoint mtbdd_gc_mark_rec (fuel : nat) (mtbdd : N) : prog mgr unit :=
  match fuel with
  | O => no_fuel
  | S fuel =>
      if mtbdd =? mtbdd_true then mret tt
      else if mtbdd =? mtbdd_false then mret tt
      else
        first ← on_nodes (nt_mark (MTBDD_STRIPMARK mtbdd));
        if (first : bool) then
          m ← gets id;
          let n := MTBDD_GETNODE m mtbdd in
          if negb (mtbddnode_isleaf n) then
            _ ← mtbdd_gc_mark_rec fuel (mtbddnode_gethigh n);
            mtbdd_gc_mark_rec fuel (mtbddnode_getlow n)
          else mret tt
        else mret tt
  end.

(** The depth of the recursion is at most the number of buckets. *)
Definition gc_mark (mtbdd : N) : prog mgr unit :=
  m ← gets id;
  mtbdd_gc_mark_rec (S (N.to_nat (nt_get_size (nodes m)))) mtbdd.

Fixpoint gc_mark_all (l : list N) : prog mgr unit :=
  match l with
  | [] => mret tt
  | d :: l => _ ← gc_mark d; gc_mark_all l
  end.

(** The external tables are walked spawning a task per entry; the syncs run them in the
    reverse order. *)
Definition mtbdd_gc_mark_external_refs : prog mgr unit :=
  m ← gets id;
  gc_mark_all (rev (mtbdd_refs m)).
Definition mtbdd_gc_mark_protected : prog mgr unit :=
  m ← gets id;
  gc_mark_all (rev (mtbdd_protected m)).

(** [mtbdd_refs_mark_r_par] and [mtbdd_refs_mark_p_par], from the first pushed on: the first
    half is spawned and runs after the second. *)
Fixpoint mtbdd_refs_mark_par (fuel : nat) (l : list N) : prog mgr unit :=
  match fuel with
  | O => no_fuel
  | S fuel =>
      if Nat.ltb (length l) 32 then gc_mark_all l
      else
        let half := Nat.div (length l) 2 in
        _ ← mtbdd_refs_mark_par fuel (drop half l);
        mtbdd_refs_mark_par fuel (take half l)
  end.

(** No task is stolen, so [mtbdd_refs_mark_s_par] marks nothing. *)
Definition mtbdd_refs_mark_task : prog mgr unit :=
  m ← gets id;
  _ ← mtbdd_refs_mark_par (S (length (rstack m))) (rev (rstack m));
  mtbdd_refs_mark_par (S (length (pstack m))) (rev (pstack m)).

(** ** Garbage collection (sylvan_common.c) *)

Definition sylvan_clear_cache : prog mgr unit :=
  m ← gets id;
  match oc_clear (opcache m) with
  | None => exit BadSize
  | Some c => modify (set_opcache c)
  end.

(** The mark callbacks run in the reverse order of their registration
    in [sylvan_init_mtbdd]. *)
Definition sylvan_clear_and_mark : prog mgr unit :=
  _ ← modify (fun m => set_nodes (nt_clear_data (nodes m)) m);
  _ ← mtbdd_refs_mark_task;
  _ ← mtbdd_gc_mark_protected;
  _ ← mtbdd_gc_mark_external_refs;
  m ← gets id;
  match nt_destroy_unmarked (nodes m) with
  | None => no_fuel
  | Some t => modify (set_nodes t)
  end.

Definition sylvan_rehash_all : prog mgr unit :=
  _ ← modify (fun m => set_nodes (nt_clear_hashes (nodes m)) m);
  bad ← on_nodes nt_rehash;
  if negb (bad =? 0) then exit RehashFailed else mret tt.

Definition next_size (current_size : N) : N := mul64 current_size 2.

Definition sylvan_gc_aggressive_resize : prog mgr unit :=
  m ← gets id;
  let nodes_size := nt_get_size (nodes m) in
  let nodes_max := nt_get_max_size (nodes m) in
  _ ← (if nodes_size <? nodes_max then
         let new_size := next_size nodes_size in
         let new_size := if nodes_max <? new_size then nodes_max else new_size in
         modify (fun m => set_nodes (nt_set_size (nodes m) new_size) m)
       else mret tt);
  let cache_size := oc_getsize (opcache m) in
  let cache_max := oc_getmaxsize (opcache m) in
  if cache_size <? cache_max then
    let new_size := next_size cache_size in
    let new_size := if cache_max <? new_size then cache_max else new_size in
    match oc_setsize (opcache m) new_size with
    | None => exit BadSize
    | Some c => modify (set_opcache c)
    end
  else mret tt.

Definition sylvan_gc_go : prog mgr unit :=
  _ ← sylvan_clear_cache;
  _ ← sylvan_clear_and_mark;
  _ ← sylvan_gc_aggressive_resize;
  sylvan_rehash_all.

Definition sylvan_gc : prog mgr unit :=
  m ← gets id;
  if gc_enabled m then sylvan_gc_go else mret tt.

(** ** Making nodes *)

Definition mtbdd_makeleaf (type value : N) : prog mgr N :=
  let n := mtbddnode_makeleaf type value in
  custom ← gets (fun m => has_custom_hash m type);
  let lookup := if (custom : bool) then nt_lookupc n.1 n.2 else nt_lookup n.1 n.2 in
  '(index, _) ← on_nodes lookup;
  if index =? 0 then
    _ ← sylvan_gc;
    '(index, _) ← on_nodes lookup;
    if index =? 0 then exit TableFull else mret index
  else mret index.

Definition _mtbdd_makenode_nogc (var low high : N) : prog mgr N :=
  let mark := MTBDD_HASMARK low in
  let '(low, high) :=
    if mark then (MTBDD_TOGGLEMARK low, MTBDD_TOGGLEMARK high) else (low, high) in
  let n := mtbddnode_makenode var low high in
  '(index, _) ← on_nodes (nt_lookup n.1 n.2);
  if index =? 0 then exit TableFull
  else mret (if mark then N.lor index mtbdd_complement else index).

Definition _mtbdd_makenode (var low high : N) : prog mgr N :=
  let mark := MTBDD_HASMARK low in
  let '(low, high) :=
    if mark then (MTBDD_TOGGLEMARK low, MTBDD_TOGGLEMARK high) else (low, high) in
  let n := mtbddnode_makenode var low high in
  '(index, _) ← on_nodes (nt_lookup n.1 n.2);
  index ← (if index =? 0 then
             _ ← mtbdd_refs_push low;
             _ ← mtbdd_refs_push high;
             _ ← sylvan_gc;
             _ ← mtbdd_refs_pop 2;
             '(index, _) ← on_nodes (nt_lookup n.1 n.2);
             if index =? 0 then exit TableFull else mret index
           else mret index);
  mret (if mark then N.lor index mtbdd_complement else index).

Definition mtbdd_makemapnode (var low high : N) : prog mgr N :=
  if MTBDD_HASMARK low then exit AssertFailed
  else
    let n := mtbddnode_makemapnode var low high in
    '(index, _) ← on_nodes (nt_lookup n.1 n.2);
    if index =? 0 then
      _ ← mtbdd_refs_push low;
      _ ← mtbdd_refs_push high;
      _ ← sylvan_gc;
      _ ← mtbdd_refs_pop 2;
      '(index, _) ← on_nodes (nt_lookup n.1 n.2);
      if index =? 0 then exit TableFull else mret index
    else mret index.

(** [mtbdd_makenode] and [mtbdd_makenode_nogc] of sylvan_mtbdd.h. *)
Definition mtbdd_makenode (var low high : N) : prog mgr N :=
  if low =? high then mret low else _mtbdd_makenode var low high.
Definition mtbdd_makenode_nogc (var low high : N) : prog mgr N :=
  if low =? high then mret low else _mtbdd_makenode_nogc var low high.

(** [sylvan_ithvar] of sylvan_bdd.h. *)
Definition mtbdd_ithvar (var : N) : prog mgr N := mtbdd_makenode var mtbdd_false mtbdd_true.

(** ** Operation cache *)

Definition cache_get3 (opid dd d2 d3 : N) : prog mgr (option N) :=
  gets (fun m => oc_get (opcache m) (N.lor dd opid) d2 d3).
Definition cache_put3 (opid dd d2 d3 res : N) : prog mgr bool := fun m =>
  let '(ok, c) := oc_put (opcache m) (N.lor dd opid) d2 d3 res in
  Done ok (set_opcache c m).
End core.

Arguments mgr : clear implicits.
End MtbddCore.
