(* ===== verification/MtbddCoreFacts.v ===== *)
(** The invariant of the diagram manager of [MtbddCore], and the effect of garbage collection
    and of the creation of nodes: a collection keeps every node that the roots reach, and a
    created node represents the reduced tree over its children. *)

From S2P Require Import Prelude MtbddNode BddTree OpSpecs NodeStore MtbddCore.

Module MtbddCoreFacts.
Import MtbddNode BddTree OpSpecs NodeStore MtbddCore.

Section facts.
Context {T C : Type} `{NodeTableLaws T} `{OpCacheLaws C}.
Notation mgr := (mgr T C).

(** The nodes of a table. *)
Definition store_of (t : T) : store := fun i => if nt_used t i then Some (nt_data t i) else None.
Definition st (m : mgr) : store := store_of (nodes m).

Definition roots (m : mgr) : list N := rstack m ++ pstack m ++ mtbdd_refs m ++ mtbdd_protected m.

(** The indices that the roots reach, and the index of the constants. *)
Inductive live (m : mgr) : N -> Prop :=
| live_zero : live m 0
| live_root r : r ∈ roots m -> live m (MTBDD_INDEX r)
| live_low i n : live m i -> st m i = Some n -> live m (MTBDD_INDEX (mtbddnode_getlow n))
| live_high i n : live m i -> st m i = Some n -> live m (MTBDD_INDEX (mtbddnode_gethigh n)).

Definition root_ok (s : store) (r : N) : Prop := exists t, denotes s 0 r t.

Record mgr_inv (m : mgr) : Prop := {
  mi_nodes : nt_inv (nodes m);
  mi_cache : oc_inv (opcache m);
  mi_roots : Forall (root_ok (st m)) (roots m);
  mi_ops : forall a b k r, oc_get (opcache m) a b k = Some r -> entry_valid (st m) a b k r
}.

(** What all operations leave alone: the roots and the settings. *)
Definition same_roots (m m' : mgr) : Prop :=
  rstack m' = rstack m /\ pstack m' = pstack m /\ mtbdd_refs m' = mtbdd_refs m /\
  mtbdd_protected m' = mtbdd_protected m /\ gc_enabled m' = gc_enabled m /\
  granularity m' = granularity m.

(** Operations with garbage collection keep the live nodes; those without keep all nodes. *)
Definition keeps (m m' : mgr) : Prop :=
  same_roots m m' /\ forall i n, live m i -> st m i = Some n -> st m' i = Some n.
Definition extends (m m' : mgr) : Prop := same_roots m m' /\ grows (st m) (st m').

#[export] Instance same_roots_preorder : PreOrder same_roots.
Proof.
  split; [done|]. intros m1 m2 m3 H1' H2'. unfold same_roots in *. naive_solver congruence.
Qed.

#[export] Instance extends_preorder : PreOrder extends.
Proof.
  split; [by intros m|]. intros m1 m2 m3 [? ?] [? ?]. split; by etrans.
Qed.

Lemma same_roots_roots m m' : same_roots m m' -> roots m' = roots m.
Proof. unfold same_roots, roots. intros (-> & -> & -> & -> & _). done. Qed.

Lemma live_keeps m m' i : keeps m m' -> live m i -> live m' i.
Proof.
  intros [Hr Hk]. induction 1 as [|r Hin|i n Hl IH Hst|i n Hl IH Hst].
  - constructor.
  - apply live_root. by rewrite (same_roots_roots m m').
  - eapply live_low; [exact IH|]. by apply Hk.
  - eapply live_high; [exact IH|]. by apply Hk.
Qed.

#[export] Instance keeps_preorder : PreOrder keeps.
Proof.
  split; [by intros m|]. intros m1 m2 m3 H1' H2'. split.
  - etrans; [apply H1'|apply H2'].
  - intros i n Hl Hst. apply H2'; [by eapply live_keeps|]. by apply H1'.
Qed.

Lemma extends_keeps m m' : extends m m' -> keeps m m'.
Proof. intros [Hr Hg]. split; [done|]. intros i n _. apply Hg. Qed.

(** ** Live diagrams *)

Lemma st_range m i n : mgr_inv m -> st m i = Some n -> 0 < i < 2 ^ 40.
Proof.
  intros Hi Hst. unfold st, store_of in Hst. destruct (nt_used _ i) eqn:E; [|done].
  by apply (nt_used_range (nodes m) i (mi_nodes m Hi)).
Qed.

(** The children of a live node are live, and a live diagram keeps its tree. *)
Lemma rep_keeps m m' d t :
  keeps m m' -> live m (MTBDD_INDEX d) -> rep (st m) d t -> rep (st m') d t.
Proof.
  intros Hk Hl Hr. induction Hr as [c|c i v l h lo hi Hi Hv Hl' Hh Hst Hlo IH1 Hhi IH2].
  - constructor.
  - rewrite index_mk in Hl by lia. econstructor; try done.
    + by apply Hk.
    + apply IH1. rewrite <- (getlow_makenode v l h) by done. by eapply live_low.
    + apply IH2. rewrite <- (gethigh_makenode v l h) by done. by eapply live_high.
Qed.

Lemma denotes_keeps m m' n d t :
  keeps m m' -> live m (MTBDD_INDEX d) -> denotes (st m) n d t -> denotes (st m') n d t.
Proof. intros Hk Hl [Hr Hw]. split; [by eapply rep_keeps|done]. Qed.

Lemma live_toggle m d : is_edge d ->
  live m (MTBDD_INDEX (MTBDD_TOGGLEMARK d)) <-> live m (MTBDD_INDEX d).
Proof.
  intros (c & i & Hi & ->)%edge_mk. by rewrite togglemark_mk, !index_mk.
Qed.

(** ** Marking *)

Definition marked (m : mgr) (i : N) : Prop := nt_used (nodes m) i = true.

(** [m] is a state of the collection of [m0]. *)
Definition collecting (m0 m : mgr) : Prop :=
  nt_phase (nodes m0) (nodes m) /\ same_roots m0 m /\ opcache m = opcache m0.

(** From [m] to [m'] more nodes were marked: live ones, whose children are marked too. *)
Definition marks (m0 m m' : mgr) : Prop :=
  nt_phase (nodes m0) (nodes m') /\ opcache m' = opcache m /\ same_roots m m' /\
  (forall i, marked m i -> marked m' i) /\
  (forall i, marked m' i -> marked m i \/ live m0 i /\
     forall j, (j = mtbddnode_getlow (nt_data (nodes m') i) \/
                j = mtbddnode_gethigh (nt_data (nodes m') i)) ->
       MTBDD_INDEX j = 0 \/ marked m' (MTBDD_INDEX j)).

(** The node of the diagram [d] is marked. *)
Definition root_marked (m : mgr) (d : N) : Prop :=
  MTBDD_INDEX d = 0 \/ marked m (MTBDD_INDEX d).

Lemma marks_refl m0 m : nt_phase (nodes m0) (nodes m) -> marks m0 m m.
Proof. intros Hp. split_and!; try done. auto. Qed.

Lemma marks_root m0 m m' d : marks m0 m m' -> root_marked m d -> root_marked m' d.
Proof. intros (_ & _ & _ & Hm & _) [?|?]; [by left|right; auto]. Qed.

Lemma marks_trans m0 m1 m2 m3 : marks m0 m1 m2 -> marks m0 m2 m3 -> marks m0 m1 m3.
Proof.
  intros (Hp2 & Hc1 & Hr1 & Hm1 & Hn1) (Hp3 & Hc2 & Hr2 & Hm2 & Hn2).
  split_and!; [done|congruence|by etrans|auto|].
  intros i Hi. destruct (Hn2 i Hi) as [Hi2|Hj]; [|by right].
  destruct (Hn1 i Hi2) as [?|[Hl Hj]]; [by left|right]. split; [done|].
  rewrite (nt_phase_data (nodes m0)) in Hj by done. rewrite (nt_phase_data (nodes m0)) by done.
  intros j Hjj. destruct (Hj j Hjj); auto.
Qed.

(** A program that marks: it neither fails nor runs out of fuel, and marks the diagrams [l]. *)
Definition marker (m0 : mgr) (p : prog mgr unit) (l : list N) : Prop :=
  forall m E, nt_phase (nodes m0) (nodes m) -> same_roots m0 m ->
    wp p (fun _ m' => marks m0 m m' /\ Forall (root_marked m') l) E m.

Lemma gc_mark_rec_spec m0 fuel d t m E :
  nt_phase (nodes m0) (nodes m) -> rep (st m0) d t -> live m0 (MTBDD_INDEX d) ->
  (height t < fuel)%nat ->
  wp (mtbdd_gc_mark_rec fuel d) (fun _ m' => marks m0 m m' /\ root_marked m' d) E m.
Proof.
  revert d t m. induction fuel as [|fuel IH]; intros d t m Hp Hr Hli Hf; [lia|].
  cbn [mtbdd_gc_mark_rec].
  destruct (N.eqb_spec d mtbdd_true) as [->|Ht].
  { apply wp_ret. split; [by apply marks_refl|by left]. }
  destruct (N.eqb_spec d mtbdd_false) as [->|Hfa].
  { apply wp_ret. split; [by apply marks_refl|by left]. }
  destruct (edge_mk d) as (c & i & Hi & ->); [by eapply rep_edge|].
  unfold root_marked. rewrite stripmark_mk, index_mk in * by done.
  apply rep_inv in Hr as [[-> ->]|Hr]; [by destruct c| |done].
  destruct Hr as (v & l & h & lo & hi & Hi0 & Hv & Hl & Hh & Hst & Hlo & Hhi & ->).
  assert (live m0 (MTBDD_INDEX l)) as Hll.
  { rewrite <- (getlow_makenode v l h) by done. by apply (live_low m0 i). }
  assert (live m0 (MTBDD_INDEX h)) as Hlh.
  { rewrite <- (gethigh_makenode v l h) by done. by apply (live_high m0 i). }
  unfold st, store_of in Hst. destruct (nt_used (nodes m0) i) eqn:Hu; [|done]. injection Hst as Hst.
  destruct (nt_mark_spec (nodes m0) (nodes m) i Hp Hu) as (t' & Hrun & Hp' & Hu').
  apply wp_bind. unfold wp at 1, on_nodes. rewrite Hrun.
  assert (marked (set_nodes t' m) i) as Hmi.
  { unfold marked. cbn. by rewrite Hu', bool_decide_eq_true_2. }
  destruct (nt_used (nodes m) i) eqn:Hui; cbn [negb].
  { apply wp_ret. split; [|by right]. split_and!; [done|done|done|..].
    - intros j Hj. unfold marked. cbn. rewrite Hu'. unfold marked in Hj. by rewrite Hj, orb_true_r.
    - intros j Hj. unfold marked in Hj. cbn in Hj. rewrite Hu' in Hj. left.
      apply orb_prop in Hj as [->%bool_decide_eq_true|?]; done. }
  repeat wp_step. cbn [nodes set_nodes]. unfold MTBDD_GETNODE. rewrite index_mk by done.
  cbn [nodes set_nodes id]. rewrite (nt_phase_data (nodes m0) t') by done. rewrite Hst.
  rewrite isleaf_makenode, gethigh_makenode, getlow_makenode by done. cbn [negb].
  rewrite height_xneg in Hf. cbn [height] in Hf.
  apply wp_bind. eapply wp_mono; [apply (IH h hi (set_nodes t' m)); [done..|lia]|].
  intros [] m1 [Hm1 Hh1]. pose proof Hm1 as (Hp1 & _).
  eapply wp_mono; [apply (IH l lo m1); [done..|lia]|].
  intros [] m2 [Hm2 Hl2]. pose proof (marks_root m0 m1 m2 h Hm2 Hh1) as Hh2.
  pose proof (marks_trans _ _ _ _ Hm1 Hm2) as (Hp2 & Hc & Hs & Hmono & Hnew).
  split; [|right; by apply Hmono]. split_and!; [done|done|done|..].
  - intros j Hj. apply Hmono. unfold marked. cbn. rewrite Hu'. unfold marked in Hj.
    by rewrite Hj, orb_true_r.
  - intros j Hj. destruct (Hnew j Hj) as [Hj'|]; [|by right].
    unfold marked in Hj'. cbn in Hj'. rewrite Hu' in Hj'.
    apply orb_prop in Hj' as [->%bool_decide_eq_true|?]; [right|by left]. split; [done|].
    rewrite (nt_phase_data (nodes m0)) by done. rewrite Hst.
    rewrite gethigh_makenode, getlow_makenode by done. by intros j [->| ->].
Qed.

(** The height of a represented tree is less than the number of buckets. *)
Lemma rep_path s d t n :
  (forall i x, s i = Some x -> i < 2 ^ 40) -> rep s d t -> wf n t ->
  exists p, length p = height t /\ NoDup p /\
    Forall (fun i => exists v l h, s i = Some (mtbddnode_makenode v l h) /\ n <= v /\
      v < 2 ^ 24 /\ l < 2 ^ 40) p.
Proof.
  intros Hs Hr. revert n. induction Hr as [c|c i v l h lo hi Hi Hv Hl Hh Hst Hlo IH1 Hhi IH2];
    intros n Hw.
  - exists []. split_and!; [done|constructor|constructor].
  - rewrite height_xneg. apply wf_xneg in Hw as (Hnv & _ & _ & Hw1 & Hw2). cbn [height].
    assert (exists p, length p = Nat.max (height lo) (height hi) /\ NoDup p /\
      Forall (fun i => exists v' l h, s i = Some (mtbddnode_makenode v' l h) /\ v + 1 <= v' /\
        v' < 2 ^ 24 /\ l < 2 ^ 40) p) as (p & Hlen & Hnd & Hall).
    { destruct (Nat.max_spec (height lo) (height hi)) as [[_ ->]|[_ ->]]; auto. }
    exists (i :: p). split; [cbn; lia|]. split.
    + constructor; [|done]. intros Hin. rewrite Forall_forall in Hall.
      destruct (Hall i Hin) as (v' & l' & h' & Hst' & Hge & Hv' & Hl').
      rewrite Hst in Hst'. apply (inj Some) in Hst'. apply makenode_inj in Hst' as (-> & _); try done.
      lia.
    + constructor.
      * exists v, l, h. split_and!; [done|lia|done|done].
      * eapply Forall_impl; [exact Hall|]. intros j (v' & l' & h' & ? & ? & ? & ?).
        exists v', l', h'. split_and!; [done|lia|done|done].
Qed.

Lemma height_size m d t n :
  mgr_inv m -> rep (st m) d t -> wf n t -> (height t <= N.to_nat (nt_get_size (nodes m)))%nat.
Proof.
  intros Hi Hr Hw. destruct (rep_path (st m) d t n) as (p & <- & Hnd & Hall); [|done..|].
  { intros i x Hx. by apply (st_range m i x Hi). }
  set (k := N.to_nat (nt_get_size (nodes m))).
  rewrite <- (length_seq k 0), <- (length_fmap N.of_nat).
  apply submseteq_length, NoDup_submseteq; [done|]. intros i Hin.
  rewrite Forall_forall in Hall. destruct (Hall i Hin) as (v & l & h & Hst & _).
  unfold st, store_of in Hst. destruct (nt_used (nodes m) i) eqn:Hu; [|done].
  apply (nt_used_range _ _ (mi_nodes m Hi)) in Hu as [_ Hlt].
  apply list_elem_of_fmap. exists (N.to_nat i). split; [lia|]. apply elem_of_seq. lia.
Qed.

Lemma gc_mark_spec m0 d :
  mgr_inv m0 -> d ∈ roots m0 -> marker m0 (gc_mark d) [d].
Proof.
  intros Hi Hd m E Hp Hs.
  pose proof (mi_roots m0 Hi) as Hroots. rewrite Forall_forall in Hroots.
  destruct (Hroots d Hd) as (t & Hr & Hw).
  unfold gc_mark. repeat wp_step. eapply wp_mono.
  - apply (gc_mark_rec_spec m0 _ d t); [done|done|by constructor|].
    pose proof (height_size m0 d t 0 Hi Hr Hw). pose proof (nt_phase_size _ _ Hp).
    unfold id. lia.
  - intros [] m' [Hm Hr']. split; [done|]. by constructor.
Qed.

Lemma marker_bind m0 p q l l' :
  marker m0 p l -> marker m0 q l' -> marker m0 (_ ← p; q) (l ++ l').
Proof.
  intros Hpm Hqm m E Hph Hs. apply wp_bind. eapply wp_mono; [by apply Hpm|].
  intros [] m1 [Hm1 Hl1]. pose proof Hm1 as (Hp1 & _ & Hs1 & _).
  eapply wp_mono; [apply Hqm; [done|by etrans]|]. intros [] m2 [Hm2 Hl2].
  split; [by eapply marks_trans|]. apply Forall_app. split; [|done].
  eapply Forall_impl; [exact Hl1|]. intros d. by apply (marks_root m0 m1).
Qed.

Lemma gc_mark_all_spec m0 l :
  mgr_inv m0 -> (forall d, d ∈ l -> d ∈ roots m0) -> marker m0 (gc_mark_all l) l.
Proof.
  intros Hi. induction l as [|d l IH]; intros Hl; cbn [gc_mark_all].
  - intros m E Hp Hs. apply wp_ret. split; [by apply marks_refl|constructor].
  - apply (marker_bind m0 _ _ [d] l); [apply gc_mark_spec|apply IH]; try done; set_solver.
Qed.

Lemma marker_perm m0 p l l' :
  (forall d, d ∈ l' -> d ∈ l) -> marker m0 p l -> marker m0 p l'.
Proof.
  intros Hin Hm m E Hp Hs. eapply wp_mono; [by apply Hm|]. intros [] m' [? Hl]. split; [done|].
  rewrite Forall_forall in *. auto.
Qed.

Lemma mark_par_spec m0 fuel l :
  mgr_inv m0 -> (forall d, d ∈ l -> d ∈ roots m0) -> (length l < fuel)%nat ->
  marker m0 (mtbdd_refs_mark_par fuel l) l.
Proof.
  intros Hi. revert l. induction fuel as [|fuel IH]; intros l Hl Hf; [lia|].
  cbn [mtbdd_refs_mark_par]. destruct (Nat.ltb_spec (length l) 32); [by apply gc_mark_all_spec|].
  assert (length l / 2 < length l)%nat by (apply Nat.div_lt; lia).
  assert (0 < length l / 2)%nat by (apply Nat.div_str_pos; lia).
  apply (marker_perm m0 _ (drop (length l / 2) l ++ take (length l / 2) l)).
  - intros d. rewrite <- (take_drop (length l / 2) l) at 1. set_solver.
  - apply marker_bind; (apply IH; [intros d Hd; apply Hl|]).
    + rewrite <- (take_drop (length l / 2) l). set_solver.
    + rewrite length_drop. lia.
    + rewrite <- (take_drop (length l / 2) l). set_solver.
    + rewrite length_take. lia.
Qed.

(** ** Garbage collection *)

(** The nodes that are left are the live ones. *)
Definition live_only (m0 : mgr) (t : T) : Prop :=
  forall i, nt_used t i = true <-> live m0 i /\ nt_used (nodes m0) i = true.

Lemma mark_task_spec m0 :
  mgr_inv m0 -> marker m0 mtbdd_refs_mark_task (rstack m0 ++ pstack m0).
Proof.
  intros Hi m E Hp Hs. unfold mtbdd_refs_mark_task. do 2 wp_step. unfold id.
  pose proof Hs as (Hr1 & Hr2 & _). rewrite Hr1, Hr2. revert m E Hp Hs Hr1 Hr2.
  enough (marker m0 (_ ← mtbdd_refs_mark_par (S (length (rstack m0))) (rev (rstack m0));
      mtbdd_refs_mark_par (S (length (pstack m0))) (rev (pstack m0))) (rstack m0 ++ pstack m0))
    as Hm by (intros; by apply Hm).
  eapply marker_perm; [|apply (marker_bind m0 _ _ (rev (rstack m0)) (rev (pstack m0)));
    (apply mark_par_spec; [done| |rewrite length_rev; lia])]; intros d;
    rewrite ?elem_of_app, ?elem_of_rev; unfold roots; set_solver.
Qed.

Lemma mark_tables_spec m0 :
  mgr_inv m0 -> marker m0 mtbdd_gc_mark_protected (mtbdd_protected m0) /\
    marker m0 mtbdd_gc_mark_external_refs (mtbdd_refs m0).
Proof.
  intros Hi. assert (forall l, (forall d, d ∈ l -> d ∈ roots m0) -> marker m0 (gc_mark_all (rev l)) l)
    as Hl.
  { intros l Hl. apply (marker_perm m0 _ (rev l)); [intros d; by rewrite elem_of_rev|].
    apply gc_mark_all_spec; [done|]. intros d. rewrite elem_of_rev. apply Hl. }
  split; intros m E Hp Hs; pose proof Hs as (_ & _ & Hr1 & Hr2 & _);
    unfold mtbdd_gc_mark_protected, mtbdd_gc_mark_external_refs; repeat wp_step; unfold id;
    [rewrite Hr2|rewrite Hr1]; (apply Hl; [|done|done]); intros d; unfold roots; set_solver.
Qed.

Lemma mark_roots_spec m0 :
  mgr_inv m0 ->
  marker m0 (_ ← mtbdd_refs_mark_task; _ ← mtbdd_gc_mark_protected; mtbdd_gc_mark_external_refs)
    (roots m0).
Proof.
  intros Hi. destruct (mark_tables_spec m0 Hi) as [Hm1 Hm2].
  apply (marker_perm m0 _ ((rstack m0 ++ pstack m0) ++ (mtbdd_protected m0 ++ mtbdd_refs m0))).
  - intros d. unfold roots. set_solver.
  - apply marker_bind; [by apply mark_task_spec|]. by apply marker_bind.
Qed.

(** A store in which exactly the marked indices of [m0] are left. *)
Lemma marks_live_only m0 m m' :
  mgr_inv m0 -> (forall i, ~ marked m i) -> marks m0 m m' ->
  Forall (root_marked m') (roots m0) -> live_only m0 (nodes m').
Proof.
  intros Hi Hno (Hp & _ & _ & _ & Hnew) Hroots i. split.
  - intros Hu. split; [|by apply (nt_phase_sub (nodes m0) (nodes m'))].
    destruct (Hnew i Hu) as [Hm|[? _]]; [by apply Hno in Hm|done].
  - assert (forall i, nt_used (nodes m0) i = true -> i <> 0) as Hne.
    { intros j Hj. apply (nt_used_range _ _ (mi_nodes m0 Hi)) in Hj. lia. }
    assert (forall i n j, marked m' i -> st m0 i = Some n ->
      j = mtbddnode_getlow n \/ j = mtbddnode_gethigh n ->
      nt_used (nodes m0) (MTBDD_INDEX j) = true -> marked m' (MTBDD_INDEX j)) as Hstep.
    { intros i' n j Hm' Hst Hj Hu. destruct (Hnew i' Hm') as [Hm|[_ Hc]]; [by apply Hno in Hm|].
      unfold st, store_of in Hst. destruct (nt_used (nodes m0) i'); [|done]. injection Hst as Hst.
      rewrite (nt_phase_data (nodes m0)), Hst in Hc by done.
      destruct (Hc j Hj) as [H0'|]; [by apply Hne in Hu|done]. }
    intros [Hl Hu]. induction Hl as [|r Hin|i n Hl IH Hst|i n Hl IH Hst].
    + by apply Hne in Hu.
    + rewrite Forall_forall in Hroots. destruct (Hroots r Hin) as [H0'|]; [by apply Hne in Hu|done].
    + apply (Hstep i n); auto. apply IH. unfold st, store_of in Hst. by destruct (nt_used _ i).
    + apply (Hstep i n); auto. apply IH. unfold st, store_of in Hst. by destruct (nt_used _ i).
Qed.

Lemma clear_and_mark_spec m0 m E :
  mgr_inv m0 -> same_roots m0 m -> nodes m = nodes m0 ->
  wp sylvan_clear_and_mark
    (fun _ m' => nt_phase (nodes m0) (nodes m') /\ live_only m0 (nodes m') /\
      same_roots m m' /\ opcache m' = opcache m) E m.
Proof.
  intros Hi Hs Hn. unfold sylvan_clear_and_mark. wp_step. wp_step. rewrite Hn.
  destruct (nt_clear_data_spec _ (mi_nodes m0 Hi)) as [Hp Hno].
  set (m1 := set_nodes (nt_clear_data (nodes m0)) m).
  assert (same_roots m0 m1) as Hs1 by exact Hs.
  pose proof (mark_roots_spec m0 Hi m1 E Hp Hs1) as Hm.
  unfold wp, mbind, prog_bind in Hm |- *.
  destruct (mtbdd_refs_mark_task m1) as [[] m2|r m2|]; [|done..].
  destruct (mtbdd_gc_mark_protected m2) as [[] m3|r m3|]; [|done..].
  destruct (mtbdd_gc_mark_external_refs m3) as [[] m4|r m4|]; [|done..].
  destruct Hm as [Hm Hroots]. unfold gets, id.
  pose proof Hm as (Hp4 & Hc4 & Hs4 & _).
  destruct (nt_destroy_spec _ _ Hp4) as (t & -> & Hpt & Hut). cbn.
  split; [done|]. split; [|done]. intros i. rewrite Hut.
  apply (marks_live_only m0 m1 m4); try done. intros j Hj. unfold marked in Hj. cbn in Hj.
  by rewrite Hno in Hj.
Qed.

(** The table after a collection: the live nodes with their data. *)
Definition collected (m0 m : mgr) : Prop :=
  live_only m0 (nodes m) /\ (forall i, nt_data (nodes m) i = nt_data (nodes m0) i).

Lemma live_only_roots m0 m :
  mgr_inv m0 -> same_roots m0 m -> collected m0 m ->
  keeps m0 m /\ Forall (root_ok (st m)) (roots m).
Proof.
  intros Hi Hs [Hlo Hd]. assert (keeps m0 m) as Hk.
  { split; [done|]. intros i n Hl Hst. unfold st, store_of in *.
    destruct (nt_used (nodes m0) i) eqn:E; [|done].
    by rewrite (proj2 (Hlo i) (conj Hl E)), Hd. }
  split; [done|]. rewrite (same_roots_roots m0 m Hs).
  pose proof (mi_roots m0 Hi) as Hr. rewrite Forall_forall in *. intros r Hin.
  destruct (Hr r Hin) as (t & Hden). exists t. eapply denotes_keeps; [done| |done].
  by constructor.
Qed.

(** A program that resizes the tables while a collection is under way. *)
Definition resizes (p : prog mgr unit) : Prop := forall m m2 : mgr,
  nt_phase (nodes m) (nodes m2) -> oc_inv (opcache m2) -> no_hits (opcache m2) ->
  exists t2 c2, p m2 = Done tt (set_opcache c2 (set_nodes t2 m2)) /\ nt_phase (nodes m) t2 /\
    (forall i, nt_used t2 i = nt_used (nodes m2) i) /\ oc_inv c2 /\ no_hits c2.

(** The two steps of the resizing programs: each table grows when it may. *)
Lemma nodes_grow (m m2 : mgr) :
  nt_phase (nodes m) (nodes m2) -> nt_get_size (nodes m2) < nt_get_max_size (nodes m2) ->
  let new_size := next_size (nt_get_size (nodes m2)) in
  let t2 := nt_set_size (nodes m2)
    (if nt_get_max_size (nodes m2) <? new_size then nt_get_max_size (nodes m2) else new_size) in
  nt_phase (nodes m) t2 /\ forall i, nt_used t2 i = nt_used (nodes m2) i.
Proof.
  intros Hp Hlt. destruct (nt_set_size_spec _ _ Hp Hlt) as ([Hle Hmax] & Hp' & Hu).
  unfold next_size, mul64. rewrite (N.mul_comm _ 2), w64_small by lia.
  by rewrite (proj2 (N.ltb_ge _ _) Hle).
Qed.

Lemma cache_grow (c : C) :
  oc_inv c -> oc_getsize c < oc_getmaxsize c ->
  let new_size := next_size (oc_getsize c) in
  exists c2, oc_setsize c (if oc_getmaxsize c <? new_size then oc_getmaxsize c else new_size) = Some c2 /\
    oc_inv c2 /\ no_hits c2.
Proof.
  intros Hc Hlt. destruct (oc_setsize_spec c Hc Hlt) as ([Hle Hmax] & Hset).
  unfold next_size, mul64. rewrite (N.mul_comm _ 2), w64_small by lia.
  by rewrite (proj2 (N.ltb_ge _ _) Hle).
Qed.

Lemma aggressive_resizes : resizes sylvan_gc_aggressive_resize.
Proof.
  intros m m2 Hp Hc Hno. unfold sylvan_gc_aggressive_resize, mbind, prog_bind, gets, id.
  assert (exists t2, (if nt_get_size (nodes m2) <? nt_get_max_size (nodes m2)
       then modify (fun m => set_nodes (nt_set_size (nodes m)
         (if nt_get_max_size (nodes m2) <? next_size (nt_get_size (nodes m2))
          then nt_get_max_size (nodes m2) else next_size (nt_get_size (nodes m2)))) m)
       else mret tt) m2 = Done tt (set_nodes t2 m2) /\ nt_phase (nodes m) t2 /\
       forall i, nt_used t2 i = nt_used (nodes m2) i) as (t2 & Hr & Hpt & Hu).
  { destruct (N.ltb_spec (nt_get_size (nodes m2)) (nt_get_max_size (nodes m2))) as [Hlt|Hge].
    - eexists. split; [reflexivity|]. by apply nodes_grow.
    - exists (nodes m2). split; [by destruct m2|]. done. }
  rewrite Hr. destruct (N.ltb_spec (oc_getsize (opcache m2)) (oc_getmaxsize (opcache m2))) as [Hlt|Hge].
  - destruct (cache_grow _ Hc Hlt) as (c2 & Hset & Hci & Hn). rewrite Hset. exists t2, c2. done.
  - exists t2, (opcache m2). by destruct m2.
Qed.

(** A collection that resizes with [resize]: [sylvan_gc_go] is one. *)
Definition collect (resize : prog mgr unit) : prog mgr unit :=
  _ ← sylvan_clear_cache; _ ← sylvan_clear_and_mark; _ ← resize; sylvan_rehash_all.

Lemma collection_spec resize m :
  resizes resize -> mgr_inv m ->
  wp (collect resize)
    (fun _ m' => mgr_inv m' /\ keeps m m' /\ collected m m' /\ no_hits (opcache m'))
    (fun _ _ => False) m.
Proof.
  intros Hres Hi. unfold collect, sylvan_clear_cache. repeat wp_step. unfold id.
  destruct (oc_clear_spec _ (mi_cache m Hi)) as (c & -> & Hci & Hno). repeat wp_step.
  eapply wp_mono; [by apply (clear_and_mark_spec m)|].
  intros [] m2 (Hp2 & Hlo & Hs2 & Hc2). cbn [opcache set_opcache] in Hc2.
  destruct (Hres m m2 Hp2) as (t2 & c2 & Hr & Hpt & Hut & Hc & Hnh); [by rewrite Hc2..|].
  wp_step. unfold wp at 1. rewrite Hr. unfold sylvan_rehash_all. repeat wp_step.
  cbn [nodes set_nodes set_opcache].
  destruct (nt_rehash_spec _ _ Hpt) as (t3 & Hr3 & Hi3 & Hu3).
  unfold wp at 1, on_nodes. cbn [nodes set_nodes]. rewrite Hr3. cbn [N.eqb negb].
  apply wp_ret. match goal with |- mgr_inv ?x /\ _ => set (m3 := x) end.
  assert (same_roots m m3) as Hs3 by exact Hs2.
  assert (collected m m3) as Hcol.
  { split.
    - intros i. cbn. rewrite (proj1 (Hu3 i)), Hut. apply Hlo.
    - intros i. cbn. rewrite (proj2 (Hu3 i)). by apply nt_phase_data. }
  destruct (live_only_roots m m3 Hi Hs3 Hcol) as [Hk Hro].
  split_and!; [split|done..]; try done.
  intros a b k r Hh. cbn in Hh. by rewrite Hnh in Hh.
Qed.

Lemma sylvan_gc_go_spec m :
  mgr_inv m ->
  wp sylvan_gc_go
    (fun _ m' => mgr_inv m' /\ keeps m m' /\ collected m m' /\ no_hits (opcache m'))
    (fun _ _ => False) m.
Proof. apply (collection_spec _ m aggressive_resizes). Qed.

(** Whether or not garbage collection is enabled, the invariant holds afterwards and the
    live nodes are still there. *)
Lemma sylvan_gc_spec m E :
  mgr_inv m ->
  wp sylvan_gc (fun _ m' => mgr_inv m' /\ keeps m m') E m.
Proof.
  intros Hi. unfold sylvan_gc. repeat wp_step. unfold id. destruct (gc_enabled m).
  - eapply wp_cons; [by apply sylvan_gc_go_spec| |done]. naive_solver.
  - by apply wp_ret.
Qed.


(** ** Creating nodes *)

Lemma mgr_inv_grows m m' :
  mgr_inv m -> nt_inv (nodes m') -> oc_inv (opcache m') -> extends m m' ->
  (forall a b k r, oc_get (opcache m') a b k = Some r ->
     entry_valid (st m') a b k r \/ oc_get (opcache m) a b k = Some r) ->
  mgr_inv m'.
Proof.
  intros [_ _ Hr Ho] Hn Hc [Hs Hg] Hops. split; [done|done|..].
  - rewrite (same_roots_roots m m' Hs). eapply Forall_impl; [exact Hr|].
    intros r (t & Hd). exists t. by eapply denotes_grows.
  - intros a b k r Hh. destruct (Hops a b k r Hh) as [?|Hh']; [done|].
    eapply entry_valid_grows; [exact Hg|]. by apply Ho.
Qed.

Lemma on_lookup_spec m a b E :
  mgr_inv m -> (a, b) <> (0, 0) ->
  wp (on_nodes (nt_lookup a b))
    (fun '(c, _) m' => mgr_inv m' /\ extends m m' /\ (c <> 0 -> st m' c = Some (a, b)) /\
       (c = 0 -> nt_full (nodes m') a b)) E m.
Proof.
  intros Hi Hab.
  destruct (nt_lookup_spec (nodes m) a b (mi_nodes m Hi) Hab) as (c & cr & t & Hr & Hi' & Hk & Hc & Hfull & _).
  unfold wp, on_nodes. rewrite Hr.
  assert (extends m (set_nodes t m)) as He.
  { split; [done|]. intros i n. unfold st, store_of. cbn. destruct (nt_used (nodes m) i) eqn:E1; [|done].
    destruct (Hk i E1) as [-> ->]. done. }
  split; [|split; [done|split; [|done]]].
  - apply (mgr_inv_grows m); try done; [apply Hi|]. intros. by right.
  - intros Hne. destruct (Hc Hne) as [Hu Hd]. unfold st, store_of. cbn. by rewrite Hu, Hd.
Qed.

Lemma st_inj m i j n : mgr_inv m -> st m i = Some n -> st m j = Some n -> i = j.
Proof.
  intros Hi. unfold st, store_of. destruct (nt_used _ i) eqn:Ei; [|done].
  destruct (nt_used _ j) eqn:Ej; [|done]. intros [= <-] [= Heq].
  by apply (nt_data_inj (nodes m)); [apply Hi|..].
Qed.

(** Diagrams are equal exactly when their trees are. *)
Lemma den_inj m n n' d d' t t' :
  mgr_inv m -> denotes (st m) n d t -> denotes (st m) n' d' t' -> d = d' <-> t = t'.
Proof.
  intros Hi [Hd _] [Hd' _]. split; intros ->.
  - by eapply rep_functional.
  - eapply rep_injective; [|exact Hd|exact Hd']. intros i j x. by apply st_inj.
Qed.

(** Only full tables end the process: those without room for some node. *)
Definition full_only : exit_reason -> mgr -> Prop := fun x m =>
  x = TableFull /\ exists a b, nt_full (nodes m) a b.

(** The two edges of a new node, with the mark moved away from the low one. *)
Definition normal (low high : N) : N * N :=
  if MTBDD_HASMARK low then (MTBDD_TOGGLEMARK low, MTBDD_TOGGLEMARK high) else (low, high).

Lemma normal_spec s n low high tl th :
  denotes s n low tl -> denotes s n high th -> tl <> th ->
  exists l h, normal low high = (l, h) /\ l < 2 ^ 40 /\ is_edge h /\ l <> h /\
    MTBDD_INDEX l = MTBDD_INDEX low /\
    denotes s n l (xneg (MTBDD_HASMARK low) tl) /\ denotes s n h (xneg (MTBDD_HASMARK low) th).
Proof.
  intros [Hl Hwl] [Hh Hwh] Hne. destruct (edge_mk low) as (c & i & Hi & ->); [by eapply rep_edge|].
  destruct (edge_mk high) as (c' & i' & Hi' & ->); [by eapply rep_edge|].
  assert (mk_edge c i <> mk_edge c' i') as Hne'.
  { intros Heq. rewrite Heq in Hl. destruct Hne. by eapply rep_functional. }
  unfold normal. rewrite hasmark_mk, !togglemark_mk by done. destruct c; cbn [negb xneg].
  - exists (mk_edge false i), (mk_edge (negb c') i'). split_and!; try done.
    + by apply mk_edge_edge.
    + intros [Hc ->]%mk_edge_inj; [|done..]. destruct c'; done.
    + by rewrite !index_mk.
    + split; [|by apply wf_neg].
      pose proof (rep_toggle _ _ _ Hl) as Ht. by rewrite togglemark_mk in Ht.
    + split; [|by apply wf_neg].
      pose proof (rep_toggle _ _ _ Hh) as Ht. by rewrite togglemark_mk in Ht.
  - exists (mk_edge false i), (mk_edge c' i'). split_and!; try done. by apply mk_edge_edge.
Qed.

(** The looked up bucket and the mark represent the new node. *)
Lemma node_denotes m v low l h tl th c :
  mgr_inv m -> v < 2 ^ 24 -> l < 2 ^ 40 -> is_edge h -> tl <> th ->
  denotes (st m) (v + 1) l (xneg (MTBDD_HASMARK low) tl) ->
  denotes (st m) (v + 1) h (xneg (MTBDD_HASMARK low) th) ->
  st m c = Some (mtbddnode_makenode v l h) ->
  denotes (st m) v (if MTBDD_HASMARK low then N.lor c mtbdd_complement else c) (Node v tl th).
Proof.
  intros Hi Hv Hl Hh Hne [Hrl Hwl] [Hrh Hwh] Hst. set (k := MTBDD_HASMARK low) in *.
  assert ((if k then N.lor c mtbdd_complement else c) = mk_edge k c) as ->.
  { destruct k; [apply N.lor_comm|done]. }
  assert (Node v tl th = xneg k (Node v (xneg k tl) (xneg k th))) as ->.
  { destruct k; simpl; by rewrite ?neg_neg. }
  split.
  - econstructor; try done. by apply (st_range m c _ Hi Hst).
  - apply wf_xneg. split_and!; try done. intros Heq. apply Hne.
    destruct k; [by apply neg_inj|done].
Qed.

Lemma makenode_nogc_spec v low high tl th m :
  mgr_inv m -> v < 2 ^ 24 ->
  denotes (st m) (v + 1) low tl -> denotes (st m) (v + 1) high th ->
  wp (mtbdd_makenode_nogc v low high)
    (fun r m' => mgr_inv m' /\ extends m m' /\ denotes (st m') v r (mknode v tl th))
    full_only m.
Proof.
  intros Hi Hv Hl Hh. unfold mtbdd_makenode_nogc, mknode.
  destruct (N.eqb_spec low high) as [Heq|Hne].
  - apply (den_inj m _ _ _ _ _ _ Hi Hl Hh) in Heq as ->. rewrite decide_True by done.
    apply wp_ret. split_and!; [done|done|]. destruct Hl as [? ?].
    split; [done|]. eapply wf_mono; [|done]. lia.
  - rewrite decide_False by (by rewrite <- (den_inj m _ _ _ _ _ _ Hi Hl Hh)).
    assert (tl <> th) as Hnt by (by rewrite <- (den_inj m _ _ _ _ _ _ Hi Hl Hh)).
    unfold _mtbdd_makenode_nogc. fold (normal low high).
    destruct (normal_spec _ _ _ _ _ _ Hl Hh Hnt) as (l & h & -> & Hl40 & Hhe & Hlh & _ & Hdl & Hdh).
    wp_step. eapply wp_mono; [apply on_lookup_spec; [done|exact (makenode_nonzero v l h Hv Hl40 Hlh)]|].
    intros [c cr] m1 (Hi1 & Hx & Hc & Hfull). destruct (N.eqb_spec c 0) as [->|Hc0];
      [apply wp_exit; split; [done|]; by eauto|].
    apply wp_ret. split; [done|]. split; [done|]. pose proof Hx as [_ Hg].
    eapply node_denotes; try done; [by eapply denotes_grows..|by apply Hc].
Qed.

Lemma set_rstack_inv m l :
  mgr_inv m -> Forall (root_ok (st m)) l -> mgr_inv (set_rstack l m).
Proof.
  intros [Hn Hc Hr Ho] Hl. split; [done|done| |done].
  unfold roots in *. cbn. rewrite !Forall_app in *. naive_solver.
Qed.

(** Running with more roots on the stack keeps at least as much. *)
Lemma keeps_pushed m l m' :
  keeps (set_rstack (l ++ rstack m) m) m' ->
  keeps m (set_rstack (rstack m) m') /\ rstack m' = l ++ rstack m.
Proof.
  intros [Hs Hk]. pose proof Hs as (Hr & Hs'). split; [|done]. split.
  - unfold same_roots in *. cbn in *. naive_solver.
  - intros i n Hl Hst. cbn. apply Hk; [|done]. clear -Hl.
    induction Hl as [|r Hin|i n Hl IH Hst|i n Hl IH Hst].
    + constructor.
    + apply live_root. unfold roots in *. cbn. set_solver.
    + by apply (live_low _ i).
    + by apply (live_high _ i).
Qed.

Lemma makenode_spec v low high tl th m :
  mgr_inv m -> v < 2 ^ 24 ->
  denotes (st m) (v + 1) low tl -> denotes (st m) (v + 1) high th ->
  wp (mtbdd_makenode v low high)
    (fun r m' => mgr_inv m' /\ keeps m m' /\ denotes (st m') v r (mknode v tl th))
    full_only m.
Proof.
  intros Hi Hv Hl Hh. unfold mtbdd_makenode, mknode.
  destruct (N.eqb_spec low high) as [Heq|Hne].
  - apply (den_inj m _ _ _ _ _ _ Hi Hl Hh) in Heq as ->. rewrite decide_True by done.
    apply wp_ret. split_and!; [done|done|]. destruct Hl as [? ?].
    split; [done|]. eapply wf_mono; [|done]. lia.
  - rewrite decide_False by (by rewrite <- (den_inj m _ _ _ _ _ _ Hi Hl Hh)).
    assert (tl <> th) as Hnt by (by rewrite <- (den_inj m _ _ _ _ _ _ Hi Hl Hh)).
    unfold _mtbdd_makenode. fold (normal low high).
    destruct (normal_spec _ _ _ _ _ _ Hl Hh Hnt) as (l & h & -> & Hl40 & Hhe & Hlh & _ & Hdl & Hdh).
    wp_step. eapply wp_mono; [apply on_lookup_spec; [done|exact (makenode_nonzero v l h Hv Hl40 Hlh)]|].
    intros [c cr] m1 (Hi1 & Hx & Hc & _). pose proof Hx as [_ Hg].
    wp_step. destruct (N.eqb_spec c 0) as [->|Hc0].
    + unfold mtbdd_refs_push, mtbdd_refs_pop. repeat wp_step.
      pose proof (denotes_grows _ _ _ _ _ Hg Hdl) as Hdl1.
      pose proof (denotes_grows _ _ _ _ _ Hg Hdh) as Hdh1.
      set (m2 := set_rstack ([h; l] ++ rstack m1) m1).
      change (wp sylvan_gc ?Q ?E _) with (wp sylvan_gc Q E m2).
      assert (mgr_inv m2) as Hi2.
      { apply set_rstack_inv; [done|]. pose proof (mi_roots m1 Hi1) as Hr.
        unfold roots in Hr. rewrite Forall_app in Hr. destruct Hr as [Hr _].
        repeat constructor; [..|done]; eexists; split; [apply Hdh1|eapply wf_mono; [|apply Hdh1]; lia
          |apply Hdl1|eapply wf_mono; [|apply Hdl1]; lia]. }
      eapply wp_mono; [by apply sylvan_gc_spec|]. intros [] m3 [Hi3 Hk3].
      pose proof (keeps_pushed m1 [h; l] m3 Hk3) as [Hk1 Hr3].
      repeat wp_step. rewrite Hr3. cbn [drop app].
      set (m4 := set_rstack (rstack m1) m3) in *.
      assert (mgr_inv m4) as Hi4.
      { apply set_rstack_inv; [done|]. pose proof (mi_roots m3 Hi3) as Hr.
        unfold roots in Hr. rewrite Hr3, !Forall_app in Hr. naive_solver. }
      assert (denotes (st m3) (v + 1) l (xneg (MTBDD_HASMARK low) tl)) as Hdl3.
      { eapply denotes_keeps; [exact Hk3| |exact Hdl1]. constructor. unfold roots, m2. set_solver. }
      assert (denotes (st m3) (v + 1) h (xneg (MTBDD_HASMARK low) th)) as Hdh3.
      { eapply denotes_keeps; [exact Hk3| |exact Hdh1]. constructor. unfold roots, m2. set_solver. }
      eapply wp_mono; [apply on_lookup_spec; [done|exact (makenode_nonzero v l h Hv Hl40 Hlh)]|].
      intros [c cr'] m5 (Hi5 & Hx5 & Hc5 & Hfull). destruct (N.eqb_spec c 0) as [->|Hc0];
        [apply wp_exit; split; [done|]; by eauto|]. repeat wp_step.
      split; [done|]. split.
      * transitivity m1; [by apply extends_keeps|]. transitivity m4; [done|by apply extends_keeps].
      * pose proof Hx5 as [_ Hg5]. eapply node_denotes; try done;
          [by eapply denotes_grows..|by apply Hc5].
    + repeat wp_step. split; [done|]. split; [by apply extends_keeps|].
      eapply node_denotes; try done; [by eapply denotes_grows..|by apply Hc].
Qed.

End facts.
End MtbddCoreFacts.
