(* ===== verification/SylvanCommon.v ===== *)
(** The sizes of the tables, the start and the end of the package, and the hooks of garbage
    collection of sylvan/src/sylvan_common.c, with [sylvan_init_mtbdd] of sylvan_mtbdd.c, which
    registers the callbacks that mark. *)

From S2P Require Import Prelude SylvanTable SylvanCache NodeStore MtbddCore.

Module SylvanCommon.
Import LLMSSet Cache NodeStore MtbddCore.

(** ** Sizes *)

Record sizes := mk_sizes { table_min : N; table_max : N; cache_min : N; cache_max : N }.
Definition no_sizes : sizes := mk_sizes 0 0 0 0.

Definition is_power_of_two (size : N) : bool := negb (size =? 0) && (N.land size (sub64 size 1) =? 0).

Definition sylvan_set_sizes (min_tablesize max_tablesize min_cachesize max_cachesize : N) : prog sizes unit :=
  let min_tablesize := if max_tablesize <? min_tablesize then max_tablesize else min_tablesize in
  let min_cachesize := if max_cachesize <? min_cachesize then max_cachesize else min_cachesize in
  if negb (is_power_of_two min_tablesize) || negb (is_power_of_two max_tablesize) ||
     negb (is_power_of_two min_cachesize) || negb (is_power_of_two max_cachesize) then exit BadSize
  else if 0x0000040000000000 <? max_tablesize then exit BadSize
  else modify (fun _ => mk_sizes min_tablesize max_tablesize min_cachesize max_cachesize).

(** [while (2*cur < memorycap && max_t < 0x0000040000000000)] *)
Fixpoint grow_loop (fuel : nat) (memorycap max_t max_c cur : N) : prog sizes (N * N) :=
  if (mul64 2 cur <? memorycap) && (max_t <? 0x0000040000000000) then
    match fuel with
    | O => no_fuel
    | S fuel => grow_loop fuel memorycap (mul64 max_t 2) (mul64 max_c 2) (mul64 cur 2)
    end
  else mret (max_t, max_c).

(** [while (initial_ratio > 0 && min_t > 0x1000 && min_c > 0x1000)] *)
Fixpoint shrink_loop (fuel : nat) (initial_ratio : Z) (min_t min_c : N) : prog sizes (N * N) :=
  if (0 <? initial_ratio)%Z && (0x1000 <? min_t) && (0x1000 <? min_c) then
    match fuel with
    | O => no_fuel
    | S fuel => shrink_loop fuel (initial_ratio - 1) (N.shiftr min_t 1) (N.shiftr min_c 1)
    end
  else mret (min_t, min_c).

Definition sylvan_set_limits (memorycap : N) (table_ratio initial_ratio : Z) : prog sizes unit :=
  if (table_ratio <? -10)%Z || (10 <? table_ratio)%Z then exit BadSize
  else
    let max_t := if (0 <? table_ratio)%Z then shl64 1 (Z.to_N table_ratio) else 1 in
    let max_c := if (0 <? table_ratio)%Z then 1 else shl64 1 (Z.to_N (- table_ratio)) in
    let cur := add64 (mul64 max_t 24) (mul64 max_c 36) in
    '(max_t, max_c) ← grow_loop 64 memorycap max_t max_c cur;
    if (initial_ratio <? 0)%Z then exit BadSize
    else
      '(min_t, min_c) ← shrink_loop 64 initial_ratio max_t max_c;
      modify (fun _ => mk_sizes min_t max_t min_c max_c).

(** ** Hooks *)

Section hooks.
Context {T C : Type} `{NodeTable T} `{OpCache C}.
Notation mgr := (mgr T C).

(** The lists of callbacks, the last one registered first. *)
Record gc_hooks := mk_hooks {
  mark_list : list (prog mgr unit);
  pregc_list : list (prog mgr unit);
  postgc_list : list (prog mgr unit);
  main_hook : prog mgr unit;
  quit_register : list (prog mgr unit)
}.

Definition sylvan_gc_hook_pregc (callback : prog mgr unit) (h : gc_hooks) : gc_hooks :=
  mk_hooks (mark_list h) (callback :: pregc_list h) (postgc_list h) (main_hook h) (quit_register h).
Definition sylvan_gc_hook_postgc (callback : prog mgr unit) (h : gc_hooks) : gc_hooks :=
  mk_hooks (mark_list h) (pregc_list h) (callback :: postgc_list h) (main_hook h) (quit_register h).
Definition sylvan_gc_add_mark (callback : prog mgr unit) (h : gc_hooks) : gc_hooks :=
  mk_hooks (callback :: mark_list h) (pregc_list h) (postgc_list h) (main_hook h) (quit_register h).
Definition sylvan_gc_hook_main (callback : prog mgr unit) (h : gc_hooks) : gc_hooks :=
  mk_hooks (mark_list h) (pregc_list h) (postgc_list h) callback (quit_register h).
Definition sylvan_register_quit (cb : prog mgr unit) (h : gc_hooks) : gc_hooks :=
  mk_hooks (mark_list h) (pregc_list h) (postgc_list h) (main_hook h) (cb :: quit_register h).

(** [for (e = list; e != NULL; e = e->next) WRAP(e->cb)] *)
Fixpoint run_hooks (l : list (prog mgr unit)) : prog mgr unit :=
  match l with [] => mret tt | cb :: l => _ ← cb; run_hooks l end.

Definition clear_and_mark_hooks (h : gc_hooks) : prog mgr unit :=
  _ ← modify (fun m => set_nodes (nt_clear_data (nodes m)) m);
  _ ← run_hooks (mark_list h);
  m ← gets id;
  match nt_destroy_unmarked (nodes m) with
  | None => no_fuel
  | Some t => modify (set_nodes t)
  end.

(** [sylvan_gc_go], by the lists. *)
Definition gc_go_hooks (h : gc_hooks) : prog mgr unit :=
  _ ← run_hooks (pregc_list h);
  _ ← sylvan_clear_cache;
  _ ← clear_and_mark_hooks h;
  _ ← main_hook h;
  _ ← sylvan_rehash_all;
  run_hooks (postgc_list h).

(** [sylvan_gc_normal_resize]; [count_marked] is [llmsset_count_marked]. *)
Definition sylvan_gc_normal_resize (count_marked : T -> option N) : prog mgr unit :=
  m ← gets id;
  let nodes_size := nt_get_size (nodes m) in
  let nodes_max := nt_get_max_size (nodes m) in
  if nodes_size <? nodes_max then
    match count_marked (nodes m) with
    | None => no_fuel
    | Some marked =>
        if nodes_size <? mul64 marked 2 then
          let new_size := next_size nodes_size in
          let new_size := if nodes_max <? new_size then nodes_max else new_size in
          _ ← modify (fun m => set_nodes (nt_set_size (nodes m) new_size) m);
          let cache_size := oc_getsize (opcache m) in
          let cache_max := oc_getmaxsize (opcache m) in
          if cache_size <? cache_max then
            let new_size := next_size cache_size in
            let new_size := if cache_max <? new_size then cache_max else new_size in
            match oc_setsize (opcache m) new_size with
            | None => exit BadSize
            | Some c => modify (set_opcache c)
            end
          else mret tt
        else mret tt
    end
  else mret tt.

(** What [sylvan_init_mtbdd] registers; [mtbdd_quit] releases the tables of references. *)
Definition init_mtbdd_hooks (mtbdd_quit : prog mgr unit) (h : gc_hooks) : gc_hooks :=
  let h := sylvan_register_quit mtbdd_quit h in
  let h := sylvan_gc_add_mark mtbdd_gc_mark_external_refs h in
  let h := sylvan_gc_add_mark mtbdd_gc_mark_protected h in
  sylvan_gc_add_mark mtbdd_refs_mark_task h.

(** The lists at the start, with the hook that the configuration selects. *)
Definition hooks_init : gc_hooks := mk_hooks [] [] [] sylvan_gc_aggressive_resize [].

(** [sylvan_quit]: the callbacks run, and the lists are emptied. *)
Definition sylvan_quit_hooks (h : gc_hooks) : prog mgr gc_hooks :=
  _ ← run_hooks (quit_register h); mret (mk_hooks [] [] [] (main_hook h) []).
End hooks.

Arguments gc_hooks : clear implicits.

(** ** Start *)

(** The tables of [sylvan_init_package], for worker [id] of [n]. *)
Definition sylvan_init_package (id n : N) : prog sizes (llmsset * cache) :=
  s ← gets Datatypes.id;
  if table_max s =? 0 then exit BadSize
  else
    match llmsset_create (table_min s) (table_max s) id n with
    | None => exit BadSize
    | Some t =>
        match cache_create (cache_min s) (cache_max s) with
        | None => exit BadSize
        | Some c => mret (t, c)
        end
    end.

(** The manager after [sylvan_init_mtbdd]: empty stacks and tables of references. *)
Definition sylvan_init_mtbdd (tables : llmsset * cache) : mgr llmsset cache :=
  mk_mgr tables.1 tables.2 [] [] [] [] true 1 (fun _ => false).

(** [sylvan_table_usage]: the buckets in use, and all. *)
Definition sylvan_table_usage (t : llmsset) : option (N * N) :=
  filled ← llmsset_count_marked t; Some (filled, llmsset_get_size t).
End SylvanCommon.
