(* ===== verification/SylvanCommonFacts.v ===== *)
(** The facts of [SylvanCommon]: the number of marked buckets, the sizes that the limits give,
    and a collection that runs the registered callbacks. *)

From stdpp Require Import fin_sets gmap.
From S2P Require Import Prelude SylvanTable SylvanTableFacts SylvanTableGC SylvanCache NodeStore MtbddCore.
From S2P Require Import MtbddCoreFacts SylvanCommon.

Module SylvanCommonFacts.
Import LLMSSet LLMSSetFacts LLMSSetGC Cache NodeStore MtbddCore MtbddCoreFacts SylvanCommon.

(** ** The number of marked buckets *)

Lemma popcount_double x c : popcount (2 * x + N.b2n c) = N.b2n c + popcount x.
Proof.
  destruct x as [|p], c; try done. change (N.succ (pos_popcount p) = 1 + pos_popcount p). lia.
Qed.

Lemma popcount_top n r : r < 2 ^ n -> popcount (2 ^ n + r) = 1 + popcount r.
Proof.
  revert r. induction n as [|n IH] using N.peano_ind; intros r Hr.
  { change (2 ^ 0) with 1 in *. assert (r = 0) as -> by lia. done. }
  rewrite N.pow_succ_r' in *. pose proof (N.div2_odd r) as Hd. rewrite Hd in *.
  set (c := N.odd r) in *. set (x := N.div2 r) in *.
  replace (2 * 2 ^ n + (2 * x + N.b2n c)) with (2 * (2 ^ n + x) + N.b2n c) by lia.
  rewrite !popcount_double, IH by (destruct c; cbn in *; lia). lia.
Qed.

(** The bits of a word, from the top. *)
Lemma count_word bm j m :
  (m <= 64)%nat ->
  count_range m bm (64 * j + (64 - N.of_nat m)) = popcount (mget bm j mod 2 ^ N.of_nat m).
Proof.
  induction m as [|m IH]; intros Hm; [by rewrite N.mod_1_r|]. cbn [count_range].
  replace (64 * j + (64 - N.of_nat (S m)) + 1) with (64 * j + (64 - N.of_nat m)) by lia.
  rewrite IH by lia. rewrite bm_get_bit. set (w := mget bm j).
  replace ((64 * j + (64 - N.of_nat (S m))) / 64) with j
    by (apply (N.div_unique _ _ _ (64 - N.of_nat (S m))); lia).
  replace ((64 * j + (64 - N.of_nat (S m))) mod 64) with (64 - N.of_nat (S m))
    by (apply (N.mod_unique _ _ j); lia).
  replace (63 - (64 - N.of_nat (S m))) with (N.of_nat m) by lia.
  assert (w mod 2 ^ N.of_nat (S m) = 2 ^ N.of_nat m * N.b2n (N.testbit w (N.of_nat m)) + w mod 2 ^ N.of_nat m) as ->.
  { rewrite Nat2N.inj_succ, N.pow_succ_r', (N.mul_comm 2), N.Div0.mod_mul_r. rewrite N.testbit_spec'. lia. }
  assert (w mod 2 ^ N.of_nat m < 2 ^ N.of_nat m) by (apply N.mod_lt, N.pow_nonzero; done).
  fold w. destruct (N.testbit w (N.of_nat m)); cbn [N.b2n].
  - rewrite N.mul_1_r, popcount_top by done. done.
  - rewrite N.mul_0_r. done.
Qed.

Lemma count_range_app a b bm k :
  count_range (a + b) bm k = count_range a bm k + count_range b bm (k + N.of_nat a).
Proof.
  revert k. induction a as [|a IH]; intros k; cbn [count_range Nat.add]; [by rewrite N.add_0_r|].
  rewrite IH. replace (k + 1 + N.of_nat a) with (k + N.of_nat (S a)) by lia. lia.
Qed.

Section bits.
Context (bm : gmap N N) (Hw : forall w, is64 (mget bm w)).

Lemma count_64 j : count_range 64 bm (64 * j) = popcount (mget bm j).
Proof.
  pose proof (count_word bm j 64 ltac:(lia)) as Hc. change (64 - N.of_nat 64) with 0 in Hc.
  rewrite N.add_0_r in Hc. rewrite Hc. f_equal. apply N.mod_small, Hw.
Qed.

Lemma count_64_app n j :
  count_range (64 + n) bm (64 * j) = popcount (mget bm j) + count_range n bm (64 * (j + 1)).
Proof.
  rewrite count_range_app, count_64. change (N.of_nat 64) with 64. by replace (64 * j + 64) with (64 * (j + 1)) by lia.
Qed.

Lemma count_512 q :
  count_range 512 bm (512 * q) =
    foldr (fun i acc => popcount (mget bm (512 * q / 64 + i)) + acc) 0 [0; 1; 2; 3; 4; 5; 6; 7].
Proof.
  replace (512 * q / 64) with (8 * q) by (apply (N.div_unique _ _ _ 0); lia).
  change 512%nat with (64 + (64 + (64 + (64 + (64 + (64 + (64 + (64 + 0))))))))%nat.
  replace (512 * q) with (64 * (8 * q)) by lia. rewrite !count_64_app. cbn [foldr count_range].
  by rewrite <- !N.add_assoc, (N.add_0_r (8 * q)).
Qed.

(** The parallel count is the sum over the bits, from a region on. *)
Lemma count_par_spec n fuel q :
  (n < fuel)%nat ->
  llmsset_count_marked_par fuel bm (512 * q) (512 * 2 ^ N.of_nat n) =
    Some (count_range (N.to_nat (512 * 2 ^ N.of_nat n)) bm (512 * q)).
Proof.
  revert fuel q. induction n as [|n IH]; intros fuel q Hf; (destruct fuel as [|fuel]; [lia|]).
  - change (512 * 2 ^ N.of_nat 0) with 512. cbn [llmsset_count_marked_par].
    change (512 <? 512) with false. change (512 =? 512) with true. cbv iota. by rewrite <- count_512.
  - cbn [llmsset_count_marked_par]. rewrite Nat2N.inj_succ, N.pow_succ_r'.
    set (p := 2 ^ N.of_nat n) in *. assert (0 < p) by (apply N.neq_0_lt_0, N.pow_nonzero; done).
    rewrite (proj2 (N.ltb_lt 512 _)) by lia.
    replace (512 * (2 * p) / 2) with (512 * p) by (apply (N.div_unique _ _ _ 0); lia).
    replace (512 * (2 * p) - 512 * p) with (512 * p) by lia.
    replace (512 * q + 512 * p) with (512 * (q + p)) by lia.
    rewrite !IH by lia. cbn. f_equal.
    replace (N.to_nat (512 * (2 * p))) with (N.to_nat (512 * p) + N.to_nat (512 * p))%nat by lia.
    rewrite count_range_app. f_equal. f_equal. lia.
Qed.
End bits.

(** That sum is the number of marked buckets of the range. *)
Lemma count_range_size n bm k (X : gset N) :
  (forall i, i ∈ X <-> k <= i < k + N.of_nat n /\ bm_get bm i = true) ->
  count_range n bm k = N.of_nat (size X).
Proof.
  revert k X. induction n as [|n IH]; intros k X HX; cbn [count_range].
  - assert (X = ∅) as ->; [|by rewrite size_empty]. apply set_eq. intros i. rewrite HX. set_solver by lia.
  - rewrite (IH (k + 1) (X ∖ {[k]})).
    + destruct (bm_get bm k) eqn:E.
      * assert (k ∈ X) as Hk by (apply HX; split; [lia|done]).
        pose proof (size_union (C := gset N) {[k]} (X ∖ {[k]}) ltac:(set_solver)) as Hs.
        rewrite <- (union_difference_singleton_L k X Hk), size_singleton in Hs. lia.
      * assert (k ∉ X) as Hk by (rewrite HX, E; naive_solver).
        assert (X ∖ {[k]} = X) as -> by set_solver. lia.
    + intros i. rewrite elem_of_difference, HX, elem_of_singleton. split.
      * intros [[? ?] ?]. split; [lia|done].
      * intros [? ?]. split; [split; [lia|done]|lia].
Qed.

Lemma count_marked_spec s (X : gset N) :
  shape s -> (forall c, c ∈ X <-> used s c) -> llmsset_count_marked s = Some (2 + N.of_nat (size X)).
Proof.
  intros Hs HX. destruct (sh_size s Hs) as (K & HK & Ht). unfold llmsset_count_marked.
  assert (table_size s = 512 * 2 ^ N.of_nat (N.to_nat (K - 9))) as Hts.
  { rewrite Ht, N2Nat.id. change 512 with (2 ^ 9). rewrite <- N.pow_add_r. f_equal. lia. }
  pose proof (count_par_spec _ (sh_words s Hs) (N.to_nat (K - 9)) 64 0 ltac:(lia)) as Hc.
  rewrite <- Hts in Hc. change (512 * 0) with 0 in Hc. rewrite Hc. f_equal.
  rewrite (count_range_size _ _ _ ({[0; 1]} ∪ X)).
  - assert (size ({[0; 1]} : gset N) = 2%nat) as H2 by done.
    rewrite (size_union (C := gset N)), H2; [lia|].
    intros i [->%elem_of_singleton| ->%elem_of_singleton]%elem_of_union Hu%HX; destruct Hu as [Hu _]; lia.
  - intros i. rewrite elem_of_union, HX. unfold used. rewrite N2Nat.id. split.
    + intros [Hi|(? & ? & ?)]; [|split; [lia|done]].
      assert (512 <= table_size s) by (rewrite Hts; pose proof (N.pow_nonzero 2 (N.of_nat (N.to_nat (K - 9)))); lia).
      apply elem_of_union in Hi as [->%elem_of_singleton| ->%elem_of_singleton]; (split; [lia|apply Hs]).
    + intros [Hi ?]. destruct (N.le_gt_cases 2 i); [right; split_and!; [done|lia|done]|left].
      assert (i = 0 \/ i = 1) by lia. rewrite elem_of_union, !elem_of_singleton. lia.
Qed.

(** The nodes of a table. *)
Definition used_set (s : llmsset) : gset N :=
  list_to_set (filter (fun c => usedb s c = true) (N.of_nat <$> seq 0 (N.to_nat (table_size s)))).

Lemma elem_of_used_set s c : c ∈ used_set s <-> used s c.
Proof.
  unfold used_set. rewrite elem_of_list_to_set, list_elem_of_filter, usedb_spec, list_elem_of_fmap.
  split; [by intros []|]. intros Hu. split; [done|]. exists (N.to_nat c). rewrite elem_of_seq.
  destruct Hu as (_ & ? & _). lia.
Qed.

(** ** Sizes *)

(** Memory that tables of [t] and [c] entries take, in bytes. *)
Definition bytes (t c : N) : N := 24 * t + 36 * c.

Lemma pow_S n : 2 ^ (n + 1) = 2 * 2 ^ n.
Proof. rewrite N.add_1_r. apply N.pow_succ_r'. Qed.

Lemma pow_le n m : n <= m -> 2 ^ n <= 2 ^ m.
Proof. by apply N.pow_le_mono_r. Qed.

Lemma pow_lt n m : 2 ^ n < 2 ^ m <-> n < m.
Proof. symmetry. by apply N.pow_lt_mono_r_iff. Qed.

Lemma bytes_bound a b : a <= 42 -> b <= a + 10 -> bytes (2 ^ a) (2 ^ b) < 2 ^ 59.
Proof.
  intros Ha Hb. pose proof (pow_le a 42 Ha). pose proof (pow_le b 52 ltac:(lia)).
  unfold bytes. change (2 ^ 59) with (128 * 2 ^ 52). change (2 ^ 52) with (1024 * 2 ^ 42) in *. lia.
Qed.

Lemma double_pow n : n <= 62 -> mul64 (2 ^ n) 2 = 2 ^ (n + 1).
Proof.
  intros Hn. unfold mul64. rewrite N.mul_comm, <- pow_S. apply w64_small. unfold is64. apply pow_lt. lia.
Qed.

Lemma grow_test cap a b :
  a <= 42 -> b <= a + 10 ->
  (mul64 2 (bytes (2 ^ a) (2 ^ b)) <? cap) && (2 ^ a <? 0x0000040000000000) =
    bool_decide (2 * bytes (2 ^ a) (2 ^ b) < cap /\ a < 42).
Proof.
  intros Ha Hb. pose proof (bytes_bound a b Ha Hb) as Hby. unfold mul64. rewrite w64_small.
  - change 0x0000040000000000 with (2 ^ 42). apply eq_true_iff_eq.
    by rewrite andb_true_iff, bool_decide_eq_true, !N.ltb_lt, pow_lt.
  - change (2 ^ 64) with (32 * 2 ^ 59). lia.
Qed.

Lemma grow_stop cap s a b :
  a <= 42 -> ~ (2 * bytes (2 ^ a) (2 ^ b) < cap /\ a < 42) ->
  exists k, (Done (2 ^ a, 2 ^ b) s : outcome sizes (N * N)) = Done (2 ^ (a + k), 2 ^ (b + k)) s /\
    (0 < k -> bytes (2 ^ (a + k)) (2 ^ (b + k)) < cap) /\ a + k <= 42 /\
    (cap <= 2 * bytes (2 ^ (a + k)) (2 ^ (b + k)) \/ a + k = 42).
Proof.
  intros Ha Ht. exists 0. rewrite !N.add_0_r. split; [reflexivity|]. split; [lia|]. split; [done|].
  destruct (N.lt_ge_cases (2 * bytes (2 ^ a) (2 ^ b)) cap); [right|by left].
  destruct (N.lt_ge_cases a 42); [naive_solver|lia].
Qed.

(** The loop doubles both sizes until the memory is used or the largest size is reached. *)
Lemma grow_spec cap s fuel a b :
  a <= 42 -> b <= a + 10 -> 42 - a <= N.of_nat fuel ->
  exists k, grow_loop fuel cap (2 ^ a) (2 ^ b) (bytes (2 ^ a) (2 ^ b)) s = Done (2 ^ (a + k), 2 ^ (b + k)) s /\
    (0 < k -> bytes (2 ^ (a + k)) (2 ^ (b + k)) < cap) /\ a + k <= 42 /\
    (cap <= 2 * bytes (2 ^ (a + k)) (2 ^ (b + k)) \/ a + k = 42).
Proof.
  revert a b. induction fuel as [|fuel IH]; intros a b Ha Hb Hf; cbn [grow_loop]; rewrite grow_test by done;
    (case_bool_decide as Ht; [destruct Ht as [Hlt H42]|exact (grow_stop cap s a b Ha Ht)]); [lia|].
  rewrite !double_pow by lia.
  assert (mul64 (bytes (2 ^ a) (2 ^ b)) 2 = bytes (2 ^ (a + 1)) (2 ^ (b + 1))) as ->.
  { unfold mul64. pose proof (bytes_bound a b Ha Hb).
    rewrite w64_small by (change (2 ^ 64) with (32 * 2 ^ 59); lia). unfold bytes. rewrite !pow_S. lia. }
  destruct (IH (a + 1) (b + 1)) as (k & Hr & Hk & Hm & Hor); [lia..|]. exists (1 + k).
  rewrite !N.add_assoc. split_and!; [exact Hr| |done|done]. intros _.
  destruct (N.eq_0_gt_0_cases k) as [->|Hk0]; [|by apply Hk].
  rewrite !N.add_0_r. unfold bytes in *. rewrite !pow_S. lia.
Qed.

Lemma shrink_test r a b :
  (0 <? r)%Z && (0x1000 <? 2 ^ a) && (0x1000 <? 2 ^ b) = bool_decide ((0 < r)%Z /\ 12 < a /\ 12 < b).
Proof.
  change 0x1000 with (2 ^ 12). apply eq_true_iff_eq.
  rewrite !andb_true_iff, bool_decide_eq_true, !N.ltb_lt, Z.ltb_lt, !pow_lt. tauto.
Qed.

Lemma shrink_stop s r a b :
  (0 <= r)%Z -> ~ ((0 < r)%Z /\ 12 < a /\ 12 < b) ->
  exists k, (Done (2 ^ a, 2 ^ b) s : outcome sizes (N * N)) = Done (2 ^ (a - k), 2 ^ (b - k)) s /\
    (Z.of_N k <= r)%Z /\ (0 < k -> 12 <= a - k /\ 12 <= b - k) /\
    (Z.of_N k = r \/ a - k <= 12 \/ b - k <= 12).
Proof.
  intros Hr Ht. exists 0. rewrite !N.sub_0_r. split; [reflexivity|]. split; [done|]. split; [lia|].
  destruct (Z.lt_ge_cases 0 r); [right|left; lia]. destruct (N.le_gt_cases a 12); [by left|right].
  destruct (N.le_gt_cases b 12); [done|]. naive_solver.
Qed.

(** The loop halves both sizes as often as asked, and not below [0x1000]. *)
Lemma shrink_spec s fuel r a b :
  (0 <= r)%Z -> a <= N.of_nat fuel + 12 ->
  exists k, shrink_loop fuel r (2 ^ a) (2 ^ b) s = Done (2 ^ (a - k), 2 ^ (b - k)) s /\
    (Z.of_N k <= r)%Z /\ (0 < k -> 12 <= a - k /\ 12 <= b - k) /\
    (Z.of_N k = r \/ a - k <= 12 \/ b - k <= 12).
Proof.
  revert r a b. induction fuel as [|fuel IH]; intros r a b Hr Hf; cbn [shrink_loop]; rewrite shrink_test;
    (case_bool_decide as Ht; [destruct Ht as (H0 & Ha & Hb)|exact (shrink_stop s r a b Hr Ht)]); [lia|].
  assert (forall n, 12 < n -> N.shiftr (2 ^ n) 1 = 2 ^ (n - 1)) as Hsh.
  { intros n Hn. rewrite N.shiftr_div_pow2, <- N.pow_sub_r by lia. done. }
  rewrite !Hsh by done. destruct (IH (r - 1)%Z (a - 1) (b - 1)) as (k & Hrun & Hk & Hm & Hor); [lia..|].
  exists (1 + k). rewrite !N.sub_add_distr. split_and!; [exact Hrun|lia| |lia].
  intros _. destruct (N.eq_0_gt_0_cases k) as [->|Hk0]; [lia|by apply Hm].
Qed.

(** What [sylvan_set_limits] promises: sizes that are powers of two in the ratio asked for, the
    largest within the memory, and the first ones smaller by the initial ratio. *)
Record limits_ok (cap : N) (ratio initial : Z) (s : sizes) (A B k : N) : Prop := {
  lo_table_max : table_max s = 2 ^ A;
  lo_cache_max : cache_max s = 2 ^ B;
  lo_table_min : table_min s = 2 ^ (A - k);
  lo_cache_min : cache_min s = 2 ^ (B - k);
  lo_ratio : (Z.of_N A - Z.of_N B = ratio)%Z;
  lo_cap : bytes (table_max s) (cache_max s) < cap \/ A = Z.to_N ratio;
  lo_largest : cap <= 2 * bytes (table_max s) (cache_max s) \/ A = 42;
  lo_bound : A <= 42;
  lo_initial : (Z.of_N k <= initial)%Z;
  lo_least : 0 < k -> 12 <= A - k /\ 12 <= B - k;
  lo_shrunk : Z.of_N k = initial \/ A - k <= 12 \/ B - k <= 12
}.

Lemma set_limits_spec cap ratio initial s0 :
  (-10 <= ratio <= 10)%Z -> (0 <= initial)%Z ->
  exists A B k s, sylvan_set_limits cap ratio initial s0 = Done tt s /\ limits_ok cap ratio initial s A B k.
Proof.
  intros Hr Hi. unfold sylvan_set_limits. rewrite (proj2 (Z.ltb_ge ratio (-10))), (proj2 (Z.ltb_ge 10 ratio)) by lia.
  cbn [orb]. rewrite (proj2 (Z.ltb_ge initial 0)) by lia.
  set (a := Z.to_N ratio). set (b := Z.to_N (- ratio)).
  assert (forall n, n <= 10 -> shl64 1 n = 2 ^ n) as Hsh.
  { intros n Hn. unfold shl64. rewrite N.shiftl_1_l. apply w64_small. unfold is64. apply pow_lt. lia. }
  assert ((if (0 <? ratio)%Z then shl64 1 a else 1) = 2 ^ a) as ->.
  { destruct (Z.ltb_spec 0 ratio); [apply Hsh; lia|]. by replace a with 0 by lia. }
  assert ((if (0 <? ratio)%Z then 1 else shl64 1 b) = 2 ^ b) as ->.
  { destruct (Z.ltb_spec 0 ratio); [by replace b with 0 by lia|]. apply Hsh. lia. }
  pose proof (bytes_bound a b ltac:(lia) ltac:(lia)) as Hby.
  assert (add64 (mul64 (2 ^ a) 24) (mul64 (2 ^ b) 36) = bytes (2 ^ a) (2 ^ b)) as ->.
  { unfold bytes, add64, mul64 in *. rewrite !(w64_small (_ * _)) by (unfold is64; lia).
    rewrite w64_small by (unfold is64; lia). lia. }
  destruct (grow_spec cap s0 64 a b) as (k & Hg & Hk & H42 & Hlarge); [lia..|].
  unfold mbind, prog_bind. rewrite Hg.
  destruct (shrink_spec s0 64 initial (a + k) (b + k)) as (j & Hs & Hj & Hl & Hsm); [lia..|]. rewrite Hs.
  exists (a + k), (b + k), j. eexists. split; [reflexivity|]. split; cbn [table_min table_max cache_min cache_max]; try done.
  - lia.
  - destruct (N.eq_0_gt_0_cases k) as [->|Hk0]; [right; lia|left; by apply Hk].
Qed.

(** With between 64 MB and 16 TB the tables can be made, and the manager starts well. *)
Lemma limits_range cap ratio initial s A B k :
  limits_ok cap ratio initial s A B k -> (-10 <= ratio <= 10)%Z -> 2 ^ 26 <= cap <= 2 ^ 44 ->
  bytes (2 ^ A) (2 ^ B) < cap /\ 10 <= A < 40 /\ B <= 50 /\ 9 <= A - k.
Proof.
  intros [Etm Ecm Etn Ecn Hr Hcap Hlarge H42 _ Hl _] Hratio [Hlo Hhi]. rewrite Etm, Ecm in *.
  change (2 ^ 26) with 67108864 in *. change (2 ^ 44) with 17592186044416 in *.
  assert (10 <= A) as H10.
  { apply N.le_ngt. intros HA. destruct Hlarge as [Hlarge|]; [|lia].
    pose proof (pow_le A 9 ltac:(lia)) as HA'. pose proof (pow_le B 19 ltac:(lia)) as HB'. unfold bytes in Hlarge.
    change (2 ^ 9) with 512 in *. change (2 ^ 19) with 524288 in *. lia. }
  destruct Hcap as [Hcap|HAr].
  - assert (A < 40); [|split; [done|lia]]. apply N.lt_nge. intros HA. pose proof (pow_le 40 A HA) as HA'.
    unfold bytes in Hcap. change (2 ^ 40) with 1099511627776 in *. lia.
  - exfalso. assert (A = 10 /\ B = 0) as [-> ->] by lia. destruct Hlarge as [Hlarge|]; [|lia].
    unfold bytes in Hlarge. change (2 ^ 10) with 1024 in *. change (2 ^ 0) with 1 in *. lia.
Qed.

Lemma mgr_start t c :
  inv t -> cache_ok c -> no_hits c -> mgr_inv (sylvan_init_mtbdd (t, c)).
Proof.
  intros Ht Hc Hno. split; [exact Ht|exact Hc|constructor|].
  intros a b k r Hr. specialize (Hno a b k). cbn in *. congruence.
Qed.

Lemma package_start_spec cap ratio initial s A B k id n :
  limits_ok cap ratio initial s A B k -> (-10 <= ratio <= 10)%Z -> 2 ^ 26 <= cap <= 2 ^ 44 ->
  exists t c, sylvan_init_package id n s = Done (t, c) s /\ mgr_inv (sylvan_init_mtbdd (t, c)) /\
    (forall i, ~ used t i) /\ llmsset_get_size t = table_min s /\ llmsset_get_max_size t = table_max s.
Proof.
  intros Hl Hr Hcap. destruct (limits_range _ _ _ _ _ _ _ Hl Hr Hcap) as (_ & HA & HB & Hk).
  unfold sylvan_init_package, mbind, prog_bind, gets, Datatypes.id.
  rewrite (lo_table_max _ _ _ _ _ _ _ Hl), (lo_table_min _ _ _ _ _ _ _ Hl), (lo_cache_max _ _ _ _ _ _ _ Hl),
    (lo_cache_min _ _ _ _ _ _ _ Hl).
  pose proof (N.pow_nonzero 2 A ltac:(done)) as H0%N.eqb_neq. rewrite H0.
  destruct (create_spec (A - k) A id n) as (t & Ht & Hi & Hu & Hts & Htm); [lia..|].
  destruct (create_ok (B - k) B) as (c & Hc & Hok & Hno); [lia|]. rewrite Ht, Hc.
  exists t, c. split; [reflexivity|]. split; [by apply mgr_start|]. done.
Qed.

(** ** Hooks *)

Section hooks.
Context {T C : Type} `{NodeTableLaws T} `{OpCacheLaws C}.
Notation mgr := (mgr T C).

Lemma normal_resizes (count_marked : T -> option N) :
  (forall t0 t, nt_phase t0 t -> is_Some (count_marked t)) -> resizes (sylvan_gc_normal_resize count_marked).
Proof.
  intros Hcount m m2 Hp Hc Hno. unfold sylvan_gc_normal_resize, mbind, prog_bind, gets, id.
  destruct (Hcount _ _ Hp) as [k ->].
  assert (exists t2 c2, (Done tt m2 : outcome mgr unit) = Done tt (set_opcache c2 (set_nodes t2 m2)) /\
      nt_phase (nodes m) t2 /\ (forall i, nt_used t2 i = nt_used (nodes m2) i) /\ oc_inv c2 /\ no_hits c2) as Hsame.
  { exists (nodes m2), (opcache m2). by destruct m2. }
  destruct (N.ltb_spec (nt_get_size (nodes m2)) (nt_get_max_size (nodes m2))) as [Hlt|Hge]; [|exact Hsame].
  destruct (N.ltb_spec (nt_get_size (nodes m2)) (mul64 k 2)) as [Hk|Hk]; [|exact Hsame].
  destruct (nodes_grow m m2 Hp Hlt) as [Hp2 Hu]. unfold modify.
  destruct (N.ltb_spec (oc_getsize (opcache m2)) (oc_getmaxsize (opcache m2))) as [Hcl|Hcg].
  - destruct (cache_grow _ Hc Hcl) as (c2 & Hset & Hci & Hn). rewrite Hset. do 2 eexists. split; [reflexivity|done].
  - eexists _, (opcache m2). split; [|done]. by destruct m2.
Qed.

(** The callbacks that [sylvan_init_mtbdd] registers mark in the order of [MtbddCore]. *)
Lemma hooks_collect q resize (m : mgr) :
  gc_go_hooks (sylvan_gc_hook_main resize (init_mtbdd_hooks q hooks_init)) m = collect resize m.
Proof.
  unfold gc_go_hooks, collect, clear_and_mark_hooks, sylvan_clear_and_mark, mbind, prog_bind, mret, prog_ret.
  cbn [run_hooks pregc_list postgc_list mark_list main_hook sylvan_gc_hook_main init_mtbdd_hooks hooks_init
    sylvan_gc_add_mark sylvan_register_quit]. unfold mbind, prog_bind, mret, prog_ret.
  repeat (match goal with |- context [match ?p ?x with Done _ _ => _ | _ => _ end] => destruct (p x) as [[] ?|?|] end;
    try done).
Qed.
End hooks.
End SylvanCommonFacts.
