(* ===== verification/BddApply.v ===== *)
(** Conjunction in its five variants, exclusive or and if-then-else, from
    sylvan/src/sylvan_bdd.c.  A spawned task runs at its [SYNC]; [sylvan_gc_test] and the
    statistics counters do nothing for a single worker without statistics.  The fuel bounds
    the depth of the recursion. *)

From S2P Require Import Prelude MtbddNode OpSpecs NodeStore MtbddCore.

Module BddApply.
Import MtbddNode OpSpecs NodeStore MtbddCore.

(** [sylvan_isconst] and [sylvan_set_isempty] of the headers. *)
Definition sylvan_isconst (bdd : N) : bool := (bdd =? mtbdd_true) || (bdd =? mtbdd_false).
Definition sylvan_isnode (bdd : N) : bool := negb (bdd =? mtbdd_true) && negb (bdd =? mtbdd_false).
Definition sylvan_set_isempty (set : N) : bool := set =? mtbdd_true.

(** The cofactors of a diagram at [level], given its node and variable. *)
Definition cofactor_low (level va a : N) (na : mtbddnode) : N :=
  if level =? va then mtbddnode_followlow a na else a.
Definition cofactor_high (level va a : N) (na : mtbddnode) : N :=
  if level =? va then mtbddnode_followhigh a na else a.

(** Whether the cache is used at [level] when coming from [prev_level]. *)
Definition use_cache (granularity prev_level level : N) : bool :=
  if (granularity <? 2) || (prev_level =? 0) then true
  else negb (prev_level / granularity =? level / granularity).

(** The terminal cases of the conjunction. *)
Definition and_terminal (a b : N) : option N :=
  if a =? sylvan_true then Some b
  else if b =? sylvan_true then Some a
  else if a =? sylvan_false then Some sylvan_false
  else if b =? sylvan_false then Some sylvan_false
  else if a =? b then Some a
  else if a =? MTBDD_TOGGLEMARK b then Some sylvan_false
  else None.

(** The operands in the order used for caching. *)
Definition sorted (a b : N) : N * N :=
  if MTBDD_STRIPMARK b <? MTBDD_STRIPMARK a then (b, a) else (a, b).

(** The cases of a recursive conjunction that need no call. *)
Definition and_shortcut (x y : N) : option N :=
  if x =? sylvan_true then Some y
  else if (x =? sylvan_false) || (y =? sylvan_false) then Some sylvan_false
  else if y =? sylvan_true then Some x
  else None.

Section apply.
Context {T C : Type} `{NodeTable T} `{OpCache C}.
Notation mgr := (mgr T C).

(** A call with [d] on the reference stack. *)
Definition pushed (d : N) (call : prog mgr N) : prog mgr N :=
  _ ← mtbdd_refs_push d;
  r ← call;
  _ ← mtbdd_refs_pop 1;
  mret r.

(** The high half is spawned and runs at the sync, with [low] on the reference stack. *)
Fixpoint sylvan_and (fuel : nat) (a b prev_level : N) : prog mgr N :=
  match fuel with
  | O => no_fuel
  | S fuel =>
      match and_terminal a b with
      | Some r => mret r
      | None =>
          let '(a, b) := sorted a b in
          m ← gets id;
          let na := MTBDD_GETNODE m a in
          let nb := MTBDD_GETNODE m b in
          let va := mtbddnode_getvariable na in
          let vb := mtbddnode_getvariable nb in
          let level := if va <? vb then va else vb in
          let cachenow := use_cache (granularity m) prev_level level in
          hit ← (if cachenow then cache_get3 CACHE_BDD_AND a b sylvan_false else mret None);
          match hit with
          | Some result => mret result
          | None =>
              let aLow := cofactor_low level va a na in
              let aHigh := cofactor_high level va a na in
              let bLow := cofactor_low level vb b nb in
              let bHigh := cofactor_high level vb b nb in
              low ← (match and_shortcut aLow bLow with
                     | Some low => mret low
                     | None => sylvan_and fuel aLow bLow level
                     end);
              high ← (match and_shortcut aHigh bHigh with
                      | Some high => mret high
                      | None => pushed low (sylvan_and fuel aHigh bHigh level)
                      end);
              result ← mtbdd_makenode level low high;
              _ ← (if cachenow then cache_put3 CACHE_BDD_AND a b sylvan_false result
                   else mret false);
              mret result
          end
      end
  end.

Fixpoint sylvan_and_nogc (fuel : nat) (a b prev_level : N) : prog mgr N :=
  match fuel with
  | O => no_fuel
  | S fuel =>
      match and_terminal a b with
      | Some r => mret r
      | None =>
          let '(a, b) := sorted a b in
          m ← gets id;
          let na := MTBDD_GETNODE m a in
          let nb := MTBDD_GETNODE m b in
          let va := mtbddnode_getvariable na in
          let vb := mtbddnode_getvariable nb in
          let level := if va <? vb then va else vb in
          let cachenow := use_cache (granularity m) prev_level level in
          hit ← (if cachenow then cache_get3 CACHE_BDD_AND a b sylvan_false else mret None);
          match hit with
          | Some result => mret result
          | None =>
              let aLow := cofactor_low level va a na in
              let aHigh := cofactor_high level va a na in
              let bLow := cofactor_low level vb b nb in
              let bHigh := cofactor_high level vb b nb in
              low ← (match and_shortcut aLow bLow with
                     | Some low => mret low
                     | None => sylvan_and_nogc fuel aLow bLow level
                     end);
              high ← (match and_shortcut aHigh bHigh with
                      | Some high => mret high
                      | None => sylvan_and_nogc fuel aHigh bHigh level
                      end);
              result ← mtbdd_makenode_nogc level low high;
              _ ← (if cachenow then cache_put3 CACHE_BDD_AND a b sylvan_false result
                   else mret false);
              mret result
          end
      end
  end.

Fixpoint sylvan_and_nogc_alone (fuel : nat) (a b prev_level : N) : prog mgr N :=
  match fuel with
  | O => no_fuel
  | S fuel =>
      match and_terminal a b with
      | Some r => mret r
      | None =>
          let '(a, b) := sorted a b in
          m ← gets id;
          let na := MTBDD_GETNODE m a in
          let nb := MTBDD_GETNODE m b in
          let va := mtbddnode_getvariable na in
          let vb := mtbddnode_getvariable nb in
          let level := if va <? vb then va else vb in
          let cachenow := use_cache (granularity m) prev_level level in
          hit ← (if cachenow then cache_get3 CACHE_BDD_AND a b sylvan_false else mret None);
          match hit with
          | Some result => mret result
          | None =>
              let aLow := cofactor_low level va a na in
              let aHigh := cofactor_high level va a na in
              let bLow := cofactor_low level vb b nb in
              let bHigh := cofactor_high level vb b nb in
              high ← (match and_shortcut aHigh bHigh with
                      | Some high => mret high
                      | None => sylvan_and_nogc_alone fuel aHigh bHigh level
                      end);
              low ← (match and_shortcut aLow bLow with
                     | Some low => mret low
                     | None => sylvan_and_nogc_alone fuel aLow bLow level
                     end);
              result ← mtbdd_makenode_nogc level low high;
              _ ← (if cachenow then cache_put3 CACHE_BDD_AND a b sylvan_false result
                   else mret false);
              mret result
          end
      end
  end.

(** [high] is on the reference stack during the low call when it comes from a call. *)
Fixpoint sylvan_and_alone (fuel : nat) (a b prev_level : N) : prog mgr N :=
  match fuel with
  | O => no_fuel
  | S fuel =>
      match and_terminal a b with
      | Some r => mret r
      | None =>
          let '(a, b) := sorted a b in
          m ← gets id;
          let na := MTBDD_GETNODE m a in
          let nb := MTBDD_GETNODE m b in
          let va := mtbddnode_getvariable na in
          let vb := mtbddnode_getvariable nb in
          let level := if va <? vb then va else vb in
          let cachenow := use_cache (granularity m) prev_level level in
          hit ← (if cachenow then cache_get3 CACHE_BDD_AND a b sylvan_false else mret None);
          match hit with
          | Some result => mret result
          | None =>
              let aLow := cofactor_low level va a na in
              let aHigh := cofactor_high level va a na in
              let bLow := cofactor_low level vb b nb in
              let bHigh := cofactor_high level vb b nb in
              '(high, n) ← (match and_shortcut aHigh bHigh with
                            | Some high => mret (high, false)
                            | None =>
                                high ← sylvan_and_alone fuel aHigh bHigh level;
                                mret (high, true)
                            end);
              low ← (match and_shortcut aLow bLow with
                     | Some low => mret low
                     | None =>
                         if (n : bool) then pushed high (sylvan_and_alone fuel aLow bLow level)
                         else sylvan_and_alone fuel aLow bLow level
                     end);
              result ← mtbdd_makenode level low high;
              _ ← (if cachenow then cache_put3 CACHE_BDD_AND a b sylvan_false result
                   else mret false);
              mret result
          end
      end
  end.

(** The counter behind [count_addr] is threaded: it counts the calls. *)
Fixpoint sylvan_and_alone_profile (fuel : nat) (a b prev_level count : N) : prog mgr (N * N) :=
  match fuel with
  | O => no_fuel
  | S fuel =>
      let count := add64 count 1 in
      match and_terminal a b with
      | Some r => mret (r, count)
      | None =>
          let '(a, b) := sorted a b in
          m ← gets id;
          let na := MTBDD_GETNODE m a in
          let nb := MTBDD_GETNODE m b in
          let va := mtbddnode_getvariable na in
          let vb := mtbddnode_getvariable nb in
          let level := if va <? vb then va else vb in
          let cachenow := use_cache (granularity m) prev_level level in
          hit ← (if cachenow then cache_get3 CACHE_BDD_AND a b sylvan_false else mret None);
          match hit with
          | Some result => mret (result, count)
          | None =>
              let aLow := cofactor_low level va a na in
              let aHigh := cofactor_high level va a na in
              let bLow := cofactor_low level vb b nb in
              let bHigh := cofactor_high level vb b nb in
              '(high, n, count) ← (match and_shortcut aHigh bHigh with
                | Some high => mret (high, false, count)
                | None =>
                    '(high, count) ← sylvan_and_alone_profile fuel aHigh bHigh level count;
                    mret (high, true, count)
                end : prog mgr (N * bool * N));
              '(low, count) ← (match and_shortcut aLow bLow with
                | Some low => mret (low, count)
                | None =>
                    _ ← (if (n : bool) then mtbdd_refs_push high else mret high);
                    '(low, count) ← sylvan_and_alone_profile fuel aLow bLow level count;
                    _ ← (if (n : bool) then mtbdd_refs_pop 1 else mret tt);
                    mret (low, count)
                end : prog mgr (N * N));
              result ← mtbdd_makenode level low high;
              _ ← (if cachenow then cache_put3 CACHE_BDD_AND a b sylvan_false result
                   else mret false);
              mret (result, count)
          end
      end
  end.

(** The terminal cases of the exclusive or. *)
Definition xor_terminal (a b : N) : option N :=
  if a =? sylvan_false then Some b
  else if b =? sylvan_false then Some a
  else if a =? sylvan_true then Some (sylvan_not b)
  else if b =? sylvan_true then Some (sylvan_not a)
  else if a =? b then Some sylvan_false
  else if a =? sylvan_not b then Some sylvan_true
  else None.

(** The operands in the order used for caching, the first without mark. *)
Definition xor_normal (a b : N) : N * N :=
  let '(a, b) := sorted a b in
  if MTBDD_HASMARK a then (MTBDD_STRIPMARK a, sylvan_not b) else (a, b).

Fixpoint sylvan_xor (fuel : nat) (a b prev_level : N) : prog mgr N :=
  match fuel with
  | O => no_fuel
  | S fuel =>
      match xor_terminal a b with
      | Some r => mret r
      | None =>
          let '(a, b) := xor_normal a b in
          m ← gets id;
          let na := MTBDD_GETNODE m a in
          let nb := MTBDD_GETNODE m b in
          let va := mtbddnode_getvariable na in
          let vb := mtbddnode_getvariable nb in
          let level := if va <? vb then va else vb in
          let cachenow := use_cache (granularity m) prev_level level in
          hit ← (if cachenow then cache_get3 CACHE_BDD_XOR a b sylvan_false else mret None);
          match hit with
          | Some result => mret result
          | None =>
              let aLow := cofactor_low level va a na in
              let aHigh := cofactor_high level va a na in
              let bLow := cofactor_low level vb b nb in
              let bHigh := cofactor_high level vb b nb in
              low ← sylvan_xor fuel aLow bLow level;
              high ← pushed low (sylvan_xor fuel aHigh bHigh level);
              result ← mtbdd_makenode level low high;
              _ ← (if cachenow then cache_put3 CACHE_BDD_XOR a b sylvan_false result
                   else mret false);
              mret result
          end
      end
  end.

(** ** If-then-else *)

(** The operands after the rewriting of the terminal cases. *)
Definition ite_operands (a b c : N) : N * N :=
  let b := if a =? b then sylvan_true else b in
  let b := if a =? sylvan_not b then sylvan_false else b in
  let c := if a =? c then sylvan_false else c in
  let c := if a =? sylvan_not c then sylvan_true else c in
  (b, c).

(** The operands after the normalisation of the marks, and whether the result is negated. *)
Definition ite_normal (a b c : N) : bool * N * N * N :=
  let '(a, b, c) := if MTBDD_HASMARK a then (MTBDD_STRIPMARK a, c, b) else (a, b, c) in
  if MTBDD_HASMARK b then (true, a, sylvan_not b, sylvan_not c) else (false, a, b, c).

Fixpoint sylvan_ite (fuel : nat) (a b c prev_level : N) : prog mgr N :=
  match fuel with
  | O => no_fuel
  | S fuel =>
      if a =? sylvan_true then mret b
      else if a =? sylvan_false then mret c
      else
        let '(b, c) := ite_operands a b c in
        if b =? c then mret b
        else if (b =? sylvan_true) && (c =? sylvan_false) then mret a
        else if (b =? sylvan_false) && (c =? sylvan_true) then mret (sylvan_not a)
        else if c =? sylvan_false then sylvan_and (S fuel) a b prev_level
        else if b =? sylvan_true then
          r ← sylvan_and (S fuel) (sylvan_not a) (sylvan_not c) prev_level; mret (sylvan_not r)
        else if b =? sylvan_false then sylvan_and (S fuel) (sylvan_not a) c prev_level
        else if c =? sylvan_true then
          r ← sylvan_and (S fuel) a (sylvan_not b) prev_level; mret (sylvan_not r)
        else if b =? sylvan_not c then sylvan_xor (S fuel) a c 0
        else
          let '(mark, a, b, c) := ite_normal a b c in
          let marked (result : N) := if mark : bool then sylvan_not result else result in
          m ← gets id;
          let na := MTBDD_GETNODE m a in
          let nb := MTBDD_GETNODE m b in
          let nc := MTBDD_GETNODE m c in
          let va := mtbddnode_getvariable na in
          let vb := mtbddnode_getvariable nb in
          let vc := mtbddnode_getvariable nc in
          let level := if vb <? vc then vb else vc in
          if (va <? level) && (mtbddnode_followlow a na =? sylvan_false)
             && (mtbddnode_followhigh a na =? sylvan_true) then
            result ← mtbdd_makenode va c b;
            mret (marked result)
          else
            let level := if va <? level then va else level in
            let cachenow := use_cache (granularity m) prev_level level in
            hit ← (if cachenow then cache_get3 CACHE_BDD_ITE a b c else mret None);
            match hit with
            | Some result => mret (marked result)
            | None =>
                let aLow := cofactor_low level va a na in
                let aHigh := cofactor_high level va a na in
                let bLow := cofactor_low level vb b nb in
                let bHigh := cofactor_high level vb b nb in
                let cLow := cofactor_low level vc c nc in
                let cHigh := cofactor_high level vc c nc in
                low ← (if aLow =? sylvan_true then mret bLow
                       else if aLow =? sylvan_false then mret cLow
                       else sylvan_ite fuel aLow bLow cLow level);
                high ← (if aHigh =? sylvan_true then mret bHigh
                        else if aHigh =? sylvan_false then mret cHigh
                        else pushed low (sylvan_ite fuel aHigh bHigh cHigh level));
                result ← mtbdd_makenode level low high;
                _ ← (if cachenow then cache_put3 CACHE_BDD_ITE a b c result else mret false);
                mret (marked result)
            end
  end.

(** ** Derived operations: the macros of sylvan_bdd.h *)

Definition sylvan_or (fuel : nat) (a b : N) : prog mgr N :=
  r ← sylvan_and fuel (sylvan_not a) (sylvan_not b) 0;
  mret (sylvan_not r).
Definition sylvan_equiv (fuel : nat) (a b : N) : prog mgr N :=
  r ← sylvan_xor fuel a b 0;
  mret (sylvan_not r).
Definition sylvan_diff (fuel : nat) (a b : N) : prog mgr N :=
  sylvan_and fuel a (sylvan_not b) 0.
Definition sylvan_imp (fuel : nat) (a b : N) : prog mgr N :=
  r ← sylvan_and fuel a (sylvan_not b) 0;
  mret (sylvan_not r).
End apply.
End BddApply.
