(* ===== verification/BddApplyFacts.v ===== *)
(** Correctness of the operations of [BddApply]: each returns the diagram of the reduced
    ordered tree of the Boolean combination of its arguments, whatever the cache holds and
    however often nodes are collected on the way.  The variants with and without garbage
    collection are proved together, against an interface of what a variant preserves. *)

From S2P Require Import Prelude MtbddNode BddTree OpSpecs NodeStore MtbddCore MtbddCoreFacts.
From S2P Require Import BddApply.

Module BddApplyFacts.
Import MtbddNode BddTree OpSpecs NodeStore MtbddCore MtbddCoreFacts BddApply.

(** ** Functions of the variables from a level on *)

Definition above (n : N) (f : bfun) : Prop :=
  forall e e', (forall v, n <= v -> e v = e' v) -> f e = f e'.

Lemma above_wf n t : wf n t -> above n (sem t).
Proof. intros Hw e e'. by apply sem_agree. Qed.

Lemma wf_above n t : wf 0 t -> above n (sem t) -> wf n t.
Proof.
  intros Hw Ha. destruct t as [|v lo hi]; [done|]. pose proof Hw as (_ & Hv & Hne & H1 & H2).
  split_and!; try done. destruct (N.le_gt_cases n v) as [|Hlt]; [done|]. exfalso. apply Hne.
  apply (canonical (v + 1)); [done..|]. intros e.
  rewrite <- (sem_node_branch 0 v lo hi e false Hw), <- (sem_node_branch 0 v lo hi e true Hw).
  apply Ha. intros w Hw'. unfold env_set. destruct (N.eqb_spec w v); [lia|done].
Qed.

Lemma den_above s d f n : den s d f -> above n f -> exists t, denotes s n d t /\ forall e, sem t e = f e.
Proof.
  intros (t & [Hr Hw] & Hs) Ha. exists t. split; [|done]. split; [done|].
  apply wf_above; [done|]. intros e e' He. rewrite !Hs. by apply Ha.
Qed.

Lemma den_unique s n d t f : denotes s n d t -> den s d f -> forall e, f e = sem t e.
Proof. intros [Hr _] (t' & [Hr' _] & Hs) e. rewrite <- Hs. f_equal. by eapply rep_functional. Qed.

Lemma denotes_den s n d t : denotes s n d t -> den s d (sem t).
Proof. intros [Hr Hw]. exists t. split; [|done]. split; [done|]. eapply wf_mono; [|done]. lia. Qed.

Lemma den_ext s d f g : (forall e, f e = g e) -> den s d f -> den s d g.
Proof. intros Hfg (t & Hd & Hs). exists t. split; [done|]. intros e. by rewrite Hs. Qed.

Lemma den_not s d f : den s d f -> den s (sylvan_not d) (fun e => negb (f e)).
Proof.
  intros (t & [Hr Hw] & Hs). exists (neg t). split; [split|].
  - by apply rep_toggle.
  - by apply wf_neg.
  - intros e. by rewrite sem_neg, Hs.
Qed.

Lemma denotes_not s n d t : denotes s n d t -> denotes s n (sylvan_not d) (neg t).
Proof. intros [Hr Hw]. split; [by apply rep_toggle|by apply wf_neg]. Qed.

Lemma denotes_const s n c : denotes s n (mk_edge c 0) (Leaf c).
Proof. split; [constructor|done]. Qed.

Lemma den_const s c : den s (mk_edge c 0) (fun _ => c).
Proof. exists (Leaf c). split; [apply denotes_const|done]. Qed.

Lemma denotes_const_inv s n c t : denotes s n (mk_edge c 0) t -> t = Leaf c.
Proof. intros [Hr _]. eapply rep_functional; [exact Hr|constructor]. Qed.

Section disciplines.
Context {T C : Type} `{NodeTableLaws T} `{OpCacheLaws C}.
Notation mgr := (mgr T C).

(** ** What a variant of an operation preserves *)

(** [dR] relates the states before and after; [dok] is what a diagram needs to survive;
    [mk] creates nodes, and [hold d] runs a call during which [d] survives. *)
Class Discipline (mk : N -> N -> N -> prog mgr N) (hold : N -> prog mgr N -> prog mgr N) := {
  dR : mgr -> mgr -> Prop;
  dok : mgr -> N -> Prop;
  dR_preorder :: PreOrder dR;
  dR_same m m' : nodes m' = nodes m -> same_roots m m' -> dR m m';
  dok_const m c : dok m (mk_edge c 0);
  dok_mono m m' d : dR m m' -> dok m d -> dok m' d;
  dok_index m d d' : MTBDD_INDEX d = MTBDD_INDEX d' -> dok m d -> dok m d';
  dok_child m d n :
    dok m d -> st m (MTBDD_INDEX d) = Some n ->
    dok m (mtbddnode_getlow n) /\ dok m (mtbddnode_gethigh n);
  dR_denotes m m' n d t : dR m m' -> dok m d -> denotes (st m) n d t -> denotes (st m') n d t;
  d_mk v low high tl th m :
    mgr_inv m -> v < 2 ^ 24 -> denotes (st m) (v + 1) low tl -> denotes (st m) (v + 1) high th ->
    wp (mk v low high)
      (fun r m' => mgr_inv m' /\ dR m m' /\ denotes (st m') v r (mknode v tl th)) full_only m;
  d_hold m d n t p Q :
    mgr_inv m -> denotes (st m) n d t ->
    (forall m1, mgr_inv m1 -> nodes m1 = nodes m -> (forall x, dok m x -> dok m1 x) -> dok m1 d ->
       wp p (fun r m2 => mgr_inv m2 /\ dR m1 m2 /\ Q r (st m2)) full_only m1) ->
    wp (hold d p)
      (fun r m2 => mgr_inv m2 /\ dR m m2 /\ denotes (st m2) n d t /\ Q r (st m2)) full_only m
}.

#[local] Obligation Tactic := cbv beta.

(** With garbage collection: live nodes are kept. *)
#[export] Program Instance gc_discipline : Discipline mtbdd_makenode pushed := {
  dR := keeps;
  dok m d := live m (MTBDD_INDEX d)
}.
Next Obligation. intros m m' Hn Hs. split; [done|]. intros i n _. unfold st. by rewrite Hn. Qed.
Next Obligation. intros m c. rewrite index_mk by done. constructor. Qed.
Next Obligation. intros m m' d Hk Hl. by eapply live_keeps. Qed.
Next Obligation. by intros m d d' ->. Qed.
Next Obligation. intros m d n Hl Hst. split; [by eapply live_low|by eapply live_high]. Qed.
Next Obligation. intros m m' n d t Hk Hl Hd. by eapply denotes_keeps. Qed.
Next Obligation. intros. by apply makenode_spec. Qed.
Next Obligation.
  intros m d n t p Q Hi Hd Hp. unfold pushed, mtbdd_refs_push, mtbdd_refs_pop. repeat wp_step.
  set (m1 := set_rstack ([d] ++ rstack m) m).
  assert (mgr_inv m1) as Hi1.
  { apply set_rstack_inv; [done|]. pose proof (mi_roots m Hi) as Hr.
    unfold roots in Hr. rewrite Forall_app in Hr. destruct Hr as [Hr _].
    constructor; [|done]. exists t. destruct Hd as [Hr' Hw]. split; [done|].
    eapply wf_mono; [|done]. lia. }
  eapply wp_mono; [apply (Hp m1); [done|done| |]|].
  - intros x Hx. clear -Hx. unfold m1. induction Hx as [|r Hin|i n' Hl IH Hst|i n' Hl IH Hst].
    + constructor.
    + apply live_root. unfold roots in *. cbn. set_solver.
    + by apply (live_low _ i).
    + by apply (live_high _ i).
  - apply live_root. unfold roots, m1. set_solver.
  - intros r m2 (Hi2 & Hk & HQ). pose proof (keeps_pushed m [d] m2 Hk) as [Hk' Hr].
    repeat wp_step. rewrite Hr. cbn [drop app]. split_and!; [|done| |done].
    + apply set_rstack_inv; [done|]. pose proof (mi_roots m2 Hi2) as Hr2.
      unfold roots in Hr2. rewrite Hr, !Forall_app in Hr2. naive_solver.
    + eapply (denotes_keeps m1 m2); [done| |done]. apply live_root. unfold roots, m1. set_solver.
Qed.

(** Without: all nodes are kept. *)
#[export] Program Instance nogc_discipline :
    Discipline mtbdd_makenode_nogc (fun _ p => p) := {
  dR := extends;
  dok m d := True
}.
Next Obligation. intros m m' Hn Hs. split; [done|]. unfold st. by rewrite Hn. Qed.
Next Obligation. done. Qed.
Next Obligation. done. Qed.
Next Obligation. done. Qed.
Next Obligation. done. Qed.
Next Obligation. intros m m' n d t [_ Hg] _ Hd. by eapply denotes_grows. Qed.
Next Obligation. intros. by apply makenode_nogc_spec. Qed.
Next Obligation.
  intros m d n t p Q Hi Hd Hp. eapply wp_mono; [by apply (Hp m)|].
  intros r m2 (Hi2 & Hx & HQ). split_and!; try done. destruct Hx as [_ Hg].
  by eapply denotes_grows.
Qed.


Context {mk : N -> N -> N -> prog mgr N} {hold : N -> prog mgr N -> prog mgr N}
  `{D : !Discipline mk hold}.

(** A valid argument of an operation: a diagram that survives. *)
Definition arg (m : mgr) (n d : N) (t : bdd) : Prop := denotes (st m) n d t /\ dok m d.

Lemma arg_mono m m' n d t : dR m m' -> arg m n d t -> arg m' n d t.
Proof. intros HR [Hd Ho]. split; [by eapply dR_denotes|by eapply dok_mono]. Qed.

Lemma arg_not m n d t : arg m n d t -> arg m n (sylvan_not d) (neg t).
Proof.
  intros [Hd Ho]. split; [by apply denotes_not|]. eapply dok_index; [|exact Ho].
  destruct Hd as [Hr _]. destruct (edge_mk d) as (c & i & Hi & ->); [by eapply rep_edge|].
  change (sylvan_not ?x) with (MTBDD_TOGGLEMARK x). by rewrite togglemark_mk, !index_mk.
Qed.

Lemma arg_const m n c : arg m n (mk_edge c 0) (Leaf c).
Proof. split; [apply denotes_const|apply dok_const]. Qed.

Lemma arg_strip m n d t :
  arg m n d t ->
  arg m n (MTBDD_STRIPMARK d) (xneg (MTBDD_HASMARK d) t) /\ MTBDD_HASMARK (MTBDD_STRIPMARK d) = false.
Proof.
  intros [Hd Ho]. pose proof Hd as [Hr Hw].
  destruct (edge_mk d) as (c & i & Hi & ->); [by eapply rep_edge|].
  rewrite stripmark_mk, hasmark_mk by done. split;
    [|by apply hasmark_small]. split.
  - destruct c; [|done]. pose proof (denotes_not _ _ _ _ Hd) as Hn.
    change (sylvan_not ?x) with (MTBDD_TOGGLEMARK x) in Hn. by rewrite togglemark_mk in Hn.
  - eapply dok_index; [|exact Ho]. by rewrite index_mk, index_small.
Qed.

(** The node of a diagram that is no constant. *)
Lemma node_arg m n d t :
  mgr_inv m -> arg m n d t -> sylvan_isconst d = false ->
  exists v lo hi, t = Node v lo hi /\ mtbddnode_getvariable (MTBDD_GETNODE m d) = v /\
    arg m (v + 1) (mtbddnode_followlow d (MTBDD_GETNODE m d)) lo /\
    arg m (v + 1) (mtbddnode_followhigh d (MTBDD_GETNODE m d)) hi.
Proof.
  intros Hi [[Hr Hw] Ho] Hc.
  destruct (edge_mk d) as (c & i & Hi40 & ->); [by eapply rep_edge|].
  unfold sylvan_isconst in Hc. apply orb_false_iff in Hc as [Hc1%N.eqb_neq Hc2%N.eqb_neq].
  pose proof Hr as Hr'. apply rep_inv in Hr' as [[-> ->]|Hr']; [by destruct c| |done].
  destruct Hr' as (v & l & h & lo & hi & Hi0 & Hv & Hl & Hh & Hst & Hlo & Hhi & ->).
  assert (MTBDD_GETNODE m (mk_edge c i) = mtbddnode_makenode v l h) as Hn.
  { unfold MTBDD_GETNODE. rewrite index_mk by done.
    unfold st, store_of in Hst. destruct (nt_used (nodes m) i); [by injection Hst|done]. }
  rewrite Hn. exists v, (xneg c lo), (xneg c hi). apply wf_xneg in Hw as (Hnv & _ & Hne & Hw1 & Hw2).
  destruct (dok_child m (mk_edge c i) (mtbddnode_makenode v l h) Ho) as [Ho1 Ho2];
    [by rewrite index_mk|].
  rewrite getlow_makenode in Ho1 by done. rewrite gethigh_makenode in Ho2 by done.
  destruct (edge_mk h Hh) as (c' & i' & Hi' & ->).
  split_and!; [by destruct c|by apply getvariable_makenode|split|split].
  - unfold mtbddnode_followlow. rewrite getlow_makenode by done.
    change l with (mk_edge false l). rewrite transfermark_mk by done. rewrite xorb_false_r.
    split; [|by apply wf_xneg]. destruct c; [|done].
    pose proof (rep_toggle _ _ _ Hlo) as Ht. change l with (mk_edge false l) in Ht.
    by rewrite togglemark_mk in Ht.
  - unfold mtbddnode_followlow. rewrite getlow_makenode by done.
    change l with (mk_edge false l). rewrite transfermark_mk by done.
    eapply dok_index; [|exact Ho1]. by rewrite index_mk, index_small.
  - unfold mtbddnode_followhigh. rewrite gethigh_makenode by done.
    rewrite transfermark_mk by done. split; [|by apply wf_xneg]. destruct c; [|by destruct c'].
    pose proof (rep_toggle _ _ _ Hhi) as Ht. rewrite togglemark_mk in Ht by done. by destruct c'.
  - unfold mtbddnode_followhigh. rewrite gethigh_makenode by done.
    rewrite transfermark_mk by done. eapply dok_index; [|exact Ho2]. by rewrite !index_mk.
Qed.

(** The cofactors at a level that is not below the root of a diagram that is no constant. *)
Lemma cofactor_arg m d t level :
  mgr_inv m -> arg m 0 d t -> sylvan_isconst d = false ->
  let n := MTBDD_GETNODE m d in
  let v := mtbddnode_getvariable n in
  level <= v ->
  v < 2 ^ 24 /\ wf level t /\
  arg m (level + 1) (cofactor_low level v d n) (cof false level t) /\
  arg m (level + 1) (cofactor_high level v d n) (cof true level t) /\
  (level = v -> forall b, (height (cof b level t) < height t)%nat).
Proof.
  intros Hi Ha Hc n v Hle. destruct (node_arg m 0 d t Hi Ha Hc) as (v' & lo & hi & Ht & Hv & Hlo & Hhi).
  pose proof Ha as [[Hr Hw] Ho]. rewrite Ht in Hw. pose proof Hw as (_ & Hv24 & Hne & Hw1 & Hw2).
  fold n in Hv, Hlo, Hhi. fold v in Hv. rewrite <- Hv in *.
  assert (wf level t) as Hwl by (rewrite Ht; split_and!; done).
  split; [done|]. split; [done|]. unfold cofactor_low, cofactor_high, cof. rewrite Ht.
  destruct (N.eqb_spec level v) as [->|Hne'].
  - rewrite N.eqb_refl. split; [done|]. split; [done|]. intros _ b. cbn [height]. destruct b; lia.
  - assert (v <> level) as Hne2 by congruence. apply N.eqb_neq in Hne2 as ->.
    rewrite <- Ht. assert (arg m (level + 1) d t) as Harg.
    { split; [split; [done|]|done]. rewrite Ht. split_and!; [lia|done..]. }
    split; [done|]. split; [done|]. congruence.
Qed.


(** What an operation returns: the invariant, what the discipline preserves, and a diagram
    that computes [f]. *)
Definition returns (m : mgr) (f : bfun) : N -> mgr -> Prop :=
  fun r m' => mgr_inv m' /\ dR m m' /\ den (st m') r f.

Lemma returns_ext m f g r m' : (forall e, f e = g e) -> returns m f r m' -> returns m g r m'.
Proof. intros Hfg (? & ? & Hd). split_and!; [done..|]. by eapply den_ext. Qed.

Lemma returns_not m f r m' :
  returns m f r m' -> returns m (fun e => negb (f e)) (sylvan_not r) m'.
Proof. intros (? & ? & Hd). split_and!; [done..|]. by apply den_not. Qed.

Lemma returns_trans m m1 f r m' : dR m m1 -> returns m1 f r m' -> returns m f r m'.
Proof. intros HR (? & ? & Hd). split_and!; [done|by etrans|done]. Qed.

Lemma arg_returns m n d t : mgr_inv m -> arg m n d t -> returns m (sem t) d m.
Proof. intros Hi [Hd _]. split_and!; [done|done|by eapply denotes_den]. Qed.

Lemma returns_const m c f : mgr_inv m -> (forall e, f e = c) -> returns m f (mk_edge c 0) m.
Proof.
  intros Hi Hf. split_and!; [done|done|]. eapply den_ext; [|apply den_const]. done.
Qed.

(** ** The operation cache *)

Lemma cache_get_spec m k x y z E (now : bool) (Q : option N -> mgr -> Prop) :
  mgr_inv m -> is_edge x -> k < 2 ^ 23 ->
  (forall r, op_spec (st m) k x y z r -> Q (Some r) m) -> Q None m ->
  wp (if now then cache_get3 (N.shiftl k 40) x y z else mret None) Q E m.
Proof.
  intros Hi Hx Hk Hs Hn. destruct now; [|by apply wp_ret].
  unfold cache_get3. apply wp_gets. destruct (oc_get _ _ _ _) as [r|] eqn:E1; [|done].
  apply Hs, entry_op; [done..|]. by apply (mi_ops m Hi).
Qed.

Lemma cache_put_spec m k x y z r E (now : bool) :
  mgr_inv m -> is_edge x -> k < 2 ^ 23 -> op_spec (st m) k x y z r ->
  wp (if now then cache_put3 (N.shiftl k 40) x y z r else mret false)
    (fun _ m' => mgr_inv m' /\ nodes m' = nodes m /\ same_roots m m') E m.
Proof.
  intros Hi Hx Hk Hs. destruct now; [|by apply wp_ret]. unfold wp, cache_put3.
  destruct (oc_put_spec (opcache m) (N.lor x (N.shiftl k 40)) y z r (mi_cache m Hi)) as [Hc Hg].
  destruct (oc_put _ _ _ _ _) as [ok c] eqn:E1. cbn [snd] in *. split; [|done].
  apply (mgr_inv_grows m); [done|apply Hi|done|by split|].
  intros a b k' r' Hh. destruct (Hg _ _ _ _ Hh) as [(-> & -> & -> & ->)|?]; [left|by right].
  exists k, x. split_and!; done.
Qed.

(** The end of an operation: the node is made, and the result goes into the cache. *)
Lemma finish_spec m level low high f0 f1 k x y z (now : bool) :
  mgr_inv m -> level < 2 ^ 24 -> k < 2 ^ 23 -> is_edge x ->
  den (st m) low f0 -> den (st m) high f1 -> above (level + 1) f0 -> above (level + 1) f1 ->
  (forall r m', returns m (fun e => if e level then f1 e else f0 e) r m' ->
     op_spec (st m') k x y z r) ->
  wp (result ← mk level low high;
      _ ← (if now then cache_put3 (N.shiftl k 40) x y z result else mret false);
      mret result)
    (returns m (fun e => if e level then f1 e else f0 e)) full_only m.
Proof.
  intros Hi Hlev Hk Hx H0' H1' Ha0 Ha1 Hop.
  destruct (den_above _ _ _ _ H0' Ha0) as (t0 & Hd0 & Hs0).
  destruct (den_above _ _ _ _ H1' Ha1) as (t1 & Hd1 & Hs1).
  wp_step. eapply wp_mono; [by apply (d_mk level low high t0 t1)|].
  intros r m1 (Hi1 & HR & Hd).
  assert (returns m (fun e => if e level then f1 e else f0 e) r m1) as Hret.
  { split_and!; [done|done|]. eapply den_ext; [|by eapply denotes_den].
    intros e. by rewrite sem_mknode, Hs0, Hs1. }
  wp_step. eapply wp_mono; [apply cache_put_spec; auto|].
  intros _ m2 (Hi2 & Hn & Hs). apply wp_ret. split; [done|]. split.
  - etrans; [exact HR|]. by apply dR_same.
  - unfold st. rewrite Hn. apply Hret.
Qed.

Lemma den_arg_unique m n d t f : arg m n d t -> den (st m) d f -> forall e, f e = sem t e.
Proof. intros [Hd _]. by apply den_unique with (n := n). Qed.

Lemma above_cof b level t : wf level t -> above (level + 1) (sem (cof b level t)).
Proof. intros Hw. by apply above_wf, wf_cof. Qed.

Lemma above_op2 (op : bool -> bool -> bool) n f g :
  above n f -> above n g -> above n (fun e => op (f e) (g e)).
Proof. intros Hf Hg e e' He. by rewrite (Hf e e'), (Hg e e'). Qed.

(** ** Conjunction *)

Lemma and_terminal_spec m a b ta tb :
  mgr_inv m -> arg m 0 a ta -> arg m 0 b tb ->
  match and_terminal a b with
  | Some r => returns m (fun e => sem ta e && sem tb e) r m
  | None => sylvan_isconst a = false /\ sylvan_isconst b = false
  end.
Proof.
  intros Hi Ha Hb. unfold and_terminal, sylvan_isconst.
  change sylvan_true with mtbdd_true. change sylvan_false with mtbdd_false.
  destruct (N.eqb_spec a mtbdd_true) as [->|Ha1].
  { rewrite (denotes_const_inv _ _ true _ (proj1 Ha)). by eapply arg_returns. }
  destruct (N.eqb_spec b mtbdd_true) as [->|Hb1].
  { rewrite (denotes_const_inv _ _ true _ (proj1 Hb)).
    eapply returns_ext; [|by eapply arg_returns]. intros e. by rewrite andb_true_r. }
  destruct (N.eqb_spec a mtbdd_false) as [->|Ha2].
  { rewrite (denotes_const_inv _ _ false _ (proj1 Ha)).
    by apply (returns_const m false). }
  destruct (N.eqb_spec b mtbdd_false) as [->|Hb2].
  { rewrite (denotes_const_inv _ _ false _ (proj1 Hb)).
    apply (returns_const m false); [done|]. intros e. by rewrite andb_false_r. }
  destruct (N.eqb_spec a b) as [->|Hab].
  { eapply returns_ext; [|by eapply arg_returns]. intros e.
    rewrite <- (den_arg_unique m 0 b tb (sem ta) Hb (denotes_den _ _ _ _ (proj1 Ha))).
    by rewrite andb_diag. }
  destruct (N.eqb_spec a (MTBDD_TOGGLEMARK b)) as [->|Hab']; [|done].
  apply (returns_const m false); [done|]. intros e. pose proof (arg_not _ _ _ _ Hb) as Hnb.
  rewrite <- (den_arg_unique m 0 _ ta _ Ha (denotes_den _ _ _ _ (proj1 Hnb))).
  rewrite sem_neg. by destruct (sem tb e).
Qed.

Lemma and_shortcut_spec m x y tx ty n :
  mgr_inv m -> arg m n x tx -> arg m n y ty ->
  match and_shortcut x y with
  | Some r => exists t, arg m n r t /\ forall e, sem t e = sem tx e && sem ty e
  | None => True
  end.
Proof.
  intros Hi Hx Hy. unfold and_shortcut.
  change sylvan_true with mtbdd_true. change sylvan_false with mtbdd_false.
  destruct (N.eqb_spec x mtbdd_true) as [->|Hx1].
  { rewrite (denotes_const_inv _ _ true _ (proj1 Hx)). eauto. }
  destruct (N.eqb_spec x mtbdd_false) as [->|Hx2].
  { rewrite (denotes_const_inv _ _ false _ (proj1 Hx)). exists (Leaf false).
    split; [apply (arg_const m n false)|done]. }
  destruct (N.eqb_spec y mtbdd_false) as [->|Hy2]; cbn [orb].
  { rewrite (denotes_const_inv _ _ false _ (proj1 Hy)). exists (Leaf false).
    split; [apply (arg_const m n false)|]. intros e. by rewrite andb_false_r. }
  destruct (N.eqb_spec y mtbdd_true) as [->|Hy1]; [|done].
  rewrite (denotes_const_inv _ _ true _ (proj1 Hy)). exists tx. split; [done|].
  intros e. by rewrite andb_true_r.
Qed.


(** The part that all variants share; [sub] computes the two halves. *)
Definition and_body (sub : N -> N -> N -> N -> N -> prog mgr (N * N)) (a b prev_level : N) :
    prog mgr N :=
  match and_terminal a b with
  | Some r => mret r
  | None =>
      let '(a, b) := sorted a b in
      m ← gets id;
      let na := MTBDD_GETNODE m a in
      let nb := MTBDD_GETNODE m b in
      let va := mtbddnode_getvariable na in
      let vb := mtbddnode_getvariable nb in
      let level := if va <? vb then va else vb in
      let cachenow := use_cache (granularity m) prev_level level in
      hit ← (if cachenow then cache_get3 CACHE_BDD_AND a b sylvan_false else mret None);
      match hit with
      | Some result => mret result
      | None =>
          '(low, high) ← sub (cofactor_low level va a na) (cofactor_high level va a na)
                             (cofactor_low level vb b nb) (cofactor_high level vb b nb) level;
          result ← mk level low high;
          _ ← (if cachenow then cache_put3 CACHE_BDD_AND a b sylvan_false result
               else mret false);
          mret result
      end
  end.

Definition halves_spec (f : bdd -> bdd -> bfun) (k : nat)
    (sub : N -> N -> N -> N -> N -> prog mgr (N * N)) : Prop :=
  forall m al ah bl bh level tal tah tbl tbh,
    mgr_inv m -> arg m 0 al tal -> arg m 0 ah tah -> arg m 0 bl tbl -> arg m 0 bh tbh ->
    (height tal + height tbl < k)%nat -> (height tah + height tbh < k)%nat ->
    wp (sub al ah bl bh level)
      (fun '(low, high) m' => mgr_inv m' /\ dR m m' /\ den (st m') low (f tal tbl) /\
         den (st m') high (f tah tbh)) full_only m.

Lemma arg_weaken m n d t : arg m n d t -> arg m 0 d t.
Proof. intros [[Hr Hw] Ho]. split; [|done]. split; [done|]. eapply wf_mono; [|done]. lia. Qed.

(** The recursion of a binary operation on two diagrams that are no constants. *)
Lemma binary_spec (op : bool -> bool -> bool) k K sub a b ta tb m (now : bool) z :
  let f ta tb e := op (sem ta e) (sem tb e) in
  K < 2 ^ 23 ->
  (forall s x y r fx fy, den s x fx -> den s y fy -> den s r (fun e => op (fx e) (fy e)) ->
     op_spec s K x y z r) ->
  halves_spec f k sub ->
  mgr_inv m -> arg m 0 a ta -> arg m 0 b tb -> (height ta + height tb < S k)%nat ->
  sylvan_isconst a = false -> sylvan_isconst b = false ->
  let na := MTBDD_GETNODE m a in
  let nb := MTBDD_GETNODE m b in
  let va := mtbddnode_getvariable na in
  let vb := mtbddnode_getvariable nb in
  let level := if va <? vb then va else vb in
  wp ('(low, high) ← sub (cofactor_low level va a na) (cofactor_high level va a na)
                         (cofactor_low level vb b nb) (cofactor_high level vb b nb) level;
      result ← mk level low high;
      _ ← (if now then cache_put3 (N.shiftl K 40) a b z result else mret false);
      mret result)
    (returns m (f ta tb)) full_only m.
Proof.
  intros f HK Hspec Hsub Hi Ha Hb Hh Hca Hcb na nb va vb level.
  assert (level <= va /\ level <= vb /\ (level = va \/ level = vb)) as (Hla & Hlb & Hl).
  { unfold level. destruct (N.ltb_spec va vb); lia. }
  destruct (cofactor_arg m a ta level Hi Ha Hca Hla) as (Hva & Hwa & Hal & Hah & Hha).
  destruct (cofactor_arg m b tb level Hi Hb Hcb Hlb) as (Hvb & Hwb & Hbl & Hbh & Hhb).
  fold na va in Hva, Hal, Hah, Hha. fold nb vb in Hvb, Hbl, Hbh, Hhb.
  assert (forall c, (height (cof c level ta) + height (cof c level tb) < k)%nat) as Hlt.
  { intros c. pose proof (height_cof c level ta). pose proof (height_cof c level tb).
    destruct Hl as [Hl|Hl]; [specialize (Hha Hl c)|specialize (Hhb Hl c)]; lia. }
  wp_step. eapply wp_mono.
  { apply Hsub; try done; by eapply arg_weaken. }
  intros [low high] m1 (Hi1 & HR & Hlow & Hhigh).
  eapply wp_mono.
  - eapply finish_spec; try done; [lia| |by apply above_op2; apply above_cof..|].
    + destruct Ha as [[Hr _] _]. by eapply rep_edge.
    + intros r m2 (Hi2 & HR2 & Hd). eapply Hspec.
      * apply (denotes_den _ 0). eapply (arg_mono m m2 0 a ta); [by etrans|done].
      * apply (denotes_den _ 0). eapply (arg_mono m m2 0 b tb); [by etrans|done].
      * eapply den_ext; [|exact Hd]. intros e. cbn. unfold f.
        rewrite (sem_cof level ta e), (sem_cof level tb e) by done. by destruct (e level).
  - intros r m2 Hret. eapply returns_trans; [exact HR|]. eapply returns_ext; [|exact Hret].
    intros e. cbn. unfold f. rewrite (sem_cof level ta e), (sem_cof level tb e) by done.
    by destruct (e level).
Qed.

Lemma sorted_cases a b : sorted a b = (a, b) \/ sorted a b = (b, a).
Proof. unfold sorted. destruct (_ <? _); auto. Qed.

Lemma and_body_spec sub k a b prev_level ta tb m :
  halves_spec (fun ta tb e => sem ta e && sem tb e) k sub ->
  mgr_inv m -> arg m 0 a ta -> arg m 0 b tb -> (height ta + height tb < S k)%nat ->
  wp (and_body sub a b prev_level) (returns m (fun e => sem ta e && sem tb e)) full_only m.
Proof.
  intros Hsub Hi Ha Hb Hh. unfold and_body.
  pose proof (and_terminal_spec m a b ta tb Hi Ha Hb) as Ht.
  destruct (and_terminal a b) as [r|]; [by apply wp_ret|]. destruct Ht as [Hca Hcb].
  assert (exists a' b' ta' tb', sorted a b = (a', b') /\ arg m 0 a' ta' /\ arg m 0 b' tb' /\
    (height ta' + height tb' < S k)%nat /\ sylvan_isconst a' = false /\
    sylvan_isconst b' = false /\ forall e, sem ta' e && sem tb' e = sem ta e && sem tb e)
    as (a' & b' & ta' & tb' & -> & Ha' & Hb' & Hh' & Hca' & Hcb' & Hsem).
  { destruct (sorted_cases a b) as [Hs|Hs]; rewrite Hs.
    - exists a, b, ta, tb. done.
    - exists b, a, tb, ta. split_and!; try done; [lia|]. intros e. apply andb_comm. }
  wp_step. wp_step. unfold id. wp_step.
  apply (cache_get_spec m 1); [done|by eapply rep_edge, Ha'|done|..].
  - intros r (f & g & Hf & Hg & Hr). apply wp_ret.
    eapply returns_ext; [exact Hsem|]. split_and!; [done|done|].
    eapply den_ext; [|exact Hr]. intros e. cbn.
    by rewrite (den_arg_unique m 0 a' ta' f Ha' Hf), (den_arg_unique m 0 b' tb' g Hb' Hg).
  - eapply wp_mono.
    + eapply (binary_spec andb k 1); try done. intros s x y r fx fy Hx Hy Hr.
      exists fx, fy. done.
    + intros r m'. by apply returns_ext.
Qed.



(** ** The halves *)

Definition rec_spec (f : bdd -> bdd -> bfun) (k : nat) (rec : N -> N -> N -> prog mgr N) : Prop :=
  forall m a b prev ta tb,
    mgr_inv m -> arg m 0 a ta -> arg m 0 b tb -> (height ta + height tb < k)%nat ->
    wp (rec a b prev) (returns m (f ta tb)) full_only m.

Lemma hold_spec m d f0 p g :
  mgr_inv m -> den (st m) d f0 ->
  (forall m1, mgr_inv m1 -> nodes m1 = nodes m -> (forall x, dok m x -> dok m1 x) -> dok m1 d ->
     wp p (returns m1 g) full_only m1) ->
  wp (hold d p)
    (fun r m2 => mgr_inv m2 /\ dR m m2 /\ den (st m2) d f0 /\ den (st m2) r g) full_only m.
Proof.
  intros Hi (t & Hd & Hs) Hp. eapply wp_mono; [by apply (d_hold m d 0 t p (fun r s => den s r g))|].
  intros r m2 (Hi2 & HR & Hd2 & Hr). split_and!; [done|done| |done]. by exists t.
Qed.

Lemma arg_nodes m m1 n d t :
  nodes m1 = nodes m -> (forall x, dok m x -> dok m1 x) -> arg m n d t -> arg m1 n d t.
Proof. intros Hn Hx [Hd Ho]. split; [|auto]. unfold st. by rewrite Hn. Qed.

(** Two results, one after the other; the first is held during the second. *)
Lemma two_calls m f0 f1 p q :
  mgr_inv m -> wp p (returns m f0) full_only m ->
  (forall m1 d, dR m m1 -> mgr_inv m1 -> den (st m1) d f0 ->
     wp (q d) (fun r m2 => mgr_inv m2 /\ dR m1 m2 /\ den (st m2) d f0 /\ den (st m2) r f1)
       full_only m1) ->
  wp (x ← p; y ← q x; mret (x, y))
    (fun '(x, y) m' => mgr_inv m' /\ dR m m' /\ den (st m') x f0 /\ den (st m') y f1) full_only m.
Proof.
  intros Hi Hp Hq. wp_step. eapply wp_mono; [exact Hp|]. intros x m1 (Hi1 & HR & Hd).
  wp_step. eapply wp_mono; [by apply Hq|]. intros y m2 (Hi2 & HR2 & Hx & Hy). apply wp_ret.
  split_and!; [done|by etrans|done|done].
Qed.

(** A half of a conjunction, without and with a diagram that is held. *)
Lemma and_half rec k m a b level ta tb :
  rec_spec (fun ta tb e => sem ta e && sem tb e) k rec ->
  mgr_inv m -> arg m 0 a ta -> arg m 0 b tb -> (height ta + height tb < k)%nat ->
  wp (match and_shortcut a b with Some r => mret r | None => rec a b level end)
    (returns m (fun e => sem ta e && sem tb e)) full_only m.
Proof.
  intros Hrec Hi Ha Hb Hh. pose proof (and_shortcut_spec m a b ta tb 0 Hi Ha Hb) as Hs.
  destruct (and_shortcut a b) as [r|]; [|by apply Hrec].
  destruct Hs as (t & Hr & Hsem). apply wp_ret. eapply returns_ext; [exact Hsem|].
  by eapply arg_returns.
Qed.

Lemma and_half_held rec k m d f0 a b level ta tb :
  rec_spec (fun ta tb e => sem ta e && sem tb e) k rec ->
  mgr_inv m -> arg m 0 a ta -> arg m 0 b tb -> (height ta + height tb < k)%nat ->
  den (st m) d f0 ->
  wp (match and_shortcut a b with Some r => mret r | None => hold d (rec a b level) end)
    (fun r m2 => mgr_inv m2 /\ dR m m2 /\ den (st m2) d f0 /\
       den (st m2) r (fun e => sem ta e && sem tb e)) full_only m.
Proof.
  intros Hrec Hi Ha Hb Hh Hd. pose proof (and_shortcut_spec m a b ta tb 0 Hi Ha Hb) as Hs.
  destruct (and_shortcut a b) as [r|].
  - destruct Hs as (t & Hr & Hsem). apply wp_ret. split_and!; try done.
    eapply den_ext; [exact Hsem|]. by eapply denotes_den, Hr.
  - apply hold_spec; [done..|]. intros m1 Hi1 Hn Hx _. apply Hrec; try done; by eapply arg_nodes.
Qed.

Definition low_first (rec : N -> N -> N -> prog mgr N) (al ah bl bh level : N) :
    prog mgr (N * N) :=
  low ← (match and_shortcut al bl with Some low => mret low | None => rec al bl level end);
  high ← (match and_shortcut ah bh with
          | Some high => mret high
          | None => hold low (rec ah bh level)
          end);
  mret (low, high).

Definition high_first (rec : N -> N -> N -> prog mgr N) (al ah bl bh level : N) :
    prog mgr (N * N) :=
  '(high, n) ← (match and_shortcut ah bh with
                | Some high => mret (high, false)
                | None => high ← rec ah bh level; mret (high, true)
                end);
  low ← (match and_shortcut al bl with
         | Some low => mret low
         | None => if (n : bool) then hold high (rec al bl level) else rec al bl level
         end);
  mret (low, high).

Lemma low_first_spec k rec :
  rec_spec (fun ta tb e => sem ta e && sem tb e) k rec ->
  halves_spec (fun ta tb e => sem ta e && sem tb e) k (low_first rec).
Proof.
  intros Hrec m al ah bl bh level tal tah tbl tbh Hi Hal Hah Hbl Hbh H1' H2'. unfold low_first.
  apply two_calls; [done|by eapply and_half|]. intros m1 d HR Hi1 Hd.
  apply (and_half_held rec k m1 d _ ah bh level tah tbh); try done; by eapply arg_mono.
Qed.

Lemma high_first_spec k rec :
  rec_spec (fun ta tb e => sem ta e && sem tb e) k rec ->
  halves_spec (fun ta tb e => sem ta e && sem tb e) k (high_first rec).
Proof.
  intros Hrec m al ah bl bh level tal tah tbl tbh Hi Hal Hah Hbl Hbh H1' H2'. unfold high_first.
  wp_step. pose proof (and_shortcut_spec m ah bh tah tbh 0 Hi Hah Hbh) as Hs.
  destruct (and_shortcut ah bh) as [r|].
  - apply wp_ret. wp_step. destruct Hs as (t & Hr & Hsem).
    eapply wp_mono; [by eapply (and_half rec k m al bl)|].
    intros low m1 (Hi1 & HR & Hd). apply wp_ret. split_and!; [done..|].
    eapply den_ext; [exact Hsem|]. eapply denotes_den, proj1. by eapply (arg_mono m m1).
  - wp_step. eapply wp_mono; [by apply Hrec|]. intros high m1 (Hi1 & HR & Hd).
    apply wp_ret. wp_step. eapply wp_mono.
    + eapply (and_half_held rec k m1 high _ al bl level tal tbl); try done; by eapply arg_mono.
    + intros low m2 (Hi2 & HR2 & Hhigh & Hlow). apply wp_ret. split_and!; try done. by etrans.
Qed.


(** A variant of the conjunction is the shared part with its way to compute the halves. *)
Lemma and_variant (f : nat -> N -> N -> N -> prog mgr N)
    (halves : (N -> N -> N -> prog mgr N) -> N -> N -> N -> N -> N -> prog mgr (N * N)) :
  (forall fuel a b prev m, f (S fuel) a b prev m = and_body (halves (f fuel)) a b prev m) ->
  (forall k rec, rec_spec (fun ta tb e => sem ta e && sem tb e) k rec ->
     halves_spec (fun ta tb e => sem ta e && sem tb e) k (halves rec)) ->
  forall fuel, rec_spec (fun ta tb e => sem ta e && sem tb e) fuel (f fuel).
Proof.
  intros Hunf Hhalves fuel. induction fuel as [|fuel IH]; intros m a b prev ta tb Hi Ha Hb Hh; [lia|].
  unfold wp. rewrite Hunf.
  exact (and_body_spec _ fuel a b prev ta tb m (Hhalves _ _ IH) Hi Ha Hb Hh).
Qed.
End disciplines.

(** ** The variants *)

Section variants.
Context {T C : Type} `{NodeTableLaws T} `{OpCacheLaws C}.
Notation mgr := (mgr T C).

(** Associates the binds of a run, one case at a time. *)
Ltac run_cases :=
  repeat (match goal with
    | |- context [match ?x with _ => _ end] =>
        lazymatch x with context [match _ with _ => _ end] => fail | _ => destruct x end
    end; try reflexivity).

Lemma and_unfold fuel a b prev (m : mgr) :
  sylvan_and (S fuel) a b prev m =
  and_body (mk := mtbdd_makenode) (low_first (hold := pushed) (sylvan_and fuel)) a b prev m.
Proof.
  cbn [sylvan_and]. unfold and_body, low_first. destruct (and_terminal a b); [done|].
  destruct (sorted a b) as [a' b']. unfold mbind, prog_bind, mret, prog_ret, gets, id.
  run_cases.
Qed.

Lemma and_nogc_unfold fuel a b prev (m : mgr) :
  sylvan_and_nogc (S fuel) a b prev m =
  and_body (mk := mtbdd_makenode_nogc)
    (low_first (hold := fun _ p => p) (sylvan_and_nogc fuel)) a b prev m.
Proof.
  cbn [sylvan_and_nogc]. unfold and_body, low_first. destruct (and_terminal a b); [done|].
  destruct (sorted a b) as [a' b']. unfold mbind, prog_bind, mret, prog_ret, gets, id.
  run_cases.
Qed.

Lemma and_nogc_alone_unfold fuel a b prev (m : mgr) :
  sylvan_and_nogc_alone (S fuel) a b prev m =
  and_body (mk := mtbdd_makenode_nogc)
    (high_first (hold := fun _ p => p) (sylvan_and_nogc_alone fuel)) a b prev m.
Proof.
  cbn [sylvan_and_nogc_alone]. unfold and_body, high_first. destruct (and_terminal a b); [done|].
  destruct (sorted a b) as [a' b']. unfold mbind, prog_bind, mret, prog_ret, gets, id.
  run_cases.
Qed.

Lemma and_alone_unfold fuel a b prev (m : mgr) :
  sylvan_and_alone (S fuel) a b prev m =
  and_body (mk := mtbdd_makenode) (high_first (hold := pushed) (sylvan_and_alone fuel)) a b prev m.
Proof.
  cbn [sylvan_and_alone]. unfold and_body, high_first. destruct (and_terminal a b); [done|].
  destruct (sorted a b) as [a' b']. unfold mbind, prog_bind, mret, prog_ret, gets, id.
  run_cases.
Qed.

Lemma sylvan_and_spec fuel :
  rec_spec (D := gc_discipline) (fun ta tb e => sem ta e && sem tb e) fuel
    (sylvan_and (T := T) (C := C) fuel).
Proof. by apply (and_variant _ low_first and_unfold), low_first_spec. Qed.

Lemma sylvan_and_alone_spec fuel :
  rec_spec (D := gc_discipline) (fun ta tb e => sem ta e && sem tb e) fuel
    (sylvan_and_alone (T := T) (C := C) fuel).
Proof. by apply (and_variant _ high_first and_alone_unfold), high_first_spec. Qed.

Lemma sylvan_and_nogc_spec fuel :
  rec_spec (D := nogc_discipline) (fun ta tb e => sem ta e && sem tb e) fuel
    (sylvan_and_nogc (T := T) (C := C) fuel).
Proof. by apply (and_variant _ low_first and_nogc_unfold), low_first_spec. Qed.

Lemma sylvan_and_nogc_alone_spec fuel :
  rec_spec (D := nogc_discipline) (fun ta tb e => sem ta e && sem tb e) fuel
    (sylvan_and_nogc_alone (T := T) (C := C) fuel).
Proof. by apply (and_variant _ high_first and_nogc_alone_unfold), high_first_spec. Qed.

(** The profiling variant computes the same and counts its calls. *)
Lemma profile_run fuel a b prev count (m : mgr) :
  match sylvan_and_alone fuel a b prev m with
  | Done r m' => exists count', sylvan_and_alone_profile fuel a b prev count m = Done (r, count') m'
  | Exit x m' => sylvan_and_alone_profile fuel a b prev count m = Exit x m'
  | NoFuel => sylvan_and_alone_profile fuel a b prev count m = NoFuel
  end.
Proof.
  revert a b prev count m. induction fuel as [|fuel IH]; intros a b prev count m; [done|].
  cbn [sylvan_and_alone sylvan_and_alone_profile]. generalize (add64 count 1) as k. intros k.
  destruct (and_terminal a b); [by eexists|]. destruct (sorted a b) as [a' b'].
  unfold mbind, prog_bind, mret, prog_ret, gets, id.
  unfold pushed, mtbdd_refs_push, mtbdd_refs_pop, mbind, prog_bind, mret, prog_ret, modify.
  repeat match goal with
  | |- context [sylvan_and_alone fuel ?a ?b ?l ?s] =>
      lazymatch a with context [match _ with _ => _ end] => fail | _ => idtac end;
      lazymatch b with context [match _ with _ => _ end] => fail | _ => idtac end;
      lazymatch l with context [match _ with _ => _ end] => fail | _ => idtac end;
      lazymatch s with context [match _ with _ => _ end] => fail | _ => idtac end;
      lazymatch goal with
      | |- context [sylvan_and_alone_profile fuel a b l ?c s] =>
          let IH' := fresh in pose proof (IH a b l c s) as IH';
          destruct (sylvan_and_alone fuel a b l s); [destruct IH' as [? IH']|..]; rewrite IH'; clear IH'
      end
  | |- context [match ?x with _ => _ end] =>
      lazymatch x with
      | context [match _ with _ => _ end] => fail
      | context [sylvan_and_alone] => fail
      | context [sylvan_and_alone_profile] => fail
      | _ => destruct x
      end
  end; try reflexivity; eauto.
Qed.


(** ** Exclusive or *)

Notation arg := (arg (D := gc_discipline)).
Notation returns := (returns (D := gc_discipline)).

Lemma xor_terminal_spec (m : mgr) a b ta tb :
  mgr_inv m -> arg m 0 a ta -> arg m 0 b tb ->
  match xor_terminal a b with
  | Some r => returns m (fun e => xorb (sem ta e) (sem tb e)) r m
  | None => sylvan_isconst a = false /\ sylvan_isconst b = false
  end.
Proof.
  intros Hi Ha Hb. unfold xor_terminal, sylvan_isconst.
  change sylvan_true with mtbdd_true. change sylvan_false with mtbdd_false.
  destruct (N.eqb_spec a mtbdd_false) as [->|Ha2].
  { rewrite (denotes_const_inv _ _ false _ (proj1 Ha)).
    eapply returns_ext; [|by eapply arg_returns]. intros e. by destruct (sem tb e). }
  destruct (N.eqb_spec b mtbdd_false) as [->|Hb2].
  { rewrite (denotes_const_inv _ _ false _ (proj1 Hb)).
    eapply returns_ext; [|by eapply arg_returns]. intros e. by destruct (sem ta e). }
  destruct (N.eqb_spec a mtbdd_true) as [->|Ha1].
  { rewrite (denotes_const_inv _ _ true _ (proj1 Ha)).
    eapply returns_ext; [|eapply returns_not; by eapply arg_returns]. done. }
  destruct (N.eqb_spec b mtbdd_true) as [->|Hb1].
  { rewrite (denotes_const_inv _ _ true _ (proj1 Hb)).
    eapply returns_ext; [|eapply returns_not; by eapply arg_returns].
    intros e. cbn. by destruct (sem ta e). }
  destruct (N.eqb_spec a b) as [->|Hab].
  { apply (returns_const m false); [done|]. intros e.
    rewrite <- (den_arg_unique m 0 b tb (sem ta) Hb (denotes_den _ _ _ _ (proj1 Ha))).
    apply xorb_nilpotent. }
  destruct (N.eqb_spec a (sylvan_not b)) as [->|Hab']; [|done].
  apply (returns_const m true); [done|]. intros e. pose proof (arg_not _ _ _ _ Hb) as Hnb.
  rewrite <- (den_arg_unique m 0 _ ta _ Ha (denotes_den _ _ _ _ (proj1 Hnb))).
  rewrite sem_neg. by destruct (sem tb e).
Qed.

(** Both halves by calls, the first held during the second. *)
Definition both_halves (rec : N -> N -> N -> prog mgr N) (al ah bl bh level : N) :
    prog mgr (N * N) :=
  low ← rec al bl level;
  high ← pushed low (rec ah bh level);
  mret (low, high).

Lemma both_halves_spec f k rec :
  rec_spec (D := gc_discipline) f k rec -> halves_spec (D := gc_discipline) f k (both_halves rec).
Proof.
  intros Hrec m al ah bl bh level tal tah tbl tbh Hi Hal Hah Hbl Hbh H1' H2'.
  apply two_calls; [done|by apply Hrec|]. intros m1 d HR Hi1 Hd.
  apply hold_spec; [done..|]. intros m2 Hi2 Hn Hx _.
  apply Hrec; try done; (eapply arg_nodes; [done..|by eapply arg_mono]).
Qed.

Lemma isconst_mark (m : mgr) n d t : arg m n d t -> sylvan_isconst d = false ->
  sylvan_isconst (MTBDD_STRIPMARK d) = false /\ sylvan_isconst (sylvan_not d) = false.
Proof.
  intros [[Hr _] _] Hc. destruct (edge_mk d) as (c & i & Hi & ->); [by eapply rep_edge|].
  change (sylvan_not ?x) with (MTBDD_TOGGLEMARK x). rewrite stripmark_mk, togglemark_mk by done.
  unfold sylvan_isconst in *. change mtbdd_true with (mk_edge true 0) in *.
  change mtbdd_false with (mk_edge false 0) in *. change i with (mk_edge false i).
  assert (i <> 0) as Hne. { intros ->. by destruct c. }
  assert (forall c' c'', (mk_edge c' i =? mk_edge c'' 0) = false) as He.
  { intros c' c''. apply N.eqb_neq. by intros [_ ?]%mk_edge_inj. }
  by rewrite !He.
Qed.

Lemma xor_normal_spec (m : mgr) a b ta tb :
  arg m 0 a ta -> arg m 0 b tb -> sylvan_isconst a = false -> sylvan_isconst b = false ->
  exists a' b' ta' tb', xor_normal a b = (a', b') /\ arg m 0 a' ta' /\ arg m 0 b' tb' /\
    (height ta' + height tb' = height ta + height tb)%nat /\
    sylvan_isconst a' = false /\ sylvan_isconst b' = false /\
    forall e, xorb (sem ta' e) (sem tb' e) = xorb (sem ta e) (sem tb e).
Proof.
  intros Ha Hb Hca Hcb.
  assert (forall x y tx ty, arg m 0 x tx -> arg m 0 y ty -> sylvan_isconst x = false ->
    sylvan_isconst y = false ->
    exists a' b' ta' tb', (if MTBDD_HASMARK x then (MTBDD_STRIPMARK x, sylvan_not y) else (x, y))
      = (a', b') /\ arg m 0 a' ta' /\ arg m 0 b' tb' /\
    (height ta' + height tb' = height tx + height ty)%nat /\
    sylvan_isconst a' = false /\ sylvan_isconst b' = false /\
    forall e, xorb (sem ta' e) (sem tb' e) = xorb (sem tx e) (sem ty e)) as Hx.
  { intros x y tx ty Hx Hy Hcx Hcy. destruct (arg_strip _ _ _ _ Hx) as [Hs _].
    destruct (MTBDD_HASMARK x).
    - exists (MTBDD_STRIPMARK x), (sylvan_not y), (neg tx), (neg ty). split; [done|].
      split; [done|]. split; [by apply arg_not|]. split; [by rewrite !height_neg|].
      split; [by eapply isconst_mark|]. split; [by eapply isconst_mark|].
      intros e. rewrite !sem_neg. by destruct (sem tx e), (sem ty e).
    - exists x, y, tx, ty. done. }
  unfold xor_normal. destruct (sorted_cases a b) as [-> | ->]; [by apply Hx|].
  destruct (Hx b a tb ta) as (a' & b' & ta' & tb' & ? & ? & ? & ? & ? & ? & Hsem); try done.
  exists a', b', ta', tb'. do 3 (split; [done|]). split; [lia|]. do 2 (split; [done|]). intros e. rewrite Hsem. apply xorb_comm.
Qed.

Definition xor_body (sub : N -> N -> N -> N -> N -> prog mgr (N * N)) (a b prev_level : N) :
    prog mgr N :=
  match xor_terminal a b with
  | Some r => mret r
  | None =>
      let '(a, b) := xor_normal a b in
      m ← gets id;
      let na := MTBDD_GETNODE m a in
      let nb := MTBDD_GETNODE m b in
      let va := mtbddnode_getvariable na in
      let vb := mtbddnode_getvariable nb in
      let level := if va <? vb then va else vb in
      let cachenow := use_cache (granularity m) prev_level level in
      hit ← (if cachenow then cache_get3 CACHE_BDD_XOR a b sylvan_false else mret None);
      match hit with
      | Some result => mret result
      | None =>
          '(low, high) ← sub (cofactor_low level va a na) (cofactor_high level va a na)
                             (cofactor_low level vb b nb) (cofactor_high level vb b nb) level;
          result ← mtbdd_makenode level low high;
          _ ← (if cachenow then cache_put3 CACHE_BDD_XOR a b sylvan_false result
               else mret false);
          mret result
      end
  end.

Lemma xor_unfold fuel a b prev (m : mgr) :
  sylvan_xor (S fuel) a b prev m = xor_body (both_halves (sylvan_xor fuel)) a b prev m.
Proof.
  cbn [sylvan_xor]. unfold xor_body, both_halves. destruct (xor_terminal a b); [done|].
  destruct (xor_normal a b) as [a' b'].
  unfold mbind, prog_bind, mret, prog_ret, gets, id. run_cases.
Qed.

Lemma sylvan_xor_spec fuel :
  rec_spec (D := gc_discipline) (fun ta tb e => xorb (sem ta e) (sem tb e)) fuel
    (sylvan_xor (T := T) (C := C) fuel).
Proof.
  induction fuel as [|fuel IH]; intros m a b prev ta tb Hi Ha Hb Hh; [lia|].
  unfold wp. rewrite xor_unfold. apply both_halves_spec in IH. revert IH.
  generalize (both_halves (sylvan_xor fuel)) as sub. intros sub Hsub.
  match goal with |- match ?p m with _ => _ end => change (wp p
    (returns m (fun e => xorb (sem ta e) (sem tb e))) full_only m) end.
  unfold xor_body. pose proof (xor_terminal_spec m a b ta tb Hi Ha Hb) as Ht.
  destruct (xor_terminal a b) as [r|]; [by apply wp_ret|]. destruct Ht as [Hca Hcb].
  destruct (xor_normal_spec m a b ta tb Ha Hb Hca Hcb)
    as (a' & b' & ta' & tb' & -> & Ha' & Hb' & Hh' & Hca' & Hcb' & Hsem).
  wp_step. wp_step. unfold id. wp_step.
  apply (cache_get_spec m 2); [done|by eapply rep_edge, Ha'|done|..].
  - intros r (f & g & Hf & Hg & Hr). apply wp_ret.
    eapply returns_ext; [exact Hsem|]. split; [done|]. split; [done|].
    eapply den_ext; [|exact Hr]. intros e. cbn.
    by rewrite (den_arg_unique m 0 a' ta' f Ha' Hf), (den_arg_unique m 0 b' tb' g Hb' Hg).
  - eapply wp_mono.
    + apply (binary_spec (D := gc_discipline) xorb fuel 2 sub a' b' ta' tb'); try done; [|lia].
      intros s x y r fx fy Hx Hy Hr. exists fx, fy. done.
    + intros r m'. by apply returns_ext.
Qed.

(** ** If-then-else *)

Definition ite_sem (ta tb tc : bdd) : bfun := fun e => if sem ta e then sem tb e else sem tc e.

Lemma arg_eq (m : mgr) n d t t' : arg m n d t -> arg m n d t' -> t = t'.
Proof. intros [[H1' _] _] [[H2' _] _]. by eapply rep_functional. Qed.

(** One rewriting of a terminal case: an operand that equals a given diagram becomes a constant. *)
Lemma operand_const (m : mgr) x y k tx ty :
  arg m 0 x tx -> arg m 0 y ty ->
  exists ty', arg m 0 (if x =? y then mk_edge k 0 else y) ty' /\ (height ty' <= height ty)%nat /\
    forall e, sem ty' e = sem ty e \/ (sem tx e = sem ty e /\ sem ty' e = k).
Proof.
  intros Hx Hy. destruct (N.eqb_spec x y) as [->|Hne].
  - exists (Leaf k). split; [apply (arg_const m 0 k)|]. split; [cbn; lia|]. intros e. right.
    by rewrite (arg_eq _ _ _ _ _ Hx Hy).
  - exists ty. split; [done|]. split; [done|]. by left.
Qed.

Lemma operand_const_not (m : mgr) x y k tx ty :
  arg m 0 x tx -> arg m 0 y ty ->
  exists ty', arg m 0 (if x =? sylvan_not y then mk_edge k 0 else y) ty' /\
    (height ty' <= height ty)%nat /\
    forall e, sem ty' e = sem ty e \/ (sem tx e = negb (sem ty e) /\ sem ty' e = k).
Proof.
  intros Hx Hy. destruct (N.eqb_spec x (sylvan_not y)) as [->|Hne].
  - exists (Leaf k). split; [apply (arg_const m 0 k)|]. split; [cbn; lia|]. intros e. right.
    rewrite (arg_eq _ _ _ _ _ Hx (arg_not _ _ _ _ Hy)). by rewrite sem_neg.
  - exists ty. split; [done|]. split; [done|]. by left.
Qed.

Lemma ite_operands_spec (m : mgr) a b c ta tb tc :
  arg m 0 a ta -> arg m 0 b tb -> arg m 0 c tc ->
  exists b' c' tb' tc', ite_operands a b c = (b', c') /\ arg m 0 b' tb' /\ arg m 0 c' tc' /\
    (height tb' <= height tb)%nat /\ (height tc' <= height tc)%nat /\
    forall e, ite_sem ta tb' tc' e = ite_sem ta tb tc e.
Proof.
  intros Ha Hb Hc. unfold ite_operands. change sylvan_true with (mk_edge true 0).
  change sylvan_false with (mk_edge false 0).
  destruct (operand_const m a b true ta tb Ha Hb) as (tb1 & Hb1 & Hh1 & Hs1).
  destruct (operand_const_not m a _ false ta tb1 Ha Hb1) as (tb2 & Hb2 & Hh2 & Hs2).
  destruct (operand_const m a c false ta tc Ha Hc) as (tc1 & Hc1 & Hh3 & Hs3).
  destruct (operand_const_not m a _ true ta tc1 Ha Hc1) as (tc2 & Hc2 & Hh4 & Hs4).
  eexists _, _, tb2, tc2. split; [reflexivity|]. split; [exact Hb2|]. split; [exact Hc2|].
  split; [lia|]. split; [lia|]. intros e. unfold ite_sem.
  destruct (Hs1 e) as [E1|[E1 E1']], (Hs2 e) as [E2|[E2 E2']],
    (Hs3 e) as [E3|[E3 E3']], (Hs4 e) as [E4|[E4 E4']];
    destruct (sem ta e), (sem tb e), (sem tc e), (sem tb1 e), (sem tc1 e); simplify_eq/=; congruence.
Qed.

Lemma ite_normal_spec (m : mgr) a b c ta tb tc :
  arg m 0 a ta -> arg m 0 b tb -> arg m 0 c tc ->
  sylvan_isconst a = false -> sylvan_isconst b = false -> sylvan_isconst c = false ->
  exists mark a' b' c' ta' tb' tc', ite_normal a b c = (mark, a', b', c') /\
    arg m 0 a' ta' /\ arg m 0 b' tb' /\ arg m 0 c' tc' /\
    sylvan_isconst a' = false /\ sylvan_isconst b' = false /\ sylvan_isconst c' = false /\
    (height ta' + height tb' + height tc' = height ta + height tb + height tc)%nat /\
    forall e, xorb mark (ite_sem ta' tb' tc' e) = ite_sem ta tb tc e.
Proof.
  intros Ha Hb Hc Hca Hcb Hcc. unfold ite_normal.
  assert (exists a' b' c' ta' tb' tc',
    (if MTBDD_HASMARK a then (MTBDD_STRIPMARK a, c, b) else (a, b, c)) = (a', b', c') /\
    arg m 0 a' ta' /\ arg m 0 b' tb' /\ arg m 0 c' tc' /\
    sylvan_isconst a' = false /\ sylvan_isconst b' = false /\ sylvan_isconst c' = false /\
    (height ta' + height tb' + height tc' = height ta + height tb + height tc)%nat /\
    forall e, ite_sem ta' tb' tc' e = ite_sem ta tb tc e)
    as (a' & b' & c' & ta' & tb' & tc' & -> & Ha' & Hb' & Hc' & Hca' & Hcb' & Hcc' & Hh & Hs).
  { destruct (arg_strip _ _ _ _ Ha) as [Hst _]. destruct (MTBDD_HASMARK a).
    - eexists _, _, _, (neg ta), tc, tb. do 4 (split; [done|]).
      split; [by eapply isconst_mark|]. do 2 (split; [done|]). split; [rewrite height_neg; lia|].
      intros e. unfold ite_sem. rewrite sem_neg. by destruct (sem ta e).
    - exists a, b, c, ta, tb, tc. done. }
  destruct (MTBDD_HASMARK b').
  - eexists true, _, _, _, ta', (neg tb'), (neg tc'). split; [reflexivity|]. split; [done|].
    split; [by apply arg_not|]. split; [by apply arg_not|]. split; [done|].
    split; [by eapply isconst_mark|]. split; [by eapply isconst_mark|].
    split; [by rewrite !height_neg|]. intros e. rewrite <- Hs. unfold ite_sem.
    rewrite !sem_neg. by destruct (sem ta' e), (sem tb' e), (sem tc' e).
  - eexists false, _, _, _, ta', tb', tc'. split; [reflexivity|]. do 7 (split; [done|]).
    intros e. rewrite Hs. by destruct (ite_sem ta tb tc e).
Qed.

Lemma arg_den (m m' : mgr) n d t : keeps m m' -> arg m n d t -> den (st m') d (sem t).
Proof. intros Hk Ha. eapply denotes_den. exact (proj1 (arg_mono (D := gc_discipline) m m' n d t Hk Ha)). Qed.

Definition ite_rec_spec (k : nat) (rec : N -> N -> N -> N -> prog mgr N) : Prop :=
  forall m a b c prev ta tb tc,
    mgr_inv m -> arg m 0 a ta -> arg m 0 b tb -> arg m 0 c tc ->
    (height ta + height tb + height tc < k)%nat ->
    wp (rec a b c prev) (returns m (ite_sem ta tb tc)) full_only m.

(** The constant cases of a recursive call. *)
Lemma ite_half_const (m : mgr) a b c ta tb tc :
  mgr_inv m -> arg m 0 a ta -> arg m 0 b tb -> arg m 0 c tc ->
  (a = sylvan_true -> forall e, sem tb e = ite_sem ta tb tc e) /\
  (a = sylvan_false -> forall e, sem tc e = ite_sem ta tb tc e).
Proof.
  intros Hi Ha Hb Hc. split; intros -> e; unfold ite_sem.
  - by rewrite (denotes_const_inv _ _ true _ (proj1 Ha)).
  - by rewrite (denotes_const_inv _ _ false _ (proj1 Ha)).
Qed.

Definition ite_halves (rec : N -> N -> N -> N -> prog mgr N)
    (al ah bl bh cl ch level : N) : prog mgr (N * N) :=
  low ← (if al =? sylvan_true then mret bl
         else if al =? sylvan_false then mret cl
         else rec al bl cl level : prog mgr N);
  high ← (if ah =? sylvan_true then mret bh
          else if ah =? sylvan_false then mret ch
          else pushed low (rec ah bh ch level) : prog mgr N);
  mret (low, high).

Lemma ite_halves_spec k rec (m : mgr) al ah bl bh cl ch level tal tah tbl tbh tcl tch :
  ite_rec_spec k rec -> mgr_inv m ->
  arg m 0 al tal -> arg m 0 ah tah -> arg m 0 bl tbl -> arg m 0 bh tbh ->
  arg m 0 cl tcl -> arg m 0 ch tch ->
  (height tal + height tbl + height tcl < k)%nat ->
  (height tah + height tbh + height tch < k)%nat ->
  wp (ite_halves rec al ah bl bh cl ch level)
    (fun '(low, high) m' => mgr_inv m' /\ keeps m m' /\ den (st m') low (ite_sem tal tbl tcl) /\
       den (st m') high (ite_sem tah tbh tch)) full_only m.
Proof.
  intros Hrec Hi Hal Hah Hbl Hbh Hcl Hch H1' H2'. unfold ite_halves.
  apply (two_calls (D := gc_discipline)); [done|..].
  - destruct (ite_half_const m al bl cl tal tbl tcl Hi Hal Hbl Hcl) as [Ht Hf].
    destruct (N.eqb_spec al sylvan_true) as [E1|_].
    { apply wp_ret. eapply returns_ext; [exact (Ht E1)|]. by eapply arg_returns. }
    destruct (N.eqb_spec al sylvan_false) as [E1|_].
    { apply wp_ret. eapply returns_ext; [exact (Hf E1)|]. by eapply arg_returns. }
    by apply Hrec.
  - intros m1 d HR Hi1 Hd.
    assert (arg m1 0 ah tah /\ arg m1 0 bh tbh /\ arg m1 0 ch tch) as (Hah1 & Hbh1 & Hch1).
    { split; [|split]; by eapply (arg_mono m m1). }
    destruct (ite_half_const m1 ah bh ch tah tbh tch Hi1 Hah1 Hbh1 Hch1) as [Ht Hf].
    destruct (N.eqb_spec ah sylvan_true) as [E1|_].
    { apply wp_ret. split; [done|]. split; [done|]. split; [done|].
      eapply den_ext; [exact (Ht E1)|]. by eapply denotes_den, Hbh1. }
    destruct (N.eqb_spec ah sylvan_false) as [E1|_].
    { apply wp_ret. split; [done|]. split; [done|]. split; [done|].
      eapply den_ext; [exact (Hf E1)|]. by eapply denotes_den, Hch1. }
    apply (hold_spec (D := gc_discipline)); [done..|]. intros m2 Hi2 Hn Hx _.
    apply Hrec; try done; by eapply (arg_nodes m1 m2).
Qed.

Lemma above_ite n ta tb tc :
  above n (sem ta) -> above n (sem tb) -> above n (sem tc) -> above n (ite_sem ta tb tc).
Proof. intros Ha Hb Hc e e' He. unfold ite_sem. by rewrite (Ha e e'), (Hb e e'), (Hc e e'). Qed.

Lemma sem_ite_cof level ta tb tc (e : N -> bool) :
  wf level ta -> wf level tb -> wf level tc ->
  (if e level then ite_sem (cof true level ta) (cof true level tb) (cof true level tc) e
   else ite_sem (cof false level ta) (cof false level tb) (cof false level tc) e) =
  ite_sem ta tb tc e.
Proof.
  intros Ha Hb Hc. unfold ite_sem.
  rewrite (sem_cof level ta e), (sem_cof level tb e), (sem_cof level tc e) by done.
  by destruct (e level).
Qed.

(** The recursion on three diagrams that are no constants. *)
Lemma ite_step k sub (m : mgr) a b c ta tb tc (now : bool) :
  (forall m al ah bl bh cl ch level tal tah tbl tbh tcl tch, mgr_inv m ->
    arg m 0 al tal -> arg m 0 ah tah -> arg m 0 bl tbl -> arg m 0 bh tbh ->
    arg m 0 cl tcl -> arg m 0 ch tch ->
    (height tal + height tbl + height tcl < k)%nat ->
    (height tah + height tbh + height tch < k)%nat ->
    wp (sub al ah bl bh cl ch level)
      (fun '(low, high) m' => mgr_inv m' /\ keeps m m' /\
         den (st m') low (ite_sem tal tbl tcl) /\ den (st m') high (ite_sem tah tbh tch))
      full_only m) ->
  mgr_inv m -> arg m 0 a ta -> arg m 0 b tb -> arg m 0 c tc ->
  (height ta + height tb + height tc < S k)%nat ->
  sylvan_isconst a = false -> sylvan_isconst b = false -> sylvan_isconst c = false ->
  let na := MTBDD_GETNODE m a in
  let nb := MTBDD_GETNODE m b in
  let nc := MTBDD_GETNODE m c in
  let va := mtbddnode_getvariable na in
  let vb := mtbddnode_getvariable nb in
  let vc := mtbddnode_getvariable nc in
  let level := if vb <? vc then vb else vc in
  let level := if va <? level then va else level in
  wp ('(low, high) ← sub (cofactor_low level va a na) (cofactor_high level va a na)
                         (cofactor_low level vb b nb) (cofactor_high level vb b nb)
                         (cofactor_low level vc c nc) (cofactor_high level vc c nc) level;
      result ← mtbdd_makenode level low high;
      _ ← (if now then cache_put3 CACHE_BDD_ITE a b c result else mret false);
      mret result)
    (returns m (ite_sem ta tb tc)) full_only m.
Proof.
  intros Hsub Hi Ha Hb Hc Hh Hca Hcb Hcc na nb nc va vb vc level0 level.
  assert (level <= va /\ level <= vb /\ level <= vc /\ (level = va \/ level = vb \/ level = vc))
    as (Hla & Hlb & Hlc & Hl).
  { unfold level, level0. clear.
    destruct (N.ltb_spec vb vc); [destruct (N.ltb_spec va vb)|destruct (N.ltb_spec va vc)]; lia. }
  destruct (cofactor_arg m a ta level Hi Ha Hca Hla) as (Hva & Hwa & Hal & Hah & Hha).
  destruct (cofactor_arg m b tb level Hi Hb Hcb Hlb) as (Hvb & Hwb & Hbl & Hbh & Hhb).
  destruct (cofactor_arg m c tc level Hi Hc Hcc Hlc) as (Hvc & Hwc & Hcl & Hch & Hhc).
  fold na va in Hva, Hal, Hah, Hha. fold nb vb in Hvb, Hbl, Hbh, Hhb.
  fold nc vc in Hvc, Hcl, Hch, Hhc.
  assert (forall x, (height (cof x level ta) + height (cof x level tb) +
    height (cof x level tc) < k)%nat) as Hlt.
  { intros x. pose proof (height_cof x level ta). pose proof (height_cof x level tb).
    pose proof (height_cof x level tc).
    destruct Hl as [Hl|[Hl|Hl]];
      [specialize (Hha Hl x)|specialize (Hhb Hl x)|specialize (Hhc Hl x)]; lia. }
  wp_step. eapply wp_mono; [apply Hsub; try done; by eapply arg_weaken|].
  intros [low high] m1 (Hi1 & HR & Hlow & Hhigh).
  eapply wp_mono.
  - eapply (finish_spec (D := gc_discipline) m1 level low high _ _ 0); try done;
      [lia|by eapply rep_edge, Ha|by apply above_ite; apply above_cof..|].
    intros r m2 (Hi2 & HR2 & Hd). exists (sem ta), (sem tb), (sem tc).
    assert (keeps m m2) as HRm by (by etrans).
    split; [by eapply (arg_den m m2)|].
    split; [by eapply (arg_den m m2)|].
    split; [by eapply (arg_den m m2)|].
    eapply den_ext; [|exact Hd]. intros e. by apply sem_ite_cof.
  - intros r m2 Hret. eapply (returns_trans (D := gc_discipline)); [exact HR|].
    eapply returns_ext; [|exact Hret]. intros e. by apply sem_ite_cof.
Qed.

Lemma isconst_neq d : (d =? sylvan_true) = false -> (d =? sylvan_false) = false ->
  sylvan_isconst d = false.
Proof. unfold sylvan_isconst. change mtbdd_true with sylvan_true. change mtbdd_false with sylvan_false. by intros -> ->. Qed.

(** The recursive part of the code, with the two halves joined. *)
Definition ite_rest (sub : N -> N -> N -> N -> N -> N -> N -> prog mgr (N * N))
    (mark : bool) (a b c prev_level : N) : prog mgr N :=
  let marked (result : N) := if mark : bool then sylvan_not result else result in
  m ← gets id;
  let na := MTBDD_GETNODE m a in
  let nb := MTBDD_GETNODE m b in
  let nc := MTBDD_GETNODE m c in
  let va := mtbddnode_getvariable na in
  let vb := mtbddnode_getvariable nb in
  let vc := mtbddnode_getvariable nc in
  let level := if vb <? vc then vb else vc in
  if (va <? level) && (mtbddnode_followlow a na =? sylvan_false)
     && (mtbddnode_followhigh a na =? sylvan_true) then
    result ← mtbdd_makenode va c b;
    mret (marked result)
  else
    let level := if va <? level then va else level in
    let cachenow := use_cache (granularity m) prev_level level in
    hit ← (if cachenow then cache_get3 CACHE_BDD_ITE a b c else mret None);
    match hit with
    | Some result => mret (marked result)
    | None =>
        result ← ('(low, high) ← sub (cofactor_low level va a na) (cofactor_high level va a na)
                     (cofactor_low level vb b nb) (cofactor_high level vb b nb)
                     (cofactor_low level vc c nc) (cofactor_high level vc c nc) level;
                  result ← mtbdd_makenode level low high;
                  _ ← (if cachenow then cache_put3 CACHE_BDD_ITE a b c result else mret false);
                  mret result);
        mret (marked result)
    end.

Lemma ite_rest_spec k rec (m : mgr) mark a b c prev ta tb tc f :
  ite_rec_spec k rec -> mgr_inv m -> arg m 0 a ta -> arg m 0 b tb -> arg m 0 c tc ->
  (height ta + height tb + height tc < S k)%nat ->
  sylvan_isconst a = false -> sylvan_isconst b = false -> sylvan_isconst c = false ->
  (forall e, xorb mark (ite_sem ta tb tc e) = f e) ->
  wp (ite_rest (ite_halves rec) mark a b c prev) (returns m f) full_only m.
Proof.
  intros Hrec Hi Ha Hb Hc Hh Hca Hcb Hcc Hf.
  assert (forall r m', returns m (ite_sem ta tb tc) r m' ->
    returns m f (if mark then sylvan_not r else r) m') as Hmark.
  { intros r m' Hr. eapply returns_ext; [exact Hf|]. destruct mark; [by apply returns_not in Hr|].
    eapply returns_ext; [|exact Hr]. intros e. by destruct (ite_sem ta tb tc e). }
  unfold ite_rest. wp_step. wp_step. unfold id.
  destruct (node_arg m 0 a ta Hi Ha Hca) as (va & lo & hi & Hta & Hva & Hlo & Hhi).
  rewrite Hva.
  assert (wf 0 ta) as Hwa by apply Ha. rewrite Hta in Hwa. destruct Hwa as (_ & Hva24 & _).
  set (vb := mtbddnode_getvariable (MTBDD_GETNODE m b)).
  set (vc := mtbddnode_getvariable (MTBDD_GETNODE m c)).
  destruct (_ && _) eqn:Hfast.
  { apply andb_prop in Hfast as [Hfast Hh1%N.eqb_eq]. apply andb_prop in Hfast as [Hlt Hl0%N.eqb_eq].
    rewrite Hl0 in Hlo. rewrite Hh1 in Hhi.
    apply proj1 in Hlo, Hhi. apply (denotes_const_inv _ _ false) in Hlo.
    apply (denotes_const_inv _ _ true) in Hhi. subst lo hi.
    assert (va < vb /\ va < vc) as [Hlb Hlc].
    { apply N.ltb_lt in Hlt. clear -Hlt. destruct (N.ltb_spec vb vc); lia. }
    destruct (cofactor_arg m b tb (va + 1) Hi Hb Hcb ltac:(fold vb; lia)) as (_ & Hwb & _).
    destruct (cofactor_arg m c tc (va + 1) Hi Hc Hcc ltac:(fold vc; lia)) as (_ & Hwc & _).
    wp_step. eapply wp_mono.
    - apply (makenode_spec va c b tc tb); try done; (split; [|done]); [apply Hc|apply Hb].
    - intros r m' (Hi' & Hk & Hd). apply wp_ret, Hmark. split; [done|]. split; [done|].
      eapply den_ext; [|by eapply denotes_den]. intros e. rewrite sem_mknode. unfold ite_sem.
      rewrite Hta. cbn. by destruct (e va). }
  clear Hfast. wp_step.
  apply (cache_get_spec m 0); [done|by eapply rep_edge, Ha|done|..].
  - intros r (f0 & g0 & h0 & Hf0 & Hg0 & Hh0 & Hr). apply wp_ret, Hmark.
    split; [done|]. split; [done|]. eapply den_ext; [|exact Hr]. intros e. cbn. unfold ite_sem.
    by rewrite (den_arg_unique m 0 a ta f0 Ha Hf0), (den_arg_unique m 0 b tb g0 Hb Hg0),
      (den_arg_unique m 0 c tc h0 Hc Hh0).
  - wp_step. rewrite <- Hva. eapply wp_mono.
    + apply (ite_step k (ite_halves rec) m a b c ta tb tc); try done.
      intros. by apply (ite_halves_spec k rec).
    + intros r m' Hr. by apply wp_ret, Hmark.
Qed.

Lemma ite_unfold fuel a b c prev (m : mgr) :
  sylvan_ite (S fuel) a b c prev m =
  (if a =? sylvan_true then mret b
   else if a =? sylvan_false then mret c
   else
     let '(b, c) := ite_operands a b c in
     if b =? c then mret b
     else if (b =? sylvan_true) && (c =? sylvan_false) then mret a
     else if (b =? sylvan_false) && (c =? sylvan_true) then mret (sylvan_not a)
     else if c =? sylvan_false then sylvan_and (S fuel) a b prev
     else if b =? sylvan_true then
       r ← sylvan_and (S fuel) (sylvan_not a) (sylvan_not c) prev; mret (sylvan_not r)
     else if b =? sylvan_false then sylvan_and (S fuel) (sylvan_not a) c prev
     else if c =? sylvan_true then
       r ← sylvan_and (S fuel) a (sylvan_not b) prev; mret (sylvan_not r)
     else if b =? sylvan_not c then sylvan_xor (S fuel) a c 0
     else
       let '(mark, a, b, c) := ite_normal a b c in
       ite_rest (ite_halves (sylvan_ite fuel)) mark a b c prev : prog mgr N) m.
Proof.
  cbn [sylvan_ite]. destruct (a =? sylvan_true); [done|]. destruct (a =? sylvan_false); [done|].
  destruct (ite_operands a b c) as [b' c']. destruct (b' =? c'); [done|].
  destruct (_ && _); [done|]. destruct (_ && _); [done|].
  destruct (c' =? sylvan_false); [done|]. destruct (b' =? sylvan_true); [done|].
  destruct (b' =? sylvan_false); [done|]. destruct (c' =? sylvan_true); [done|].
  destruct (b' =? sylvan_not c'); [done|]. destruct (ite_normal a b' c') as [[[mark a''] b''] c''].
  unfold ite_rest, ite_halves, mbind, prog_bind, mret, prog_ret, gets, id.
  match goal with |- (if ?x then _ else _) _ = _ => destruct x; [done|] end.
  run_cases.
Qed.

Lemma sylvan_ite_spec fuel : ite_rec_spec fuel (sylvan_ite (T := T) (C := C) fuel).
Proof.
  induction fuel as [|fuel IH]; intros m a b c prev ta tb tc Hi Ha Hb Hc Hh; [lia|].
  unfold wp. rewrite ite_unfold.
  match goal with |- match ?p m with _ => _ end => change (wp p
    (returns m (ite_sem ta tb tc)) full_only m) end.
  destruct (ite_half_const m a b c ta tb tc Hi Ha Hb Hc) as [Ht Hf].
  destruct (N.eqb_spec a sylvan_true) as [E1|Ha1].
  { apply wp_ret. eapply returns_ext; [exact (Ht E1)|]. by eapply arg_returns. }
  destruct (N.eqb_spec a sylvan_false) as [E1|Ha2].
  { apply wp_ret. eapply returns_ext; [exact (Hf E1)|]. by eapply arg_returns. }
  clear Ht Hf. apply N.eqb_neq in Ha1, Ha2.
  destruct (ite_operands_spec m a b c ta tb tc Ha Hb Hc)
    as (b' & c' & tb' & tc' & -> & Hb' & Hc' & Hhb & Hhc & Hsem).
  pose proof (arg_not _ _ _ _ Ha) as Hna.
  assert (forall p f, wp p (returns m f) full_only m -> (forall e, f e = ite_sem ta tb' tc' e) ->
    wp p (returns m (ite_sem ta tb tc)) full_only m) as Hend.
  { intros p f Hp Hfe. eapply wp_mono; [exact Hp|]. intros r m'. apply returns_ext.
    intros e. by rewrite Hfe, Hsem. }
  assert (forall p f, wp p (returns m f) full_only m ->
    (forall e, negb (f e) = ite_sem ta tb' tc' e) ->
    wp (r ← p; mret (sylvan_not r)) (returns m (ite_sem ta tb tc)) full_only m) as Hendn.
  { intros p f Hp Hfe. wp_step. eapply wp_mono; [exact Hp|]. intros r m' Hr. apply wp_ret.
    eapply returns_ext; [|apply returns_not, Hr]. intros e. cbn. by rewrite Hfe, Hsem. }
  destruct (N.eqb_spec b' c') as [->|Hbc].
  { eapply Hend; [apply wp_ret; by eapply arg_returns|]. intros e. unfold ite_sem.
    rewrite (arg_eq _ _ _ _ _ Hb' Hc'). by destruct (sem ta e). }
  assert (b' = sylvan_true -> forall e, sem tb' e = true) as Hbt.
  { intros -> e. by rewrite (denotes_const_inv _ _ true _ (proj1 Hb')). }
  assert (b' = sylvan_false -> forall e, sem tb' e = false) as Hbf.
  { intros -> e. by rewrite (denotes_const_inv _ _ false _ (proj1 Hb')). }
  assert (c' = sylvan_true -> forall e, sem tc' e = true) as Hct.
  { intros -> e. by rewrite (denotes_const_inv _ _ true _ (proj1 Hc')). }
  assert (c' = sylvan_false -> forall e, sem tc' e = false) as Hcf.
  { intros -> e. by rewrite (denotes_const_inv _ _ false _ (proj1 Hc')). }
  destruct (_ && _) eqn:E1.
  { apply andb_prop in E1 as [Eb%N.eqb_eq Ec%N.eqb_eq].
    eapply Hend; [apply wp_ret; by eapply arg_returns|]. intros e. unfold ite_sem.
    rewrite (Hbt Eb), (Hcf Ec). by destruct (sem ta e). }
  destruct ((b' =? sylvan_false) && _) eqn:E2.
  { apply andb_prop in E2 as [Eb%N.eqb_eq Ec%N.eqb_eq].
    eapply Hend; [apply wp_ret; by eapply arg_returns|]. intros e. unfold ite_sem.
    rewrite sem_neg, (Hbf Eb), (Hct Ec). by destruct (sem ta e). }
  destruct (N.eqb_spec c' sylvan_false) as [Ec|Hc1].
  { eapply Hend; [apply (sylvan_and_spec (S fuel) m a b' prev ta tb'); try done; lia|].
    intros e. unfold ite_sem. rewrite (Hcf Ec). by destruct (sem ta e). }
  destruct (N.eqb_spec b' sylvan_true) as [Eb|Hb1].
  { eapply Hendn; [eapply (sylvan_and_spec (S fuel)); [done|exact Hna|by apply arg_not|]|].
    { rewrite !height_neg. lia. }
    intros e. cbn. unfold ite_sem. rewrite !sem_neg, (Hbt Eb).
    by destruct (sem ta e), (sem tc' e). }
  destruct (N.eqb_spec b' sylvan_false) as [Eb|Hb2].
  { eapply Hend; [eapply (sylvan_and_spec (S fuel)); [done|exact Hna|exact Hc'|]|].
    { rewrite !height_neg. lia. }
    intros e. cbn. unfold ite_sem. rewrite !sem_neg, (Hbf Eb). by destruct (sem ta e). }
  destruct (N.eqb_spec c' sylvan_true) as [Ec|Hc2].
  { eapply Hendn; [eapply (sylvan_and_spec (S fuel)); [done|exact Ha|by apply arg_not|]|].
    { rewrite !height_neg. lia. }
    intros e. cbn. unfold ite_sem. rewrite !sem_neg, (Hct Ec).
    by destruct (sem ta e), (sem tb' e). }
  destruct (N.eqb_spec b' (sylvan_not c')) as [Eb|_].
  { eapply Hend; [apply (sylvan_xor_spec (S fuel) m a c' 0 ta tc'); try done; lia|].
    intros e. unfold ite_sem. subst b'. rewrite (arg_eq _ _ _ _ _ Hb' (arg_not _ _ _ _ Hc')).
    rewrite sem_neg. by destruct (sem ta e), (sem tc' e). }
  apply N.eqb_neq in Hb1, Hb2, Hc1, Hc2.
  destruct (ite_normal_spec m a b' c' ta tb' tc' Ha Hb' Hc') as
    (mark & a2 & b2 & c2 & ta2 & tb2 & tc2 & -> & Ha2' & Hb2' & Hc2' & Hca & Hcb & Hcc & Hh2 & Hs2);
    [by apply isconst_neq..|].
  apply (ite_rest_spec fuel (sylvan_ite fuel) m mark a2 b2 c2 prev ta2 tb2 tc2); try done; [lia|].
  intros e. by rewrite Hs2, Hsem.
Qed.
End variants.
End BddApplyFacts.
