(* ===== verification/Serialize.v ===== *)
(** The serialization of diagrams of sylvan/src/sylvan_bdd.c: every node that has been added gets
    a number, after its children; a file lists the nodes in the order of their numbers, with the
    numbers of their children in place of their edges.  A file is a list of 64-bit words. *)

From S2P Require Import Prelude MtbddNode NodeStore MtbddCore BddApply Avl.

Module Serialize.
Import MtbddNode NodeStore MtbddCore BddApply Avl.

Record sylvan_ser := mk_ser { bdd : N; assigned : N }.

Definition compare_words (left right : N) : Z :=
  if right <? left then 1%Z else if left <? right then (-1)%Z else 0%Z.
Definition sylvan_ser_AVL_compare : AvlCompare sylvan_ser := fun left right => compare_words (bdd left) (bdd right).
Definition sylvan_ser_reversed_AVL_compare : AvlCompare sylvan_ser := fun left right =>
  compare_words (assigned left) (assigned right).

Definition sylvan_ser_put := put (H := sylvan_ser_AVL_compare).
Definition sylvan_ser_insert := insert_elt (H := sylvan_ser_AVL_compare).
Definition sylvan_ser_search := search (H := sylvan_ser_AVL_compare).
Definition sylvan_ser_write := write_elt (H := sylvan_ser_AVL_compare).
Definition sylvan_ser_reversed_insert := insert_elt (H := sylvan_ser_reversed_AVL_compare).
Definition sylvan_ser_reversed_search := search (H := sylvan_ser_reversed_AVL_compare).

(** The static variables. *)
Record serial := mk_serial {
  sylvan_ser_set : avl_node sylvan_ser;
  sylvan_ser_reversed_set : avl_node sylvan_ser;
  sylvan_ser_counter : N;
  sylvan_ser_done : N
}.
Definition serial_init : serial := mk_serial Null Null 1 0.

Definition set_ser (t : avl_node sylvan_ser) (s : serial) : serial :=
  mk_serial t (sylvan_ser_reversed_set s) (sylvan_ser_counter s) (sylvan_ser_done s).
Definition set_reversed (t : avl_node sylvan_ser) (s : serial) : serial :=
  mk_serial (sylvan_ser_set s) t (sylvan_ser_counter s) (sylvan_ser_done s).
Definition set_counter (n : N) (s : serial) : serial :=
  mk_serial (sylvan_ser_set s) (sylvan_ser_reversed_set s) n (sylvan_ser_done s).
Definition set_done (n : N) (s : serial) : serial :=
  mk_serial (sylvan_ser_set s) (sylvan_ser_reversed_set s) (sylvan_ser_counter s) n.

Section serialize.
Context {T C : Type} `{NodeTable T} `{OpCache C}.
Notation mgr := (mgr T C).

(** The package and the static variables. *)
Record state := mk_state { pkg : mgr; ser : serial }.

Definition on_ser (f : serial -> serial) : prog state unit := modify (fun c => mk_state (pkg c) (f (ser c))).
Definition on_pkg {A} (p : prog mgr A) : prog state A := fun c =>
  match p (pkg c) with
  | Done a m => Done a (mk_state m (ser c))
  | Exit r m => Exit r (mk_state m (ser c))
  | NoFuel => NoFuel
  end.
Definition deref {A} (o : option A) : prog state A :=
  match o with Some a => mret a | None => exit NullPointer end.

Fixpoint sylvan_serialize_assign_rec (fuel : nat) (d : N) : prog state N :=
  if sylvan_isnode d then
    match fuel with
    | O => no_fuel
    | S fuel =>
        n ← gets (fun c => MTBDD_GETNODE (pkg c) d);
        let s := mk_ser (MTBDD_STRIPMARK d) 0 in
        ss ← gets (fun c => sylvan_ser_search (sylvan_ser_set (ser c)) s);
        match ss with
        | Some ss => mret (assigned ss)
        | None =>
            t ← gets (fun c => sylvan_ser_set (ser c));
            '(t, _, _) ← deref (sylvan_ser_put t s);
            _ ← on_ser (set_ser t);
            _ ← sylvan_serialize_assign_rec fuel (mtbddnode_getlow n);
            _ ← sylvan_serialize_assign_rec fuel (mtbddnode_gethigh n);
            c ← gets ser;
            let ss := mk_ser (MTBDD_STRIPMARK d) (sylvan_ser_counter c) in
            _ ← on_ser (set_counter (add64 (sylvan_ser_counter c) 1));
            _ ← on_ser (set_ser (sylvan_ser_write (sylvan_ser_set c) s ss));
            '(t, _) ← deref (sylvan_ser_reversed_insert (sylvan_ser_reversed_set c) ss);
            _ ← on_ser (set_reversed t);
            mret (assigned ss)
        end
    end
  else mret (MTBDD_STRIPMARK d).

Definition sylvan_serialize_add (fuel : nat) (d : N) : prog state N :=
  v ← sylvan_serialize_assign_rec fuel d; mret (MTBDD_TRANSFERMARK d v).

Definition sylvan_serialize_reset : prog state unit :=
  on_ser (fun s => mk_serial (free_all (sylvan_ser_set s)) (free_all (sylvan_ser_reversed_set s)) 1 0).

(** [None] is a failed assertion. *)
Definition number_of (s : serial) (d : N) : option N :=
  if negb (sylvan_isnode d) then Some d
  else
    match sylvan_ser_search (sylvan_ser_set s) (mk_ser (MTBDD_STRIPMARK d) 0) with
    | None => None
    | Some ss => Some (MTBDD_TRANSFERMARK d (assigned ss))
    end.
Definition diagram_of (s : serial) (value : N) : option N :=
  if negb (sylvan_isnode value) then Some value
  else
    match sylvan_ser_reversed_search (sylvan_ser_reversed_set s) (mk_ser 0 (MTBDD_STRIPMARK value)) with
    | None => None
    | Some ss => Some (MTBDD_TRANSFERMARK value (bdd ss))
    end.
Definition asserted {A} (o : option A) : prog state A :=
  match o with Some a => mret a | None => exit AssertFailed end.
Definition assert_that (b : bool) : prog state unit := if b then mret tt else exit AssertFailed.

Definition sylvan_serialize_get (d : N) : prog state N := c ← gets ser; asserted (number_of c d).
Definition sylvan_serialize_get_reversed (value : N) : prog state N := c ← gets ser; asserted (diagram_of c value).

(** ** Writing *)

(** The numbers that a line of text has: of the node, its variable, its edges, and the mark. *)
Definition text_line (m : mgr) (s : sylvan_ser) : list N :=
  let n := MTBDD_GETNODE m (bdd s) in
  [assigned s; mtbddnode_getvariable n; mtbddnode_getlow n; MTBDD_STRIPMARK (mtbddnode_gethigh n);
   if MTBDD_HASMARK (mtbddnode_gethigh n) then 1 else 0].

Definition iterate {A} (it : avl_iter_t) (k : option sylvan_ser -> avl_iter_t -> prog state A) : prog state A :=
  c ← gets ser;
  '(s, it) ← deref (avl_iter_next (sylvan_ser_reversed_set c) it);
  k s it.

Fixpoint text_loop (fuel : nat) (it : avl_iter_t) : prog state (list (list N)) :=
  match fuel with
  | O => no_fuel
  | S fuel =>
      iterate it (fun s it =>
        match s with
        | None => mret []
        | Some s => m ← gets pkg; l ← text_loop fuel it; mret (text_line m s :: l)
        end)
  end.

Definition sylvan_serialize_totext : prog state (list (list N)) :=
  c ← gets ser;
  text_loop (S (N.to_nat (avl_count (sylvan_ser_reversed_set c)))) (avl_iter (sylvan_ser_reversed_set c)).

(** The entries that are in the file already. *)
Fixpoint skip_loop (fuel : nat) (index : N) (it : avl_iter_t) : prog state (N * avl_iter_t) :=
  c ← gets ser;
  if index <? sylvan_ser_done c then
    match fuel with
    | O => no_fuel
    | S fuel =>
        iterate it (fun s it =>
          match s with
          | None => mret (index, it)
          | Some s => _ ← assert_that (assigned s =? index + 1); skip_loop fuel (index + 1) it
          end)
    end
  else mret (index, it).

Definition write_entry (s : sylvan_ser) : prog state mtbddnode :=
  m ← gets pkg;
  let n := MTBDD_GETNODE m (bdd s) in
  low ← sylvan_serialize_get (mtbddnode_getlow n);
  high ← sylvan_serialize_get (mtbddnode_gethigh n);
  mret (mtbddnode_makenode (mtbddnode_getvariable n) low high).

Fixpoint write_loop (fuel : nat) (index : N) (it : avl_iter_t) : prog state (list N) :=
  match fuel with
  | O => no_fuel
  | S fuel =>
      iterate it (fun s it =>
        match s with
        | None => mret []
        | Some s =>
            _ ← assert_that (assigned s =? index + 1);
            node ← write_entry s;
            l ← write_loop fuel (index + 1) it;
            mret (node.1 :: node.2 :: l)
        end)
  end.

(** The words that are written. *)
Definition sylvan_serialize_tofile : prog state (list N) :=
  c ← gets ser;
  let count := avl_count (sylvan_ser_reversed_set c) in
  _ ← assert_that (sylvan_ser_done c <=? count);
  _ ← assert_that (count =? sub64 (sylvan_ser_counter c) 1);
  let fuel := S (N.to_nat count) in
  '(index, it) ← skip_loop fuel 0 (avl_iter (sylvan_ser_reversed_set c));
  l ← write_loop fuel index it;
  _ ← on_ser (set_done (sub64 (sylvan_ser_counter c) 1));
  mret (count - sylvan_ser_done c :: l).

(** ** Reading *)

(** The words that are left. *)
Fixpoint read_loop (count : N) (file : list N) : prog state (list N) :=
  if count =? 0 then mret file
  else
    match file with
    | a :: b :: file =>
        let node := (a, b) in
        low ← sylvan_serialize_get_reversed (mtbddnode_getlow node);
        high ← sylvan_serialize_get_reversed (mtbddnode_gethigh node);
        d ← on_pkg (mtbdd_makenode (mtbddnode_getvariable node) low high);
        c ← gets ser;
        let s := mk_ser d (add64 (sylvan_ser_done c) 1) in
        _ ← on_ser (set_done (add64 (sylvan_ser_done c) 1));
        '(t, _) ← deref (sylvan_ser_insert (sylvan_ser_set c) s);
        _ ← on_ser (set_ser t);
        '(t, _) ← deref (sylvan_ser_reversed_insert (sylvan_ser_reversed_set c) s);
        _ ← on_ser (set_reversed t);
        read_loop (count - 1) file
    | _ => exit BadFormat
    end.

Definition sylvan_serialize_fromfile (file : list N) : prog state (list N) :=
  match file with
  | [] => exit BadFormat
  | count :: file => read_loop count file
  end.
End serialize.

Arguments state : clear implicits.
End Serialize.
