(* ===== verification/SerializeFacts.v ===== *)
(** Serialization of diagrams: the invariant of the numbers, and what is written. *)

From stdpp Require Import sorting.
From Stdlib Require Import Sorted.
From S2P Require Import Prelude MtbddNode BddTree OpSpecs NodeStore MtbddCore MtbddCoreFacts BddApply BddApplyFacts.
From S2P Require Import Avl AvlFacts Serialize.

Module SerializeFacts.
Import MtbddNode BddTree OpSpecs NodeStore MtbddCore MtbddCoreFacts BddApply BddApplyFacts Avl AvlFacts Serialize.

(** ** The two orders *)

Lemma compare_words_spec a b : (compare_words a b ?= 0)%Z = (a ?= b).
Proof.
  unfold compare_words. destruct (N.ltb_spec b a), (N.ltb_spec a b), (N.compare_spec a b); done || lia.
Qed.

Definition ser_order : @AvlOrder sylvan_ser sylvan_ser_AVL_compare :=
  {| avl_key := bdd; avl_compare_key x y := compare_words_spec (bdd x) (bdd y) |}.
Definition reversed_order : @AvlOrder sylvan_ser sylvan_ser_reversed_AVL_compare :=
  {| avl_key := assigned; avl_compare_key x y := compare_words_spec (assigned x) (assigned y) |}.

Notation diagrams s := (contents (H0 := ser_order) (sylvan_ser_set s)).
Notation numbers s := (contents (H0 := reversed_order) (sylvan_ser_reversed_set s)).

(** Both trees are balanced search trees. *)
Definition trees_ok (s : serial) : Prop :=
  avl_ok (H0 := ser_order) (sylvan_ser_set s) /\ avl_ok (H0 := reversed_order) (sylvan_ser_reversed_set s).

Lemma diagrams_bdd s b e : trees_ok s -> diagrams s !! b = Some e -> bdd e = b.
Proof. intros [[[_ Hs] _] _] He. by apply (contents_lookup (H0 := ser_order)) in He as [_ Hk]. Qed.
Lemma numbers_assigned s i e : trees_ok s -> numbers s !! i = Some e -> assigned e = i.
Proof. intros [_ [[_ Hs] _]] He. by apply (contents_lookup (H0 := reversed_order)) in He as [_ Hk]. Qed.

Lemma search_diagrams s d : trees_ok s -> sylvan_ser_search (sylvan_ser_set s) d = diagrams s !! bdd d.
Proof. intros [[[_ Hs] _] _]. apply (search_contents (H0 := ser_order) _ _ Hs). Qed.
Lemma search_numbers s d : trees_ok s -> sylvan_ser_reversed_search (sylvan_ser_reversed_set s) d = numbers s !! assigned d.
Proof. intros [_ [[_ Hs] _]]. apply (search_contents (H0 := reversed_order) _ _ Hs). Qed.

(** Distinct numbers below a bound. *)
Lemma inj_bound (f : N -> N) n B :
  (forall i, i < n -> f i < B) -> (forall i j, i < n -> j < n -> f i = f j -> i = j) -> n <= B.
Proof.
  intros Hf Hi. assert (NoDup (map (fun i => f (N.of_nat i)) (seq 0 (N.to_nat n)))) as Hnd.
  { apply NoDup_fmap_2_strong; [|apply NoDup_seq]. intros i j [_ Hx]%elem_of_seq [_ Hy]%elem_of_seq E.
    apply Hi in E; lia. }
  apply NoDup_ListNoDup in Hnd.
  pose proof (NoDup_incl_length Hnd (l' := map N.of_nat (seq 0 (N.to_nat B)))) as Hlen.
  rewrite !length_map, !length_seq in Hlen. assert (N.to_nat n <= N.to_nat B)%nat; [|lia]. apply Hlen.
  intros x Hx. apply in_map_iff in Hx as (i & <- & Hx%in_seq). apply in_map_iff.
  exists (N.to_nat (f (N.of_nat i))). split; [lia|]. apply in_seq. specialize (Hf (N.of_nat i)). lia.
Qed.

(** Carrying a mark over. *)
Lemma transfer_mark c i d : i < 2 ^ 40 -> MTBDD_TRANSFERMARK (mk_edge c i) d = if c then MTBDD_TOGGLEMARK d else d.
Proof.
  intros Hi. unfold MTBDD_TRANSFERMARK, MTBDD_TOGGLEMARK.
  assert (N.land (mk_edge c i) mtbdd_complement = if c then mtbdd_complement else 0) as ->.
  { unfold mk_edge. destruct c; edge_bits. }
  destruct c; [done|apply N.lxor_0_r].
Qed.

Lemma rep_transfer s c i d t :
  i < 2 ^ 40 -> rep s d t -> rep s (MTBDD_TRANSFERMARK (mk_edge c i) d) (xneg c t).
Proof. intros Hi Hd. rewrite transfer_mark by done. destruct c; [by apply rep_toggle|done]. Qed.

Lemma isnode_edge c i : i < 2 ^ 40 -> sylvan_isnode (mk_edge c i) = negb (i =? 0).
Proof.
  intros Hi. unfold sylvan_isnode. change mtbdd_true with (mk_edge true 0). change mtbdd_false with (mk_edge false 0).
  destruct (N.eqb_spec i 0) as [->|Hne]; [by destruct c|].
  rewrite !(proj2 (N.eqb_neq _ _)); [done|..]; intros E; apply mk_edge_inj in E as [_ E]; done || lia.
Qed.

(** ** The invariant of the numbers *)

Section writer.
Context {T C : Type} `{NodeTableLaws T} `{OpCacheLaws C}.
Notation mgr := (mgr T C).
Notation state := (state T C).
Context (m : mgr) (Hm : mgr_inv m).
Implicit Types (s : serial) (O : gset N) (e : sylvan_ser).

(** The index [x] has a number before [i], or is that of the constants. *)
Definition numbered s (i x : N) : Prop :=
  x = 0 \/ exists e, diagrams s !! x = Some e /\ 0 < assigned e < i.

Record entry_ok s e : Prop := {
  eo_diagram : diagrams s !! bdd e = Some e;
  eo_range : 0 < bdd e < 2 ^ 40;
  eo_denotes : exists t, denotes (st m) 0 (bdd e) t;
  eo_low : numbered s (assigned e) (mtbddnode_getlow (MTBDD_GETNODE m (bdd e)));
  eo_high : numbered s (assigned e) (MTBDD_STRIPMARK (mtbddnode_gethigh (MTBDD_GETNODE m (bdd e))))
}.

(** The nodes in [O] have been entered, and have no number yet. *)
Record writer s O : Prop := {
  wr_trees : trees_ok s;
  wr_counter : 1 <= sylvan_ser_counter s;
  wr_done : sylvan_ser_done s < sylvan_ser_counter s;
  wr_numbers : forall i, is_Some (numbers s !! i) <-> 1 <= i < sylvan_ser_counter s;
  wr_entry : forall i e, numbers s !! i = Some e -> entry_ok s e;
  wr_diagram : forall b e, diagrams s !! b = Some e -> b ∉ O -> numbers s !! assigned e = Some e;
  wr_open : forall b, b ∈ O -> diagrams s !! b = Some (mk_ser b 0) /\ 0 < b < 2 ^ 40
}.

(** What a writer keeps. *)
Definition more s s' : Prop :=
  sylvan_ser_done s' = sylvan_ser_done s /\
  (forall b e, diagrams s !! b = Some e -> 0 < assigned e -> diagrams s' !! b = Some e) /\
  forall i e, numbers s !! i = Some e -> numbers s' !! i = Some e.

#[export] Instance more_preorder : PreOrder more.
Proof.
  split; [by intros s|]. intros s1 s2 s3 (D1 & B1 & N1) (D2 & B2 & N2). split; [congruence|]. split; eauto.
Qed.

Lemma numbered_more s s' i i' x : more s s' -> i <= i' -> numbered s i x -> numbered s' i' x.
Proof.
  intros (_ & Hb & _) Hi [->|(e & He & Hp)]; [by left|right]. exists e. split; [|lia]. apply Hb; [done|lia].
Qed.

Lemma entry_more s s' e : more s s' -> 0 < assigned e -> entry_ok s e -> entry_ok s' e.
Proof.
  intros Hmore Hp []. split; try done; [|by eapply numbered_more..]. by apply (proj1 (proj2 Hmore)).
Qed.

Lemma number_pos s O i e : writer s O -> numbers s !! i = Some e -> 0 < assigned e < sylvan_ser_counter s.
Proof.
  intros Hw He. rewrite (numbers_assigned s i e (wr_trees _ _ Hw) He).
  assert (is_Some (numbers s !! i)) as Hs by eauto. apply (wr_numbers _ _ Hw) in Hs. lia.
Qed.

(** The numbers are those of distinct nodes. *)
Lemma counter_bound s O : writer s O -> sylvan_ser_counter s <= 2 ^ 40.
Proof.
  intros Hw. set (f := fun i => match numbers s !! (i + 1) with Some e => bdd e - 1 | None => 0 end).
  assert (forall i, i < sylvan_ser_counter s - 1 -> exists e, numbers s !! (i + 1) = Some e /\ f i = bdd e - 1 /\
    entry_ok s e /\ assigned e = i + 1) as Hf.
  { intros i Hi. destruct (proj2 (wr_numbers _ _ Hw (i + 1))) as [e He]; [lia|]. exists e. split; [done|].
    split; [unfold f; by rewrite He|]. split; [by eapply wr_entry|by apply (numbers_assigned s _ _ (wr_trees _ _ Hw))]. }
  assert (sylvan_ser_counter s - 1 <= 2 ^ 40 - 1); [|pose proof (wr_counter _ _ Hw); lia].
  apply (inj_bound f).
  - intros i Hi. destruct (Hf i Hi) as (e & _ & -> & He & _). pose proof (eo_range _ _ He). lia.
  - intros i j Hi Hj E. destruct (Hf i Hi) as (e & _ & Ei & He & Ai), (Hf j Hj) as (e' & _ & Ej & He' & Aj).
    pose proof (eo_range _ _ He). pose proof (eo_range _ _ He').
    assert (bdd e = bdd e') as Eb by lia. pose proof (eo_diagram _ _ He) as Hd. pose proof (eo_diagram _ _ He') as Hd'.
    rewrite Eb, Hd' in Hd. injection Hd as ->. lia.
Qed.

Lemma counter_grows s s' O O' : writer s O -> writer s' O' -> more s s' -> sylvan_ser_counter s <= sylvan_ser_counter s'.
Proof.
  intros Hw Hw' (_ & _ & Hn). pose proof (wr_counter _ _ Hw'). destruct (decide (sylvan_ser_counter s = 1)) as [|Hne]; [lia|].
  pose proof (wr_counter _ _ Hw). destruct (proj2 (wr_numbers _ _ Hw (sylvan_ser_counter s - 1))) as [e He]; [lia|].
  apply Hn in He. assert (is_Some (numbers s' !! (sylvan_ser_counter s - 1))) as Hs by eauto.
  apply (wr_numbers _ _ Hw') in Hs. lia.
Qed.

(** ** Numbering *)

(** Entering a node. *)
Lemma writer_enter s O b :
  writer s O -> diagrams s !! b = None -> 0 < b < 2 ^ 40 ->
  exists t y, sylvan_ser_put (sylvan_ser_set s) (mk_ser b 0) = Some (t, y, true) /\
    writer (set_ser t s) ({[b]} ∪ O) /\ more s (set_ser t s).
Proof.
  intros Hw Hb Hr. pose proof (wr_trees _ _ Hw) as [Hset Hrev].
  destruct (put_spec (H0 := ser_order) _ (mk_ser b 0) Hset) as (t & y & ins & Hput & _).
  destruct (put_ok (H0 := ser_order) _ _ _ _ _ Hset Hput) as (Hok & Hy & Hc).
  change (avl_key (AvlOrder := ser_order) (mk_ser b 0)) with b in *. rewrite Hb in Hy. injection Hy as -> ->.
  exists t, (mk_ser b 0). split; [exact Hput|].
  assert (more s (set_ser t s)) as Hmore.
  { split; [done|]. split; [|done]. intros b' e He _. cbn. rewrite Hc, lookup_insert_ne; [done|]. congruence. }
  split; [|done]. destruct Hw as [_ Hcnt Hdone Hnum Hent Hdia Hopen]. split; try done.
  - intros i e He. apply (entry_more s); [done| |by eapply Hent].
    assert (is_Some (numbers s !! i)) as Hs by eauto. apply Hnum in Hs.
    rewrite (numbers_assigned s i e (conj Hset Hrev) He). lia.
  - intros b' e. cbn. rewrite Hc. intros He Hno. rewrite lookup_insert_ne in He by set_solver. apply (Hdia b'); [done|]. set_solver.
  - intros b' Hb'. cbn. rewrite Hc. destruct (decide (b' = b)) as [->|Hne]; [by rewrite lookup_insert_eq|].
    rewrite lookup_insert_ne by done. apply Hopen. set_solver.
Qed.

(** Giving it the next number. *)
Lemma writer_number s O b :
  writer s ({[b]} ∪ O) -> b ∉ O ->
  let e := mk_ser b (sylvan_ser_counter s) in
  (exists t, denotes (st m) 0 b t) ->
  numbered s (sylvan_ser_counter s) (mtbddnode_getlow (MTBDD_GETNODE m b)) ->
  numbered s (sylvan_ser_counter s) (MTBDD_STRIPMARK (mtbddnode_gethigh (MTBDD_GETNODE m b))) ->
  exists t, sylvan_ser_reversed_insert (sylvan_ser_reversed_set s) e = Some (t, true) /\
    let s' := mk_serial (sylvan_ser_write (sylvan_ser_set s) (mk_ser b 0) e) t (sylvan_ser_counter s + 1) (sylvan_ser_done s) in
    writer s' O /\ more s s' /\ diagrams s' !! b = Some e.
Proof.
  intros Hw HbO e Hden Hlow Hhigh. pose proof (wr_trees _ _ Hw) as [Hset Hrev].
  destruct (wr_open _ _ Hw b) as [Hopen Hb]; [set_solver|].
  destruct (elt_write_ok (H0 := ser_order) (sylvan_ser_set s) (mk_ser b 0) e Hset eq_refl) as [Hset' Hc']; [by eexists|].
  change (avl_key (AvlOrder := ser_order) (mk_ser b 0)) with b in Hc'.
  assert (numbers s !! sylvan_ser_counter s = None) as Hfresh.
  { apply eq_None_not_Some. intros Hs%(wr_numbers _ _ Hw). lia. }
  destruct (put_spec (H0 := reversed_order) _ e Hrev) as (t & y & ins & Hput & _).
  destruct (put_ok (H0 := reversed_order) _ _ _ _ _ Hrev Hput) as (Hrev' & Hy & Hc).
  change (avl_key (AvlOrder := reversed_order) e) with (sylvan_ser_counter s) in *. rewrite Hfresh in Hy. injection Hy as -> ->.
  exists t. split; [unfold sylvan_ser_reversed_insert, insert_elt; by rewrite Hput|]. intros s'.
  assert (more s s') as Hmore.
  { split; [done|]. split.
    - intros b' e' He' Hp. cbn. unfold sylvan_ser_write. rewrite Hc', lookup_insert_ne; [done|]. intros <-.
      rewrite Hopen in He'. injection He' as <-. done.
    - intros i e' He'. cbn. rewrite Hc, lookup_insert_ne; [done|]. intros <-. congruence. }
  assert (diagrams s' !! b = Some e) as Hbe by (cbn; unfold sylvan_ser_write; by rewrite Hc', lookup_insert_eq).
  split; [|done]. pose proof (counter_bound _ _ Hw) as H40.
  destruct Hw as [Htr Hcnt Hdone Hnum Hent Hdia Hop]. split; try done.
  - cbn. lia.
  - cbn. lia.
  - intros i. cbn. rewrite Hc. destruct (decide (sylvan_ser_counter s = i)) as [<-|Hne].
    + rewrite lookup_insert_eq. split; [lia|by eexists].
    + rewrite lookup_insert_ne, Hnum by done. lia.
  - intros i e'. cbn. rewrite Hc. destruct (decide (sylvan_ser_counter s = i)) as [<-|Hne].
    + rewrite lookup_insert_eq. intros [= <-]. split; try done.
      * eapply numbered_more; [exact Hmore| |exact Hlow]. done.
      * eapply numbered_more; [exact Hmore| |exact Hhigh]. done.
    + rewrite lookup_insert_ne by done. intros He'. apply (entry_more s); [done| |by eapply Hent].
      assert (is_Some (numbers s !! i)) as Hs by eauto. apply Hnum in Hs. rewrite (numbers_assigned s i e' Htr He'). lia.
  - intros b' e'. cbn. unfold sylvan_ser_write. rewrite Hc'. destruct (decide (b = b')) as [<-|Hne].
    + rewrite lookup_insert_eq. intros [= <-] _. rewrite Hc. apply lookup_insert_eq.
    + rewrite lookup_insert_ne by done. intros He' Hno. rewrite Hc, lookup_insert_ne.
      * apply (Hdia b'); [done|]. set_solver.
      * intros E. assert (numbers s !! assigned e' = Some e') as Hx by (apply (Hdia b'); [done|set_solver]). congruence.
  - intros b' Hb'. cbn. unfold sylvan_ser_write. rewrite Hc', lookup_insert_ne by set_solver. apply Hop. set_solver.
Qed.

Lemma getnode_st c i n : i < 2 ^ 40 -> st m i = Some n -> MTBDD_GETNODE m (mk_edge c i) = n.
Proof.
  intros Hi Hn. unfold MTBDD_GETNODE. rewrite index_mk by done. unfold st, store_of in Hn.
  destruct (nt_used (nodes m) i); congruence.
Qed.

(** A diagram that is not a constant, and its node. *)
Lemma node_cases d t :
  rep (st m) d t -> wf 0 t ->
  (exists c, d = mk_edge c 0 /\ t = Leaf c) \/
  (exists c i v l ch ih lo hi, d = mk_edge c i /\ t = xneg c (Node v lo hi) /\ 0 < i < 2 ^ 40 /\ v < 2 ^ 24 /\
     l < 2 ^ 40 /\ ih < 2 ^ 40 /\ MTBDD_GETNODE m d = mtbddnode_makenode v l (mk_edge ch ih) /\
     rep (st m) l lo /\ rep (st m) (mk_edge ch ih) hi /\ rep (st m) i (Node v lo hi) /\ wf 0 (Node v lo hi)).
Proof.
  intros Hr Hw. destruct (edge_mk d) as (c & i & Hi & ->); [by eapply rep_edge|].
  pose proof Hr as Hinv. apply rep_inv in Hinv as [[-> ->]|Hn]; [left; by eexists|right|done].
  destruct Hn as (v & l & h & lo & hi & Hi0 & Hv & Hl & Hh & Hst & Hlo & Hhi & ->).
  destruct (edge_mk h Hh) as (ch & ih & Hih & ->).
  exists c, i, v, l, ch, ih, lo, hi. split; [done|]. split; [done|]. do 4 (split; [done|]).
  split; [by apply getnode_st|]. do 2 (split; [done|]). split.
  - by apply (rep_node (st m) false i v l (mk_edge ch ih) lo hi).
  - by apply wf_xneg in Hw.
Qed.

(** The number of a diagram that has been added. *)
Definition numbers_to s d v : Prop :=
  exists c i, d = mk_edge c i /\ i < 2 ^ 40 /\
    (i = 0 /\ v = 0 \/ 0 < v /\ 0 < i /\ diagrams s !! i = Some (mk_ser i v)).

Lemma numbers_to_numbered s c i v : i < 2 ^ 40 -> numbers_to s (mk_edge c i) v -> forall k, v < k -> numbered s k i.
Proof.
  intros Hi (c' & i' & E & Hi' & Hv) k Hk. apply mk_edge_inj in E as [_ ->]; [|done..].
  destruct Hv as [[-> _]|(Hp & _ & He)]; [by left|right]. by eexists.
Qed.

Lemma numbers_to_more s s' d v : more s s' -> numbers_to s d v -> numbers_to s' d v.
Proof.
  intros (_ & Hb & _) (c & i & -> & Hi & Hv). exists c, i. split; [done|]. split; [done|].
  destruct Hv as [?|(Hp & ? & He)]; [by left|right]. split; [done|]. split; [done|]. by apply Hb.
Qed.

(** None of the nodes in [O] is below a diagram with tree [t]. *)
Definition above O t : Prop := forall b tb, b ∈ O -> rep (st m) b tb -> (height t < height tb)%nat.

Definition assign_post s O d : N -> state -> Prop := fun v c =>
  pkg c = m /\ writer (ser c) O /\ more s (ser c) /\ numbers_to (ser c) d v /\ v < sylvan_ser_counter (ser c).

Lemma wp_deref {A} (o : option A) (a : A) Q E (c : state) : o = Some a -> Q a c -> wp (deref o) Q E c.
Proof. intros ->. apply wp_ret. Qed.

Lemma assign_rec_spec fuel d t s O :
  rep (st m) d t -> wf 0 t -> (height t <= fuel)%nat -> writer s O -> above O t ->
  wp (sylvan_serialize_assign_rec fuel d) (assign_post s O d) (fun _ _ => False) (mk_state m s).
Proof using Hm.
  revert d t s O. induction fuel as [|fuel IH]; intros d t s O Hr Hwf Hfuel Hw Habove;
    destruct (node_cases d t Hr Hwf) as [(c & -> & ->)|(c & i & v & l & ch & ih & lo & hi & -> & -> & Hi & Hv & Hl & Hih & Hnode & Hlo & Hhi & Hrn & Hwn)];
    cbn [sylvan_serialize_assign_rec]; rewrite isnode_edge by (done || lia); cbn [N.eqb negb].
  1, 3: apply wp_ret; rewrite stripmark_mk by done; do 3 (split; [done|]); split;
    [exists c, 0; split; [done|]; split; [done|]; by left|pose proof (wr_counter _ _ Hw); cbn; lia].
  { rewrite height_xneg in Hfuel. cbn in Hfuel. lia. }
  rewrite (proj2 (N.eqb_neq i 0)) by lia. cbn [negb].
  rewrite height_xneg in Hfuel. cbn [height] in Hfuel. repeat wp_step. cbn [pkg ser].
  rewrite Hnode, stripmark_mk, (search_diagrams s) by (lia || exact (wr_trees _ _ Hw)). cbn [bdd].
  rewrite getlow_makenode, gethigh_makenode by (done || by apply mk_edge_edge).
  pose proof Hwn as (_ & _ & _ & Wlo & Whi). pose proof (wf_mono _ 0 lo (N.le_0_l _) Wlo) as Wlo0.
  pose proof (wf_mono _ 0 hi (N.le_0_l _) Whi) as Whi0.
  destruct (diagrams s !! i) as [e|] eqn:Hd.
  - assert (i ∉ O) as HiO.
    { intros HiO. specialize (Habove i _ HiO Hrn). rewrite height_xneg in Habove. lia. }
    apply wp_ret. do 3 (split; [done|]). pose proof (wr_diagram _ _ Hw i e Hd HiO) as Hn.
    pose proof (number_pos s O _ e Hw Hn) as Hp. split; [|exact (proj2 Hp)]. exists c, i. split; [done|]. split; [lia|]. right.
    split; [lia|]. split; [lia|]. pose proof (diagrams_bdd s i e (wr_trees _ _ Hw) Hd) as Eb. cbn. rewrite Hd. by destruct e; cbn in *; subst.
  - destruct (writer_enter s O i Hw Hd) as (t0 & y & Hput & Hw1 & Hm1); [lia|].
    assert (i ∉ O) as HiO by (intros HiO; destruct (wr_open _ _ Hw i HiO); congruence).
    assert (forall u, (height u < S (Nat.max (height lo) (height hi)))%nat -> above ({[i]} ∪ O) u) as Hup.
    { intros u Hu b tb Hb Hrb. apply elem_of_union in Hb as [->%elem_of_singleton|Hb].
      - rewrite (rep_functional _ _ _ _ Hrb Hrn). exact Hu.
      - specialize (Habove b tb Hb Hrb). rewrite height_xneg in Habove. cbn [height] in Habove. lia. }
    repeat wp_step. eapply wp_deref; [exact Hput|]. unfold on_ser. repeat wp_step. cbn [pkg ser].
    eapply wp_cons; [apply (IH l lo _ ({[i]} ∪ O)); [done..|lia|done|apply Hup; lia]| |done].
    intros v1 [m1 s1] (Em & Hw2 & Hm2 & Hn2 & Hlt2). cbn [pkg ser] in *. subst m1. repeat wp_step.
    eapply wp_cons; [apply (IH (mk_edge ch ih) hi _ ({[i]} ∪ O)); [done..|lia|done|apply Hup; lia]| |done].
    intros v2 [m2 s2] (Em & Hw3 & Hm3 & Hn3 & Hlt3). cbn [pkg ser] in *. subst m2.
    assert (MTBDD_GETNODE m i = mtbddnode_makenode v l (mk_edge ch ih)) as Hnode'.
    { rewrite <- Hnode. unfold MTBDD_GETNODE. by rewrite index_mk, index_small by lia. }
    destruct (writer_number s2 O i Hw3 HiO) as (tr & Hins & Hw4 & Hm4 & He4).
    { by exists (Node v lo hi). }
    { rewrite Hnode', getlow_makenode by (done || by apply mk_edge_edge).
      apply (numbers_to_numbered s2 false l v1); [done|by apply (numbers_to_more s1)|]. pose proof (counter_grows s1 s2 _ _ Hw2 Hw3 Hm3). lia. }
    { rewrite Hnode', gethigh_makenode, stripmark_mk by (done || by apply mk_edge_edge).
      by eapply (numbers_to_numbered s2 ch ih v2). }
    pose proof (counter_bound _ _ Hw4) as H40. cbn [sylvan_ser_counter] in H40.
    assert (add64 (sylvan_ser_counter s2) 1 = sylvan_ser_counter s2 + 1) as Hadd by (unfold add64; apply w64_small; lia).
    repeat wp_step. eapply wp_deref; [exact Hins|]. repeat wp_step. cbn [pkg ser set_reversed set_ser set_counter sylvan_ser_set
      sylvan_ser_reversed_set sylvan_ser_counter sylvan_ser_done]. rewrite Hadd.
    split; [done|]. split; [exact Hw4|]. split; [by do 3 (etrans; [eassumption|])|]. cbn [assigned]. split.
    + exists c, i. split; [done|]. split; [lia|]. right. split; [pose proof (wr_counter _ _ Hw3); lia|]. split; [lia|done].
    + cbn. lia.
Qed.

(** ** Writing *)

Lemma number_of_spec s c i v :
  trees_ok s -> i < 2 ^ 40 -> v < 2 ^ 40 -> numbers_to s (mk_edge c i) v -> number_of s (mk_edge c i) = Some (mk_edge c v).
Proof.
  intros Ht Hi Hv40 (c' & i' & E & Hi' & Hv). apply mk_edge_inj in E as [<- <-]; [|done..].
  unfold number_of. rewrite isnode_edge, negb_involutive, stripmark_mk, search_diagrams by done. cbn [bdd].
  destruct Hv as [[-> ->]|(Hp & Hip & He)]; [done|]. rewrite (proj2 (N.eqb_neq i 0)) by lia. rewrite He. cbn [assigned].
  f_equal. change v with (mk_edge false v) at 1. rewrite transfermark_mk by done. by rewrite xorb_false_r.
Qed.

Lemma numbered_to s k c i :
  trees_ok s -> i < 2 ^ 40 -> 0 < k -> numbered s k i -> exists v, v < k /\ numbers_to s (mk_edge c i) v.
Proof.
  intros Ht Hi Hk [->|(e & He & Hp)].
  - exists 0. split; [done|]. exists c, 0. split; [done|]. split; [done|]. by left.
  - destruct (decide (i = 0)) as [->|Hne].
    + exists 0. split; [done|]. exists c, 0. split; [done|]. split; [done|]. by left.
    + exists (assigned e). split; [lia|]. exists c, i. split; [done|]. split; [done|]. right. split; [lia|]. split; [lia|].
      rewrite He. pose proof (diagrams_bdd s i e Ht He). by destruct e; cbn in *; subst.
Qed.

(** The node that is written for an entry. *)
Definition written s e (n : mtbddnode) : Prop :=
  exists v l ch ih vl vh, MTBDD_GETNODE m (bdd e) = mtbddnode_makenode v l (mk_edge ch ih) /\
    v < 2 ^ 24 /\ l < 2 ^ 40 /\ ih < 2 ^ 40 /\
    numbers_to s l vl /\ numbers_to s (mk_edge ch ih) vh /\ vl < assigned e /\ vh < assigned e /\
    n = mtbddnode_makenode v vl (mk_edge ch vh).

(** The nodes that are written for the entries after number [k]. *)
Fixpoint listing s (k : N) (l : list mtbddnode) : Prop :=
  match l with
  | [] => True
  | n :: l => (exists e, numbers s !! (k + 1) = Some e /\ written s e n) /\ listing s (k + 1) l
  end.

Definition words_of (l : list mtbddnode) : list N := flat_map (fun n => [n.1; n.2]) l.

Lemma write_entry_spec s e :
  writer s ∅ -> numbers s !! assigned e = Some e ->
  exists n, write_entry e (mk_state m s) = Done n (mk_state m s) /\ written s e n.
Proof using Hm.
  intros Hw He. pose proof (wr_trees _ _ Hw) as Ht. destruct (wr_entry _ _ Hw _ e He) as [_ Hb [t [Hr Hwf]] Hlow Hhigh].
  pose proof (number_pos s ∅ _ e Hw He) as Hpos. pose proof (counter_bound _ _ Hw) as H40.
  destruct (node_cases (bdd e) t Hr Hwf) as [(c & E & _)|(c & i & v & l & ch & ih & lo & hi & _ & _ & _ & Hv & Hl & Hih & Hnode & _)].
  { exfalso. destruct c; cbn in E; [|lia]. rewrite E in Hb. by destruct Hb as [_ Hb]. }
  rewrite Hnode in Hlow, Hhigh. rewrite getlow_makenode in Hlow by (done || by apply mk_edge_edge).
  rewrite gethigh_makenode, stripmark_mk in Hhigh by (done || by apply mk_edge_edge).
  destruct (numbered_to s (assigned e) false l Ht Hl) as (vl & Hvl & Hnl); [lia|done|].
  destruct (numbered_to s (assigned e) ch ih Ht Hih) as (vh & Hvh & Hnh); [lia|done|].
  exists (mtbddnode_makenode v vl (mk_edge ch vh)). split; [|by exists v, l, ch, ih, vl, vh].
  assert (number_of s l = Some vl) as El by (exact (number_of_spec s false l vl Ht Hl ltac:(lia) Hnl)).
  assert (number_of s (mk_edge ch ih) = Some (mk_edge ch vh)) as Eh by (apply number_of_spec; done || lia).
  unfold write_entry, sylvan_serialize_get, mbind, prog_bind, gets. cbn [pkg ser]. rewrite Hnode.
  rewrite getlow_makenode, gethigh_makenode, getvariable_makenode by (done || by apply mk_edge_edge).
  rewrite El. cbn [asserted mret prog_ret pkg ser]. rewrite Eh. done.
Qed.

(** Entries with the numbers after [k], in order. *)
Fixpoint consecutive s (k : N) (L : list sylvan_ser) : Prop :=
  match L with
  | [] => True
  | e :: L => assigned e = k + 1 /\ numbers s !! (k + 1) = Some e /\ consecutive s (k + 1) L
  end.

Lemma sorted_consecutive s (L : list sylvan_ser) k c :
  sorted (H0 := reversed_order) L -> (forall e, e ∈ L -> numbers s !! assigned e = Some e) ->
  (forall i, (exists e, e ∈ L /\ assigned e = i) <-> k < i < c) -> k < c ->
  consecutive s k L /\ N.of_nat (length L) = c - (k + 1).
Proof.
  intros Hs. revert k. induction Hs as [|x L Hs IH Hx]; intros k Hin Hdom Hk.
  - split; [done|]. destruct (decide (k + 1 < c)) as [Hlt|]; [|cbn; lia].
    destruct (proj2 (Hdom (k + 1))) as (e & He%elem_of_nil & _); [lia|done].
  - rewrite Forall_forall in Hx. change (forall y, y ∈ L -> assigned x < assigned y) in Hx.
    assert (assigned x = k + 1) as Ex.
    { assert (k < assigned x < c) as Hr by (apply Hdom; exists x; split; [left|done]).
      destruct (proj2 (Hdom (k + 1))) as (e & [->|He]%elem_of_cons & Ee); [lia|done|]. specialize (Hx e He). lia. }
    assert (k + 1 < c) as Hk1 by (rewrite <- Ex; apply Hdom; exists x; split; [left|done]).
    destruct (IH (k + 1)) as [Hc Hlen]; [by intros e He; apply Hin; right| |done|].
    { intros i. split.
      - intros (e & He & <-). specialize (Hx e He). rewrite <- Ex. split; [done|]. apply Hdom. exists e. split; [by right|done].
      - intros Hi. destruct (proj2 (Hdom i)) as (e & [->|He]%elem_of_cons & Ee); [lia|lia|by exists e]. }
    cbn [consecutive length]. split; [|lia]. split; [done|]. split; [|done]. rewrite <- Ex. apply Hin. left.
Qed.

Lemma writer_elements s :
  writer s ∅ ->
  let L := elements (sylvan_ser_reversed_set s) in
  consecutive s 0 L /\ N.of_nat (length L) = sylvan_ser_counter s - 1.
Proof.
  intros Hw L. pose proof (wr_trees _ _ Hw) as [_ [[_ Hs] _]]. apply (sorted_consecutive s L 0 (sylvan_ser_counter s)).
  - exact Hs.
  - intros e He. by apply (contents_lookup (H0 := reversed_order)).
  - intros i. rewrite <- (N.le_succ_l 0 i), <- (wr_numbers _ _ Hw). split.
    + intros (e & He & <-). exists e. by apply (contents_lookup (H0 := reversed_order)).
    + intros (e & He). apply (contents_lookup (H0 := reversed_order)) in He; [by exists e|done].
  - pose proof (wr_counter _ _ Hw). lia.
Qed.

(** A step of the iterator over the numbers. *)
Lemma iterate_spec {A} s it L (k : option sylvan_ser -> avl_iter_t -> prog state A) :
  trees_ok s -> pending (sylvan_ser_reversed_set s) it L ->
  exists it', pending (sylvan_ser_reversed_set s) it' (tail L) /\
    iterate it k (mk_state m s) = k (head L) it' (mk_state m s).
Proof.
  intros [_ [[Hh _] _]] Hp. destruct (iter_next_spec _ Hh it L Hp) as (it' & Hn & Hp'). exists it'. split; [done|].
  unfold iterate, mbind, prog_bind, gets. cbn [ser]. rewrite Hn. done.
Qed.

Lemma skip_loop_spec fuel s k it L :
  trees_ok s -> pending (sylvan_ser_reversed_set s) it L -> consecutive s k L ->
  k <= sylvan_ser_done s -> sylvan_ser_done s - k <= N.of_nat (length L) -> sylvan_ser_done s - k <= N.of_nat fuel ->
  exists it' L', skip_loop fuel k it (mk_state m s) = Done (sylvan_ser_done s, it') (mk_state m s) /\
    pending (sylvan_ser_reversed_set s) it' L' /\ consecutive s (sylvan_ser_done s) L' /\
    N.of_nat (length L') = N.of_nat (length L) - (sylvan_ser_done s - k).
Proof.
  intros Ht. revert k it L. induction fuel as [|fuel IH]; intros k it L Hp Hc Hk HL Hf; cbn [skip_loop];
    unfold mbind at 1, prog_bind at 1, gets at 1; cbn [ser].
  - assert (k = sylvan_ser_done s) as -> by lia. rewrite N.ltb_irrefl. exists it, L. split_and!; done || lia.
  - destruct (N.ltb_spec k (sylvan_ser_done s)) as [Hlt|Hge].
    + destruct L as [|e L]; [cbn in HL; lia|]. destruct Hc as (He & Hn & Hc).
      destruct (iterate_spec s it (e :: L) (fun x it =>
        match x with
        | None => mret (k, it)
        | Some e => _ ← assert_that (assigned e =? k + 1); skip_loop fuel (k + 1) it
        end) Ht Hp) as (it' & Hp' & ->). cbn [head]. rewrite He, N.eqb_refl. cbn [tail length] in *.
      destruct (IH (k + 1) it' L Hp' Hc) as (it2 & L2 & Hs & Hp2 & Hc2 & Hlen); [lia..|].
      exists it2, L2. split; [exact Hs|]. split; [done|]. split; [done|]. lia.
    + assert (k = sylvan_ser_done s) as -> by lia. exists it, L. split_and!; done || lia.
Qed.

Lemma write_loop_spec fuel s k it L :
  writer s ∅ -> pending (sylvan_ser_reversed_set s) it L -> consecutive s k L -> (length L < fuel)%nat ->
  exists l, write_loop fuel k it (mk_state m s) = Done (words_of l) (mk_state m s) /\ listing s k l /\ length l = length L.
Proof using Hm.
  intros Hw. pose proof (wr_trees _ _ Hw) as Ht. revert k it L. induction fuel as [|fuel IH]; intros k it L Hp Hc Hf; [lia|].
  cbn [write_loop]. destruct (iterate_spec s it L (fun x it =>
        match x with
        | None => mret []
        | Some e =>
            _ ← assert_that (assigned e =? k + 1);
            node ← write_entry e;
            l ← write_loop fuel (k + 1) it;
            mret (node.1 :: node.2 :: l)
        end) Ht Hp) as (it' & Hp' & ->).
  destruct L as [|e L]; [by exists []|]. destruct Hc as (He & Hn & Hc). cbn [head tail length] in *.
  rewrite He, N.eqb_refl. destruct (write_entry_spec s e Hw) as (n & Hwe & Hwr); [by rewrite He|].
  destruct (IH (k + 1) it' L Hp' Hc) as (l & Hl & Hli & Hlen); [lia|].
  unfold mbind, prog_bind. cbn [assert_that mret prog_ret]. rewrite Hwe, Hl.
  exists (n :: l). split; [done|]. split; [|cbn; lia]. split; [by exists e|done].
Qed.

Lemma tofile_spec s :
  writer s ∅ ->
  exists l, sylvan_serialize_tofile (mk_state m s) =
      Done (N.of_nat (length l) :: words_of l) (mk_state m (set_done (sylvan_ser_counter s - 1) s)) /\
    listing s (sylvan_ser_done s) l /\ N.of_nat (length l) = sylvan_ser_counter s - 1 - sylvan_ser_done s.
Proof using Hm.
  intros Hw. pose proof (wr_trees _ _ Hw) as Ht. pose proof (counter_bound _ _ Hw) as H40.
  pose proof (wr_counter _ _ Hw) as Hc1. pose proof (wr_done _ _ Hw) as Hd.
  destruct (writer_elements s Hw) as [Hcon Hlen]. set (L := elements (sylvan_ser_reversed_set s)) in *.
  assert (avl_count (sylvan_ser_reversed_set s) = sylvan_ser_counter s - 1) as Hcount by (by rewrite count_elements).
  assert (sub64 (sylvan_ser_counter s) 1 = sylvan_ser_counter s - 1) as Hsub.
  { unfold sub64. change (w64 1) with 1. rewrite w64_mod. clear -H40 Hc1. modlia. }
  destruct Ht as [Hset [[Hh Hs] Hb]]. pose proof (pending_start (sylvan_ser_reversed_set s) Hh) as Hp.
  destruct (skip_loop_spec (S (N.to_nat (sylvan_ser_counter s - 1))) s 0 _ L (wr_trees _ _ Hw) Hp Hcon)
    as (it & L' & Hskip & Hp' & Hcon' & Hlen'); [lia..|].
  destruct (write_loop_spec (S (N.to_nat (sylvan_ser_counter s - 1))) s _ it L' Hw Hp' Hcon') as (l & Hwrite & Hli & Hll); [lia|].
  exists l. unfold sylvan_serialize_tofile, mbind, prog_bind, gets. cbn [ser]. rewrite Hcount, Hsub, N.eqb_refl.
  rewrite (proj2 (N.leb_le _ _)) by lia. cbn [assert_that mret prog_ret]. rewrite Hskip, Hwrite.
  split; [|split; [done|lia]]. cbn [on_ser modify pkg ser]. do 2 f_equal. lia.
Qed.
End writer.
End SerializeFacts.
