(* ===== verification/SerializeRead.v ===== *)
(** Reading a file of diagrams back: while garbage collection is disabled, every number gets a
    diagram with the tree of the one that it was written for. *)

From S2P Require Import Prelude MtbddNode BddTree OpSpecs NodeStore MtbddCore MtbddCoreFacts BddApply BddApplyFacts.
From S2P Require Import Avl AvlFacts Serialize SerializeFacts.

Module SerializeRead.
Import MtbddNode BddTree OpSpecs NodeStore MtbddCore MtbddCoreFacts BddApply BddApplyFacts Avl AvlFacts Serialize
  SerializeFacts.

Section reader.
Context {T C : Type} `{NodeTableLaws T} `{OpCacheLaws C}.
Notation mgr := (mgr T C).
Notation state := (state T C).

(** Without garbage collection [mtbdd_makenode] keeps all nodes. *)
Lemma makenode_disabled_spec v low high tl th (m : mgr) :
  mgr_inv m -> gc_enabled m = false -> v < 2 ^ 24 ->
  denotes (st m) (v + 1) low tl -> denotes (st m) (v + 1) high th ->
  wp (mtbdd_makenode v low high)
    (fun r m' => mgr_inv m' /\ extends m m' /\ denotes (st m') v r (mknode v tl th))
    (fun x _ => x = TableFull) m.
Proof.
  intros Hi Hgc Hv Hl Hh. unfold mtbdd_makenode, mknode.
  destruct (N.eqb_spec low high) as [Heq|Hne].
  - apply (den_inj m _ _ _ _ _ _ Hi Hl Hh) in Heq as ->. rewrite decide_True by done.
    apply wp_ret. split_and!; [done|done|]. destruct Hl as [? ?]. split; [done|]. eapply wf_mono; [|done]. lia.
  - assert (tl <> th) as Hnt by (by rewrite <- (den_inj m _ _ _ _ _ _ Hi Hl Hh)). rewrite decide_False by done.
    unfold _mtbdd_makenode. fold (normal low high).
    destruct (normal_spec _ _ _ _ _ _ Hl Hh Hnt) as (l & h & -> & Hl40 & Hhe & Hlh & _ & Hdl & Hdh).
    assert (forall m1 c, mgr_inv m1 -> extends m m1 -> st m1 c = Some (mtbddnode_makenode v l h) ->
      mgr_inv m1 /\ extends m m1 /\ denotes (st m1) v (if MTBDD_HASMARK low then N.lor c mtbdd_complement else c) (Node v tl th)) as Hnode.
    { intros m1 c Hi1 Hx Hc. split; [done|]. split; [done|]. destruct Hx as [_ Hg].
      eapply node_denotes; [done..| | |done]; by eapply denotes_grows. }
    wp_step. eapply wp_mono; [apply on_lookup_spec; [done|exact (makenode_nonzero v l h Hv Hl40 Hlh)]|].
    intros [c cr] m1 (Hi1 & Hx & Hc & _). wp_step. destruct (N.eqb_spec c 0) as [->|Hc0].
    + unfold mtbdd_refs_push, mtbdd_refs_pop, sylvan_gc. repeat wp_step. cbn [rstack set_rstack gc_enabled id].
      assert (gc_enabled m1 = false) as -> by (destruct Hx as [(_ & _ & _ & _ & -> & _) _]; done). repeat wp_step.
      set (m2 := set_rstack _ _). assert (m2 = m1) as -> by (unfold m2; by destruct m1).
      eapply wp_mono; [apply on_lookup_spec; [done|exact (makenode_nonzero v l h Hv Hl40 Hlh)]|].
      intros [c cr'] m5 (Hi5 & Hx5 & Hc5 & _). destruct (N.eqb_spec c 0) as [->|Hc0]; [by apply wp_exit|]. repeat wp_step.
      apply Hnode; [done|by etrans|by apply Hc5].
    + repeat wp_step. by apply Hnode; [| |apply Hc].
Qed.

(** ** The invariant of a reader *)

Context (m : mgr) (Hm : mgr_inv m) (s : serial) (Hw : writer m s ∅).
Implicit Types (e : sylvan_ser).

(** The diagrams have the same tree. *)
Definition same_tree (d : N) (m' : mgr) (d' : N) : Prop := forall t, denotes (st m) 0 d t -> denotes (st m') 0 d' t.

Record reader (k : N) (m' : mgr) (s' : serial) : Prop := {
  rd_inv : mgr_inv m';
  rd_gc : gc_enabled m' = false;
  rd_trees : trees_ok s';
  rd_done : sylvan_ser_done s' = k;
  rd_fresh : forall i, is_Some (numbers s' !! i) -> i <= k;
  rd_same : forall i e, numbers s !! i = Some e -> i <= k ->
    exists e', numbers s' !! i = Some e' /\ same_tree (bdd e) m' (bdd e')
}.

Lemma xneg_edge (c : bool) i t : i < 2 ^ 40 -> rep (st m) i t -> rep (st m) (mk_edge c i) (xneg c t).
Proof.
  intros Hi Hr. destruct c; [|done]. apply rep_toggle in Hr. change i with (mk_edge false i) in Hr.
  by rewrite togglemark_mk in Hr.
Qed.

(** What is read for the number of a diagram. *)
Lemma diagram_of_spec k m' s' c i v t :
  reader k m' s' -> i < 2 ^ 40 -> numbers_to s (mk_edge c i) v -> v <= k -> denotes (st m) 0 (mk_edge c i) t ->
  exists d', diagram_of s' (mk_edge c v) = Some d' /\ denotes (st m') 0 d' t.
Proof using Hm Hw.
  intros Hrd Hi Hn Hv [Hr Hwf]. destruct Hn as (c' & i' & E & Hi' & Hcase). apply mk_edge_inj in E as [<- <-]; [|done..].
  unfold diagram_of. destruct Hcase as [[-> ->]|(Hp & Hip & He)].
  - rewrite isnode_edge by done. exists (mk_edge c 0). split; [done|].
    apply rep_inv in Hr as [[_ ->]|(? & ? & ? & ? & ? & ? & _)]; [|lia|done]. split; [constructor|done].
  - pose proof (wr_diagram _ _ _ Hw i _ He) as Hs. cbn [assigned] in Hs. specialize (Hs ltac:(set_solver)).
    pose proof (number_pos _ _ _ _ _ Hw Hs) as [_ Hlt]. pose proof (counter_bound _ _ _ Hw) as H40. cbn [assigned] in Hlt.
    rewrite isnode_edge, negb_involutive, stripmark_mk, (search_numbers s') by (lia || exact (rd_trees _ _ _ Hrd)).
    rewrite (proj2 (N.eqb_neq v 0)) by lia. cbn [assigned].
    destruct (rd_same _ _ _ Hrd v _ Hs Hv) as (e' & -> & Hsame). cbn [bdd] in Hsame.
    eexists. split; [done|]. destruct (wr_entry _ _ _ Hw v _ Hs) as [_ _ [t0 Ht0] _ _]. cbn [bdd] in Ht0.
    pose proof (rep_functional _ _ _ _ Hr (xneg_edge c i t0 Hi (proj1 Ht0))) as ->.
    destruct (Hsame t0 Ht0) as [Hr' Hwf']. split; [apply rep_transfer; [lia|done]|done].
Qed.

(** A node that has been read. *)
Lemma reader_insert k m' s' e d' :
  reader k m' s' -> numbers s !! (k + 1) = Some e -> same_tree (bdd e) m' d' ->
  exists t1 b1 t2 b2, sylvan_ser_insert (sylvan_ser_set s') (mk_ser d' (k + 1)) = Some (t1, b1) /\
    sylvan_ser_reversed_insert (sylvan_ser_reversed_set s') (mk_ser d' (k + 1)) = Some (t2, b2) /\
    forall n, reader (k + 1) m' (mk_serial t1 t2 n (k + 1)).
Proof.
  intros Hrd He Hsame. pose proof (rd_trees _ _ _ Hrd) as [Hset Hrev].
  destruct (put_spec (H0 := ser_order) _ (mk_ser d' (k + 1)) Hset) as (t1 & y1 & b1 & Hput1 & _).
  destruct (put_ok (H0 := ser_order) _ _ _ _ _ Hset Hput1) as (Hset' & _).
  destruct (put_spec (H0 := reversed_order) _ (mk_ser d' (k + 1)) Hrev) as (t2 & y2 & b2 & Hput2 & _).
  destruct (put_ok (H0 := reversed_order) _ _ _ _ _ Hrev Hput2) as (Hrev' & Hy & Hc).
  change (avl_key (AvlOrder := reversed_order) (mk_ser d' (k + 1))) with (k + 1) in *.
  assert (numbers s' !! (k + 1) = None) as Hfresh.
  { apply eq_None_not_Some. intros Hs%(rd_fresh _ _ _ Hrd). lia. }
  rewrite Hfresh in Hy. injection Hy as -> ->.
  exists t1, b1, t2, true. split; [unfold sylvan_ser_insert, insert_elt; by rewrite Hput1|].
  split; [unfold sylvan_ser_reversed_insert, insert_elt; by rewrite Hput2|]. intros n.
  destruct Hrd as [Hi Hgc _ Hdone Hfr Hsm]. split; try done.
  - intros i. cbn. rewrite Hc. destruct (decide (k + 1 = i)) as [<-|Hne]; [lia|].
    rewrite lookup_insert_ne by done. intros Hs%Hfr. lia.
  - intros i e' He' Hik. cbn. rewrite Hc. destruct (decide (k + 1 = i)) as [<-|Hne].
    + rewrite lookup_insert_eq. eexists. split; [done|]. cbn. by assert (e' = e) as -> by congruence.
    + rewrite lookup_insert_ne by done. apply Hsm; [done|lia].
Qed.

Lemma reader_extends k m' m'' s' : reader k m' s' -> mgr_inv m'' -> extends m' m'' -> reader k m'' s'.
Proof.
  intros [Hi Hgc Ht Hd Hf Hs] Hi' [(_ & _ & _ & _ & Hg & _) Hgrow]. split; try done; [congruence|].
  intros i e He Hik. destruct (Hs i e He Hik) as (e' & He' & Hsame). exists e'. split; [done|].
  intros t Ht'. eapply denotes_grows; [exact Hgrow|]. by apply Hsame.
Qed.

(** The node of a written entry, by its tree. *)
Lemma written_tree e n :
  numbers s !! assigned e = Some e -> written m s e n ->
  exists v l ch ih vl vh lo hi, n = mtbddnode_makenode v vl (mk_edge ch vh) /\ v < 2 ^ 24 /\
    l < 2 ^ 40 /\ ih < 2 ^ 40 /\ vl < 2 ^ 40 /\ vh < 2 ^ 40 /\
    numbers_to s (mk_edge false l) vl /\ numbers_to s (mk_edge ch ih) vh /\ vl < assigned e /\ vh < assigned e /\
    denotes (st m) 0 (bdd e) (Node v lo hi) /\
    denotes (st m) (v + 1) (mk_edge false l) lo /\ denotes (st m) (v + 1) (mk_edge ch ih) hi.
Proof using Hm Hw.
  intros He (v & l & ch & ih & vl & vh & Hnode & Hv & Hl & Hih & Hnl & Hnh & Hvl & Hvh & ->).
  destruct (wr_entry _ _ _ Hw _ e He) as [_ Hb [t [Hr Hwf]] _ _]. pose proof (number_pos _ _ _ _ _ Hw He) as Hp.
  pose proof (counter_bound _ _ _ Hw) as H40.
  destruct (node_cases m (bdd e) t Hr Hwf)
    as [(c & E & _)|(c & i & v' & l' & ch' & ih' & lo & hi & E & Et & Hi & Hv' & Hl' & Hih' & Hnode' & Hlo & Hhi & Hri & Hwn)].
  { exfalso. destruct c; cbn in E; [|lia]. rewrite E in Hb. by destruct Hb as [_ Hb]. }
  rewrite Hnode in Hnode'. apply makenode_inj in Hnode' as (-> & -> & Eh); [|done || by apply mk_edge_edge..].
  apply mk_edge_inj in Eh as [-> ->]; [|done..].
  assert (c = false) as ->.
  { destruct (mk_edge_inj false (bdd e) c i) as [<- _]; [by destruct Hb|lia|exact E|done]. }
  cbn [xneg] in Et. subst t. exists v', l', ch', ih', vl, vh, lo, hi. pose proof Hwn as (_ & _ & _ & Wlo & Whi).
  split_and!; done || lia.
Qed.

Lemma read_loop_spec l rest k m' s' :
  reader k m' s' -> listing m s k l ->
  wp (read_loop (N.of_nat (length l)) (words_of l ++ rest))
    (fun r c => r = rest /\ reader (k + N.of_nat (length l)) (pkg c) (ser c) /\ extends m' (pkg c))
    (fun x _ => x = TableFull) (mk_state m' s').
Proof using Hm Hw.
  revert k m' s'. induction l as [|n l IH]; intros k m' s' Hrd Hli.
  - assert (read_loop (T := T) (C := C) (N.of_nat (length (@nil mtbddnode))) (words_of [] ++ rest) = mret rest) as ->.
    { by destruct rest. }
    apply wp_ret. cbn [length pkg ser]. by rewrite N.add_0_r.
  - destruct Hli as ((e & He & Hwr) & Hli).
    pose proof (numbers_assigned s _ e (wr_trees _ _ _ Hw) He) as Ea.
    assert (numbers s !! assigned e = Some e) as He' by (by rewrite Ea).
    pose proof (number_pos _ _ _ _ _ Hw He) as [_ Hlt]. pose proof (counter_bound _ _ _ Hw) as H40.
    destruct (written_tree e n He' Hwr) as (v & lw & ch & ih & vl & vh & lo & hi & -> & Hv & Hl & Hih & Hvl40 & Hvh40 &
      Hnl & Hnh & Hvl & Hvh & [Hr Hwf] & Hdl & Hdh).
    pose proof Hwf as (_ & _ & Hne & Wlo & Whi).
    set (nd := mtbddnode_makenode v vl (mk_edge ch vh)).
    change (words_of (nd :: l) ++ rest) with (nd.1 :: nd.2 :: (words_of l ++ rest)). cbn [read_loop length].
    rewrite (proj2 (N.eqb_neq _ _)) by lia. rewrite <- surjective_pairing. unfold nd.
    rewrite getlow_makenode, gethigh_makenode, getvariable_makenode by (done || by apply mk_edge_edge).
    destruct (diagram_of_spec k m' s' false lw vl lo Hrd) as (low & Elow & Hlow); [done|done|lia| |].
    { destruct Hdl. split; [done|]. eapply wf_mono; [|done]. lia. }
    destruct (diagram_of_spec k m' s' ch ih vh hi Hrd) as (high & Ehigh & Hhigh); [done|done|lia| |].
    { destruct Hdh. split; [done|]. eapply wf_mono; [|done]. lia. }
    cbn [mk_edge] in Elow. unfold sylvan_serialize_get_reversed. repeat wp_step. cbn [ser]. rewrite Elow.
    cbn [asserted]. repeat wp_step. cbn [ser]. rewrite Ehigh. cbn [asserted]. repeat wp_step.
    pose proof (makenode_disabled_spec v low high lo hi m' (rd_inv _ _ _ Hrd) (rd_gc _ _ _ Hrd) Hv
      (conj (proj1 Hlow) Wlo) (conj (proj1 Hhigh) Whi)) as Hmk.
    unfold wp, on_pkg. cbn [pkg]. unfold wp in Hmk. destruct (mtbdd_makenode v low high m') as [d' m''| |]; [|done..].
    destruct Hmk as (Hi' & Hx & [Hr' Hwf']). unfold mknode in Hr'. rewrite decide_False in Hr' by done.
    pose proof (reader_extends _ _ m'' _ Hrd Hi' Hx) as Hrd'.
    assert (same_tree (bdd e) m'' d') as Hsame.
    { intros t [Ht _]. rewrite (rep_functional _ _ _ _ Ht Hr). split; [done|]. exact Hwf. }
    destruct (reader_insert k m'' s' e d' Hrd' He Hsame) as (t1 & b1 & t2 & b2 & Hins1 & Hins2 & Hrd2).
    pose proof (rd_done _ _ _ Hrd) as Hdone.
    assert (add64 (sylvan_ser_done s') 1 = k + 1) as Hadd by (rewrite Hdone; unfold add64; apply w64_small; lia).
    change (wp (c ← gets ser;
      let e' := mk_ser d' (add64 (sylvan_ser_done c) 1) in
      _ ← on_ser (set_done (add64 (sylvan_ser_done c) 1));
      '(t, _) ← deref (sylvan_ser_insert (sylvan_ser_set c) e');
      _ ← on_ser (set_ser t);
      '(t, _) ← deref (sylvan_ser_reversed_insert (sylvan_ser_reversed_set c) e');
      _ ← on_ser (set_reversed t);
      read_loop (N.of_nat (S (length l)) - 1) (words_of l ++ rest))
      (fun r c => r = rest /\ reader (k + N.of_nat (S (length l))) (pkg c) (ser c) /\ extends m' (pkg c))
      (fun x _ => x = TableFull) (mk_state m'' s')).
    unfold on_ser. repeat wp_step. cbn [ser pkg]. rewrite Hadd.
    eapply wp_deref; [exact Hins1|]. cbn beta iota. repeat wp_step. eapply wp_deref; [exact Hins2|].
    cbn beta iota. repeat wp_step. cbn [ser pkg].
    replace (N.of_nat (S (length l)) - 1) with (N.of_nat (length l)) by lia.
    eapply wp_cons; [apply (IH (k + 1) m''); [apply (Hrd2 (sylvan_ser_counter s'))|exact Hli]| |done].
    intros r c (-> & Hrdc & Hxc). split; [done|]. split; [|by etrans].
    by replace (k + N.of_nat (S (length l))) with (k + 1 + N.of_nat (length l)) by lia.
Qed.

Lemma reader_start m' : mgr_inv m' -> gc_enabled m' = false -> reader 0 m' serial_init.
Proof.
  intros Hi Hgc. split; try done.
  - split; (split; [split; [done|constructor]|done]).
  - intros i [x Hx]. discriminate Hx.
  - intros i e He Hi0. pose proof (number_pos _ _ _ _ _ Hw He). pose proof (numbers_assigned s i e (wr_trees _ _ _ Hw) He). lia.
Qed.
End reader.
End SerializeRead.
