(* ===== verification/BddQuant.v ===== *)
(** Quantification, projection, relational products, the generalised cofactors and composition
    from sylvan/src/sylvan_bdd.c.  Conventions as in [BddApply]: a spawned task runs at its
    [SYNC], in the reverse order of the spawns. *)

From S2P Require Import Prelude MtbddNode OpSpecs NodeStore MtbddCore BddApply.

Module BddQuant.
Import MtbddNode OpSpecs NodeStore MtbddCore BddApply.

(** The cofactors of a diagram that may be a constant, for variable [v]. *)
Definition cof_low `{NodeTable T} {C} (m : mgr T C) (v a : N) : N :=
  if negb (sylvan_isconst a) && (mtbddnode_getvariable (MTBDD_GETNODE m a) =? v)
  then mtbddnode_followlow a (MTBDD_GETNODE m a) else a.
Definition cof_high `{NodeTable T} {C} (m : mgr T C) (v a : N) : N :=
  if negb (sylvan_isconst a) && (mtbddnode_getvariable (MTBDD_GETNODE m a) =? v)
  then mtbddnode_followhigh a (MTBDD_GETNODE m a) else a.

Section quant.
Context {T C : Type} `{NodeTable T} `{OpCache C}.
Notation mgr := (mgr T C).

(** [sylvan_set_next] and [sylvan_set_first]. *)
Definition sylvan_set_next (m : mgr) (set : N) : N :=
  mtbddnode_followhigh set (MTBDD_GETNODE m set).
Definition sylvan_set_first (m : mgr) (set : N) : N :=
  mtbddnode_getvariable (MTBDD_GETNODE m set).

(** The loops that skip the variables of a set before [level]: [Some None] when the set is
    used up. *)
Fixpoint skip_vars (fuel : nat) (m : mgr) (variables level : N) : option (option N) :=
  match fuel with
  | O => None
  | S fuel =>
      let nv := MTBDD_GETNODE m variables in
      if mtbddnode_getvariable nv <? level then
        let variables := mtbddnode_followhigh variables nv in
        if sylvan_set_isempty variables then Some None
        else skip_vars fuel m variables level
      else Some (Some variables)
  end.

(** ** Existential quantification *)

Fixpoint sylvan_exists (fuel : nat) (a variables prev_level : N) : prog mgr N :=
  match fuel with
  | O => no_fuel
  | S fuel =>
      if a =? sylvan_true then mret sylvan_true
      else if a =? sylvan_false then mret sylvan_false
      else if sylvan_set_isempty variables then mret a
      else
        m ← gets id;
        let na := MTBDD_GETNODE m a in
        let level := mtbddnode_getvariable na in
        match skip_vars (S fuel) m variables level with
        | None => no_fuel
        | Some None => mret a
        | Some (Some variables) =>
            let vv := sylvan_set_first m variables in
            let cachenow := use_cache (granularity m) prev_level level in
            hit ← (if cachenow then cache_get3 CACHE_BDD_EXISTS a variables 0 else mret None);
            match hit with
            | Some result => mret result
            | None =>
                let aLow := mtbddnode_followlow a na in
                let aHigh := mtbddnode_followhigh a na in
                result ← (if vv =? level then
                  if (aLow =? sylvan_true) || (aHigh =? sylvan_true)
                     || (aLow =? sylvan_not aHigh) then mret sylvan_true
                  else
                    let _v := sylvan_set_next m variables in
                    low ← sylvan_exists fuel aLow _v level;
                    if low =? sylvan_true then mret sylvan_true
                    else
                      _ ← mtbdd_refs_push low;
                      high ← sylvan_exists fuel aHigh _v level;
                      if high =? sylvan_true then
                        _ ← mtbdd_refs_pop 1; mret sylvan_true
                      else if (low =? sylvan_false) && (high =? sylvan_false) then
                        _ ← mtbdd_refs_pop 1; mret sylvan_false
                      else
                        _ ← mtbdd_refs_push high;
                        result ← sylvan_or (S fuel) low high;
                        _ ← mtbdd_refs_pop 2;
                        mret result
                else
                  low ← sylvan_exists fuel aLow variables level;
                  high ← pushed low (sylvan_exists fuel aHigh variables level);
                  mtbdd_makenode level low high);
                _ ← (if cachenow then cache_put3 CACHE_BDD_EXISTS a variables 0 result
                     else mret false);
                mret result
            end
        end
  end.

(** [sylvan_forall] of sylvan_bdd.h. *)
Definition sylvan_forall (fuel : nat) (a vars : N) : prog mgr N :=
  r ← sylvan_exists fuel (sylvan_not a) vars 0;
  mret (sylvan_not r).

(** ** Projection *)

(** The loop that skips the variables before [level]; the set is used up when its next
    variable is. *)
Fixpoint skip_project (fuel : nat) (m : mgr) (v level : N) : option (option N) :=
  match fuel with
  | O => None
  | S fuel =>
      if sylvan_set_first m v <? level then
        let v_next := sylvan_set_next m v in
        if sylvan_set_isempty v_next then Some None
        else skip_project fuel m v_next level
      else Some (Some v)
  end.

Fixpoint sylvan_project (fuel : nat) (a v : N) : prog mgr N :=
  match fuel with
  | O => no_fuel
  | S fuel =>
      if a =? sylvan_false then mret sylvan_false
      else if a =? sylvan_true then mret sylvan_true
      else if sylvan_set_isempty v then mret sylvan_true
      else
        m ← gets id;
        let a_node := MTBDD_GETNODE m a in
        let a_var := mtbddnode_getvariable a_node in
        match skip_project (S fuel) m v a_var with
        | None => no_fuel
        | Some None => mret sylvan_true
        | Some (Some v) =>
            let v_var := sylvan_set_first m v in
            let v_next := sylvan_set_next m v in
            hit ← cache_get3 CACHE_BDD_PROJECT a 0 v;
            match hit with
            | Some result => mret result
            | None =>
                let a0 := mtbddnode_followlow a a_node in
                let a1 := mtbddnode_followhigh a a_node in
                result ← (if v_var =? a_var then
                  high ← sylvan_project fuel a1 v_next;
                  low ← pushed high (sylvan_project fuel a0 v_next);
                  mtbdd_makenode a_var low high
                else
                  high ← sylvan_project fuel a1 v;
                  _ ← mtbdd_refs_push high;
                  low ← sylvan_project fuel a0 v;
                  _ ← mtbdd_refs_push low;
                  result ← sylvan_or (S fuel) low high;
                  _ ← mtbdd_refs_pop 2;
                  mret result);
                _ ← cache_put3 CACHE_BDD_PROJECT a 0 v result;
                mret result
            end
        end
  end.

(** ** Relational products *)

Fixpoint sylvan_and_exists (fuel : nat) (a b v prev_level : N) : prog mgr N :=
  match fuel with
  | O => no_fuel
  | S fuel =>
      if a =? sylvan_false then mret sylvan_false
      else if b =? sylvan_false then mret sylvan_false
      else if a =? sylvan_not b then mret sylvan_false
      else if (a =? sylvan_true) && (b =? sylvan_true) then mret sylvan_true
      else if a =? sylvan_true then sylvan_exists (S fuel) b v 0
      else if b =? sylvan_true then sylvan_exists (S fuel) a v 0
      else if a =? b then sylvan_exists (S fuel) a v 0
      else if sylvan_set_isempty v then sylvan_and (S fuel) a b 0
      else
        let '(a, b) := sorted a b in
        m ← gets id;
        let na := MTBDD_GETNODE m a in
        let nb := MTBDD_GETNODE m b in
        let va := mtbddnode_getvariable na in
        let vb := mtbddnode_getvariable nb in
        let level := if va <? vb then va else vb in
        match skip_vars (S fuel) m v level with
        | None => no_fuel
        | Some None => sylvan_and (S fuel) a b 0
        | Some (Some v) =>
            let vv := sylvan_set_first m v in
            let cachenow := use_cache (granularity m) prev_level level in
            hit ← (if cachenow then cache_get3 CACHE_BDD_AND_EXISTS a b v else mret None);
            match hit with
            | Some result => mret result
            | None =>
                let aLow := cofactor_low level va a na in
                let aHigh := cofactor_high level va a na in
                let bLow := cofactor_low level vb b nb in
                let bHigh := cofactor_high level vb b nb in
                result ← (if level =? vv then
                  let _v := sylvan_set_next m v in
                  low ← sylvan_and_exists fuel aLow bLow _v level;
                  if (low =? sylvan_true) || (low =? aHigh) || (low =? bHigh) then mret low
                  else
                    _ ← mtbdd_refs_push low;
                    high ← (if low =? sylvan_not aHigh then sylvan_exists (S fuel) bHigh _v 0
                            else if low =? sylvan_not bHigh then sylvan_exists (S fuel) aHigh _v 0
                            else sylvan_and_exists fuel aHigh bHigh _v level);
                    if high =? sylvan_true then _ ← mtbdd_refs_pop 1; mret sylvan_true
                    else if high =? sylvan_false then _ ← mtbdd_refs_pop 1; mret low
                    else if low =? sylvan_false then _ ← mtbdd_refs_pop 1; mret high
                    else
                      _ ← mtbdd_refs_push high;
                      result ← sylvan_or (S fuel) low high;
                      _ ← mtbdd_refs_pop 2;
                      mret result
                else
                  low ← sylvan_and_exists fuel aLow bLow v level;
                  high ← pushed low (sylvan_and_exists fuel aHigh bHigh v level);
                  mtbdd_makenode level low high);
                _ ← (if cachenow then cache_put3 CACHE_BDD_AND_EXISTS a b v result
                     else mret false);
                mret result
            end
        end
  end.

Fixpoint sylvan_and_project (fuel : nat) (a b v : N) : prog mgr N :=
  match fuel with
  | O => no_fuel
  | S fuel =>
      if a =? sylvan_false then mret sylvan_false
      else if b =? sylvan_false then mret sylvan_false
      else if a =? sylvan_not b then mret sylvan_false
      else if (a =? sylvan_true) && (b =? sylvan_true) then mret sylvan_true
      else if sylvan_set_isempty v then mret sylvan_true
      else if (a =? sylvan_true) || (b =? sylvan_true) || (a =? b) then sylvan_project (S fuel) b v
      else
        let '(a, b) := sorted a b in
        m ← gets id;
        let a_node := MTBDD_GETNODE m a in
        let b_node := MTBDD_GETNODE m b in
        let a_var := mtbddnode_getvariable a_node in
        let b_var := mtbddnode_getvariable b_node in
        let minvar := if a_var <? b_var then a_var else b_var in
        match skip_project (S fuel) m v minvar with
        | None => no_fuel
        | Some None => mret sylvan_true
        | Some (Some v) =>
            let v_var := sylvan_set_first m v in
            let v_next := sylvan_set_next m v in
            hit ← cache_get3 CACHE_BDD_AND_PROJECT a b v;
            match hit with
            | Some result => mret result
            | None =>
                let a0 := cofactor_low minvar a_var a a_node in
                let a1 := cofactor_high minvar a_var a a_node in
                let b0 := cofactor_low minvar b_var b b_node in
                let b1 := cofactor_high minvar b_var b b_node in
                result ← (if v_var =? minvar then
                  high ← sylvan_and_project fuel a1 b1 v_next;
                  low ← pushed high (sylvan_and_project fuel a0 b0 v_next);
                  mtbdd_makenode minvar low high
                else
                  high ← sylvan_and_project fuel a1 b1 v;
                  _ ← mtbdd_refs_push high;
                  low ← sylvan_and_project fuel a0 b0 v;
                  _ ← mtbdd_refs_push low;
                  result ← sylvan_or (S fuel) low high;
                  _ ← mtbdd_refs_pop 2;
                  mret result);
                _ ← cache_put3 CACHE_BDD_AND_PROJECT a b v result;
                mret result
            end
        end
  end.
End quant.
End BddQuant.
