(* ===== verification/BddQuantFacts.v ===== *)
(** Correctness of the quantifications and relational products of [BddQuant], stated with the
    relation [quant] between a function and its quantification. *)

From S2P Require Import Prelude MtbddNode BddTree OpSpecs NodeStore MtbddCore MtbddCoreFacts.
From S2P Require Import BddApply BddApplyFacts BddQuant.

Module BddQuantFacts.
Import MtbddNode BddTree OpSpecs NodeStore MtbddCore MtbddCoreFacts BddApply BddApplyFacts BddQuant.

(** ** Quantification of Boolean functions *)

Lemma quant_unique q f g g' : quant q f g -> quant q f g' -> forall e, g e = g' e.
Proof. intros Hg Hg' e. apply eq_true_iff_eq. by rewrite (Hg e), (Hg' e). Qed.

Lemma quant_ext q f f' g g' :
  (forall e, f e = f' e) -> (forall e, g e = g' e) -> quant q f g -> quant q f' g'.
Proof.
  intros Hf Hg Hq e. rewrite <- Hg, (Hq e). split; intros (e' & He & Hfe); exists e';
    (split; [done|]); by rewrite ?Hf, <- ?Hf in *.
Qed.

(** The result does not depend on the quantified variables. *)
Lemma quant_indep q f g e e' :
  quant q f g -> (forall v, ~ q v -> e v = e' v) -> g e = g e'.
Proof.
  intros Hq He. apply eq_true_iff_eq. rewrite (Hq e), (Hq e').
  split; intros (e1 & He1 & Hf); exists e1; (split; [|done]); intros v Hv; rewrite (He1 v Hv);
    [|symmetry]; by apply He.
Qed.

(** Branching on a variable that is kept. *)
Lemma quant_keep (q : N -> Prop) v f0 f1 g0 g1 :
  ~ q v -> quant q f0 g0 -> quant q f1 g1 ->
  quant q (fun e => if e v then f1 e else f0 e) (fun e => if e v then g1 e else g0 e).
Proof.
  intros Hv H0 H1 e. destruct (e v) eqn:Ev; [rewrite (H1 e)|rewrite (H0 e)];
    (split; intros (e' & He & Hf); exists e'; (split; [done|])).
  - by rewrite (He v Hv), Ev.
  - by rewrite (He v Hv), Ev in Hf.
  - by rewrite (He v Hv), Ev.
  - by rewrite (He v Hv), Ev in Hf.
Qed.

(** Branching on a variable that is quantified. *)
Lemma quant_drop (q : N -> Prop) v f0 f1 g0 g1 :
  q v -> above (v + 1) f0 -> above (v + 1) f1 -> quant q f0 g0 -> quant q f1 g1 ->
  quant q (fun e => if e v then f1 e else f0 e) (fun e => g0 e || g1 e).
Proof.
  intros Hv Ha0 Ha1 H0 H1 e. rewrite orb_true_iff, (H0 e), (H1 e). split.
  - intros [(e' & He & Hf)|(e' & He & Hf)].
    + exists (env_set e' v false). split.
      * intros w Hw. unfold env_set. destruct (N.eqb_spec w v); [by subst|by apply He].
      * unfold env_set at 1. rewrite N.eqb_refl. rewrite <- Hf. apply Ha0.
        intros w Hw. unfold env_set. destruct (N.eqb_spec w v); [lia|done].
    + exists (env_set e' v true). split.
      * intros w Hw. unfold env_set. destruct (N.eqb_spec w v); [by subst|by apply He].
      * unfold env_set at 1. rewrite N.eqb_refl. rewrite <- Hf. apply Ha1.
        intros w Hw. unfold env_set. destruct (N.eqb_spec w v); [lia|done].
  - intros (e' & He & Hf). destruct (e' v); [right|left]; by exists e'.
Qed.

(** Only the variables that the function may depend on matter. *)
Lemma quant_vars (q q' : N -> Prop) n f g :
  above n f -> (forall v, n <= v -> q v <-> q' v) -> quant q f g -> quant q' f g.
Proof.
  intros Ha Hqq Hq e. rewrite (Hq e).
  split; intros (e1 & He1 & Hf); exists (fun v => if v <? n then e v else e1 v); split.
  - intros v Hv. destruct (N.ltb_spec v n) as [|Hn]; [done|]. apply He1. by rewrite Hqq.
  - rewrite <- Hf. apply Ha. intros v Hv. by destruct (N.ltb_spec v n); [lia|].
  - intros v Hv. destruct (N.ltb_spec v n) as [|Hn]; [done|]. apply He1. by rewrite <- Hqq.
  - rewrite <- Hf. apply Ha. intros v Hv. by destruct (N.ltb_spec v n); [lia|].
Qed.

Lemma quant_above q n f g : above n f -> quant q f g -> above n g.
Proof.
  intros Ha Hq e e' He. apply eq_true_iff_eq. rewrite (Hq e), (Hq e').
  split; intros (e1 & He1 & Hf).
  - exists (fun v => if v <? n then e' v else e1 v). split.
    + intros v Hv. destruct (N.ltb_spec v n); [done|]. rewrite (He1 v Hv). by apply He.
    + rewrite <- Hf. apply Ha. intros v Hv. by destruct (N.ltb_spec v n); [lia|].
  - exists (fun v => if v <? n then e v else e1 v). split.
    + intros v Hv. destruct (N.ltb_spec v n); [done|]. rewrite (He1 v Hv). symmetry. by apply He.
    + rewrite <- Hf. apply Ha. intros v Hv. by destruct (N.ltb_spec v n); [lia|].
Qed.

Lemma quant_none (q : N -> Prop) n f : above n f -> (forall v, n <= v -> ~ q v) -> quant q f f.
Proof.
  intros Ha Hq e. split.
  - intros Hf. by exists e.
  - intros (e' & He & Hf). rewrite <- Hf. apply Ha. intros v Hv. symmetry. by apply He, Hq.
Qed.

Lemma quant_const q c : quant q (fun _ => c) (fun _ => c).
Proof. intros e. split; [by exists e|]. by intros (_ & _ & ?). Qed.

(** A function with a satisfying assignment, all of whose variables are quantified. *)
Lemma quant_all (q : N -> Prop) n f e0 :
  above n f -> (forall v, n <= v -> q v) -> f e0 = true -> quant q f (fun _ => true).
Proof.
  intros Ha Hq Hf e. split; [|done]. intros _. exists (fun v => if v <? n then e v else e0 v). split.
  - intros v Hv. destruct (N.ltb_spec v n); [done|]. by destruct Hv; apply Hq.
  - rewrite <- Hf. apply Ha. intros v Hv. by destruct (N.ltb_spec v n); [lia|].
Qed.

(** ** Functions of the variables before a bound *)

Definition below (K : N) (f : bfun) : Prop :=
  forall e e', (forall v, v < K -> e v = e' v) -> f e = f e'.

Fixpoint vars_lt (K : N) (t : bdd) : Prop :=
  match t with
  | Leaf _ => True
  | Node v lo hi => v < K /\ vars_lt K lo /\ vars_lt K hi
  end.

Lemma vars_lt_below K t : vars_lt K t -> below K (sem t).
Proof.
  induction t as [b|v lo IH1 hi IH2]; [done|]. intros (Hv & H1 & H2) e e' He. cbn.
  rewrite (He v Hv). case_match; [by apply IH2|by apply IH1].
Qed.

Lemma below_vars_lt K n t : wf n t -> below K (sem t) -> vars_lt K t.
Proof.
  revert n. induction t as [b|v lo IH1 hi IH2]; [done|]. intros n Hw Hb.
  pose proof Hw as (Hn & Hv & Hne & Hw1 & Hw2).
  assert (forall b : bool, below K (sem (if b then hi else lo))) as Hbr.
  { intros b e e' He. rewrite <- !(sem_node_branch n v lo hi _ b Hw). apply Hb.
    intros w Hw'. unfold env_set. destruct (w =? v); [done|]. by apply He. }
  split_and!; [|by apply (IH1 (v + 1)), (Hbr false)|by apply (IH2 (v + 1)), (Hbr true)].
  destruct (N.lt_ge_cases v K) as [|Hge]; [done|]. exfalso. apply Hne.
  apply (canonical (v + 1)); [done..|]. intros e.
  rewrite <- (sem_node_branch n v lo hi e false Hw), <- (sem_node_branch n v lo hi e true Hw).
  apply Hb. intros w Hw'. unfold env_set. destruct (N.eqb_spec w v); [lia|done].
Qed.

Lemma vars_lt_neg K t : vars_lt K (neg t) <-> vars_lt K t.
Proof. induction t as [b|v lo IH1 hi IH2]; cbn; [done|]. by rewrite IH1, IH2. Qed.

Lemma vars_lt_cof K b v t : vars_lt K t -> vars_lt K (cof b v t).
Proof.
  destruct t as [|v' lo hi]; [done|]. intros (? & ? & ?). cbn. destruct (v' =? v); [by destruct b|done].
Qed.

Lemma height_vars K n t : wf n t -> vars_lt K t -> N.of_nat (height t) <= K - n.
Proof.
  revert n. induction t as [b|v lo IH1 hi IH2]; intros n; cbn [wf vars_lt height]; [lia|].
  intros (Hn & _ & _ & Hw1 & Hw2) (Hv & H1 & H2).
  specialize (IH1 _ Hw1 H1). specialize (IH2 _ Hw2 H2). lia.
Qed.

Lemma quant_below q K f g : below K f -> quant q f g -> below K g.
Proof.
  intros Hb Hq e e' He. apply eq_true_iff_eq. rewrite (Hq e), (Hq e').
  split; intros (e1 & He1 & Hf).
  - exists (fun v => if v <? K then e1 v else e' v). split.
    + intros v Hv. destruct (N.ltb_spec v K); [|done]. rewrite (He1 v Hv). by apply He.
    + rewrite <- Hf. apply Hb. intros v Hv. by destruct (N.ltb_spec v K); [|lia].
  - exists (fun v => if v <? K then e1 v else e v). split.
    + intros v Hv. destruct (N.ltb_spec v K); [|done]. rewrite (He1 v Hv). symmetry. by apply He.
    + rewrite <- Hf. apply Hb. intros v Hv. by destruct (N.ltb_spec v K); [|lia].
Qed.

Lemma satisfiable n t : wf n t -> t <> Leaf false -> exists e, sem t e = true.
Proof.
  revert n. induction t as [b|v lo IH1 hi IH2]; intros n Hw Hne.
  - exists (fun _ => false). destruct b; done.
  - pose proof Hw as (_ & _ & Hlh & Hw1 & Hw2).
    destruct (decide (lo = Leaf false)) as [->|Hlo].
    + destruct (IH2 _ Hw2) as (e & He); [congruence|]. exists (env_set e v true).
      by rewrite (sem_node_branch n v (Leaf false) hi e true Hw).
    + destruct (IH1 _ Hw1 Hlo) as (e & He). exists (env_set e v false).
      by rewrite (sem_node_branch n v lo hi e false Hw).
Qed.

Lemma quant_exists (q : N -> Prop) `{forall v, Decision (q v)} n t :
  wf n t -> exists g, quant q (sem t) g.
Proof.
  revert n. induction t as [b|v lo IH1 hi IH2]; intros n Hw.
  - exists (fun _ => b). apply quant_const.
  - pose proof Hw as (_ & _ & _ & Hw1 & Hw2).
    destruct (IH1 _ Hw1) as (g0 & H0). destruct (IH2 _ Hw2) as (g1 & H1).
    destruct (decide (q v)) as [Hv|Hv].
    + exists (fun e => g0 e || g1 e). apply (quant_drop q v); [done|by apply above_wf..|done|done].
    + exists (fun e : N -> bool => if e v then g1 e else g0 e). by apply quant_keep.
Qed.

Lemma quant_incl q f g e : quant q f g -> f e = true -> g e = true.
Proof. intros Hq Hf. apply Hq. by exists e. Qed.

(** ** Steps the operations share *)

Section shared.
Context {T C : Type} `{NodeTableLaws T} `{OpCacheLaws C}.
Notation mgr := (mgr T C).
Notation arg := (arg (D := gc_discipline) (T := T) (C := C)).
Notation returns := (returns (D := gc_discipline) (T := T) (C := C)).
Implicit Types m : mgr.

Lemma node_spec m level low high f0 f1 :
  mgr_inv m -> level < 2 ^ 24 -> den (st m) low f0 -> den (st m) high f1 ->
  above (level + 1) f0 -> above (level + 1) f1 ->
  wp (mtbdd_makenode level low high)
    (returns m (fun e => if e level then f1 e else f0 e)) full_only m.
Proof.
  intros Hi Hlev H0' H1' Ha0 Ha1.
  destruct (den_above _ _ _ _ H0' Ha0) as (t0 & Hd0 & Hs0).
  destruct (den_above _ _ _ _ H1' Ha1) as (t1 & Hd1 & Hs1).
  eapply wp_mono; [by apply (makenode_spec level low high t0 t1)|].
  intros r m1 (Hi1 & HR & Hd). split; [done|]. split; [done|].
  eapply den_ext; [|by eapply denotes_den]. intros e. by rewrite sem_mknode, Hs0, Hs1.
Qed.

Lemma cache_end (p : prog mgr N) m f k x y z (now : bool) :
  k < 2 ^ 23 -> is_edge x -> wp p (returns m f) full_only m ->
  (forall r m', returns m f r m' -> op_spec (st m') k x y z r) ->
  wp (result ← p;
      _ ← (if now then cache_put3 (N.shiftl k 40) x y z result else mret false);
      mret result) (returns m f) full_only m.
Proof.
  intros Hk Hx Hp Hs. wp_step. eapply wp_mono; [exact Hp|]. intros r m1 Hr.
  pose proof Hr as (Hi1 & HR & Hd). wp_step.
  eapply wp_mono; [apply cache_put_spec; auto|]. intros _ m2 (Hi2 & Hn & Hsr). apply wp_ret.
  split; [done|]. split; [etrans; [exact HR|]; by apply (dR_same (Discipline := gc_discipline))|].
  unfold st. by rewrite Hn.
Qed.

Lemma or_spec fuel m a b ta tb :
  mgr_inv m -> arg m 0 a ta -> arg m 0 b tb -> (height ta + height tb < fuel)%nat ->
  wp (sylvan_or fuel a b) (returns m (fun e => sem ta e || sem tb e)) full_only m.
Proof.
  intros Hi Ha Hb Hh. unfold sylvan_or. wp_step.
  eapply wp_mono; [apply (sylvan_and_spec fuel m _ _ 0 (neg ta) (neg tb))|].
  - done.
  - by apply arg_not.
  - by apply arg_not.
  - by rewrite !height_neg.
  - intros r m' Hr. apply wp_ret. apply returns_not in Hr. eapply returns_ext; [|exact Hr].
    intros e. cbn. rewrite !sem_neg. by destruct (sem ta e), (sem tb e).
Qed.

Lemma denotes_weaken s n n' d t : n' <= n -> denotes s n d t -> denotes s n' d t.
Proof. intros Hn [Hr Hw]. split; [done|]. by eapply wf_mono. Qed.

(** A result as an argument: the tree of a function of the variables between two bounds. *)
Lemma den_tree K n s d f :
  den s d f -> above n f -> below K f ->
  exists t, denotes s n d t /\ (forall e, sem t e = f e) /\ N.of_nat (height t) <= K - n.
Proof.
  intros Hd Ha Hb. destruct (den_above _ _ _ _ Hd Ha) as (t & Ht & Hs). exists t.
  split; [done|]. split; [done|]. apply height_vars; [apply Ht|].
  apply (below_vars_lt K n); [apply Ht|]. intros e e' He. rewrite !Hs. by apply Hb.
Qed.

(** The disjunction of two results that are on the reference stack. *)
Lemma or_held K n fuel m low high f0 f1 :
  mgr_inv m -> den (st m) low f0 -> live m (MTBDD_INDEX low) -> den (st m) high f1 ->
  above n f0 -> above n f1 -> below K f0 -> below K f1 -> (2 * N.to_nat (K - n) < fuel)%nat ->
  wp (pushed high (sylvan_or fuel low high)) (returns m (fun e => f0 e || f1 e)) full_only m.
Proof.
  intros Hi H0' Hl H1' Ha0 Ha1 Hb0 Hb1 Hf.
  destruct (den_tree K n _ _ _ H0' Ha0 Hb0) as (t0 & Hd0 & Hs0 & Hh0).
  destruct (den_tree K n _ _ _ H1' Ha1 Hb1) as (t1 & Hd1 & Hs1 & Hh1).
  eapply wp_mono; [apply (hold_spec (D := gc_discipline) m high f1 _ (fun e => f0 e || f1 e))|].
  - done.
  - done.
  - intros m1 Hi1 Hn Hx Hhi. eapply wp_mono; [apply (or_spec fuel m1 low high t0 t1)|].
    + done.
    + split; [|by apply Hx]. unfold st. rewrite Hn. eapply denotes_weaken; [|done]. lia.
    + split; [|done]. unfold st. rewrite Hn. eapply denotes_weaken; [|done]. lia.
    + lia.
    + intros r m2. apply returns_ext. intros e. by rewrite Hs0, Hs1.
  - intros r m2 (Hi2 & HR & _ & Hr). by split; [|split].
Qed.
(** Two releases of the reference stack in a row. *)
Lemma pop_pop m :
  set_rstack (drop 1 (rstack (set_rstack (drop 1 (rstack m)) m))) (set_rstack (drop 1 (rstack m)) m)
  = set_rstack (drop 2 (rstack m)) m.
Proof. unfold set_rstack. cbn. by rewrite drop_drop. Qed.
End shared.

(** Associates the binds of a run, one case at a time. *)
Ltac run_cases :=
  repeat (rewrite ?pop_pop; match goal with
    | |- context [match ?x with _ => _ end] =>
        lazymatch x with context [match _ with _ => _ end] => fail | _ => destruct x end
    end; try reflexivity); rewrite ?pop_pop; try reflexivity.


(** ** Variable sets *)

Lemma set_ok_wf_notin n t v : wf n t -> v < n -> v ∉ set_vars t.
Proof.
  revert n. induction t as [b|w lo IH1 hi IH2]; intros n; cbn [wf set_vars]; [set_solver|].
  intros (Hn & _ & _ & _ & Hw) Hv. apply not_elem_of_cons. split; [lia|]. apply (IH2 (w + 1)); [done|lia].
Qed.

Section quantified.
Context {T C : Type} `{NodeTableLaws T} `{OpCacheLaws C}.
Notation mgr := (mgr T C).
Notation arg := (arg (D := gc_discipline) (T := T) (C := C)).
Notation returns := (returns (D := gc_discipline) (T := T) (C := C)).
Implicit Types m : mgr.

(** A set that is not empty. *)
Lemma set_arg m n v tv :
  mgr_inv m -> arg m n v tv -> set_ok tv -> sylvan_set_isempty v = false ->
  exists x hi, tv = Node x (Leaf false) hi /\ set_ok hi /\ n <= x /\ x < 2 ^ 24 /\
    sylvan_set_first m v = x /\ arg m (x + 1) (sylvan_set_next m v) hi.
Proof.
  intros Hi Ha Hs He.
  assert (sylvan_isconst v = false) as Hc.
  { unfold sylvan_isconst. apply orb_false_iff. split; [done|]. apply N.eqb_neq. intros ->.
    rewrite (denotes_const_inv _ _ false _ (proj1 Ha)) in Hs. done. }
  destruct (node_arg m n v tv Hi Ha Hc) as (x & lo & hi & -> & Hv & Hlo & Hhi).
  destruct Hs as [-> Hs]. exists x, hi. destruct Ha as [[_ (? & ? & _)] _]. done.
Qed.

Lemma set_empty m n v tv : arg m n v tv -> sylvan_set_isempty v = true -> set_vars tv = [].
Proof.
  unfold sylvan_set_isempty. intros [Hd _] He%N.eqb_eq. subst v.
  by rewrite (denotes_const_inv _ _ true _ Hd).
Qed.

Lemma skip_vars_spec K m level fuel n v tv :
  mgr_inv m -> arg m n v tv -> set_ok tv -> vars_lt K tv -> sylvan_set_isempty v = false ->
  (height tv <= fuel)%nat ->
  match skip_vars fuel m v level with
  | None => False
  | Some None => forall x, x ∈ set_vars tv -> x < level
  | Some (Some v') => exists tv', arg m level v' tv' /\ set_ok tv' /\ vars_lt K tv' /\
      sylvan_set_isempty v' = false /\
      forall x, level <= x -> x ∈ set_vars tv <-> x ∈ set_vars tv'
  end.
Proof.
  revert n v tv. induction fuel as [|fuel IH]; intros n v tv Hi Ha Hs HK He Hf;
    destruct (set_arg m n v tv Hi Ha Hs He) as (x & hi & -> & Hs' & Hn & Hx & Hv & Hhi);
    cbn [height] in Hf; [lia|].
  cbn [skip_vars]. change (mtbddnode_getvariable (MTBDD_GETNODE m v)) with (sylvan_set_first m v).
  change (mtbddnode_followhigh v (MTBDD_GETNODE m v)) with (sylvan_set_next m v). rewrite Hv.
  destruct HK as (HxK & _ & HK). destruct (N.ltb_spec x level) as [Hlt|Hge].
  - destruct (sylvan_set_isempty (sylvan_set_next m v)) eqn:He'.
    + cbn [set_vars]. rewrite (set_empty m _ _ _ Hhi He'). intros y Hy.
      by apply list_elem_of_singleton in Hy as ->.
    + specialize (IH (x + 1) _ hi Hi Hhi Hs' HK He' ltac:(lia)).
      destruct (skip_vars _ _ _ _) as [[v'|]|]; [|set_solver|done].
      destruct IH as (tv' & ? & ? & ? & ? & Heq). exists tv'. do 4 (split; [done|]).
      intros y Hy. rewrite <- Heq by done. cbn [set_vars]. rewrite elem_of_cons.
      split; [intros [->|]; [lia|done]|by right].
  - exists (Node x (Leaf false) hi). split; [|done].
    destruct Ha as [[Hr (_ & ? & ? & ? & ?)] ?]. done.
Qed.

(** What the quantified step computes from the calls for the two halves. *)
Definition exists_step (rec : N -> prog mgr N) (or : N -> N -> prog mgr N) (aLow aHigh : N) :
    prog mgr N :=
  low ← rec aLow;
  if low =? sylvan_true then mret sylvan_true
  else pushed low (
    high ← rec aHigh;
    if high =? sylvan_true then mret sylvan_true
    else if (low =? sylvan_false) && (high =? sylvan_false) then mret sylvan_false
    else pushed high (or low high)).

Definition exists_body (rec : N -> N -> N -> prog mgr N) (fuel : nat)
    (a variables prev_level : N) : prog mgr N :=
  m ← gets id;
  let na := MTBDD_GETNODE m a in
  let level := mtbddnode_getvariable na in
  match skip_vars fuel m variables level with
  | None => no_fuel
  | Some None => mret a
  | Some (Some variables) =>
      let cachenow := use_cache (granularity m) prev_level level in
      hit ← (if cachenow then cache_get3 CACHE_BDD_EXISTS a variables 0 else mret None);
      match hit with
      | Some result => mret result
      | None =>
          let aLow := mtbddnode_followlow a na in
          let aHigh := mtbddnode_followhigh a na in
          result ← (if sylvan_set_first m variables =? level then
            if (aLow =? sylvan_true) || (aHigh =? sylvan_true)
               || (aLow =? sylvan_not aHigh) then mret sylvan_true
            else exists_step (fun x => rec x (sylvan_set_next m variables) level)
                   (sylvan_or fuel) aLow aHigh
          else
            low ← rec aLow variables level;
            high ← pushed low (rec aHigh variables level);
            mtbdd_makenode level low high);
          _ ← (if cachenow then cache_put3 CACHE_BDD_EXISTS a variables 0 result
               else mret false);
          mret result
      end
  end.

Lemma exists_unfold fuel a variables prev m :
  sylvan_exists (S fuel) a variables prev m =
  (if a =? sylvan_true then mret sylvan_true
   else if a =? sylvan_false then mret sylvan_false
   else if sylvan_set_isempty variables then mret a
   else exists_body (sylvan_exists fuel) (S fuel) a variables prev : prog mgr N) m.
Proof.
  cbn [sylvan_exists]. destruct (a =? sylvan_true); [done|]. destruct (a =? sylvan_false); [done|].
  destruct (sylvan_set_isempty variables); [done|].
  unfold exists_body, exists_step, pushed, mtbdd_refs_push, mtbdd_refs_pop, mbind, prog_bind, mret,
    prog_ret, gets, modify, id.
  destruct (skip_vars _ _ _ _) as [[v|]|]; [|done..].
  run_cases.
Qed.

Lemma den_const_inv s c f : den s (mk_edge c 0) f -> forall e, f e = c.
Proof.
  intros (t & Hd & Hs) e. apply denotes_const_inv in Hd. subst t. by rewrite <- Hs.
Qed.

Lemma den_held m m' d f :
  keeps m m' -> live m (MTBDD_INDEX d) -> den (st m) d f ->
  den (st m') d f /\ live m' (MTBDD_INDEX d).
Proof.
  intros Hk Hl (t & Hd & Hs).
  destruct (arg_mono (D := gc_discipline) m m' 0 d t Hk (conj Hd Hl)) as [Hd' Hl'].
  split; [|done]. by exists t.
Qed.

Lemma exists_step_spec K n fuel (rec : N -> prog mgr N) m al ah tl th g0 g1 :
  mgr_inv m -> arg m n al tl -> arg m n ah th ->
  above n g0 -> above n g1 -> below K g0 -> below K g1 -> (2 * N.to_nat (K - n) < fuel)%nat ->
  (forall m', mgr_inv m' -> (forall n d t, arg m n d t -> arg m' n d t) ->
     wp (rec al) (returns m' g0) full_only m' /\ wp (rec ah) (returns m' g1) full_only m') ->
  wp (exists_step rec (sylvan_or fuel) al ah) (returns m (fun e => g0 e || g1 e)) full_only m.
Proof.
  intros Hi Hal Hah Ha0 Ha1 Hb0 Hb1 Hf Hrec. unfold exists_step. wp_step.
  eapply wp_mono; [by apply Hrec|]. intros low m1 (Hi1 & HR & Hlow).
  destruct (N.eqb_spec low sylvan_true) as [->|_].
  { apply wp_ret. eapply (returns_trans (D := gc_discipline)); [exact HR|].
    apply (returns_const m1 true); [done|]. intros e. by rewrite (den_const_inv _ true _ Hlow). }
  eapply wp_mono; [apply (hold_spec (D := gc_discipline) m1 low g0 _ (fun e => g0 e || g1 e))|].
  - done.
  - done.
  - intros m2 Hi2 Hn Hx Hlive. wp_step. eapply wp_mono; [apply Hrec; [done|]|].
    { intros n' d t Ha. eapply (arg_nodes (D := gc_discipline) m1); [done|done|].
      by eapply (arg_mono (D := gc_discipline) m m1). }
    intros high m3 (Hi3 & HR3 & Hhigh).
    assert (den (st m2) low g0) as Hlow2 by (unfold st; by rewrite Hn).
    destruct (den_held m2 m3 low g0 HR3 Hlive Hlow2) as [Hlow3 Hlive3].
    destruct (N.eqb_spec high sylvan_true) as [->|_].
    { apply wp_ret. eapply (returns_trans (D := gc_discipline)); [exact HR3|].
      apply (returns_const m3 true); [done|]. intros e.
      by rewrite (den_const_inv _ true _ Hhigh), orb_true_r. }
    destruct (_ && _) eqn:Hff.
    { apply andb_prop in Hff as [->%N.eqb_eq ->%N.eqb_eq]. apply wp_ret.
      eapply (returns_trans (D := gc_discipline)); [exact HR3|].
      apply (returns_const m3 false); [done|]. intros e.
      by rewrite (den_const_inv _ false _ Hhigh), (den_const_inv _ false _ Hlow3). }
    eapply wp_mono; [by apply (or_held K n)|]. intros r m4.
    by apply (returns_trans (D := gc_discipline)).
  - intros r m2 (Hi2 & HR2 & _ & Hr). split; [done|]. split; [by etrans|done].
Qed.

Definition exists_rec_spec (K : N) (k : nat) (rec : N -> N -> N -> prog mgr N) : Prop :=
  forall n m a v prev ta tv g,
    mgr_inv m -> arg m n a ta -> arg m n v tv -> set_ok tv -> vars_lt K ta -> vars_lt K tv ->
    (2 * N.to_nat (K - n) < k)%nat -> quant (fun x => x ∈ set_vars tv) (sem ta) g ->
    wp (rec a v prev) (returns m g) full_only m.

(** The quantified step for a node whose variable heads the set. *)
Lemma exists_hit_spec K k rec n m x lo hi al ah v tv prev g :
  exists_rec_spec K k rec -> mgr_inv m -> wf n (Node x lo hi) -> vars_lt K (Node x lo hi) ->
  arg m (x + 1) al lo -> arg m (x + 1) ah hi ->
  arg m (x + 1) v tv -> set_ok tv -> vars_lt K tv -> (2 * N.to_nat (K - n) < S k)%nat ->
  quant (fun y => y ∈ x :: set_vars tv) (sem (Node x lo hi)) g ->
  wp (if (al =? sylvan_true) || (ah =? sylvan_true) || (al =? sylvan_not ah)
      then mret sylvan_true
      else exists_step (fun y => rec y v prev) (sylvan_or (S k)) al ah) (returns m g) full_only m.
Proof.
  intros Hrec Hi Hw (HxK & HK0 & HK1) Hal Hah Hv Hs HKv Hf Hq.
  pose proof Hw as (Hn & Hx24 & Hne & Hw0 & Hw1).
  destruct (quant_exists (fun y => y ∈ set_vars tv) (x + 1) lo Hw0) as (g0 & Hq0).
  destruct (quant_exists (fun y => y ∈ set_vars tv) (x + 1) hi Hw1) as (g1 & Hq1).
  assert (forall f g', above (x + 1) f -> quant (fun y => y ∈ set_vars tv) f g' ->
    quant (fun y => y ∈ x :: set_vars tv) f g') as Hcons.
  { intros f g' Ha. apply (quant_vars _ _ (x + 1)); [done|]. intros y Hy.
    rewrite elem_of_cons. split; [by right|]. intros [->|]; [lia|done]. }
  pose proof (quant_drop (fun y => y ∈ x :: set_vars tv) x (sem lo) (sem hi) g0 g1
    ltac:(set_solver) (above_wf _ _ Hw0) (above_wf _ _ Hw1)
    (Hcons _ _ (above_wf _ _ Hw0) Hq0) (Hcons _ _ (above_wf _ _ Hw1) Hq1)) as Hq'.
  pose proof (quant_unique _ _ _ _ Hq' Hq) as Hg.
  destruct (_ || _ || _) eqn:Ht.
  - apply wp_ret. apply (returns_const m true); [done|]. intros e. rewrite <- Hg. apply orb_true_iff.
    apply orb_true_iff in Ht as [[->%N.eqb_eq| ->%N.eqb_eq]%orb_true_iff| ->%N.eqb_eq].
    + left. eapply quant_incl; [exact Hq0|]. by rewrite (denotes_const_inv _ _ true _ (proj1 Hal)).
    + right. eapply quant_incl; [exact Hq1|]. by rewrite (denotes_const_inv _ _ true _ (proj1 Hah)).
    + pose proof (arg_eq _ _ _ _ _ Hal (arg_not _ _ _ _ Hah)) as ->.
      destruct (sem hi e) eqn:E; [right; by eapply quant_incl|].
      left. eapply quant_incl; [exact Hq0|]. by rewrite sem_neg, E.
  - eapply wp_mono; [apply (exists_step_spec K (x + 1) (S k) _ m al ah lo hi g0 g1)|].
    + done.
    + done.
    + done.
    + eapply quant_above; [|exact Hq0]. by apply above_wf.
    + eapply quant_above; [|exact Hq1]. by apply above_wf.
    + eapply quant_below; [|exact Hq0]. by apply vars_lt_below.
    + eapply quant_below; [|exact Hq1]. by apply vars_lt_below.
    + lia.
    + intros m' Hi' Hk. split.
      * apply (Hrec (x + 1) m' al v prev lo tv g0); try done; [by apply Hk..|lia].
      * apply (Hrec (x + 1) m' ah v prev hi tv g1); try done; [by apply Hk..|lia].
    + intros r m'. by apply returns_ext.
Qed.


(** Two calls, the first result on the reference stack during the second. *)
Lemma calls_spec m (p1 p2 : prog mgr N) f1 f2 (k : N -> N -> prog mgr N) f :
  mgr_inv m ->
  (forall m', mgr_inv m' -> (forall n d t, arg m n d t -> arg m' n d t) ->
     wp p1 (returns m' f1) full_only m' /\ wp p2 (returns m' f2) full_only m') ->
  (forall m' x y, mgr_inv m' -> den (st m') x f1 -> den (st m') y f2 ->
     wp (k x y) (returns m' f) full_only m') ->
  wp (x ← p1; y ← pushed x p2; k x y) (returns m f) full_only m.
Proof.
  intros Hi Hp Hk. wp_step. eapply wp_mono; [by apply Hp|]. intros x m1 (Hi1 & HR & Hx). wp_step.
  eapply wp_mono; [apply (hold_spec (D := gc_discipline) m1 x f1 _ f2); [done..|]|].
  - intros m2 Hi2 Hn Ho _. apply Hp; [done|]. intros n d t Ha.
    eapply (arg_nodes (D := gc_discipline) m1); [done|done|].
    by eapply (arg_mono (D := gc_discipline) m m1).
  - intros y m2 (Hi2 & HR2 & Hx2 & Hy). eapply wp_mono; [by apply Hk|]. intros r m3.
    apply (returns_trans (D := gc_discipline)). by etrans.
Qed.

(** The step for a node whose variable is kept. *)
Lemma exists_miss_spec K k rec n m x lo hi al ah v tv prev g :
  exists_rec_spec K k rec -> mgr_inv m -> wf n (Node x lo hi) -> vars_lt K (Node x lo hi) ->
  arg m (x + 1) al lo -> arg m (x + 1) ah hi ->
  arg m (x + 1) v tv -> set_ok tv -> vars_lt K tv -> (2 * N.to_nat (K - n) < S k)%nat ->
  quant (fun y => y ∈ set_vars tv) (sem (Node x lo hi)) g ->
  wp (low ← rec al v prev; high ← pushed low (rec ah v prev); mtbdd_makenode x low high)
    (returns m g) full_only m.
Proof.
  intros Hrec Hi Hw (HxK & HK0 & HK1) Hal Hah Hv Hs HKv Hf Hq.
  pose proof Hw as (Hn & Hx24 & Hne & Hw0 & Hw1).
  destruct (quant_exists (fun y => y ∈ set_vars tv) (x + 1) lo Hw0) as (g0 & Hq0).
  destruct (quant_exists (fun y => y ∈ set_vars tv) (x + 1) hi Hw1) as (g1 & Hq1).
  assert (x ∉ set_vars tv) as Hnx by (apply (set_ok_wf_notin (x + 1)); [apply Hv|lia]).
  pose proof (quant_unique _ _ _ _ (quant_keep (fun y => y ∈ set_vars tv) x _ _ _ _ Hnx Hq0 Hq1) Hq)
    as Hg.
  apply (calls_spec m _ _ g0 g1); [done|..].
  - intros m' Hi' Hk. split.
    + apply (Hrec (x + 1) m' al v prev lo tv g0); try done; [by apply Hk..|lia].
    + apply (Hrec (x + 1) m' ah v prev hi tv g1); try done; [by apply Hk..|lia].
  - intros m' low high Hi' Hlow Hhigh.
    eapply wp_mono; [apply (node_spec m' x low high g0 g1); try done|].
    + eapply quant_above; [|exact Hq0]. by apply above_wf.
    + eapply quant_above; [|exact Hq1]. by apply above_wf.
    + intros r m3. by apply returns_ext.
Qed.

Lemma arg_is_set m n v tv : arg m n v tv -> set_ok tv -> is_set (st m) v (set_vars tv).
Proof. intros [[Hr Hw] _] Hs. exists tv. split; [|done]. split; [done|]. eapply wf_mono; [|done]. lia. Qed.

Lemma is_set_unique s n d t vs : denotes s n d t -> is_set s d vs -> vs = set_vars t.
Proof. intros [Hr _] (t' & [Hr' _] & _ & <-). f_equal. by eapply rep_functional. Qed.

Lemma sylvan_exists_spec K fuel : exists_rec_spec K fuel (sylvan_exists (T := T) (C := C) fuel).
Proof.
  induction fuel as [|fuel IH]; intros n m a v prev ta tv g Hi Ha Hv Hs HKa HKv Hf Hq; [lia|].
  unfold wp. rewrite exists_unfold.
  match goal with |- match ?p m with _ => _ end => change (wp p (returns m g) full_only m) end.
  destruct (N.eqb_spec a sylvan_true) as [->|Ha1].
  { rewrite (denotes_const_inv _ _ true _ (proj1 Ha)) in Hq.
    apply wp_ret, (returns_const m true); [done|]. apply (quant_unique _ _ _ _ Hq (quant_const _ true)). }
  destruct (N.eqb_spec a sylvan_false) as [->|Ha2].
  { rewrite (denotes_const_inv _ _ false _ (proj1 Ha)) in Hq.
    apply wp_ret, (returns_const m false); [done|]. apply (quant_unique _ _ _ _ Hq (quant_const _ false)). }
  destruct (sylvan_set_isempty v) eqn:He.
  { rewrite (set_empty m n v tv Hv He) in Hq. apply wp_ret.
    eapply returns_ext; [|by eapply arg_returns].
    apply (quant_unique (fun x => x ∈ []) (sem ta)); [|done].
    apply (quant_none _ n); [apply above_wf, Ha|set_solver]. }
  apply N.eqb_neq in Ha1, Ha2.
  destruct (node_arg m n a ta Hi Ha (isconst_neq a Ha1 Ha2)) as (x & lo & hi & -> & Hx & Hlo & Hhi).
  pose proof Ha as [[_ Hw] _]. pose proof Hw as (Hn & Hx24 & Hne & Hw0 & Hw1).
  unfold exists_body. wp_step. wp_step. unfold id. rewrite Hx.
  pose proof (skip_vars_spec K m x (S fuel) n v tv Hi Hv Hs HKv He) as Hskip.
  pose proof (height_vars K n tv (proj2 (proj1 Hv)) HKv) as Hht. specialize (Hskip ltac:(lia)).
  destruct (skip_vars _ _ _ _) as [[v'|]|]; [| |done].
  2:{ apply wp_ret. eapply returns_ext; [|by eapply arg_returns].
      apply (quant_unique (fun x => x ∈ set_vars tv) (sem (Node x lo hi))); [|done].
      apply (quant_none _ x); [apply above_wf; split_and!; done|].
      intros y Hy Hin. specialize (Hskip y Hin). lia. }
  destruct Hskip as (tv' & Hv' & Hs' & HKv' & He' & Heq).
  assert (quant (fun y => y ∈ set_vars tv') (sem (Node x lo hi)) g) as Hq'.
  { eapply (quant_vars _ _ x); [apply above_wf; split_and!; done|exact Heq|done]. }
  destruct (set_arg m x v' tv' Hi Hv' Hs' He') as (y & vs & -> & Hs2 & Hy & Hy24 & Hfst & Hnext).
  wp_step. apply (cache_get_spec m 3); [done|by eapply rep_edge, Ha|done|..].
  - intros r (f & ws & g' & Hdf & Hset & Hqf & Hr). apply wp_ret. split; [done|]. split; [done|].
    eapply den_ext; [|exact Hr]. apply (quant_unique (fun z => z ∈ ws) f); [done|].
    rewrite (is_set_unique _ _ _ _ _ (proj1 Hv') Hset).
    eapply quant_ext; [| |exact Hq']; [|done]. intros e. symmetry.
    by apply (den_arg_unique (D := gc_discipline) m n a (Node x lo hi) f).
  - eapply (cache_end _ m g 3 a v' 0); [done|by eapply rep_edge, Ha| |].
    + rewrite Hfst. destruct (N.eqb_spec y x) as [->|Hyx].
      * eapply (exists_hit_spec K fuel _ n m x lo hi _ _ _ vs x); try done. apply HKv'.
      * eapply (exists_miss_spec K fuel _ n m x lo hi _ _ v' (Node y (Leaf false) vs) x); try done.
        destruct Hv' as [[Hr (? & ? & ? & ? & ?)] ?]. split; [|done]. split; [done|].
        split_and!; [lia|done..].
    + intros r m' (Hi' & HR & Hr). exists (sem (Node x lo hi)), (set_vars (Node y (Leaf false) vs)), g.
      split; [by apply (arg_den m m' n)|]. split; [|done].
      apply (arg_is_set m' x); [by eapply (arg_mono (D := gc_discipline) m m')|done].
Qed.


(** ** Projection *)

Lemma or_held_second K n fuel m low high f0 f1 :
  mgr_inv m -> den (st m) low f0 -> den (st m) high f1 -> live m (MTBDD_INDEX high) ->
  above n f0 -> above n f1 -> below K f0 -> below K f1 -> (2 * N.to_nat (K - n) < fuel)%nat ->
  wp (pushed low (sylvan_or fuel low high)) (returns m (fun e => f0 e || f1 e)) full_only m.
Proof.
  intros Hi H0' H1' Hl Ha0 Ha1 Hb0 Hb1 Hf.
  destruct (den_tree K n _ _ _ H0' Ha0 Hb0) as (t0 & Hd0 & Hs0 & Hh0).
  destruct (den_tree K n _ _ _ H1' Ha1 Hb1) as (t1 & Hd1 & Hs1 & Hh1).
  eapply wp_mono; [apply (hold_spec (D := gc_discipline) m low f0 _ (fun e => f0 e || f1 e))|].
  - done.
  - done.
  - intros m1 Hi1 Hn Hx Hlo. eapply wp_mono; [apply (or_spec fuel m1 low high t0 t1)|].
    + done.
    + split; [|done]. unfold st. rewrite Hn. eapply denotes_weaken; [|done]. lia.
    + split; [|by apply Hx]. unfold st. rewrite Hn. eapply denotes_weaken; [|done]. lia.
    + lia.
    + intros r m2. apply returns_ext. intros e. by rewrite Hs0, Hs1.
  - intros r m2 (Hi2 & HR & _ & Hr). by split; [|split].
Qed.

Definition project_body (rec : N -> N -> prog mgr N) (fuel : nat) (a v : N) : prog mgr N :=
  m ← gets id;
  let a_node := MTBDD_GETNODE m a in
  let a_var := mtbddnode_getvariable a_node in
  match skip_vars fuel m v a_var with
  | None => no_fuel
  | Some None => mret sylvan_true
  | Some (Some v) =>
      hit ← cache_get3 CACHE_BDD_PROJECT a 0 v;
      match hit with
      | Some result => mret result
      | None =>
          let a0 := mtbddnode_followlow a a_node in
          let a1 := mtbddnode_followhigh a a_node in
          result ← (if sylvan_set_first m v =? a_var then
            high ← rec a1 (sylvan_set_next m v);
            low ← pushed high (rec a0 (sylvan_set_next m v));
            mtbdd_makenode a_var low high
          else
            high ← rec a1 v;
            pushed high (low ← rec a0 v; pushed low (sylvan_or fuel low high)));
          _ ← cache_put3 CACHE_BDD_PROJECT a 0 v result;
          mret result
      end
  end.

Lemma skip_project_vars fuel m v level : skip_project fuel m v level = skip_vars fuel m v level.
Proof.
  revert v. induction fuel as [|fuel IH]; intros v; [done|]. cbn [skip_project skip_vars].
  unfold sylvan_set_first, sylvan_set_next. by rewrite IH.
Qed.

Lemma project_unfold fuel a v m :
  sylvan_project (S fuel) a v m =
  (if a =? sylvan_false then mret sylvan_false
   else if a =? sylvan_true then mret sylvan_true
   else if sylvan_set_isempty v then mret sylvan_true
   else project_body (sylvan_project fuel) (S fuel) a v : prog mgr N) m.
Proof.
  cbn [sylvan_project]. destruct (a =? sylvan_false); [done|]. destruct (a =? sylvan_true); [done|].
  destruct (sylvan_set_isempty v); [done|].
  unfold project_body, pushed, mtbdd_refs_push, mtbdd_refs_pop, mbind, prog_bind, mret,
    prog_ret, gets, modify, id.
  rewrite skip_project_vars. destruct (skip_vars _ _ _ _) as [[v'|]|]; [|done..].
  run_cases.
Qed.

Definition project_rec_spec (K : N) (k : nat) (rec : N -> N -> prog mgr N) : Prop :=
  forall n m a v ta tv g,
    mgr_inv m -> arg m n a ta -> arg m n v tv -> set_ok tv -> vars_lt K ta -> vars_lt K tv ->
    (2 * N.to_nat (K - n) < k)%nat -> quant (fun x => x ∉ set_vars tv) (sem ta) g ->
    wp (rec a v) (returns m g) full_only m.

(** The two calls, the high one first; [p] continues while its result is held. *)
Lemma project_calls K k rec n m x lo hi al ah v tv g0 g1 (p : N -> N -> prog mgr N) f :
  project_rec_spec K k rec -> mgr_inv m -> wf n (Node x lo hi) -> vars_lt K (Node x lo hi) ->
  arg m (x + 1) al lo -> arg m (x + 1) ah hi ->
  arg m (x + 1) v tv -> set_ok tv -> vars_lt K tv -> (2 * N.to_nat (K - n) < S k)%nat ->
  quant (fun y => y ∉ set_vars tv) (sem lo) g0 -> quant (fun y => y ∉ set_vars tv) (sem hi) g1 ->
  (forall m' low high, mgr_inv m' -> den (st m') low g0 -> den (st m') high g1 ->
     live m' (MTBDD_INDEX high) -> wp (p low high) (returns m' f) full_only m') ->
  wp (high ← rec ah v; pushed high (low ← rec al v; p low high)) (returns m f) full_only m.
Proof.
  intros Hrec Hi (Hn & Hx24 & Hne & Hw0 & Hw1) (HxK & HK0 & HK1) Hal Hah Hv Hs HKv Hf Hq0 Hq1 Hp.
  wp_step. eapply wp_mono; [apply (Hrec (x + 1) m ah v hi tv g1); try done; lia|].
  intros high m1 (Hi1 & HR & Hhigh).
  eapply wp_mono; [apply (hold_spec (D := gc_discipline) m1 high g1 _ f)|].
  - done.
  - done.
  - intros m2 Hi2 Hn2 Hx2 Hlive.
    assert (forall n d t, arg m n d t -> arg m2 n d t) as Hk.
    { intros n' d t Ha. eapply (arg_nodes (D := gc_discipline) m1); [done|done|].
      by eapply (arg_mono (D := gc_discipline) m m1). }
    wp_step. eapply wp_mono.
    + apply (Hrec (x + 1) m2 al v lo tv g0); try done; [by apply Hk..|lia].
    + intros low m3 (Hi3 & HR3 & Hlow).
      assert (den (st m2) high g1) as Hhigh2 by (unfold st; by rewrite Hn2).
      destruct (den_held m2 m3 high g1 HR3 Hlive Hhigh2) as [Hhigh3 Hlive3].
      eapply wp_mono; [by apply Hp|]. intros r m4.
      by apply (returns_trans (D := gc_discipline)).
  - intros r m2 (Hi2 & HR2 & _ & Hr). split; [done|]. split; [by etrans|done].
Qed.


Lemma project_keep K k rec n m x lo hi al ah v tv g0 g1 :
  project_rec_spec K k rec -> mgr_inv m -> wf n (Node x lo hi) -> vars_lt K (Node x lo hi) ->
  arg m (x + 1) al lo -> arg m (x + 1) ah hi ->
  arg m (x + 1) v tv -> set_ok tv -> vars_lt K tv -> (2 * N.to_nat (K - n) < S k)%nat ->
  quant (fun y => y ∉ set_vars tv) (sem lo) g0 -> quant (fun y => y ∉ set_vars tv) (sem hi) g1 ->
  wp (high ← rec ah v; low ← pushed high (rec al v); mtbdd_makenode x low high)
    (returns m (fun e => if e x then g1 e else g0 e)) full_only m.
Proof.
  intros Hrec Hi Hw HK Hal Hah Hv Hs HKv Hf Hq0 Hq1.
  pose proof Hw as (Hn & Hx24 & Hne & Hw0 & Hw1). destruct HK as (HxK & HK0 & HK1).
  apply (calls_spec m _ _ g1 g0 (fun high low => mtbdd_makenode x low high)); [done|..].
  - intros m' Hi' Hk. split.
    + apply (Hrec (x + 1) m' ah v hi tv g1); try done; [by apply Hk..|lia].
    + apply (Hrec (x + 1) m' al v lo tv g0); try done; [by apply Hk..|lia].
  - intros m' high low Hi' Hhigh Hlow. apply node_spec; try done.
    + eapply quant_above; [|exact Hq0]. by apply above_wf.
    + eapply quant_above; [|exact Hq1]. by apply above_wf.
Qed.

(** The recursive part, for the set from the level of the diagram on. *)
Lemma project_step K k n m x lo hi a v tv y vs g :
  let na := MTBDD_GETNODE m a in
  project_rec_spec K k (sylvan_project (T := T) (C := C) k) -> mgr_inv m ->
  wf n (Node x lo hi) -> vars_lt K (Node x lo hi) ->
  arg m (x + 1) (mtbddnode_followlow a na) lo -> arg m (x + 1) (mtbddnode_followhigh a na) hi ->
  tv = Node y (Leaf false) vs -> x <= y -> sylvan_set_first m v = y ->
  arg m (y + 1) (sylvan_set_next m v) vs -> arg m x v tv -> set_ok tv -> vars_lt K tv ->
  (2 * N.to_nat (K - n) < S k)%nat ->
  quant (fun z => z ∉ set_vars tv) (sem (Node x lo hi)) g ->
  wp (if sylvan_set_first m v =? x then
        high ← sylvan_project k (mtbddnode_followhigh a na) (sylvan_set_next m v);
        low ← pushed high (sylvan_project k (mtbddnode_followlow a na) (sylvan_set_next m v));
        mtbdd_makenode x low high
      else
        high ← sylvan_project k (mtbddnode_followhigh a na) v;
        pushed high (low ← sylvan_project k (mtbddnode_followlow a na) v;
                     pushed low (sylvan_or (S k) low high)))
    (returns m g) full_only m.
Proof.
  intros na IH Hi Hw HK Hlo Hhi Htv Hxy Hfst Hnext Hv Hs HKv Hf Hq. rewrite Hfst.
  pose proof Hw as (Hn & Hx24 & Hne & Hw0 & Hw1). pose proof HK as (HxK & HK0 & HK1).
  destruct (N.eqb_spec y x) as [->|Hyx].
  - destruct (quant_exists (fun z => z ∉ set_vars vs) (x + 1) lo Hw0) as (g0 & Hq0).
    destruct (quant_exists (fun z => z ∉ set_vars vs) (x + 1) hi Hw1) as (g1 & Hq1).
    assert (forall f g', above (x + 1) f -> quant (fun z => z ∉ set_vars vs) f g' ->
      quant (fun z => z ∉ set_vars tv) f g') as Hc.
    { intros f g' Ha. apply (quant_vars _ _ (x + 1)); [done|]. intros z Hz. subst tv.
      cbn [set_vars]. rewrite not_elem_of_cons. split; [by split; [lia|]|by intros []]. }
    assert (~ (fun z => z ∉ set_vars tv) x) as Hx by (subst tv; cbn; set_solver).
    pose proof (quant_keep (fun z => z ∉ set_vars tv) x _ _ _ _ Hx
      (Hc _ _ (above_wf _ _ Hw0) Hq0) (Hc _ _ (above_wf _ _ Hw1) Hq1)) as Hq'.
    eapply wp_mono.
    + apply (project_keep K k _ n m x lo hi _ _ (sylvan_set_next m v) vs g0 g1); try done;
        subst tv; [apply Hs|apply HKv].
    + intros r m'. apply returns_ext. exact (quant_unique _ _ _ _ Hq' Hq).
  - destruct (quant_exists (fun z => z ∉ set_vars tv) (x + 1) lo Hw0) as (g0 & Hq0).
    destruct (quant_exists (fun z => z ∉ set_vars tv) (x + 1) hi Hw1) as (g1 & Hq1).
    assert (arg m (x + 1) v tv) as Hv'.
    { destruct Hv as [[Hr Hwv] ?]. split; [|done]. split; [done|]. subst tv.
      destruct Hwv as (? & ? & ? & ? & ?). split_and!; [lia|done..]. }
    assert (x ∉ set_vars tv) as Hx by (apply (set_ok_wf_notin (x + 1)); [apply Hv'|lia]).
    pose proof (quant_drop (fun z => z ∉ set_vars tv) x _ _ g0 g1 Hx (above_wf _ _ Hw0)
      (above_wf _ _ Hw1) Hq0 Hq1) as Hq'.
    eapply wp_mono.
    + apply (project_calls K k _ n m x lo hi _ _ v tv g0 g1
        (fun low high => pushed low (sylvan_or (S k) low high)) (fun e => g0 e || g1 e)); try done.
      intros m' low high Hi' Hlow Hhigh Hl. apply (or_held_second K (x + 1)); try done; [..|lia].
      * eapply quant_above; [|exact Hq0]. by apply above_wf.
      * eapply quant_above; [|exact Hq1]. by apply above_wf.
      * eapply quant_below; [|exact Hq0]. by apply vars_lt_below.
      * eapply quant_below; [|exact Hq1]. by apply vars_lt_below.
    + intros r m'. apply returns_ext. exact (quant_unique _ _ _ _ Hq' Hq).
Qed.


Lemma sylvan_project_spec K fuel : project_rec_spec K fuel (sylvan_project (T := T) (C := C) fuel).
Proof.
  induction fuel as [|fuel IH]; intros n m a v ta tv g Hi Ha Hv Hs HKa HKv Hf Hq; [lia|].
  unfold wp. rewrite project_unfold.
  match goal with |- match ?p m with _ => _ end => change (wp p (returns m g) full_only m) end.
  destruct (N.eqb_spec a sylvan_false) as [->|Ha2].
  { rewrite (denotes_const_inv _ _ false _ (proj1 Ha)) in Hq.
    apply wp_ret, (returns_const m false); [done|]. apply (quant_unique _ _ _ _ Hq (quant_const _ false)). }
  destruct (N.eqb_spec a sylvan_true) as [->|Ha1].
  { rewrite (denotes_const_inv _ _ true _ (proj1 Ha)) in Hq.
    apply wp_ret, (returns_const m true); [done|]. apply (quant_unique _ _ _ _ Hq (quant_const _ true)). }
  apply N.eqb_neq in Ha1, Ha2.
  destruct (node_arg m n a ta Hi Ha (isconst_neq a Ha1 Ha2)) as (x & lo & hi & -> & Hx & Hlo & Hhi).
  pose proof Ha as [[_ Hw] _]. pose proof Hw as (Hn & Hx24 & Hne & Hw0 & Hw1).
  assert (wf x (Node x lo hi)) as Hwx by (split_and!; done).
  assert ((forall z, x <= z -> z ∉ set_vars tv) -> forall e, g e = true) as Hall.
  { intros Hz. destruct (satisfiable x (Node x lo hi) Hwx) as (e0 & He0); [done|].
    apply (quant_unique _ _ _ _ Hq).
    by apply (quant_all (fun z => z ∉ set_vars tv) x (sem (Node x lo hi)) e0);
      [apply above_wf|..]. }
  destruct (sylvan_set_isempty v) eqn:He.
  { apply wp_ret, (returns_const m true); [done|]. apply Hall.
    rewrite (set_empty m n v tv Hv He). set_solver. }
  unfold project_body. wp_step. wp_step. unfold id. rewrite Hx.
  pose proof (skip_vars_spec K m x (S fuel) n v tv Hi Hv Hs HKv He) as Hskip.
  pose proof (height_vars K n tv (proj2 (proj1 Hv)) HKv) as Hht. specialize (Hskip ltac:(lia)).
  destruct (skip_vars _ _ _ _) as [[v'|]|]; [| |done].
  2:{ apply wp_ret, (returns_const m true); [done|]. apply Hall.
      intros z Hz Hin. specialize (Hskip z Hin). lia. }
  destruct Hskip as (tv' & Hv' & Hs' & HKv' & He' & Heq).
  assert (quant (fun y => y ∉ set_vars tv') (sem (Node x lo hi)) g) as Hq'.
  { eapply (quant_vars _ _ x); [by apply above_wf| |done]. intros z Hz. cbn. specialize (Heq z Hz). by rewrite Heq. }
  destruct (set_arg m x v' tv' Hi Hv' Hs' He') as (y & vs & Htv & Hs2 & Hy & Hy24 & Hfst & Hnext).
  wp_step. apply (cache_get_spec m 4 a 0 v' _ true); [done|by eapply rep_edge, Ha|done|..].
  - intros r (f & ws & g' & Hdf & Hset & Hqf & Hr). apply wp_ret. split; [done|]. split; [done|].
    eapply den_ext; [|exact Hr]. apply (quant_unique (fun z => z ∉ ws) f); [done|].
    rewrite (is_set_unique _ _ _ _ _ (proj1 Hv') Hset).
    eapply quant_ext; [| |exact Hq']; [|done]. intros e. symmetry.
    by apply (den_arg_unique (D := gc_discipline) m n a (Node x lo hi) f).
  - eapply (cache_end _ m g 4 a 0 v' true); [done|by eapply rep_edge, Ha| |].
    + by apply (project_step K fuel n m x lo hi a v' tv' y vs g).
    + intros r m' (Hi' & HR & Hr). exists (sem (Node x lo hi)), (set_vars tv'), g.
      split; [by apply (arg_den m m' n)|]. split; [|done].
      apply (arg_is_set m' x); [by eapply (arg_mono (D := gc_discipline) m m')|done].
Qed.

End quantified.

End BddQuantFacts.
