(* ===== verification/AndExistsFacts.v ===== *)
(** Correctness of the relational product [sylvan_and_exists]: the conjunction of two diagrams
    with the variables of a set existentially quantified. *)

From S2P Require Import Prelude MtbddNode BddTree OpSpecs NodeStore MtbddCore MtbddCoreFacts.
From S2P Require Import BddApply BddApplyFacts BddQuant BddQuantFacts.

Module AndExistsFacts.
Import MtbddNode BddTree OpSpecs NodeStore MtbddCore MtbddCoreFacts BddApply BddApplyFacts BddQuant
  BddQuantFacts.

(** ** Quantification over a list of variables *)

(** The variables are quantified one after the other. *)
Fixpoint exists_fun (vs : list N) (f : bfun) : bfun :=
  match vs with
  | [] => f
  | v :: vs => exists_fun vs (fun e => f (env_set e v false) || f (env_set e v true))
  end.

Lemma above_exists_one f v : above 0 f -> above 0 (fun e => f (env_set e v false) || f (env_set e v true)).
Proof.
  intros Ha e e' He.
  assert (forall b w, 0 <= w -> env_set e v b w = env_set e' v b w) as Hb.
  { intros b w _. unfold env_set. destruct (w =? v); [done|]. apply He. lia. }
  by rewrite (Ha _ _ (Hb false)), (Ha _ _ (Hb true)).
Qed.

Lemma quant_list vs f : above 0 f -> quant (fun v => v ∈ vs) f (exists_fun vs f).
Proof.
  revert f. induction vs as [|v vs IH]; intros f Ha.
  - apply (quant_none _ 0); [done|set_solver].
  - cbn [exists_fun]. specialize (IH _ (above_exists_one f v Ha)). intros e. rewrite (IH e). split.
    + intros (e' & He & Hf). apply orb_true_iff in Hf.
      assert (exists b, f (env_set e' v b) = true) as [b Hb] by (destruct Hf; eauto).
      exists (env_set e' v b). split; [|done]. intros w [Hwv Hw]%not_elem_of_cons.
      unfold env_set. apply N.eqb_neq in Hwv as ->. by apply He.
    + intros (e' & He & Hf). exists (env_set e' v (e v)). split.
      * intros w Hw. unfold env_set. destruct (N.eqb_spec w v) as [->|]; [done|].
        apply He. by apply not_elem_of_cons.
      * assert (forall b, e' v = b -> f (env_set (env_set e' v (e v)) v b) = true) as Hb.
        { intros b Hb. rewrite <- Hf. apply Ha. intros w _. unfold env_set.
          destruct (N.eqb_spec w v) as [->|]; done. }
        destruct (e' v); [by rewrite (Hb true), orb_true_r|by rewrite (Hb false)].
Qed.

(** A function that the quantified variables do not matter to can be left out. *)
Lemma quant_and q f1 f2 g :
  (forall e e', (forall v, ~ q v -> e' v = e v) -> f1 e' = f1 e) ->
  quant q f2 g -> quant q (fun e => f1 e && f2 e) (fun e => f1 e && g e).
Proof.
  intros Hf1 Hq e. rewrite andb_true_iff, (Hq e). split.
  - intros (H1 & e' & He & H2). exists e'. split; [done|]. by rewrite (Hf1 e e' He), H1, H2.
  - intros (e' & He & Hf). apply andb_prop in Hf as [H1 H2]. split; [by rewrite <- (Hf1 e e' He)|].
    by exists e'.
Qed.

Section and_exists.
Context {T C : Type} `{NodeTableLaws T} `{OpCacheLaws C}.
Notation mgr := (mgr T C).
Notation arg := (arg (D := gc_discipline) (T := T) (C := C)).
Notation returns := (returns (D := gc_discipline) (T := T) (C := C)).
Implicit Types m : mgr.

Definition and_exists_step (rec : N -> N -> prog mgr N) (ex : N -> prog mgr N)
    (or : N -> N -> prog mgr N) (aLow aHigh bLow bHigh : N) : prog mgr N :=
  low ← rec aLow bLow;
  if (low =? sylvan_true) || (low =? aHigh) || (low =? bHigh) then mret low
  else pushed low (
    high ← (if low =? sylvan_not aHigh then ex bHigh
            else if low =? sylvan_not bHigh then ex aHigh
            else rec aHigh bHigh);
    if high =? sylvan_true then mret sylvan_true
    else if high =? sylvan_false then mret low
    else if low =? sylvan_false then mret high
    else pushed high (or low high)).

Definition and_exists_rest (rec : N -> N -> N -> N -> prog mgr N) (ex : N -> N -> prog mgr N)
    (or : N -> N -> prog mgr N) (a b v level : N) (cachenow : bool) : prog mgr N :=
  m ← gets id;
  let na := MTBDD_GETNODE m a in
  let nb := MTBDD_GETNODE m b in
  let va := mtbddnode_getvariable na in
  let vb := mtbddnode_getvariable nb in
  let aLow := cofactor_low level va a na in
  let aHigh := cofactor_high level va a na in
  let bLow := cofactor_low level vb b nb in
  let bHigh := cofactor_high level vb b nb in
  result ← (if level =? sylvan_set_first m v then
    let _v := sylvan_set_next m v in
    and_exists_step (fun x y => rec x y _v level) (fun x => ex x _v) or aLow aHigh bLow bHigh
  else
    low ← rec aLow bLow v level;
    high ← pushed low (rec aHigh bHigh v level);
    mtbdd_makenode level low high);
  _ ← (if cachenow then cache_put3 CACHE_BDD_AND_EXISTS a b v result else mret false);
  mret result.

Definition and_exists_body (rec : N -> N -> N -> N -> prog mgr N) (fuel : nat)
    (a b v prev_level : N) : prog mgr N :=
  m ← gets id;
  let va := mtbddnode_getvariable (MTBDD_GETNODE m a) in
  let vb := mtbddnode_getvariable (MTBDD_GETNODE m b) in
  let level := if va <? vb then va else vb in
  match skip_vars fuel m v level with
  | None => no_fuel
  | Some None => sylvan_and fuel a b 0
  | Some (Some v) =>
      let cachenow := use_cache (granularity m) prev_level level in
      hit ← (if cachenow then cache_get3 CACHE_BDD_AND_EXISTS a b v else mret None);
      match hit with
      | Some result => mret result
      | None => and_exists_rest rec (fun x v => sylvan_exists fuel x v 0) (sylvan_or fuel)
                  a b v level cachenow
      end
  end.

Lemma and_exists_unfold fuel a b v prev m :
  sylvan_and_exists (S fuel) a b v prev m =
  (if a =? sylvan_false then mret sylvan_false
   else if b =? sylvan_false then mret sylvan_false
   else if a =? sylvan_not b then mret sylvan_false
   else if (a =? sylvan_true) && (b =? sylvan_true) then mret sylvan_true
   else if a =? sylvan_true then sylvan_exists (S fuel) b v 0
   else if b =? sylvan_true then sylvan_exists (S fuel) a v 0
   else if a =? b then sylvan_exists (S fuel) a v 0
   else if sylvan_set_isempty v then sylvan_and (S fuel) a b 0
   else let '(a, b) := sorted a b in
        and_exists_body (sylvan_and_exists fuel) (S fuel) a b v prev : prog mgr N) m.
Proof.
  cbn [sylvan_and_exists]. destruct (a =? sylvan_false); [done|].
  destruct (b =? sylvan_false); [done|]. destruct (a =? sylvan_not b); [done|].
  destruct (_ && _); [done|]. destruct (a =? sylvan_true); [done|].
  destruct (b =? sylvan_true); [done|]. destruct (a =? b); [done|].
  destruct (sylvan_set_isempty v); [done|]. destruct (sorted a b) as [a' b'].
  unfold and_exists_body, and_exists_rest, and_exists_step, pushed, mtbdd_refs_push,
    mtbdd_refs_pop, mbind, prog_bind, mret, prog_ret, gets, modify, id.
  destruct (skip_vars _ _ _ _) as [[v'|]|]; [|done..].
  destruct (if use_cache _ _ _ then _ else _) eqn:E; [|done..]. destruct a0; [done|].
  unfold cache_get3, gets in E. destruct (use_cache _ _ _);
  assert (s = m) as -> by congruence; clear E; run_cases.
Qed.

(** A diagram that equals the result for the low half. *)
Lemma low_is_arg m n q d t f g0 :
  arg m n d t -> den (st m) d g0 -> quant q f g0 ->
  (forall e, sem t e = g0 e) /\
  forall e e', (forall v, ~ q v -> e' v = e v) -> sem t e' = sem t e.
Proof.
  intros Ha Hd Hq.
  assert (forall e, sem t e = g0 e) as He.
  { intros e. symmetry. by apply (den_arg_unique (D := gc_discipline) m n d). }
  split; [done|]. intros e e' Hee. rewrite !He. by apply (quant_indep q f).
Qed.

(** When the low result is one of the high operands, the high half adds nothing. *)
Lemma low_covers (q : N -> Prop) f1 f2 g0 g1 :
  (forall e, f1 e = g0 e) -> (forall e e', (forall v, ~ q v -> e' v = e v) -> f1 e' = f1 e) ->
  quant q (fun e => f1 e && f2 e) g1 -> forall e, g0 e || g1 e = g0 e.
Proof.
  intros Hf Hind Hq e. destruct (g1 e) eqn:E; [|by rewrite orb_false_r].
  apply Hq in E as (e' & He & [Hf1 _]%andb_prop). by rewrite <- Hf, <- (Hind e e' He), Hf1.
Qed.

(** When it is the complement of one, only the other operand is quantified. *)
Lemma low_excludes (q : N -> Prop) f1 f2 g0 g1 h :
  (forall e, negb (f1 e) = g0 e) ->
  (forall e e', (forall v, ~ q v -> e' v = e v) -> f1 e' = f1 e) ->
  quant q (fun e => f1 e && f2 e) g1 -> quant q f2 h -> forall e, g0 e || h e = g0 e || g1 e.
Proof.
  intros Hf Hind Hq Hh e. rewrite <- (quant_unique _ _ _ _ (quant_and _ _ _ _ Hind Hh) Hq e), <- Hf.
  by destruct (f1 e), (h e).
Qed.

Lemma quant_and_comm q (f1 f2 g : bfun) :
  quant q (fun e => f1 e && f2 e) g -> quant q (fun e => f2 e && f1 e) g.
Proof. apply quant_ext; [|done]. intros e. apply andb_comm. Qed.

Lemma above_and n (f1 f2 : bfun) : above n f1 -> above n f2 -> above n (fun e => f1 e && f2 e).
Proof. apply (above_op2 andb). Qed.

Lemma below_and K (f1 f2 : bfun) : below K f1 -> below K f2 -> below K (fun e => f1 e && f2 e).
Proof. intros H1' H2' e e' He. by rewrite (H1' e e' He), (H2' e e' He). Qed.

(** The high half, given a low result that is no operand of it. *)
Lemma and_exists_high K n (vs : list N) (rec : N -> N -> prog mgr N) (ex : N -> prog mgr N)
    m low ah bh tah tbh f0 g0 g1 :
  let q := fun v => v ∈ vs in
  mgr_inv m -> arg m n ah tah -> arg m n bh tbh -> vars_lt K tah -> vars_lt K tbh ->
  den (st m) low g0 -> quant q f0 g0 -> quant q (fun e => sem tah e && sem tbh e) g1 ->
  wp (rec ah bh) (returns m g1) full_only m ->
  (forall g, quant q (sem tah) g -> wp (ex ah) (returns m g) full_only m) ->
  (forall g, quant q (sem tbh) g -> wp (ex bh) (returns m g) full_only m) ->
  wp (if low =? sylvan_not ah then ex bh
      else if low =? sylvan_not bh then ex ah else rec ah bh)
    (fun r m' => exists h, returns m h r m' /\ above n h /\ below K h /\
       forall e, g0 e || h e = g0 e || g1 e) full_only m.
Proof.
  intros q Hi Hah Hbh HKa HKb Hlow Hq0 Hq1 Hrec Hexa Hexb.
  assert (forall x t g, arg m n x t -> vars_lt K t -> quant q (sem t) g -> above n g /\ below K g)
    as Hbounds.
  { intros x t g Ha HK Hq. split.
    - eapply quant_above; [|exact Hq]. apply above_wf, Ha.
    - eapply quant_below; [|exact Hq]. by apply vars_lt_below. }
  assert (forall x y tx ty, arg m n x tx -> arg m n y ty -> vars_lt K ty ->
    quant q (fun e => sem tx e && sem ty e) g1 -> low = sylvan_not x ->
    (forall g, quant q (sem ty) g -> wp (ex y) (returns m g) full_only m) ->
    wp (ex y) (fun r m' => exists h, returns m h r m' /\ above n h /\ below K h /\
       forall e, g0 e || h e = g0 e || g1 e) full_only m) as Hshort.
  { intros x y tx ty Hx Hy HK Hq -> Hex.
    destruct (quant_exists q n ty) as (h & Hh); [apply Hy|].
    destruct (low_is_arg m n q _ _ _ _ (arg_not _ _ _ _ Hx) Hlow Hq0) as [Hs Hind].
    eapply wp_mono; [by apply (Hex h)|]. intros r m' Hr. exists h.
    destruct (Hbounds y ty h Hy HK Hh). do 3 (split; [done|]).
    apply (low_excludes q (sem tx) (sem ty)); try done; [intros e; by rewrite <- Hs, sem_neg|].
    intros e e' He. specialize (Hind e e' He). rewrite !sem_neg in Hind.
    by destruct (sem tx e), (sem tx e'). }
  destruct (N.eqb_spec low (sylvan_not ah)) as [Hl|_]; [by apply (Hshort ah bh tah tbh)|].
  destruct (N.eqb_spec low (sylvan_not bh)) as [Hl|_].
  { apply (Hshort bh ah tbh tah); try done. by apply quant_and_comm. }
  eapply wp_mono; [exact Hrec|]. intros r m' Hr. exists g1. split; [done|]. split; [|split; [|done]].
  - eapply quant_above; [|exact Hq1]. apply above_and; apply above_wf; [apply Hah|apply Hbh].
  - eapply quant_below; [|exact Hq1]. by apply below_and; apply vars_lt_below.
Qed.


(** The end of the quantified step, with both results known. *)
Lemma and_exists_join K n fuel m low high g0 h g :
  mgr_inv m -> den (st m) low g0 -> live m (MTBDD_INDEX low) -> den (st m) high h ->
  above n g0 -> above n h -> below K g0 -> below K h -> (2 * N.to_nat (K - n) < fuel)%nat ->
  (forall e, g0 e || h e = g e) ->
  wp (if high =? sylvan_true then mret sylvan_true
      else if high =? sylvan_false then mret low
      else if low =? sylvan_false then mret high
      else pushed high (sylvan_or fuel low high)) (returns m g) full_only m.
Proof.
  intros Hi Hlow Hlive Hhigh Ha0 Hah Hb0 Hbh Hf Hg.
  destruct (N.eqb_spec high sylvan_true) as [->|_].
  { apply wp_ret, (returns_const m true); [done|]. intros e.
    by rewrite <- Hg, (den_const_inv _ true _ Hhigh), orb_true_r. }
  destruct (N.eqb_spec high sylvan_false) as [->|_].
  { apply wp_ret. split; [done|]. split; [done|]. eapply den_ext; [|exact Hlow]. intros e.
    by rewrite <- Hg, (den_const_inv _ false _ Hhigh), orb_false_r. }
  destruct (N.eqb_spec low sylvan_false) as [->|_].
  { apply wp_ret. split; [done|]. split; [done|]. eapply den_ext; [|exact Hhigh]. intros e.
    by rewrite <- Hg, (den_const_inv _ false _ Hlow). }
  eapply wp_mono; [by apply (or_held K n)|]. intros r m'. by apply returns_ext.
Qed.

Lemma and_exists_step_spec K n (vs : list N) fuel (rec : N -> N -> prog mgr N)
    (ex : N -> prog mgr N) m al ah bl bh tal tah tbl tbh g0 g1 :
  let q := fun v => v ∈ vs in
  mgr_inv m -> arg m n al tal -> arg m n ah tah -> arg m n bl tbl -> arg m n bh tbh ->
  vars_lt K tal -> vars_lt K tah -> vars_lt K tbl -> vars_lt K tbh ->
  (2 * N.to_nat (K - n) < fuel)%nat ->
  quant q (fun e => sem tal e && sem tbl e) g0 -> quant q (fun e => sem tah e && sem tbh e) g1 ->
  (forall m', mgr_inv m' -> (forall n d t, arg m n d t -> arg m' n d t) ->
     wp (rec al bl) (returns m' g0) full_only m' /\ wp (rec ah bh) (returns m' g1) full_only m' /\
     (forall g, quant q (sem tah) g -> wp (ex ah) (returns m' g) full_only m') /\
     (forall g, quant q (sem tbh) g -> wp (ex bh) (returns m' g) full_only m')) ->
  wp (and_exists_step rec ex (sylvan_or fuel) al ah bl bh)
    (returns m (fun e => g0 e || g1 e)) full_only m.
Proof.
  intros q Hi Hal Hah Hbl Hbh HKal HKah HKbl HKbh Hf Hq0 Hq1 Hrec. unfold and_exists_step. wp_step.
  eapply wp_mono; [by apply Hrec|]. intros low m1 (Hi1 & HR & Hlow).
  assert (forall n d t, arg m n d t -> arg m1 n d t) as Hk1.
  { intros n' d t Ha. by eapply (arg_mono (D := gc_discipline) m m1). }
  assert (forall x y tx ty, arg m n x tx -> arg m n y ty ->
    quant q (fun e => sem tx e && sem ty e) g1 -> low = x ->
    returns m (fun e => g0 e || g1 e) low m1) as Hcover.
  { intros x y tx ty Hx Hy Hq Hl. split; [done|]. split; [done|]. eapply den_ext; [|exact Hlow].
    intros e. rewrite <- Hl in Hx.
    destruct (low_is_arg m1 n q low tx _ g0 (Hk1 _ _ _ Hx) Hlow Hq0) as [Hs Hind].
    symmetry. by apply (low_covers q (sem tx) (sem ty)). }
  destruct (_ || _ || _) eqn:Ht.
  { apply wp_ret. apply orb_true_iff in Ht as [[Ht%N.eqb_eq|Ht%N.eqb_eq]%orb_true_iff|Ht%N.eqb_eq].
    - split; [done|]. split; [done|]. eapply den_ext; [|exact Hlow]. intros e. rewrite Ht in Hlow.
      by rewrite (den_const_inv _ true _ Hlow).
    - by apply (Hcover ah bh tah tbh).
    - apply (Hcover bh ah tbh tah); try done. by apply quant_and_comm. }
  assert (above n g0) as Ha0.
  { eapply quant_above; [|exact Hq0]. apply above_and; apply above_wf; [apply Hal|apply Hbl]. }
  assert (below K g0) as Hb0.
  { eapply quant_below; [|exact Hq0]. by apply below_and; apply vars_lt_below. }
  eapply wp_mono; [apply (hold_spec (D := gc_discipline) m1 low g0 _ (fun e => g0 e || g1 e))|].
  - done.
  - done.
  - intros m2 Hi2 Hn2 Hx2 Hlive.
    assert (forall n d t, arg m n d t -> arg m2 n d t) as Hk2.
    { intros n' d t Ha. eapply (arg_nodes (D := gc_discipline) m1); [done|done|]. by apply Hk1. }
    assert (den (st m2) low g0) as Hlow2 by (unfold st; by rewrite Hn2).
    destruct (Hrec m2 Hi2 Hk2) as (_ & Hrech & Hexa & Hexb). wp_step.
    eapply wp_mono; [by eapply (and_exists_high K n vs rec ex m2 low ah bh tah tbh); eauto|].
    intros high m3 (h & (Hi3 & HR3 & Hhigh) & Hah3 & Hbh3 & Hh).
    destruct (den_held m2 m3 low g0 HR3 Hlive Hlow2) as [Hlow3 Hlive3].
    eapply wp_mono; [by apply (and_exists_join K n fuel m3 low high g0 h (fun e => g0 e || g1 e))|]. intros r m4.
    by apply (returns_trans (D := gc_discipline)).
  - intros r m2 (Hi2 & HR2 & _ & Hr). split; [done|]. split; [by etrans|done].
Qed.

Definition and_exists_rec_spec (K : N) (k : nat) (rec : N -> N -> N -> N -> prog mgr N) : Prop :=
  forall n m a b v prev ta tb tv g,
    mgr_inv m -> arg m n a ta -> arg m n b tb -> arg m n v tv -> set_ok tv ->
    vars_lt K ta -> vars_lt K tb -> vars_lt K tv -> (2 * N.to_nat (K - n) < k)%nat ->
    quant (fun x => x ∈ set_vars tv) (fun e => sem ta e && sem tb e) g ->
    wp (rec a b v prev) (returns m g) full_only m.


Lemma above_weaken n n' f : n <= n' -> above n' f -> above n f.
Proof. intros Hn Ha e e' He. apply Ha. intros v Hv. apply He. lia. Qed.

(** The conjunction of the cofactors. *)
Definition and_cof (b : bool) (level : N) (ta tb : bdd) : bfun :=
  fun e => sem (cof b level ta) e && sem (cof b level tb) e.

Lemma and_cof_sem level ta tb (e : N -> bool) :
  wf level ta -> wf level tb ->
  (if e level then and_cof true level ta tb e else and_cof false level ta tb e) =
  sem ta e && sem tb e.
Proof.
  intros Ha Hb. unfold and_cof. rewrite (sem_cof level ta e), (sem_cof level tb e) by done.
  by destruct (e level).
Qed.

Lemma and_cof_above b level ta tb :
  wf level ta -> wf level tb -> above (level + 1) (and_cof b level ta tb).
Proof. intros Ha Hb. by apply above_and; apply above_cof. Qed.

Lemma and_cof_below K b level ta tb :
  vars_lt K ta -> vars_lt K tb -> below K (and_cof b level ta tb).
Proof. intros Ha Hb. by apply below_and; apply vars_lt_below, vars_lt_cof. Qed.

(** The four cofactors as arguments. *)
Definition cof_args (m : mgr) (level : N) (al ah bl bh : N) (ta tb : bdd) : Prop :=
  arg m (level + 1) al (cof false level ta) /\ arg m (level + 1) ah (cof true level ta) /\
  arg m (level + 1) bl (cof false level tb) /\ arg m (level + 1) bh (cof true level tb).

Lemma and_exists_hit K k n m level al ah bl bh v ta tb vs g :
  and_exists_rec_spec K k (sylvan_and_exists (T := T) (C := C) k) -> mgr_inv m ->
  n <= level -> level < K -> wf level ta -> wf level tb -> vars_lt K ta -> vars_lt K tb ->
  cof_args m level al ah bl bh ta tb ->
  arg m (level + 1) v vs -> set_ok vs -> vars_lt K vs -> (2 * N.to_nat (K - n) < S k)%nat ->
  quant (fun x => x ∈ level :: set_vars vs) (fun e => sem ta e && sem tb e) g ->
  wp (and_exists_step (fun x y => sylvan_and_exists k x y v level)
        (fun x => sylvan_exists (S k) x v 0) (sylvan_or (S k)) al ah bl bh)
    (returns m g) full_only m.
Proof.
  intros IH Hi Hn HlK Hwa Hwb HKa HKb (Hal & Hah & Hbl & Hbh) Hv Hs HKv Hf Hq.
  set (f0 := and_cof false level ta tb). set (f1 := and_cof true level ta tb).
  assert (above (level + 1) f0 /\ above (level + 1) f1) as [Ha0 Ha1] by (split; by apply and_cof_above).
  assert (quant (fun x => x ∈ set_vars vs) f0 (exists_fun (set_vars vs) f0)) as Hq0.
  { apply quant_list. eapply above_weaken; [|exact Ha0]. lia. }
  assert (quant (fun x => x ∈ set_vars vs) f1 (exists_fun (set_vars vs) f1)) as Hq1.
  { apply quant_list. eapply above_weaken; [|exact Ha1]. lia. }
  assert (forall f g', above (level + 1) f -> quant (fun y => y ∈ set_vars vs) f g' ->
    quant (fun y => y ∈ level :: set_vars vs) f g') as Hcons.
  { intros f g' Ha. apply (quant_vars _ _ (level + 1)); [done|]. intros y Hy.
    rewrite elem_of_cons. split; [by right|]. intros [->|]; [lia|done]. }
  pose proof (quant_drop (fun y => y ∈ level :: set_vars vs) level f0 f1 _ _ ltac:(set_solver)
    Ha0 Ha1 (Hcons _ _ Ha0 Hq0) (Hcons _ _ Ha1 Hq1)) as Hq'.
  assert (quant (fun x => x ∈ level :: set_vars vs) (fun e => sem ta e && sem tb e)
    (fun e : N -> bool => exists_fun (set_vars vs) f0 e || exists_fun (set_vars vs) f1 e)) as Hq2.
  { eapply quant_ext; [| |exact Hq']; [|done]. intros e. by apply and_cof_sem. }
  eapply wp_mono.
  - apply (and_exists_step_spec K (level + 1) (set_vars vs) (S k) _ _ m al ah bl bh
      (cof false level ta) (cof true level ta) (cof false level tb) (cof true level tb)
      (exists_fun (set_vars vs) f0) (exists_fun (set_vars vs) f1)); try done;
      try (by apply vars_lt_cof); [lia|].
    intros m' Hi' Hk. split_and!.
    + apply (IH (level + 1) m' al bl v level (cof false level ta) (cof false level tb) vs);
        try done; try (by apply Hk); try (by apply vars_lt_cof). lia.
    + apply (IH (level + 1) m' ah bh v level (cof true level ta) (cof true level tb) vs);
        try done; try (by apply Hk); try (by apply vars_lt_cof). lia.
    + intros g' Hg'. apply (sylvan_exists_spec K (S k) (level + 1) m' ah v 0 (cof true level ta) vs);
        try done; try (by apply Hk); try (by apply vars_lt_cof). lia.
    + intros g' Hg'. apply (sylvan_exists_spec K (S k) (level + 1) m' bh v 0 (cof true level tb) vs);
        try done; try (by apply Hk); try (by apply vars_lt_cof). lia.
  - intros r m'. apply returns_ext. exact (quant_unique _ _ _ _ Hq2 Hq).
Qed.

Lemma and_exists_miss K k n m level al ah bl bh v ta tb tv g :
  and_exists_rec_spec K k (sylvan_and_exists (T := T) (C := C) k) -> mgr_inv m ->
  n <= level -> level < K -> level < 2 ^ 24 ->
  wf level ta -> wf level tb -> vars_lt K ta -> vars_lt K tb ->
  cof_args m level al ah bl bh ta tb ->
  arg m (level + 1) v tv -> set_ok tv -> vars_lt K tv -> (2 * N.to_nat (K - n) < S k)%nat ->
  quant (fun x => x ∈ set_vars tv) (fun e => sem ta e && sem tb e) g ->
  wp (low ← sylvan_and_exists k al bl v level;
      high ← pushed low (sylvan_and_exists k ah bh v level);
      mtbdd_makenode level low high) (returns m g) full_only m.
Proof.
  intros IH Hi Hn HlK Hl24 Hwa Hwb HKa HKb (Hal & Hah & Hbl & Hbh) Hv Hs HKv Hf Hq.
  set (f0 := and_cof false level ta tb). set (f1 := and_cof true level ta tb).
  assert (above (level + 1) f0 /\ above (level + 1) f1) as [Ha0 Ha1] by (split; by apply and_cof_above).
  assert (quant (fun x => x ∈ set_vars tv) f0 (exists_fun (set_vars tv) f0)) as Hq0.
  { apply quant_list. eapply above_weaken; [|exact Ha0]. lia. }
  assert (quant (fun x => x ∈ set_vars tv) f1 (exists_fun (set_vars tv) f1)) as Hq1.
  { apply quant_list. eapply above_weaken; [|exact Ha1]. lia. }
  assert (level ∉ set_vars tv) as Hnl by (apply (set_ok_wf_notin (level + 1)); [apply Hv|lia]).
  pose proof (quant_keep (fun y => y ∈ set_vars tv) level f0 f1 _ _ Hnl Hq0 Hq1) as Hq'.
  apply (calls_spec m _ _ (exists_fun (set_vars tv) f0) (exists_fun (set_vars tv) f1)
    (fun low high => mtbdd_makenode level low high) g Hi).
  - intros m' Hi' Hk. split.
    + apply (IH (level + 1) m' al bl v level (cof false level ta) (cof false level tb) tv);
        try done; try (by apply Hk); try (by apply vars_lt_cof). lia.
    + apply (IH (level + 1) m' ah bh v level (cof true level ta) (cof true level tb) tv);
        try done; try (by apply Hk); try (by apply vars_lt_cof). lia.
  - intros m' low high Hi' Hlow Hhigh.
    eapply wp_mono; [apply (node_spec m' level low high _ _ Hi' Hl24 Hlow Hhigh)|].
    + by eapply quant_above; [|exact Hq0].
    + by eapply quant_above; [|exact Hq1].
    + intros r m3. apply returns_ext. apply (quant_unique (fun y => y ∈ set_vars tv)
        (fun e => sem ta e && sem tb e)); [|done].
      eapply quant_ext; [| |exact Hq']; [|done]. intros e. by apply and_cof_sem.
Qed.


(** The recursion on two diagrams that are no constants. *)
Lemma and_exists_body_spec K k n m a b v prev ta tb tv g :
  and_exists_rec_spec K k (sylvan_and_exists (T := T) (C := C) k) -> mgr_inv m ->
  arg m n a ta -> arg m n b tb -> arg m n v tv -> set_ok tv ->
  vars_lt K ta -> vars_lt K tb -> vars_lt K tv -> (2 * N.to_nat (K - n) < S k)%nat ->
  sylvan_isconst a = false -> sylvan_isconst b = false -> sylvan_set_isempty v = false ->
  quant (fun x => x ∈ set_vars tv) (fun e => sem ta e && sem tb e) g ->
  wp (and_exists_body (sylvan_and_exists k) (S k) a b v prev) (returns m g) full_only m.
Proof.
  intros IH Hi Ha Hb Hv Hs HKa HKb HKv Hf Hca Hcb He Hq. unfold and_exists_body.
  wp_step. wp_step. unfold id.
  set (va := mtbddnode_getvariable (MTBDD_GETNODE m a)).
  set (vb := mtbddnode_getvariable (MTBDD_GETNODE m b)).
  set (level := if va <? vb then va else vb).
  assert (level <= va /\ level <= vb /\ (level = va \/ level = vb)) as (Hla & Hlb & Hl).
  { unfold level. destruct (N.ltb_spec va vb); lia. }
  destruct (cofactor_arg m a ta level Hi (arg_weaken _ _ _ _ Ha) Hca Hla) as (Hva & Hwa & Hal & Hah & _).
  destruct (cofactor_arg m b tb level Hi (arg_weaken _ _ _ _ Hb) Hcb Hlb) as (Hvb & Hwb & Hbl & Hbh & _).
  assert (n <= level /\ level < K) as [Hn HlK].
  { destruct (node_arg m n a ta Hi Ha Hca) as (x & ? & ? & -> & Hx & _).
    destruct (node_arg m n b tb Hi Hb Hcb) as (y & ? & ? & -> & Hy & _).
    destruct Ha as [[_ [? _]] _], Hb as [[_ [? _]] _], HKa as [? _], HKb as [? _].
    fold va in Hx. fold vb in Hy. lia. }
  pose proof (height_vars K n tv (proj2 (proj1 Hv)) HKv) as Hht.
  pose proof (height_vars K n ta (proj2 (proj1 Ha)) HKa) as Hha.
  pose proof (height_vars K n tb (proj2 (proj1 Hb)) HKb) as Hhb.
  pose proof (skip_vars_spec K m level (S k) n v tv Hi Hv Hs HKv He ltac:(lia)) as Hskip.
  assert (above level (fun e => sem ta e && sem tb e)) as Habove by (apply above_and; by apply above_wf).
  destruct (skip_vars _ _ _ _) as [[v'|]|]; [| |done].
  2:{ eapply wp_mono; [apply (sylvan_and_spec (S k) m a b 0 ta tb); try done;
        [by eapply arg_weaken..|lia]|]. intros r m'. apply returns_ext.
      apply (quant_unique (fun x => x ∈ set_vars tv) (fun e => sem ta e && sem tb e)); [|done].
      apply (quant_none _ level); [done|]. intros y Hy Hin. specialize (Hskip y Hin). lia. }
  destruct Hskip as (tv' & Hv' & Hs' & HKv' & He' & Heq).
  assert (quant (fun x => x ∈ set_vars tv') (fun e => sem ta e && sem tb e) g) as Hq'.
  { eapply (quant_vars _ _ level); [done|exact Heq|done]. }
  destruct (set_arg m level v' tv' Hi Hv' Hs' He') as (y & vs & Htv & Hs2 & Hy & Hy24 & Hfst & Hnext).
  wp_step. apply (cache_get_spec m 5); [done|by eapply rep_edge, Ha|done|..].
  - intros r (f1 & f2 & ws & g' & Hf1 & Hf2 & Hset & Hqf & Hr). apply wp_ret. split; [done|].
    split; [done|]. eapply den_ext; [|exact Hr].
    apply (quant_unique (fun z => z ∈ ws) (fun e => f1 e && f2 e)); [done|].
    rewrite (is_set_unique _ _ _ _ _ (proj1 Hv') Hset).
    eapply quant_ext; [| |exact Hq']; [|done]. intros e.
    by rewrite (den_arg_unique (D := gc_discipline) m n a ta f1 Ha Hf1),
      (den_arg_unique (D := gc_discipline) m n b tb f2 Hb Hf2).
  - unfold and_exists_rest. wp_step. wp_step. unfold id. fold va vb.
    eapply (cache_end _ m g 5 a b v'); [done|by eapply rep_edge, Ha| |].
    + rewrite Hfst. destruct (N.eqb_spec level y) as [Hly|Hly].
      * rewrite <- Hly in Hnext, Htv. rewrite Htv in HKv', Hq'.
        apply (and_exists_hit K k n m level _ _ _ _ _ ta tb vs); try done. apply HKv'.
      * apply (and_exists_miss K k n m level _ _ _ _ _ ta tb tv'); try done; [lia|].
        destruct Hv' as [[Hr Hwv] ?]. split; [|done]. split; [done|]. subst tv'.
        destruct Hwv as (? & ? & ? & ? & ?). split_and!; [lia|done..].
    + intros r m' (Hi' & HR & Hr). exists (sem ta), (sem tb), (set_vars tv'), g.
      split; [by apply (arg_den m m' n)|]. split; [by apply (arg_den m m' n)|]. split; [|done].
      apply (arg_is_set m' level); [by eapply (arg_mono (D := gc_discipline) m m')|done].
Qed.

Lemma sylvan_and_exists_spec K fuel :
  and_exists_rec_spec K fuel (sylvan_and_exists (T := T) (C := C) fuel).
Proof.
  induction fuel as [|fuel IH]; intros n m a b v prev ta tb tv g Hi Ha Hb Hv Hs HKa HKb HKv Hf Hq;
    [lia|].
  unfold wp. rewrite and_exists_unfold.
  match goal with |- match ?p m with _ => _ end => change (wp p (returns m g) full_only m) end.
  assert (forall c, (forall e, sem ta e && sem tb e = c) -> returns m g (mk_edge c 0) m) as Hconst.
  { intros c Hc. apply (returns_const m c); [done|]. apply (quant_unique _ _ _ _ Hq).
    eapply quant_ext; [| |apply (quant_const _ c)]; [|done]. done. }
  assert (forall x tx, arg m n x tx -> vars_lt K tx -> (forall e, sem ta e && sem tb e = sem tx e) ->
    wp (sylvan_exists (S fuel) x v 0) (returns m g) full_only m) as Hex.
  { intros x tx Hx HK He. apply (sylvan_exists_spec K (S fuel) n m x v 0 tx tv); try done.
    by eapply quant_ext; [exact He| |exact Hq]. }
  assert (a = sylvan_true -> forall e, sem ta e = true) as Hat.
  { intros -> e. by rewrite (denotes_const_inv _ _ true _ (proj1 Ha)). }
  assert (b = sylvan_true -> forall e, sem tb e = true) as Hbt.
  { intros -> e. by rewrite (denotes_const_inv _ _ true _ (proj1 Hb)). }
  destruct (N.eqb_spec a sylvan_false) as [->|Ha1].
  { apply wp_ret, (Hconst false). intros e. by rewrite (denotes_const_inv _ _ false _ (proj1 Ha)). }
  destruct (N.eqb_spec b sylvan_false) as [->|Hb1].
  { apply wp_ret, (Hconst false). intros e.
    by rewrite (denotes_const_inv _ _ false _ (proj1 Hb)), andb_false_r. }
  destruct (N.eqb_spec a (sylvan_not b)) as [->|_].
  { apply wp_ret, (Hconst false). intros e. rewrite (arg_eq _ _ _ _ _ Ha (arg_not _ _ _ _ Hb)).
    rewrite sem_neg. by destruct (sem tb e). }
  destruct (N.eqb_spec a sylvan_true) as [Ea|Ha2].
  { destruct (N.eqb_spec b sylvan_true) as [Eb|_]; cbn [andb].
    - apply wp_ret, (Hconst true). intros e. by rewrite Hat, Hbt.
    - apply (Hex b tb); try done. intros e. by rewrite Hat. }
  destruct (N.eqb_spec b sylvan_true) as [Eb|Hb2]; cbn [andb].
  { apply (Hex a ta); try done. intros e. by rewrite Hbt, ?andb_true_r. }
  destruct (N.eqb_spec a b) as [->|Hab].
  { apply (Hex b tb); try done. intros e. rewrite (arg_eq _ _ _ _ _ Ha Hb). apply andb_diag. }
  destruct (sylvan_set_isempty v) eqn:He.
  { pose proof (height_vars K n ta (proj2 (proj1 Ha)) HKa) as Hha.
    pose proof (height_vars K n tb (proj2 (proj1 Hb)) HKb) as Hhb.
    eapply wp_mono; [apply (sylvan_and_spec (S fuel) m a b 0 ta tb); try done;
      [by eapply arg_weaken..|lia]|]. intros r m'. apply returns_ext.
    apply (quant_unique (fun x => x ∈ set_vars tv) (fun e => sem ta e && sem tb e)); [|done].
    apply (quant_none _ n); [apply above_and; apply above_wf; [apply Ha|apply Hb]|].
    rewrite (set_empty m n v tv Hv He). intros y _. apply not_elem_of_nil. }
  apply N.eqb_neq in Ha1, Ha2, Hb1, Hb2.
  destruct (sorted_cases a b) as [-> | ->].
  - apply (and_exists_body_spec K fuel n m a b v prev ta tb tv); try done; by apply isconst_neq.
  - apply (and_exists_body_spec K fuel n m b a v prev tb ta tv); try done; try (by apply isconst_neq).
    by apply quant_and_comm.
Qed.

End and_exists.
End AndExistsFacts.
