(* ===== verification/BddOps.v ===== *)
(** The generalised cofactors, the relational products over pairs of state variables, the
    transitive closure and composition from sylvan/src/sylvan_bdd.c.  Conventions as in
    [BddApply]: a spawned task runs at its [SYNC], in the reverse order of the spawns; the fuel
    bounds the depth of the recursion. *)

From S2P Require Import Prelude MtbddNode OpSpecs NodeStore MtbddCore BddApply BddQuant.

Module BddOps.
Import MtbddNode OpSpecs NodeStore MtbddCore BddApply BddQuant.

(** The common terminal cases of the two generalised cofactors. *)
Definition cofactor_terminal (f c : N) : option N :=
  if c =? sylvan_true then Some f
  else if c =? sylvan_false then Some sylvan_false
  else if sylvan_isconst f then Some f
  else if f =? c then Some sylvan_true
  else if f =? sylvan_not c then Some sylvan_false
  else None.

(** The variable of a diagram; constants come after all variables. *)
Definition var_or_max `{NodeTable T} {C} (m : mgr T C) (a : N) : N :=
  if sylvan_isconst a then 0xffffffff else mtbddnode_getvariable (MTBDD_GETNODE m a).

Section ops.
Context {T C : Type} `{NodeTable T} `{OpCache C}.
Notation mgr := (mgr T C).

Fixpoint sylvan_constrain (fuel : nat) (f c prev_level : N) : prog mgr N :=
  match fuel with
  | O => no_fuel
  | S fuel =>
      match cofactor_terminal f c with
      | Some r => mret r
      | None =>
          m ← gets id;
          let nf := MTBDD_GETNODE m f in
          let nc := MTBDD_GETNODE m c in
          let vf := mtbddnode_getvariable nf in
          let vc := mtbddnode_getvariable nc in
          let level := if vf <? vc then vf else vc in
          let mark := MTBDD_HASMARK f in
          let f := if mark then MTBDD_STRIPMARK f else f in
          let cachenow := use_cache (granularity m) prev_level level in
          hit ← (if cachenow then cache_get3 CACHE_BDD_CONSTRAIN f c 0 else mret None);
          match hit with
          | Some result => mret (if mark then sylvan_not result else result)
          | None =>
              let fLow := cofactor_low level vf f nf in
              let fHigh := cofactor_high level vf f nf in
              let cLow := cofactor_low level vc c nc in
              let cHigh := cofactor_high level vc c nc in
              result ← (if cLow =? sylvan_false then
                  if cHigh =? sylvan_true then mret fHigh
                  else sylvan_constrain fuel fHigh cHigh level
                else if cHigh =? sylvan_false then
                  if cLow =? sylvan_true then mret fLow
                  else sylvan_constrain fuel fLow cLow level
                else if cLow =? sylvan_true then
                  high ← sylvan_constrain fuel fHigh cHigh level;
                  mtbdd_makenode level fLow high
                else if cHigh =? sylvan_true then
                  low ← sylvan_constrain fuel fLow cLow level;
                  mtbdd_makenode level low fHigh
                else
                  high ← sylvan_constrain fuel fHigh cHigh level;
                  low ← pushed high (sylvan_constrain fuel fLow cLow level);
                  mtbdd_makenode level low high);
              _ ← (if cachenow then cache_put3 CACHE_BDD_CONSTRAIN f c 0 result
                   else mret false);
              mret (if mark then sylvan_not result else result)
          end
      end
  end.

Fixpoint sylvan_restrict (fuel : nat) (f c prev_level : N) : prog mgr N :=
  match fuel with
  | O => no_fuel
  | S fuel =>
      match cofactor_terminal f c with
      | Some r => mret r
      | None =>
          m ← gets id;
          let nf := MTBDD_GETNODE m f in
          let nc := MTBDD_GETNODE m c in
          let vf := mtbddnode_getvariable nf in
          let vc := mtbddnode_getvariable nc in
          let level := if vf <? vc then vf else vc in
          let mark := MTBDD_HASMARK f in
          let f := if mark then MTBDD_STRIPMARK f else f in
          let cachenow := use_cache (granularity m) prev_level level in
          hit ← (if cachenow then cache_get3 CACHE_BDD_RESTRICT f c 0 else mret None);
          match hit with
          | Some result => mret (if mark then sylvan_not result else result)
          | None =>
              result ← (if vc <? vf then
                  new_c ← sylvan_or (S fuel) (mtbddnode_followlow c nc) (mtbddnode_followhigh c nc);
                  pushed new_c (sylvan_restrict fuel f new_c level)
                else
                  let fLow := mtbddnode_followlow f nf in
                  let fHigh := mtbddnode_followhigh f nf in
                  let cLow := if vf =? vc then mtbddnode_followlow c nc else c in
                  let cHigh := if vf =? vc then mtbddnode_followhigh c nc else c in
                  if cLow =? sylvan_false then sylvan_restrict fuel fHigh cHigh level
                  else if cHigh =? sylvan_false then sylvan_restrict fuel fLow cLow level
                  else
                    high ← sylvan_restrict fuel fHigh cHigh level;
                    low ← pushed high (sylvan_restrict fuel fLow cLow level);
                    mtbdd_makenode level low high);
              _ ← (if cachenow then cache_put3 CACHE_BDD_RESTRICT f c 0 result
                   else mret false);
              mret (if mark then sylvan_not result else result)
          end
      end
  end.

(** ** Relational products over state variables *)

(** The loop over the pairs of state variables: [Some None] when the set is used up, else the
    rest of the set and whether [level] belongs to its first pair. *)
Fixpoint skip_pairs (fuel : nat) (m : mgr) (vars level : N) : option (option (N * bool)) :=
  match fuel with
  | O => None
  | S fuel =>
      let vv := mtbddnode_getvariable (MTBDD_GETNODE m vars) in
      if (level =? vv) || (N.lxor level 1 =? vv) then Some (Some (vars, true))
      else if level <? vv then Some (Some (vars, false))
      else
        let vars := mtbddnode_followhigh vars (MTBDD_GETNODE m vars) in
        if sylvan_set_isempty vars then Some None else skip_pairs fuel m vars level
  end.

Definition skip_state_vars (fuel : nat) (m : mgr) (vars level : N) : option (option (N * bool)) :=
  if vars =? sylvan_false then Some (Some (vars, true)) else skip_pairs fuel m vars level.

Fixpoint sylvan_relnext (fuel : nat) (a b vars prev_level : N) : prog mgr N :=
  match fuel with
  | O => no_fuel
  | S fuel =>
      if (a =? sylvan_true) && (b =? sylvan_true) then mret sylvan_true
      else if a =? sylvan_false then mret sylvan_false
      else if b =? sylvan_false then mret sylvan_false
      else if sylvan_set_isempty vars then mret a
      else
        m ← gets id;
        let va := var_or_max m a in
        let vb := var_or_max m b in
        let level := if va <? vb then va else vb in
        match skip_state_vars (S fuel) m vars level with
        | None => no_fuel
        | Some None => mret a
        | Some (Some (vars, is_s_or_t)) =>
            let cachenow := use_cache (granularity m) prev_level level in
            hit ← (if cachenow then cache_get3 CACHE_BDD_RELNEXT a b vars else mret None);
            match hit with
            | Some result => mret result
            | None =>
                result ← (if is_s_or_t : bool then
                  let s := N.ldiff level 1 in
                  let t := s + 1 in
                  let a0 := cof_low m s a in
                  let a1 := cof_high m s a in
                  let b0 := cof_low m s b in
                  let b1 := cof_high m s b in
                  let b00 := cof_low m t b0 in
                  let b01 := cof_high m t b0 in
                  let b10 := cof_low m t b1 in
                  let b11 := cof_high m t b1 in
                  let _vars := if vars =? sylvan_false then sylvan_false
                               else sylvan_set_next m vars in
                  f ← sylvan_relnext fuel a1 b11 _vars level;
                  _ ← mtbdd_refs_push f;
                  e ← sylvan_relnext fuel a0 b01 _vars level;
                  _ ← mtbdd_refs_push e;
                  d ← sylvan_relnext fuel a1 b10 _vars level;
                  _ ← mtbdd_refs_push d;
                  c ← sylvan_relnext fuel a0 b00 _vars level;
                  _ ← mtbdd_refs_push c;
                  d' ← sylvan_ite (S fuel) e sylvan_true f 0;
                  _ ← mtbdd_refs_push d';
                  c' ← sylvan_ite (S fuel) c sylvan_true d 0;
                  _ ← mtbdd_refs_pop 5;
                  mtbdd_makenode s c' d'
                else
                  let a0 := cof_low m level a in
                  let a1 := cof_high m level a in
                  let b0 := cof_low m level b in
                  let b1 := cof_high m level b in
                  if negb (b0 =? b1) then
                    if a0 =? a1 then
                      r1 ← sylvan_relnext fuel a1 b1 vars level;
                      _ ← mtbdd_refs_push r1;
                      r0 ← sylvan_relnext fuel a0 b0 vars level;
                      _ ← mtbdd_refs_push r0;
                      result ← sylvan_or (S fuel) r0 r1;
                      _ ← mtbdd_refs_pop 2;
                      mret result
                    else
                      r11 ← sylvan_relnext fuel a1 b1 vars level;
                      _ ← mtbdd_refs_push r11;
                      r10 ← sylvan_relnext fuel a1 b0 vars level;
                      _ ← mtbdd_refs_push r10;
                      r01 ← sylvan_relnext fuel a0 b1 vars level;
                      _ ← mtbdd_refs_push r01;
                      r00 ← sylvan_relnext fuel a0 b0 vars level;
                      _ ← mtbdd_refs_push r00;
                      r1 ← sylvan_ite (S fuel) r10 sylvan_true r11 0;
                      _ ← mtbdd_refs_push r1;
                      r0 ← sylvan_ite (S fuel) r00 sylvan_true r01 0;
                      _ ← mtbdd_refs_pop 5;
                      mtbdd_makenode level r0 r1
                  else
                    r1 ← sylvan_relnext fuel a1 b1 vars level;
                    r0 ← pushed r1 (sylvan_relnext fuel a0 b0 vars level);
                    mtbdd_makenode level r0 r1);
                _ ← (if cachenow then cache_put3 CACHE_BDD_RELNEXT a b vars result
                     else mret false);
                mret result
            end
        end
  end.

(** The two results of a pair of spawns for a half of [sylvan_relprev]: one call when the
    cofactors for [t] are equal, else two calls whose results are joined at [t].  The result
    is left on the reference stack. *)
Definition relprev_part (rec : N -> N -> prog mgr N) (a b b0 b1 t : N) : prog mgr N :=
  if b0 =? b1 then
    r ← rec a b;
    _ ← mtbdd_refs_push r;
    mret r
  else
    r1 ← rec a b1;
    _ ← mtbdd_refs_push r1;
    r0 ← rec a b0;
    _ ← mtbdd_refs_push r0;
    r ← mtbdd_makenode t r0 r1;
    _ ← mtbdd_refs_pop 2;
    _ ← mtbdd_refs_push r;
    mret r.

Fixpoint sylvan_relprev (fuel : nat) (a b vars prev_level : N) : prog mgr N :=
  match fuel with
  | O => no_fuel
  | S fuel =>
      if (a =? sylvan_true) && (b =? sylvan_true) then mret sylvan_true
      else if a =? sylvan_false then mret sylvan_false
      else if b =? sylvan_false then mret sylvan_false
      else if sylvan_set_isempty vars then mret b
      else
        m ← gets id;
        let va := var_or_max m a in
        let vb := var_or_max m b in
        let level := if va <? vb then va else vb in
        match skip_state_vars (S fuel) m vars level with
        | None => no_fuel
        | Some None => mret b
        | Some (Some (vars, is_s_or_t)) =>
            let cachenow := use_cache (granularity m) prev_level level in
            hit ← (if cachenow then cache_get3 CACHE_BDD_RELPREV a b vars else mret None);
            match hit with
            | Some result => mret result
            | None =>
                result ← (if is_s_or_t : bool then
                  let s := N.ldiff level 1 in
                  let t := s + 1 in
                  let a0 := cof_low m s a in
                  let a1 := cof_high m s a in
                  let b0 := cof_low m s b in
                  let b1 := cof_high m s b in
                  let a00 := cof_low m t a0 in
                  let a01 := cof_high m t a0 in
                  let a10 := cof_low m t a1 in
                  let a11 := cof_high m t a1 in
                  let b00 := cof_low m t b0 in
                  let b01 := cof_high m t b0 in
                  let b10 := cof_low m t b1 in
                  let b11 := cof_high m t b1 in
                  let _vars :=
                    if vars =? sylvan_false then sylvan_false
                    else
                      let _vars := sylvan_set_next m vars in
                      if sylvan_set_first m _vars =? t then sylvan_set_next m _vars else _vars in
                  let rec x y := sylvan_relprev fuel x y _vars level in
                  r11 ← relprev_part rec a11 b1 b10 b11 t;
                  r01 ← relprev_part rec a01 b1 b10 b11 t;
                  r10 ← relprev_part rec a10 b0 b00 b01 t;
                  r00 ← relprev_part rec a00 b0 b00 b01 t;
                  n1 ← sylvan_and (S fuel) (sylvan_not r10) (sylvan_not r11) 0;
                  _ ← mtbdd_refs_push n1;
                  n0 ← sylvan_and (S fuel) (sylvan_not r00) (sylvan_not r01) 0;
                  _ ← mtbdd_refs_pop 5;
                  mtbdd_makenode s (sylvan_not n0) (sylvan_not n1)
                else
                  let a0 := cof_low m level a in
                  let a1 := cof_high m level a in
                  let b0 := cof_low m level b in
                  let b1 := cof_high m level b in
                  if negb (a0 =? a1) then
                    if b0 =? b1 then
                      r1 ← sylvan_relprev fuel a1 b1 vars level;
                      _ ← mtbdd_refs_push r1;
                      r0 ← sylvan_relprev fuel a0 b0 vars level;
                      _ ← mtbdd_refs_push r0;
                      result ← sylvan_ite (S fuel) r0 sylvan_true r1 0;
                      _ ← mtbdd_refs_pop 2;
                      mret result
                    else
                      (* the code spawns [sylvan_relnext] here *)
                      r11 ← sylvan_relnext fuel a1 b1 vars level;
                      _ ← mtbdd_refs_push r11;
                      r01 ← sylvan_relnext fuel a0 b1 vars level;
                      _ ← mtbdd_refs_push r01;
                      r10 ← sylvan_relnext fuel a1 b0 vars level;
                      _ ← mtbdd_refs_push r10;
                      r00 ← sylvan_relnext fuel a0 b0 vars level;
                      _ ← mtbdd_refs_push r00;
                      r1 ← sylvan_ite (S fuel) r01 sylvan_true r11 0;
                      _ ← mtbdd_refs_push r1;
                      r0 ← sylvan_ite (S fuel) r00 sylvan_true r10 0;
                      _ ← mtbdd_refs_pop 5;
                      mtbdd_makenode level r0 r1
                  else
                    r1 ← sylvan_relprev fuel a1 b1 vars level;
                    r0 ← pushed r1 (sylvan_relprev fuel a0 b0 vars level);
                    mtbdd_makenode level r0 r1);
                _ ← (if cachenow then cache_put3 CACHE_BDD_RELPREV a b vars result
                     else mret false);
                mret result
            end
        end
  end.

(** ** Transitive closure *)

(** Each call replaces the relation [a00] by one over the remaining variables; the fuel
    bounds the depth of the nested calls. *)
Fixpoint sylvan_closure (fuel : nat) (a prev_level : N) : prog mgr N :=
  match fuel with
  | O => no_fuel
  | S fuel =>
      if a =? sylvan_true then mret a
      else if a =? sylvan_false then mret a
      else
        m ← gets id;
        let level := mtbddnode_getvariable (MTBDD_GETNODE m a) in
        let cachenow := use_cache (granularity m) prev_level level in
        hit ← (if cachenow then cache_get3 CACHE_BDD_CLOSURE a 0 0 else mret None);
        match hit with
        | Some result => mret result
        | None =>
            let s := N.ldiff level 1 in
            let t := s + 1 in
            let a0 := if level =? s then mtbddnode_followlow a (MTBDD_GETNODE m a) else a in
            let a1 := if level =? s then mtbddnode_followhigh a (MTBDD_GETNODE m a) else a in
            let a00 := cof_low m t a0 in
            let a01 := cof_high m t a0 in
            let a10 := cof_low m t a1 in
            let a11 := cof_high m t a1 in
            u1 ← sylvan_closure fuel a11 level;
            _ ← mtbdd_refs_push u1;
            u2 ← sylvan_relprev (S fuel) u1 a10 sylvan_false level;
            _ ← mtbdd_refs_push u2;
            e ← sylvan_relprev (S fuel) a01 u2 sylvan_false level;
            _ ← mtbdd_refs_push e;
            e ← sylvan_ite (S fuel) a00 sylvan_true e level;
            _ ← mtbdd_refs_pop 1;
            _ ← mtbdd_refs_push e;
            e ← sylvan_closure fuel e level;
            _ ← mtbdd_refs_pop 1;
            _ ← mtbdd_refs_push e;
            g ← sylvan_relprev (S fuel) u2 e sylvan_false level;
            _ ← mtbdd_refs_push g;
            u3 ← sylvan_relprev (S fuel) a01 u1 sylvan_false level;
            _ ← mtbdd_refs_push u3;
            f ← sylvan_relprev (S fuel) e u3 sylvan_false level;
            _ ← mtbdd_refs_push f;
            h ← sylvan_relprev (S fuel) u2 f sylvan_false level;
            _ ← mtbdd_refs_push h;
            h ← sylvan_ite (S fuel) u1 sylvan_true h level;
            _ ← mtbdd_refs_pop 1;
            _ ← mtbdd_refs_push h;
            r0 ← mtbdd_makenode t e f;
            _ ← mtbdd_refs_pop 7;
            _ ← mtbdd_refs_push r0;
            r1 ← mtbdd_makenode t g h;
            _ ← mtbdd_refs_pop 1;
            result ← mtbdd_makenode s r0 r1;
            _ ← (if cachenow then cache_put3 CACHE_BDD_CLOSURE a 0 0 result else mret false);
            mret result
        end
  end.

(** ** Composition *)

Definition sylvan_map_isempty (map : N) : bool := map =? mtbdd_false.

(** The loop that skips the entries of a map before [level]. *)
Fixpoint skip_map (fuel : nat) (m : mgr) (map level : N) : option (option N) :=
  match fuel with
  | O => None
  | S fuel =>
      let map_node := MTBDD_GETNODE m map in
      if mtbddnode_getvariable map_node <? level then
        let map := mtbddnode_followlow map map_node in
        if sylvan_map_isempty map then Some None else skip_map fuel m map level
      else Some (Some map)
  end.

Fixpoint sylvan_compose (fuel : nat) (a map prev_level : N) : prog mgr N :=
  match fuel with
  | O => no_fuel
  | S fuel =>
      if (a =? sylvan_false) || (a =? sylvan_true) then mret a
      else if sylvan_map_isempty map then mret a
      else
        m ← gets id;
        let n := MTBDD_GETNODE m a in
        let level := mtbddnode_getvariable n in
        match skip_map (S fuel) m map level with
        | None => no_fuel
        | Some None => mret a
        | Some (Some map) =>
            let map_node := MTBDD_GETNODE m map in
            let cachenow := use_cache (granularity m) prev_level level in
            hit ← (if cachenow then cache_get3 CACHE_BDD_COMPOSE a map 0 else mret None);
            match hit with
            | Some result => mret result
            | None =>
                high ← sylvan_compose fuel (mtbddnode_followhigh a n) map level;
                _ ← mtbdd_refs_push high;
                low ← sylvan_compose fuel (mtbddnode_followlow a n) map level;
                _ ← mtbdd_refs_push low;
                root ← (if mtbddnode_getvariable map_node =? level
                        then mret (mtbddnode_followhigh map map_node)
                        else mtbdd_ithvar level);
                _ ← mtbdd_refs_push root;
                result ← sylvan_ite (S fuel) root high low 0;
                _ ← mtbdd_refs_pop 3;
                _ ← (if cachenow then cache_put3 CACHE_BDD_COMPOSE a map 0 result
                     else mret false);
                mret result
            end
        end
  end.

End ops.
End BddOps.
