(* ===== verification/BddCubes.v ===== *)
(** Satisfying assignments, cubes and the enumeration of paths, from sylvan/src/sylvan_bdd.c.
    A cube is an array of bytes, one per variable of a set: 0 (false), 1 (true) or another value
    (both).  The linked list of a path is a list with the last variable first.  A callback is
    a program. *)

From S2P Require Import Prelude MtbddNode OpSpecs NodeStore MtbddCore BddApply BddQuant.

Module BddCubes.
Import MtbddNode OpSpecs NodeStore MtbddCore BddApply BddQuant.

Section cubes.
Context {T C : Type} `{NodeTable T} `{OpCache C}.
Notation mgr := (mgr T C).

(** ** One satisfying assignment *)

(** The bytes written to the array, one per variable of the set. *)
Fixpoint sat_one_loop (fuel : nat) (m : mgr) (bdd vars : N) : option (list N) :=
  match fuel with
  | O => None
  | S fuel =>
      let n_vars := MTBDD_GETNODE m vars in
      let '(str, bdd) :=
        if bdd =? sylvan_true then (0, bdd)
        else
          let n_bdd := MTBDD_GETNODE m bdd in
          if negb (mtbddnode_getvariable n_bdd =? mtbddnode_getvariable n_vars) then (0, bdd)
          else if mtbddnode_followlow bdd n_bdd =? sylvan_false
          then (1, mtbddnode_followhigh bdd n_bdd)
          else (0, mtbddnode_followlow bdd n_bdd) in
      let vars := mtbddnode_followhigh vars n_vars in
      if sylvan_set_isempty vars then Some [str]
      else rest ← sat_one_loop fuel m bdd vars; Some (str :: rest)
  end.

(** The result of the function and the bytes written. *)
Definition sylvan_sat_one (fuel : nat) (m : mgr) (bdd vars : N) (str_null : bool) :
    option (N * list N) :=
  if bdd =? sylvan_false then Some (0, [])
  else if str_null then Some (0, [])
  else if sylvan_set_isempty vars then Some (1, [])
  else str ← sat_one_loop fuel m bdd vars; Some (1, str).

Fixpoint sylvan_sat_single (fuel : nat) (bdd vars : N) : prog mgr N :=
  match fuel with
  | O => no_fuel
  | S fuel =>
      if bdd =? sylvan_false then mret sylvan_false
      else if sylvan_set_isempty vars then
        if bdd =? sylvan_true then mret sylvan_true else exit AssertFailed
      else
        m ← gets id;
        let n_vars := MTBDD_GETNODE m vars in
        let var := mtbddnode_getvariable n_vars in
        let next_vars := mtbddnode_followhigh vars n_vars in
        if bdd =? sylvan_true then
          res ← sylvan_sat_single fuel bdd next_vars;
          mtbdd_makenode var res sylvan_false
        else
          let n_bdd := MTBDD_GETNODE m bdd in
          if negb (mtbddnode_getvariable n_bdd =? var) then
            if var <? mtbddnode_getvariable n_bdd then
              res ← sylvan_sat_single fuel bdd next_vars;
              mtbdd_makenode var res sylvan_false
            else exit AssertFailed
          else if mtbddnode_followhigh bdd n_bdd =? sylvan_false then
            res ← sylvan_sat_single fuel (mtbddnode_followlow bdd n_bdd) next_vars;
            mtbdd_makenode var res sylvan_false
          else
            res ← sylvan_sat_single fuel (mtbddnode_followhigh bdd n_bdd) next_vars;
            mtbdd_makenode var sylvan_false res
  end.

(** [rnd k] is whether bit 0x2000 of the [k]-th number from [rand()] is set; [k] counts the
    calls. *)
Fixpoint sylvan_sat_one_bdd (fuel : nat) (rnd : nat -> bool) (k : nat) (bdd : N) : prog mgr N :=
  match fuel with
  | O => no_fuel
  | S fuel =>
      if bdd =? sylvan_false then mret sylvan_false
      else if bdd =? sylvan_true then mret sylvan_true
      else
        m ← gets id;
        let node := MTBDD_GETNODE m bdd in
        let var := mtbddnode_getvariable node in
        let low := mtbddnode_followlow bdd node in
        let high := mtbddnode_followhigh bdd node in
        if low =? sylvan_false then
          r ← sylvan_sat_one_bdd fuel rnd k high;
          mtbdd_makenode var sylvan_false r
        else if high =? sylvan_false then
          r ← sylvan_sat_one_bdd fuel rnd k low;
          mtbdd_makenode var r sylvan_false
        else if rnd k then
          r ← sylvan_sat_one_bdd fuel rnd (S k) low;
          mtbdd_makenode var r sylvan_false
        else
          r ← sylvan_sat_one_bdd fuel rnd (S k) high;
          mtbdd_makenode var sylvan_false r
  end.

(** ** Cubes *)

Fixpoint sylvan_cube (fuel : nat) (vars : N) (cube : list N) : prog mgr N :=
  match fuel with
  | O => no_fuel
  | S fuel =>
      if sylvan_set_isempty vars then mret sylvan_true
      else
        m ← gets id;
        let n := MTBDD_GETNODE m vars in
        let v := mtbddnode_getvariable n in
        let vars := mtbddnode_followhigh vars n in
        match cube with
        | [] => exit OutOfBounds
        | c :: cube =>
            result ← sylvan_cube fuel vars cube;
            if c =? 0 then mtbdd_makenode v result sylvan_false
            else if c =? 1 then mtbdd_makenode v sylvan_false result
            else mret result
        end
  end.

(** The loop that skips the variables that the cube leaves open. *)
Inductive skipped := SkipEmpty | SkipTo (vars : N) (cube : list N) | SkipBounds | SkipFuel.
Fixpoint skip_cube (fuel : nat) (m : mgr) (vars : N) (cube : list N) : skipped :=
  match fuel with
  | O => SkipFuel
  | S fuel =>
      match cube with
      | [] => SkipBounds
      | c :: cube' =>
          if (c =? 0) || (c =? 1) then SkipTo vars cube
          else
            let vars := mtbddnode_followhigh vars (MTBDD_GETNODE m vars) in
            if sylvan_set_isempty vars then SkipEmpty else skip_cube fuel m vars cube'
      end
  end.

Fixpoint sylvan_union_cube (fuel : nat) (bdd vars : N) (cube : list N) : prog mgr N :=
  match fuel with
  | O => no_fuel
  | S fuel =>
      if bdd =? sylvan_true then mret sylvan_true
      else if bdd =? sylvan_false then sylvan_cube (S fuel) vars cube
      else if sylvan_set_isempty vars then mret sylvan_true
      else
        m ← gets id;
        match skip_cube (S fuel) m vars cube with
        | SkipFuel => no_fuel
        | SkipBounds => exit OutOfBounds
        | SkipEmpty => mret sylvan_true
        | SkipTo vars cube =>
            let nv := MTBDD_GETNODE m vars in
            let n := MTBDD_GETNODE m bdd in
            let v := mtbddnode_getvariable nv in
            let n_level := mtbddnode_getvariable n in
            let c := hd 0 cube in
            if v <? n_level then
              let vars := mtbddnode_followhigh vars nv in
              result ← sylvan_union_cube fuel bdd vars (tl cube);
              if c =? 0 then mtbdd_makenode v result bdd
              else mtbdd_makenode v bdd result
            else if n_level <? v then
              let high := mtbddnode_followhigh bdd n in
              let low := mtbddnode_followlow bdd n in
              new_low ← sylvan_union_cube fuel low vars cube;
              new_high ← pushed new_low (sylvan_union_cube fuel high vars cube);
              if negb (new_low =? low) || negb (new_high =? high)
              then mtbdd_makenode n_level new_low new_high
              else mret bdd
            else
              let vars := mtbddnode_followhigh vars nv in
              let high := mtbddnode_followhigh bdd n in
              let low := mtbddnode_followlow bdd n in
              if c =? 0 then
                new_low ← sylvan_union_cube fuel low vars (tl cube);
                if negb (new_low =? low) then mtbdd_makenode n_level new_low high
                else mret bdd
              else
                new_high ← sylvan_union_cube fuel high vars (tl cube);
                if negb (new_high =? high) then mtbdd_makenode n_level low new_high
                else mret bdd
        end
  end.

(** ** Enumeration *)

(** Calls [cb] with the variables and the values of each path, low values first. *)
Fixpoint sylvan_enum_do (fuel : nat) (cb : list N -> list N -> prog mgr unit) (bdd vars : N)
    (path : list (N * N)) : prog mgr unit :=
  match fuel with
  | O => no_fuel
  | S fuel =>
      if bdd =? sylvan_false then mret tt
      else if sylvan_set_isempty vars then
        if bdd =? sylvan_true then
          match path with
          | [] => mret tt
          | _ => cb (rev path.*1) (rev path.*2)
          end
        else exit AssertFailed
      else
        m ← gets id;
        let var := mtbdd_getvar m vars in
        let vars := sylvan_set_next m vars in
        let bdd_var := mtbdd_getvar m bdd in
        if (bdd =? sylvan_true) || (var <? bdd_var) then
          _ ← sylvan_enum_do fuel cb bdd vars ((var, 0) :: path);
          sylvan_enum_do fuel cb bdd vars ((var, 1) :: path)
        else if var =? bdd_var then
          _ ← sylvan_enum_do fuel cb (mtbdd_getlow m bdd) vars ((var, 0) :: path);
          m ← gets id;
          sylvan_enum_do fuel cb (mtbdd_gethigh m bdd) vars ((var, 1) :: path)
        else exit AssertFailed
  end.

(** The high half is spawned before the low half is called, and runs at the sync. *)
Fixpoint sylvan_enum_par_do (fuel : nat) (cb : list N -> list N -> prog mgr unit) (bdd vars : N)
    (path : list (N * N)) : prog mgr unit :=
  match fuel with
  | O => no_fuel
  | S fuel =>
      if bdd =? sylvan_false then mret tt
      else if sylvan_set_isempty vars then
        if bdd =? sylvan_true then
          match path with
          | [] => mret tt
          | _ => cb (rev path.*1) (rev path.*2)
          end
        else exit AssertFailed
      else
        m ← gets id;
        let var := mtbdd_getvar m vars in
        let vars := sylvan_set_next m vars in
        let bdd_var := mtbdd_getvar m bdd in
        if var <? bdd_var then
          _ ← sylvan_enum_par_do fuel cb bdd vars ((var, 0) :: path);
          sylvan_enum_par_do fuel cb bdd vars ((var, 1) :: path)
        else if var =? bdd_var then
          let high := mtbdd_gethigh m bdd in
          _ ← sylvan_enum_par_do fuel cb (mtbdd_getlow m bdd) vars ((var, 0) :: path);
          sylvan_enum_par_do fuel cb high vars ((var, 1) :: path)
        else exit AssertFailed
  end.

Definition sylvan_enum (fuel : nat) (bdd vars : N) (cb : list N -> list N -> prog mgr unit) :
    prog mgr unit := sylvan_enum_do fuel cb bdd vars [].
Definition sylvan_enum_par (fuel : nat) (bdd vars : N) (cb : list N -> list N -> prog mgr unit) :
    prog mgr unit := sylvan_enum_par_do fuel cb bdd vars [].

(** The disjunction of what [cb] returns for the values of each path.  [orfuel] bounds the
    recursion of the disjunctions. *)
Fixpoint sylvan_collect_do (fuel orfuel : nat) (cb : list N -> prog mgr N) (bdd vars : N)
    (path : list N) : prog mgr N :=
  match fuel with
  | O => no_fuel
  | S fuel =>
      if bdd =? sylvan_false then mret sylvan_false
      else if sylvan_set_isempty vars then cb (rev path)
      else
        m ← gets id;
        let dom_var := mtbdd_getvar m vars in
        let dom_next := sylvan_set_next m vars in
        let bdd_var := mtbdd_getvar m bdd in
        if negb (bdd =? sylvan_true) && (bdd_var <? dom_var) then exit AssertFailed
        else
          let same := (bdd =? sylvan_true) || (dom_var <? bdd_var) in
          let bdd0 := if same then bdd else mtbdd_getlow m bdd in
          let bdd1 := if same then bdd else mtbdd_gethigh m bdd in
          low ← sylvan_collect_do fuel orfuel cb bdd0 dom_next (0 :: path);
          _ ← mtbdd_refs_push low;
          high ← sylvan_collect_do fuel orfuel cb bdd1 dom_next (1 :: path);
          _ ← mtbdd_refs_push high;
          res ← sylvan_or orfuel low high;
          _ ← mtbdd_refs_pop 2;
          mret res
  end.

Definition sylvan_collect (fuel orfuel : nat) (bdd vars : N) (cb : list N -> prog mgr N) :
    prog mgr N := sylvan_collect_do fuel orfuel cb bdd vars [].
End cubes.
End BddCubes.
