(* ===== verification/BddSets.v ===== *)
(** Variable sets, cubes of given values and the enumeration of assignments, from
    sylvan/src/sylvan_mtbdd.c.  The two versions of the cube, with and without garbage
    collection, have the same text up to the function that makes nodes.  The fuel bounds the
    number of variables of the set. *)

From S2P Require Import Prelude MtbddNode OpSpecs NodeStore MtbddCore BddApply.

Module BddSets.
Import MtbddNode OpSpecs NodeStore MtbddCore BddApply.

Section sets.
Context {T C : Type} `{NodeTable T} `{OpCache C}.
Notation mgr := (mgr T C).

(** ** Cubes *)

(** [mk] makes nodes, and [hold d] makes a call with [d] on the reference stack, if at all.
    The array is read from its start; a read past its end is undefined. *)
Fixpoint cube_with (mk : N -> N -> N -> prog mgr N) (hold : N -> prog mgr N -> prog mgr N)
    (fuel : nat) (variables : N) (cube : list N) (terminal : N) : prog mgr N :=
  match fuel with
  | O => no_fuel
  | S fuel =>
      if variables =? mtbdd_true then mret terminal
      else
        m ← gets id;
        let n := MTBDD_GETNODE m variables in
        match cube with
        | [] => exit OutOfBounds
        | c :: cube' =>
            if c =? 0 then
              result ← cube_with mk hold fuel (mtbddnode_followhigh variables n) cube' terminal;
              mk (mtbddnode_getvariable n) result mtbdd_false
            else if c =? 1 then
              result ← cube_with mk hold fuel (mtbddnode_followhigh variables n) cube' terminal;
              mk (mtbddnode_getvariable n) mtbdd_false result
            else if c =? 2 then
              cube_with mk hold fuel (mtbddnode_followhigh variables n) cube' terminal
            else if c =? 3 then
              let variables2 := mtbddnode_followhigh variables n in
              let n2 := MTBDD_GETNODE m variables2 in
              let var2 := mtbddnode_getvariable n2 in
              result ← cube_with mk hold fuel (mtbddnode_followhigh variables2 n2)
                         (tail cube') terminal;
              low ← mk var2 result mtbdd_false;
              high ← hold low (mk var2 mtbdd_false result);
              mk (mtbddnode_getvariable n) low high
            else mret mtbdd_false
        end
  end.

Definition mtbdd_cube : nat -> N -> list N -> N -> prog mgr N :=
  cube_with mtbdd_makenode pushed.
Definition mtbdd_cube_nogc : nat -> N -> list N -> N -> prog mgr N :=
  cube_with mtbdd_makenode_nogc (fun _ p => p).

(** ** Variable sets *)

Fixpoint mtbdd_set_add (fuel : nat) (set var : N) : prog mgr N :=
  match fuel with
  | O => no_fuel
  | S fuel =>
      if set =? mtbdd_true then mtbdd_makenode var mtbdd_false mtbdd_true
      else
        m ← gets id;
        let set_node := MTBDD_GETNODE m set in
        let set_var := mtbddnode_getvariable set_node in
        if var <? set_var then mtbdd_makenode var mtbdd_false set
        else if set_var =? var then mret set
        else
          let sub := mtbddnode_followhigh set set_node in
          res ← mtbdd_set_add fuel sub var;
          if sub =? res then mret set else mtbdd_makenode set_var mtbdd_false res
  end.

Fixpoint mtbdd_set_from_array (fuel : nat) (arr : list N) : prog mgr N :=
  match arr with
  | [] => mret mtbdd_true
  | [v] => mtbdd_makenode v mtbdd_false mtbdd_true
  | v :: arr =>
      set ← mtbdd_set_from_array fuel arr;
      mtbdd_set_add fuel set v
  end.

Fixpoint mtbdd_set_remove (fuel : nat) (set var : N) : prog mgr N :=
  match fuel with
  | O => no_fuel
  | S fuel =>
      if set =? mtbdd_true then mret mtbdd_true
      else
        m ← gets id;
        let set_node := MTBDD_GETNODE m set in
        let set_var := mtbddnode_getvariable set_node in
        if var <? set_var then mret set
        else if set_var =? var then mret (mtbddnode_followhigh set set_node)
        else
          let sub := mtbddnode_followhigh set set_node in
          res ← mtbdd_set_remove fuel sub var;
          if sub =? res then mret set else mtbdd_makenode set_var mtbdd_false res
  end.

(** The fuel bounds the sum of the sizes. *)
Fixpoint mtbdd_set_minus (fuel : nat) (set1 set2 : N) : prog mgr N :=
  match fuel with
  | O => no_fuel
  | S fuel =>
      if set1 =? mtbdd_true then mret mtbdd_true
      else if set2 =? mtbdd_true then mret set1
      else if set1 =? set2 then mret mtbdd_true
      else
        m ← gets id;
        let set1_node := MTBDD_GETNODE m set1 in
        let set2_node := MTBDD_GETNODE m set2 in
        let set1_var := mtbddnode_getvariable set1_node in
        let set2_var := mtbddnode_getvariable set2_node in
        if set1_var =? set2_var then
          mtbdd_set_minus fuel (mtbddnode_followhigh set1 set1_node)
            (mtbddnode_followhigh set2 set2_node)
        else if set2_var <? set1_var then
          mtbdd_set_minus fuel set1 (mtbddnode_followhigh set2 set2_node)
        else
          let sub := mtbddnode_followhigh set1 set1_node in
          res ← mtbdd_set_minus fuel sub set2;
          if res =? sub then mret set1 else mtbdd_makenode set1_var mtbdd_false res
  end.

(** The loops that only read; [None] is the end of the fuel. *)
Fixpoint mtbdd_set_to_array (fuel : nat) (m : mgr) (set : N) : option (list N) :=
  match fuel with
  | O => None
  | S fuel =>
      if set =? mtbdd_true then Some []
      else
        let n := MTBDD_GETNODE m set in
        arr ← mtbdd_set_to_array fuel m (mtbddnode_followhigh set n);
        Some (mtbddnode_getvariable n :: arr)
  end.

Fixpoint mtbdd_set_contains (fuel : nat) (m : mgr) (set var : N) : option bool :=
  match fuel with
  | O => None
  | S fuel =>
      if set =? mtbdd_true then Some false
      else
        let n := MTBDD_GETNODE m set in
        let v := mtbddnode_getvariable n in
        if v =? var then Some true
        else if var <? v then Some false
        else mtbdd_set_contains fuel m (mtbddnode_followhigh set n) var
  end.

Fixpoint mtbdd_set_count (fuel : nat) (m : mgr) (set : N) : option N :=
  match fuel with
  | O => None
  | S fuel =>
      if set =? mtbdd_true then Some 0
      else
        result ← mtbdd_set_count fuel m (mtbdd_gethigh m set);
        Some (result + 1)
  end.

(** ** Enumeration of assignments *)

(** The result and the array, which is written from its start; [filter_cb] is [None] for
    [NULL]. *)
Notation filter := (option (N -> bool)).
Definition skips (filter_cb : filter) (dd : N) : bool :=
  match filter_cb with None => false | Some cb => negb (cb dd) end.

Fixpoint fill_zeros (fuel : nat) (m : mgr) (variables : N) (arr : list N) : option (list N) :=
  match fuel with
  | O => None
  | S fuel =>
      if variables =? mtbdd_true then Some arr
      else
        match arr with
        | [] => None
        | _ :: arr =>
            rest ← fill_zeros fuel m (mtbdd_gethigh m variables) arr;
            Some (0 :: rest)
        end
  end.

Fixpoint mtbdd_enum_all_first (fuel : nat) (dd variables : N) (arr : list N)
    (filter_cb : filter) : prog mgr (N * list N) :=
  match fuel with
  | O => no_fuel
  | S fuel =>
      m ← gets id;
      if dd =? mtbdd_false then mret (mtbdd_false, arr)
      else if variables =? mtbdd_true then
        if mtbdd_isleaf m dd then mret (dd, arr) else exit AssertFailed
      else if mtbdd_isleaf m dd then
        if skips filter_cb dd then mret (mtbdd_false, arr)
        else
          match fill_zeros (S fuel) m variables arr with
          | None => exit OutOfBounds
          | Some arr => mret (dd, arr)
          end
      else
        let nv := MTBDD_GETNODE m variables in
        let variables := mtbddnode_followhigh variables nv in
        let ndd := MTBDD_GETNODE m dd in
        let '(low, high) :=
          if mtbddnode_getvariable ndd =? mtbddnode_getvariable nv
          then (mtbddnode_followlow dd ndd, mtbddnode_followhigh dd ndd)
          else (dd, dd) in
        match arr with
        | [] => exit OutOfBounds
        | a :: arr =>
            '(res, arr1) ← mtbdd_enum_all_first fuel low variables arr filter_cb;
            if negb (res =? mtbdd_false) then mret (res, 0 :: arr1)
            else
              '(res, arr2) ← mtbdd_enum_all_first fuel high variables arr1 filter_cb;
              if negb (res =? mtbdd_false) then mret (res, 1 :: arr2)
              else mret (mtbdd_false, a :: arr2)
        end
  end.

Fixpoint mtbdd_enum_all_next (fuel : nat) (dd variables : N) (arr : list N)
    (filter_cb : filter) : prog mgr (N * list N) :=
  match fuel with
  | O => no_fuel
  | S fuel =>
      m ← gets id;
      if dd =? mtbdd_false then mret (mtbdd_false, arr)
      else if variables =? mtbdd_true then
        if mtbdd_isleaf m dd then mret (mtbdd_false, arr) else exit AssertFailed
      else
        let nv := MTBDD_GETNODE m variables in
        let variables := mtbddnode_followhigh variables nv in
        let ndd := MTBDD_GETNODE m dd in
        if mtbdd_isleaf m dd && skips filter_cb dd then mret (mtbdd_false, arr)
        else
          let '(low, high) :=
            if mtbdd_isleaf m dd then (dd, dd)
            else if mtbddnode_getvariable ndd =? mtbddnode_getvariable nv
            then (mtbddnode_followlow dd ndd, mtbddnode_followhigh dd ndd)
            else (dd, dd) in
          match arr with
          | [] => exit OutOfBounds
          | a :: arr =>
              if a =? 0 then
                '(res, arr1) ← mtbdd_enum_all_next fuel low variables arr filter_cb;
                if negb (res =? mtbdd_false) then mret (res, a :: arr1)
                else
                  '(res, arr2) ← mtbdd_enum_all_first fuel high variables arr1 filter_cb;
                  if res =? mtbdd_false then mret (mtbdd_false, a :: arr2)
                  else mret (res, 1 :: arr2)
              else if a =? 1 then
                '(res, arr1) ← mtbdd_enum_all_next fuel high variables arr filter_cb;
                mret (res, a :: arr1)
              else exit AssertFailed
          end
  end.
End sets.
End BddSets.
