(* ===== verification/BddSetsFacts.v ===== *)
(** Facts about the sets, cubes and enumerations of [BddSets]. *)

From S2P Require Import Prelude MtbddNode BddTree OpSpecs NodeStore MtbddCore MtbddCoreFacts.
From S2P Require Import BddApply BddApplyFacts BddQuant BddQuantFacts BddSets.
From Stdlib Require Import Sorted.

Module BddSetsFacts.
Import MtbddNode BddTree OpSpecs NodeStore MtbddCore MtbddCoreFacts BddApply BddApplyFacts
  BddQuant BddQuantFacts BddSets.

(** ** Cubes *)

(** The function that requires of each variable of the set the value that the array has at
    its position, for 0 and 1. *)
Fixpoint cube_fun (vs cube : list N) (f : bfun) : bfun :=
  match vs, cube with
  | v :: vs, c :: cube =>
      let g := cube_fun vs cube f in
      if c =? 0 then fun e => if e v then false else g e
      else if c =? 1 then fun e => if e v then g e else false
      else g
  | _, _ => f
  end.

Lemma above_mono n n' f : n <= n' -> above n' f -> above n f.
Proof. intros Hn Ha e e' He. apply Ha. intros v Hv. apply He. lia. Qed.

Lemma above_const n c : above n (fun _ => c).
Proof. by intros e e'. Qed.

Lemma above_branch n v f g :
  n <= v -> above n f -> above n g -> above n (fun e => if e v then f e else g e).
Proof. intros Hv Hf Hg e e' He. by rewrite (He v Hv), (Hf e e'), (Hg e e'). Qed.

Lemma cube_above n vs cube f :
  Forall (N.le n) vs -> above n f -> above n (cube_fun vs cube f).
Proof.
  intros Hvs Hf. revert cube. induction Hvs as [|v vs Hv Hvs IH]; intros [|c cube]; cbn; [done..|].
  specialize (IH cube). repeat case_match; try done; by apply above_branch.
Qed.

Lemma cube_below K vs cube f :
  Forall (fun v => v < K) vs -> below K f -> below K (cube_fun vs cube f).
Proof.
  intros Hvs Hf. revert cube. induction Hvs as [|v vs Hv Hvs IH]; intros [|c cube]; cbn; [done..|].
  specialize (IH cube).
  repeat case_match; try done; intros e e' He; by rewrite (He v Hv), (IH e e' He).
Qed.

Lemma set_vars_above n t : wf n t -> Forall (N.le n) (set_vars t).
Proof.
  revert n. induction t as [b|v lo IH1 hi IH2]; intros n; cbn [wf set_vars]; [constructor|].
  intros (Hn & _ & _ & _ & Hw). constructor; [done|]. eapply Forall_impl; [by apply IH2|].
  intros x Hx. cbn in *. lia.
Qed.

Section cubes.
Context {T C : Type} `{NodeTableLaws T} `{OpCacheLaws C}.
Notation mgr := (mgr T C).
Context {mk : N -> N -> N -> prog mgr N} {hold : N -> prog mgr N -> prog mgr N}
  `{D : !Discipline mk hold}.
Notation arg := (arg (D := D)).
Notation returns := (returns (D := D)).

(** A node of a set, by any discipline. *)
Lemma set_node m n d t :
  mgr_inv m -> arg m n d t -> set_ok t ->
  if d =? mtbdd_true then t = Leaf true
  else exists v hi, t = Node v (Leaf false) hi /\ set_ok hi /\ n <= v /\ v < 2 ^ 24 /\
    mtbddnode_getvariable (MTBDD_GETNODE m d) = v /\
    arg m (v + 1) (mtbddnode_followhigh d (MTBDD_GETNODE m d)) hi.
Proof.
  intros Hi Ha Hs. destruct (N.eqb_spec d mtbdd_true) as [->|Hne].
  { apply (denotes_const_inv (st m) n true), Ha. }
  assert (sylvan_isconst d = false) as Hc.
  { unfold sylvan_isconst. apply orb_false_iff. split; [by apply N.eqb_neq|]. apply N.eqb_neq.
    intros ->. by rewrite (denotes_const_inv _ _ false _ (proj1 Ha)) in Hs. }
  destruct (node_arg m n d t Hi Ha Hc) as (v & lo & hi & -> & Hv & _ & Hhi).
  destruct Hs as [-> Hs]. exists v, hi. destruct Ha as [[_ (? & ? & _)] _]. done.
Qed.

(** The last step of a cube: a node with one constant child. *)
Lemma cube_node m m1 v r f (b : bool) :
  dR m m1 -> mgr_inv m1 -> v < 2 ^ 24 -> den (st m1) r f -> above (v + 1) f ->
  wp (if b then mk v mtbdd_false r else mk v r mtbdd_false)
    (returns m (fun e => if e v then b && f e else negb b && f e)) full_only m1.
Proof.
  intros HR Hi Hv Hd Ha. destruct (den_above _ _ _ _ Hd Ha) as (t & Ht & Hs).
  destruct b; (eapply wp_mono; [eapply (d_mk v); try done; apply (denotes_const _ _ false)|]);
    intros r' m2 (Hi2 & HR2 & Hr2); split_and!; try done; try (by etrans);
    (eapply den_ext; [|by eapply denotes_den]); intros e; rewrite sem_mknode; cbn;
    rewrite Hs; by case_match.
Qed.

Lemma cube_spec fuel K tt n m d ts cube terminal :
  mgr_inv m -> arg m n d ts -> set_ok ts -> Forall (fun c => c <= 2) cube ->
  (length (set_vars ts) <= length cube)%nat -> (height ts < fuel)%nat ->
  arg m K terminal tt -> Forall (fun v => v < K) (set_vars ts) ->
  wp (cube_with mk hold fuel d cube terminal)
    (returns m (cube_fun (set_vars ts) cube (sem tt))) full_only m.
Proof.
  revert n d ts cube. induction fuel as [|fuel IH]; intros n d ts cube Hi Ha Hs Hc Hlen Hf Htt HK; [lia|].
  cbn [cube_with]. pose proof (set_node m n d ts Hi Ha Hs) as Hn.
  destruct (d =? mtbdd_true).
  { subst ts. apply wp_ret. destruct cube; by eapply arg_returns. }
  destruct Hn as (v & hi & -> & Hhi & Hv & Hv24 & Hvar & Harg).
  wp_step. wp_step. cbn [id set_vars height] in *.
  destruct cube as [|c cube]; [cbn in Hlen; lia|]. cbn [length] in Hlen.
  apply Forall_cons in Hc as [Hc2 Hc]. apply Forall_cons in HK as [HvK HK].
  rewrite Hvar. specialize (IH (v + 1) _ hi cube Hi Harg Hhi Hc ltac:(lia) ltac:(lia) Htt HK).
  assert (above (v + 1) (cube_fun (set_vars hi) cube (sem tt))) as Hab.
  { apply cube_above; [apply set_vars_above, Harg|]. apply (above_mono _ K); [lia|].
    apply above_wf, Htt. }
  cbn [cube_fun]. destruct (N.eqb_spec c 0) as [->|Hc0]; [|destruct (N.eqb_spec c 1) as [->|Hc1]].
  - wp_step. eapply wp_mono; [exact IH|]. intros r m1 (Hi1 & HR & Hd).
    eapply wp_mono; [by apply (cube_node m m1 v r (cube_fun (set_vars hi) cube (sem tt)) false)|]. intros r' m2 Hret.
    eapply returns_ext; [|exact Hret]. intros e. cbn. by case_match.
  - wp_step. eapply wp_mono; [exact IH|]. intros r m1 (Hi1 & HR & Hd).
    eapply wp_mono; [by apply (cube_node m m1 v r (cube_fun (set_vars hi) cube (sem tt)) true)|]. intros r' m2 Hret.
    eapply returns_ext; [|exact Hret]. intros e. cbn. by case_match.
  - assert (c = 2) as -> by lia. exact IH.
Qed.
End cubes.

(** The cube of the values [b] of the variables. *)
Lemma cube_fun_bits vs (b e : N -> bool) :
  cube_fun vs (map (fun v => if b v then 1 else 0) vs) (fun _ => true) e = true <->
  forall v, v ∈ vs -> e v = b v.
Proof.
  induction vs as [|v vs IH]; cbn; [set_solver|].
  setoid_rewrite elem_of_cons. destruct (b v) eqn:Eb; cbn.
  - destruct (e v) eqn:Ev.
    + rewrite IH. naive_solver congruence.
    + split; [done|]. intros Hv. specialize (Hv v (or_introl eq_refl)). congruence.
  - destruct (e v) eqn:Ev.
    + split; [done|]. intros Hv. specialize (Hv v (or_introl eq_refl)). congruence.
    + rewrite IH. naive_solver congruence.
Qed.

(** ** Variable sets *)

Section sets.
Context {T C : Type} `{NodeTableLaws T} `{OpCacheLaws C}.
Notation mgr := (mgr T C).
Notation arg := (arg (D := gc_discipline) (T := T) (C := C)).
Implicit Types m : mgr.

(** The set with a variable added. *)
Fixpoint set_ins (v : N) (t : bdd) : bdd :=
  match t with
  | Leaf _ => Node v (Leaf false) (Leaf true)
  | Node w lo hi =>
      if v <? w then Node v (Leaf false) t
      else if w =? v then t
      else Node w lo (set_ins v hi)
  end.

Lemma set_ins_ok v t : set_ok t -> set_ok (set_ins v t).
Proof. induction t as [b|w lo IH1 hi IH2]; cbn; [done|]. intros [-> Hs]. repeat case_match; cbn; auto. Qed.

Lemma set_ins_vars v t x : x ∈ set_vars (set_ins v t) <-> x = v \/ x ∈ set_vars t.
Proof.
  induction t as [b|w lo IH1 hi IH2]; cbn; [set_solver|].
  destruct (v <? w); [set_solver|]. destruct (N.eqb_spec w v) as [->|]; cbn; [set_solver|].
  rewrite !elem_of_cons, IH2. tauto.
Qed.

Lemma set_not_false t : set_ok t -> t <> Leaf false.
Proof. by destruct t as [[]|]. Qed.

(** Adding a variable to a live set. *)
Lemma set_add_spec fuel n m d t v :
  mgr_inv m -> arg m n d t -> set_ok t -> v < 2 ^ 24 -> n <= v -> (height t < fuel)%nat ->
  wp (mtbdd_set_add fuel d v)
    (fun r m' => mgr_inv m' /\ keeps m m' /\ denotes (st m') n r (set_ins v t)) full_only m.
Proof.
  revert n d t. induction fuel as [|fuel IH]; intros n d t Hi Ha Hs Hv Hnv Hf; [lia|].
  cbn [mtbdd_set_add]. pose proof (set_node m n d t Hi Ha Hs) as Hn.
  assert (forall c hi, set_ok hi -> denotes (st m) (v + 1) c hi ->
    wp (mtbdd_makenode v mtbdd_false c) (fun r m' => mgr_inv m' /\ keeps m m' /\
      denotes (st m') n r (Node v (Leaf false) hi)) full_only m) as Hmk.
  { intros c hi Hok Hc. eapply wp_mono.
    - apply (makenode_spec v mtbdd_false c (Leaf false) hi); [done..|apply (denotes_const _ _ false)|done].
    - intros r m' (Hi' & Hk & [Hr Hw]). unfold mknode in *.
      rewrite decide_False in Hr, Hw by (intros Heq; by apply (set_not_false hi)).
      split_and!; [done..|]. split; [done|]. eapply wf_mono; [|exact Hw]. lia. }
  destruct (d =? mtbdd_true).
  { subst t. apply Hmk; [done|]. apply (denotes_const _ _ true). }
  destruct Hn as (w & hi & -> & Hhi & Hw & Hw24 & Hvar & Harg).
  wp_step. wp_step. cbn [id set_ins height] in *. rewrite Hvar.
  destruct (N.ltb_spec v w) as [Hlt|Hge].
  { apply Hmk; [by split|]. split; [apply Ha|]. destruct Ha as [[_ [_ Hrest]] _].
    split; [lia|exact Hrest]. }
  destruct (N.eqb_spec w v) as [->|Hne].
  { apply wp_ret. split_and!; [done|done|apply Ha]. }
  wp_step. eapply wp_mono; [by apply (IH (w + 1) _ hi); try done; lia|].
  intros r m1 (Hi1 & Hk & Hd). pose proof (arg_mono (D := gc_discipline) _ _ _ _ _ Hk Harg) as Harg1.
  set (sub := mtbddnode_followhigh d (MTBDD_GETNODE m d)) in *.
  destruct (N.eqb_spec sub r) as [Heq|Hner].
  - apply wp_ret. split_and!; [done..|].
    assert (hi = set_ins v hi) as <-.
    { rewrite <- Heq in Hd. eapply rep_functional; [apply Harg1|apply Hd]. }
    eapply (denotes_keeps m); [done|apply Ha|apply Ha].
  - eapply wp_mono; [apply (makenode_spec w mtbdd_false r (Leaf false) (set_ins v hi));
      [done..|apply (denotes_const _ _ false)|done]|].
    intros r' m2 (Hi2 & Hk2 & [Hr Hwf]). unfold mknode in *.
    rewrite decide_False in Hr, Hwf
      by (intros Hx; by apply (set_not_false (set_ins v hi)); [apply set_ins_ok|]).
    split_and!; [done|by etrans|]. split; [done|]. eapply wf_mono; [|exact Hwf]. lia.
Qed.

(** The set of an increasing array. *)
Fixpoint set_tree (vs : list N) : bdd :=
  match vs with
  | [] => Leaf true
  | v :: vs => Node v (Leaf false) (set_tree vs)
  end.

Lemma set_tree_ok vs : set_ok (set_tree vs).
Proof. by induction vs. Qed.

Lemma set_tree_vars vs : set_vars (set_tree vs) = vs.
Proof. induction vs as [|v vs IH]; cbn; congruence. Qed.

Lemma set_tree_height vs : height (set_tree vs) = length vs.
Proof. induction vs as [|v vs IH]; cbn; lia. Qed.

(** The set that is added to is not on the reference stack: the array must be increasing, so
    that the variable goes in front and nothing is compared after a collection. *)
Lemma set_from_array_spec fuel m n vs :
  mgr_inv m -> StronglySorted N.lt vs -> Forall (fun v => n <= v /\ v < 2 ^ 24) vs ->
  (0 < fuel)%nat ->
  wp (mtbdd_set_from_array fuel vs)
    (fun r m' => mgr_inv m' /\ keeps m m' /\ denotes (st m') n r (set_tree vs)) full_only m.
Proof.
  intros Hi Hs Hf Hfu. revert n Hf. induction Hs as [|v vs Hs IH Hlt]; intros n Hf.
  { apply wp_ret. split_and!; [done|done|]. apply (denotes_const _ _ true). }
  apply Forall_cons in Hf as [[Hnv Hv] Hf].
  assert (forall m0 c, mgr_inv m0 -> keeps m m0 -> denotes (st m0) (v + 1) c (set_tree vs) ->
    wp (mtbdd_makenode v mtbdd_false c) (fun r m' => mgr_inv m' /\ keeps m m' /\
      denotes (st m') n r (set_tree (v :: vs))) full_only m0) as Hmk.
  { intros m0 c Hi0 Hk0 Hc. eapply wp_mono.
    - apply (makenode_spec v mtbdd_false c (Leaf false) (set_tree vs));
        [done..|apply (denotes_const _ _ false)|done].
    - intros r m' (Hi' & Hk & [Hr Hw]). unfold mknode in *.
      rewrite decide_False in Hr, Hw
        by (intros Heq; by apply (set_not_false (set_tree vs)); [apply set_tree_ok|]).
      split_and!; [done|by etrans|]. split; [done|]. eapply wf_mono; [|exact Hw]. lia. }
  destruct vs as [|w vs]; [apply Hmk; [done..|apply (denotes_const _ _ true)]|].
  cbn [mtbdd_set_from_array]. wp_step. eapply wp_mono.
  - apply (IH (v + 1)). apply Forall_forall. intros x Hx.
    pose proof (proj1 (Forall_forall _ _) Hf x Hx). pose proof (proj1 (Forall_forall _ _) Hlt x Hx).
    cbn in *. lia.
  - intros r m1 (Hi1 & Hk & Hd). destruct fuel as [|fuel]; [lia|]. cbn [mtbdd_set_add].
    apply Forall_cons in Hlt as [Hvw _].
    assert (r <> mtbdd_true) as Hr.
    { intros ->. by pose proof (denotes_const_inv _ _ true _ Hd). }
    apply N.eqb_neq in Hr as Hr'. rewrite Hr'. wp_step. wp_step. cbn [id].
    pose proof (set_node (D := nogc_discipline) m1 (v + 1) r _ Hi1
      (conj Hd I) (set_tree_ok (w :: vs))) as Hn. rewrite Hr' in Hn.
    destruct Hn as (w' & hi & [= <- <-] & _ & _ & _ & -> & _).
    rewrite (proj2 (N.ltb_lt _ _)) by done. by apply Hmk.
Qed.

(** The loops over a set visit its variables. *)
Lemma set_to_array_spec fuel m n d t :
  mgr_inv m -> denotes (st m) n d t -> set_ok t -> (height t < fuel)%nat ->
  mtbdd_set_to_array fuel m d = Some (set_vars t).
Proof.
  revert n d t. induction fuel as [|fuel IH]; intros n d t Hi Hd Hs Hf; [lia|].
  pose proof (set_node (D := nogc_discipline) m n d t Hi (conj Hd I) Hs) as Hn.
  cbn [mtbdd_set_to_array]. destruct (d =? mtbdd_true); [by subst t|].
  destruct Hn as (v & hi & -> & Hhi & _ & _ & -> & Harg & _). cbn [height] in Hf.
  by rewrite (IH (v + 1) _ hi) by (done || lia).
Qed.

Lemma set_contains_spec fuel m n d t v :
  mgr_inv m -> denotes (st m) n d t -> set_ok t -> (height t < fuel)%nat ->
  mtbdd_set_contains fuel m d v = Some (bool_decide (v ∈ set_vars t)).
Proof.
  revert n d t. induction fuel as [|fuel IH]; intros n d t Hi Hd Hs Hf; [lia|].
  pose proof (set_node (D := nogc_discipline) m n d t Hi (conj Hd I) Hs) as Hn.
  cbn [mtbdd_set_contains]. destruct (d =? mtbdd_true); [by subst t|].
  destruct Hn as (w & hi & -> & Hhi & _ & _ & -> & Harg & _). cbn [height set_vars] in *.
  destruct (N.eqb_spec w v) as [->|Hne].
  { by rewrite bool_decide_eq_true_2 by set_solver. }
  destruct (N.ltb_spec v w) as [Hlt|Hge].
  - rewrite bool_decide_eq_false_2; [done|]. apply not_elem_of_cons. split; [done|].
    apply (set_ok_wf_notin (w + 1)); [apply Harg|lia].
  - rewrite (IH (w + 1) _ hi) by (done || lia). f_equal. apply bool_decide_ext. set_solver.
Qed.

Lemma set_count_spec fuel m n d t :
  mgr_inv m -> denotes (st m) n d t -> set_ok t -> (height t < fuel)%nat ->
  mtbdd_set_count fuel m d = Some (N.of_nat (length (set_vars t))).
Proof.
  revert n d t. induction fuel as [|fuel IH]; intros n d t Hi Hd Hs Hf; [lia|].
  pose proof (set_node (D := nogc_discipline) m n d t Hi (conj Hd I) Hs) as Hn.
  cbn [mtbdd_set_count]. destruct (d =? mtbdd_true); [by subst t|].
  destruct Hn as (v & hi & -> & Hhi & _ & _ & _ & Harg & _). cbn [height set_vars length] in *.
  unfold mtbdd_gethigh. rewrite (IH (v + 1) _ hi) by (done || lia). cbn. f_equal. lia.
Qed.
End sets.
End BddSetsFacts.
