(* ===== verification/BddEnumFacts.v ===== *)
(** The enumeration of [BddSets] visits the satisfying assignments of a diagram over a set of
    variables in lexicographic order. *)

From S2P Require Import Prelude MtbddNode BddTree OpSpecs NodeStore MtbddCore MtbddCoreFacts.
From S2P Require Import BddApply BddApplyFacts BddQuant BddQuantFacts BddSets BddSetsFacts.

Module BddEnumFacts.
Import MtbddNode BddTree OpSpecs NodeStore MtbddCore MtbddCoreFacts BddApply BddApplyFacts
  BddQuant BddQuantFacts BddSets BddSetsFacts.

(** ** Satisfying assignments *)

(** The arrays of values for the variables [vs] under which the tree is true. *)
Fixpoint sats (vs : list N) (t : bdd) : list (list N) :=
  match vs with
  | [] => match t with Leaf true => [[]] | _ => [] end
  | v :: vs => map (cons 0) (sats vs (cof false v t)) ++ map (cons 1) (sats vs (cof true v t))
  end.

(** The tree has no other variables than [vs], which come in its order. *)
Fixpoint covers (vs : list N) (t : bdd) : Prop :=
  match vs with
  | [] => exists b, t = Leaf b
  | v :: vs => wf v t /\ covers vs (cof false v t) /\ covers vs (cof true v t)
  end.

(** The assignment of an array. *)
Fixpoint assign (vs : list N) (x : list N) (v : N) : bool :=
  match vs, x with
  | w :: vs, a :: x => if v =? w then a =? 1 else assign vs x v
  | _, _ => false
  end.

Definition bits01 (n : nat) (x : list N) : Prop := length x = n /\ Forall (fun a => a <= 1) x.

Lemma covers_nseq k n t : wf k t -> vars_lt (k + N.of_nat n) t -> covers (nseq k n) t.
Proof.
  revert k t. induction n as [|n IH]; intros k t Hw Hv; cbn [nseq covers].
  - destruct t as [b|v lo hi]; [by exists b|]. exfalso. destruct Hw as (? & _), Hv as (? & _). lia.
  - split; [done|]. split; (apply IH; [by apply wf_cof|]);
      (replace (k + 1 + N.of_nat n) with (k + N.of_nat (S n)) by lia; by apply vars_lt_cof).
Qed.

Lemma cof_leaf b v c : cof b v (Leaf c) = Leaf c.
Proof. done. Qed.

Lemma covers_leaf vs b : covers vs (Leaf b).
Proof. induction vs as [|v vs IH]; cbn; [by exists b|]. done. Qed.

Lemma sats_false vs : sats vs (Leaf false) = [].
Proof. induction vs as [|v vs IH]; cbn; [done|]. by rewrite IH. Qed.

Lemma sats_true vs : head (sats vs (Leaf true)) = Some (replicate (length vs) 0).
Proof.
  induction vs as [|v vs IH]; cbn; [done|]. destruct (sats vs (Leaf true)); [done|].
  cbn in *. by injection IH as ->.
Qed.

Lemma elem_of_cons_map (a b : N) (x : list N) l :
  b :: x ∈ map (cons a) l <-> a = b /\ x ∈ l.
Proof.
  change (map (cons a) l) with (cons a <$> l). rewrite list_elem_of_fmap.
  split; [by intros (y & [= -> ->] & Hy)|intros [-> Hx]; by exists x].
Qed.

Lemma sats_elem vs t x :
  NoDup vs -> covers vs t ->
  x ∈ sats vs t <-> bits01 (length vs) x /\ sem t (assign vs x) = true.
Proof.
  intros Hnd. revert t x. induction Hnd as [|v vs Hv Hnd IH]; intros t x; cbn [sats covers length].
  { intros [[] ->]; cbn; unfold bits01.
    - rewrite list_elem_of_singleton. split; [by intros ->|]. intros [[Hl _] _].
      by apply nil_length_inv.
    - split; [by intros ?%elem_of_nil|]. by intros [_ [=]]. }
  intros (Hw & H0 & H1). rewrite elem_of_app. unfold bits01.
  assert (forall a x, sem t (assign (v :: vs) (a :: x)) = sem (cof (a =? 1) v t) (assign vs x)) as Hsem.
  { intros a y. rewrite (sem_cof v) by done. cbn [assign]. rewrite N.eqb_refl.
    apply (sem_agree (v + 1)); [by apply wf_cof|]. intros w Hw'.
    destruct (N.eqb_spec w v); [lia|done]. }
  destruct x as [|a x].
  { split; [|by intros [[? _] _]]. intros [Hx|Hx]; apply list_elem_of_In, in_map_iff in Hx as (? & ? & _); done. }
  rewrite !elem_of_cons_map, Hsem, !IH, Forall_cons by done. unfold bits01. cbn [length].
  split.
  - intros [[<- [[Hl Hf] Hs]]|[<- [[Hl Hf] Hs]]]; (split; [split; [lia|split; [lia|done]]|done]).
  - intros [[Hl [Ha Hf]] Hs]. assert (a = 0 \/ a = 1) as [->| ->] by lia; [left|right];
      (split; [done|]; split; [split; [lia|done]|done]).
Qed.

Lemma NoDup_sats vs t : NoDup (sats vs t).
Proof.
  revert t. induction vs as [|v vs IH]; intros t; cbn.
  { destruct t as [[]|]; [|constructor..]. apply NoDup_singleton. }
  apply NoDup_app. split_and!.
  - change (map (cons 0)) with (fmap (M := list) (cons 0)). apply NoDup_fmap; [by intros ?? [=]|done].
  - intros x Hx Hx'. apply list_elem_of_In, in_map_iff in Hx as (y & <- & _).
    by apply elem_of_cons_map in Hx' as [? _].
  - change (map (cons 1)) with (fmap (M := list) (cons 1)). apply NoDup_fmap; [by intros ?? [=]|done].
Qed.

(** The element after [x]. *)
Fixpoint after (x : list N) (l : list (list N)) : option (list N) :=
  match l with
  | [] => None
  | y :: l => if decide (y = x) then head l else after x l
  end.

Lemma after_app_r x l l' : x ∉ l -> after x (l ++ l') = after x l'.
Proof.
  induction l as [|y l IH]; cbn; [done|]. intros Hx. apply not_elem_of_cons in Hx as [? ?].
  rewrite decide_False by congruence. by apply IH.
Qed.

Lemma after_map_app a x l l' :
  x ∈ l -> after (a :: x) (map (cons a) l ++ l') =
    match after x l with Some y => Some (a :: y) | None => head l' end.
Proof.
  induction l as [|y l IH]; [by intros ?%elem_of_nil|]. intros Hx. cbn.
  destruct (decide (y = x)) as [->|Hne].
  - rewrite decide_True by done. by destruct l.
  - rewrite decide_False by congruence. apply IH. apply elem_of_cons in Hx as [->|]; done.
Qed.

Lemma head_map {A B} (f : A -> B) l : head (map f l) = f <$> head l.
Proof. by destruct l. Qed.

(** ** The first and the next assignment *)

Section enumeration.
Context {T C : Type} `{NodeTableLaws T} `{OpCacheLaws C}.
Notation mgr := (mgr T C).
Notation node_arg := (node_arg (D := nogc_discipline) (T := T) (C := C)).
Notation set_node := (set_node (D := nogc_discipline) (T := T) (C := C)).
Implicit Types m : mgr.

(** A diagram is a constant or a node that is no leaf. *)
Lemma isleaf_cases m n d t :
  mgr_inv m -> denotes (st m) n d t ->
  (exists b, d = mk_edge b 0 /\ t = Leaf b /\ mtbdd_isleaf m d = true) \/
  (sylvan_isconst d = false /\ mtbdd_isleaf m d = false).
Proof.
  intros Hi [Hr Hw]. destruct (edge_mk d) as (c & i & Hi40 & ->); [by eapply rep_edge|].
  destruct (rep_inv _ _ _ _ Hi40 Hr) as [[-> ->]|Hn]; [left|right].
  - exists c. split_and!; [done|done|]. unfold mtbdd_isleaf. by destruct c.
  - destruct Hn as (v & l & h & lo & hi & Hi0 & Hv & Hl & Hh & Hst & _).
    assert (sylvan_isconst (mk_edge c i) = false) as Hc.
    { unfold sylvan_isconst. apply orb_false_iff.
      split; apply N.eqb_neq.
      - intros [_ ?]%(mk_edge_inj c i true 0); lia.
      - intros [_ ?]%(mk_edge_inj c i false 0); lia. }
    split; [done|]. unfold mtbdd_isleaf. unfold sylvan_isconst in Hc. rewrite Hc.
    unfold MTBDD_GETNODE. rewrite index_mk by done. unfold st, store_of in Hst.
    destruct (nt_used (nodes m) i); [|done]. injection Hst as ->. by apply isleaf_makenode.
Qed.

Lemma cof_at n v lo hi x d (m : mgr) :
  wf n (Node v lo hi) -> x <= v -> denotes (st m) n d (Node v lo hi) ->
  forall l h, denotes (st m) (v + 1) l lo -> denotes (st m) (v + 1) h hi ->
  let '(low, high) := if v =? x then (l, h) else (d, d) in
  denotes (st m) 0 low (cof false x (Node v lo hi)) /\
  denotes (st m) 0 high (cof true x (Node v lo hi)).
Proof.
  intros Hw Hx Hd l h Hl Hh.
  assert (forall k y u, denotes (st m) k y u -> denotes (st m) 0 y u) as H0'.
  { intros k y u [Hr Hk]. split; [done|]. eapply wf_mono; [|exact Hk]. lia. }
  cbn [cof]. destruct (v =? x); split; eauto.
Qed.

(** The zeros that are written for a true leaf. *)
Lemma fill_zeros_spec fuel m n d ts arr :
  mgr_inv m -> denotes (st m) n d ts -> set_ok ts -> (height ts < fuel)%nat ->
  length arr = length (set_vars ts) ->
  fill_zeros fuel m d arr = Some (replicate (length (set_vars ts)) 0).
Proof.
  revert n d ts arr. induction fuel as [|fuel IH]; intros n d ts arr Hi Hd Hs Hf Hl; [lia|].
  pose proof (set_node m n d ts Hi (conj Hd I) Hs) as Hn. cbn [fill_zeros].
  destruct (d =? mtbdd_true); [subst ts; by apply nil_length_inv in Hl as ->|].
  destruct Hn as (v & hi & -> & Hhi & _ & _ & _ & Harg & _). cbn [height set_vars length] in *.
  destruct arr as [|a arr]; [done|]. unfold mtbdd_gethigh.
  rewrite (IH (v + 1) _ hi) by (done || lia || (cbn in Hl; lia)). done.
Qed.

Lemma first_spec fuel m nv dd t vs ts arr E :
  mgr_inv m -> denotes (st m) 0 dd t -> denotes (st m) nv vs ts -> set_ok ts ->
  covers (set_vars ts) t -> length arr = length (set_vars ts) -> (height ts < fuel)%nat ->
  wp (mtbdd_enum_all_first fuel dd vs arr None)
    (fun r m' => m' = m /\
       r = match head (sats (set_vars ts) t) with
           | Some x => (mtbdd_true, x)
           | None => (mtbdd_false, arr)
           end) E m.
Proof.
  revert nv dd t vs ts arr.
  induction fuel as [|fuel IH]; intros nv dd t vs ts arr Hi Hd Hv Hs Hc Hl Hf; [lia|].
  pose proof (set_node m nv vs ts Hi (conj Hv I) Hs) as Hn.
  cbn [mtbdd_enum_all_first]. wp_step. wp_step. cbn [id].
  destruct (isleaf_cases m 0 dd t Hi Hd) as [([] & -> & -> & ->)|[Hc0 ->]].
  - change (mk_edge true 0 =? mtbdd_false) with false. cbv iota.
    rewrite sats_true. destruct (vs =? mtbdd_true) eqn:Ev.
    + subst ts. apply wp_ret. split; [done|]. cbn in Hl |- *. by apply nil_length_inv in Hl as ->.
    + cbn [skips]. rewrite (fill_zeros_spec (S fuel) m nv vs ts) by done. by apply wp_ret.
  - change (mk_edge false 0 =? mtbdd_false) with true. cbv iota. rewrite sats_false. by apply wp_ret.
  - unfold sylvan_isconst in Hc0. apply orb_false_iff in Hc0 as [Ht Hff]. rewrite Hff.
    assert (t <> Leaf true /\ t <> Leaf false) as [Hnt Hnf].
    { pose proof (den_inj m 0 0 dd mtbdd_true t (Leaf true) Hi Hd (denotes_const _ _ true)) as H1'.
      pose proof (den_inj m 0 0 dd mtbdd_false t (Leaf false) Hi Hd (denotes_const _ _ false)) as H2'.
      apply N.eqb_neq in Ht, Hff. tauto. }
    destruct (vs =? mtbdd_true) eqn:Ev.
    { exfalso. subst ts. destruct Hc as [[] ->]; done. }
    destruct Hn as (x & hi & -> & Hhi & Hx & Hx24 & Hvar & Harg & _). cbn [set_vars height length] in *.
    destruct (node_arg m 0 dd t Hi (conj Hd I)) as (y & lo & hi' & -> & Hy & [Hlo _] & [Hhi' _]).
    { unfold sylvan_isconst. by rewrite Ht, Hff. }
    rewrite Hvar, Hy. destruct Hc as (Hwx & Hc1 & Hc2). pose proof Hwx as [Hxy _].
    pose proof (cof_at 0 y lo hi' x dd m (proj2 Hd) Hxy Hd _ _ Hlo Hhi') as Hcof.
    destruct (if y =? x then _ else _) as [low high]. destruct Hcof as [Hlow Hhigh].
    destruct arr as [|a arr]; [done|]. injection Hl as Hl.
    set (vs' := mtbddnode_followhigh vs _) in *.
    wp_step. eapply wp_mono; [by apply (IH (x + 1) low (cof false x (Node y lo hi')) vs' hi arr); try done; lia|].
    intros r m1 [-> ->]. cbn [sats]. rewrite head_app.
    rewrite head_map.
    destruct (head (sats (set_vars hi) (cof false x (Node y lo hi')))) as [z|] eqn:Eh; cbn -[cof].
    { by apply wp_ret. }
    wp_step. eapply wp_mono; [by apply (IH (x + 1) high (cof true x (Node y lo hi')) vs' hi arr); try done; lia|].
    intros r m1 [-> ->]. rewrite head_map.
    destruct (head (sats (set_vars hi) (cof true x (Node y lo hi')))) as [z|]; by apply wp_ret.
Qed.
(** The cofactors that [mtbdd_enum_all_next] reads, of leaves too. *)
Lemma cofactors m dd t x :
  mgr_inv m -> denotes (st m) 0 dd t -> wf x t ->
  let ndd := MTBDD_GETNODE m dd in
  let '(low, high) :=
    if mtbdd_isleaf m dd then (dd, dd)
    else if mtbddnode_getvariable ndd =? x
    then (mtbddnode_followlow dd ndd, mtbddnode_followhigh dd ndd)
    else (dd, dd) in
  denotes (st m) 0 low (cof false x t) /\ denotes (st m) 0 high (cof true x t).
Proof.
  intros Hi Hd Hw ndd. subst ndd. destruct (isleaf_cases m 0 dd t Hi Hd) as [(b & -> & -> & ->)|[Hc ->]]; [done|].
  destruct (node_arg m 0 dd t Hi (conj Hd I) Hc) as (y & lo & hi & -> & -> & [Hlo _] & [Hhi _]).
  apply (cof_at 0 y lo hi x dd m (proj2 Hd)); [apply Hw|done..].
Qed.

Lemma next_spec fuel m nv dd t vs ts arr E :
  mgr_inv m -> denotes (st m) 0 dd t -> denotes (st m) nv vs ts -> set_ok ts ->
  covers (set_vars ts) t -> arr ∈ sats (set_vars ts) t -> NoDup (set_vars ts) ->
  (height ts < fuel)%nat ->
  wp (mtbdd_enum_all_next fuel dd vs arr None)
    (fun r m' => m' = m /\
       r = match after arr (sats (set_vars ts) t) with
           | Some x => (mtbdd_true, x)
           | None => (mtbdd_false, arr)
           end) E m.
Proof.
  revert nv dd t vs ts arr.
  induction fuel as [|fuel IH]; intros nv dd t vs ts arr Hi Hd Hv Hs Hc Hin Hnd Hf; [lia|].
  pose proof (set_node m nv vs ts Hi (conj Hv I) Hs) as Hn.
  cbn [mtbdd_enum_all_next]. wp_step. wp_step. cbn [id].
  destruct (N.eqb_spec dd mtbdd_false) as [->|Hff].
  { rewrite (denotes_const_inv _ _ false _ Hd) in *. rewrite sats_false in Hin.
    by apply elem_of_nil in Hin. }
  destruct (vs =? mtbdd_true) eqn:Ev.
  { subst ts. destruct Hc as [b ->]. cbn [sats set_vars] in Hin |- *.
    destruct (isleaf_cases m 0 dd (Leaf b) Hi Hd) as [(c & -> & [= ->] & ->)|[Hc _]].
    - destruct c; [|by apply elem_of_nil in Hin]. apply list_elem_of_singleton in Hin as ->.
      by apply wp_ret.
    - exfalso. destruct (node_arg m 0 dd _ Hi (conj Hd I) Hc) as (? & ? & ? & [=] & _). }
  destruct Hn as (x & hi & -> & Hhi & Hx & Hx24 & Hvar & Harg & _). cbn [set_vars height length] in *.
  cbn [skips]. rewrite andb_false_r, Hvar. destruct Hc as (Hwx & Hc1 & Hc2).
  pose proof (cofactors m dd t x Hi Hd Hwx) as Hcof. cbv zeta in Hcof.
  destruct (if mtbdd_isleaf m dd then _ else _) as [low high]. destruct Hcof as [Hlow Hhigh].
  set (vs' := mtbddnode_followhigh vs _) in *. apply NoDup_cons in Hnd as [_ Hnd].
  destruct arr as [|a arr].
  { exfalso. apply (sats_elem (x :: set_vars hi)) in Hin as [[? _] _]; [done| |done].
    constructor; [|done]. apply (set_ok_wf_notin (x + 1)); [apply Harg|lia]. }
  cbn [sats] in *. apply elem_of_app in Hin as [Hin|Hin]; apply elem_of_cons_map in Hin as [<- Hin].
  - change (0 =? 0) with true. cbv iota. rewrite after_map_app by done.
    wp_step. eapply wp_mono; [by apply (IH (x + 1) low (cof false x t) vs' hi arr); try done; lia|].
    intros r m1 [-> ->]. destruct (after arr (sats (set_vars hi) (cof false x t))) as [z|].
    { by apply wp_ret. }
    cbn. wp_step. eapply wp_mono.
    + apply (first_spec fuel m (x + 1) high (cof true x t) vs' hi arr); try done; [|lia].
      apply (sats_elem (set_vars hi)) in Hin as [[? _] _]; done.
    + intros r m1 [-> ->]. rewrite head_map.
      destruct (head (sats (set_vars hi) (cof true x t))) as [z|]; by apply wp_ret.
  - change (1 =? 0) with false. change (1 =? 1) with true. cbv iota.
    rewrite after_app_r by (intros Hx'; by apply elem_of_cons_map in Hx' as [? _]).
    rewrite <- (app_nil_r (map (cons 1) _)), after_map_app by done.
    wp_step. eapply wp_mono; [by apply (IH (x + 1) high (cof true x t) vs' hi arr); try done; lia|].
    intros r m1 [-> ->]. destruct (after arr (sats (set_vars hi) (cof true x t))) as [z|]; by apply wp_ret.
Qed.
End enumeration.
End BddEnumFacts.
