(* ===== verification/SsaTask.v ===== *)
(** What the two kinds of diagram tags share (src/ssa_tag.h): an offset is the assignment of its
    bits to the variables 0 to 23, a tag the diagram of a set of offsets.  The tasks that a
    worker runs for the threads of the program, [lace_steal_loop_ex] of
    sylvan/src/lace.cpp, and the enumeration of the offsets of a tag. *)

From stdpp Require Import strings pretty sorting.
From S2P Require Import Prelude MtbddNode OpSpecs NodeStore MtbddCore BddApply BddSets.

Module SsaTask.
Import MtbddNode OpSpecs NodeStore MtbddCore BddApply BddSets.

Definition TAG_WIDTH : nat := 24.

(** [array[VAR_ORDER]], for [VAR_ORDER] defined as [i]. *)
Definition bit_array (offset : N) : list N :=
  map (fun i => if negb (N.land (N.shiftl 1 i) offset =? 0) then 1 else 0) (nseq 0 TAG_WIDTH).

(** [for (i = 0; i < TAG_WIDTH; i++) if (res[VAR_ORDER]) offset += 1 << i]. *)
Fixpoint offset_loop (i offset : N) (res : list N) : N :=
  match res with
  | [] => offset
  | a :: res => offset_loop (i + 1) (if a =? 0 then offset else w32 (offset + N.shiftl 1 i)) res
  end.
Definition offset_of (res : list N) : N := offset_loop 0 0 res.

Section tasks.
Context {T C : Type} `{NodeTable T} `{OpCache C}.
Notation mgr := (mgr T C).

(** One more than the variables of a set, and than those of two diagrams. *)
Definition set_fuel : nat := S TAG_WIDTH.
Definition pair_fuel : nat := S (TAG_WIDTH + TAG_WIDTH).

(** [task_type] 1, in a build with garbage collection and in one without. *)
Definition task_cube (arg1 : N) (array : list N) : prog mgr N :=
  mtbdd_cube set_fuel arg1 array mtbdd_true.
Definition task_cube_nogc (arg1 : N) (array : list N) : prog mgr N :=
  mtbdd_cube_nogc set_fuel arg1 array mtbdd_true.

(** [task_type] 2: the union, by De Morgan. *)
Definition task_combine (arg1 arg2 : N) : prog mgr N :=
  res ← sylvan_and_alone pair_fuel (sylvan_not arg1) (sylvan_not arg2) 0;
  mret (sylvan_not res).
Definition task_combine_nogc (arg1 arg2 : N) : prog mgr N :=
  res ← sylvan_and_nogc_alone pair_fuel (sylvan_not arg1) (sylvan_not arg2) 0;
  mret (sylvan_not res).

(** The set of all variables, from [array[i] = i]. *)
Definition make_var_set : prog mgr N := mtbdd_set_from_array set_fuel (nseq 0 TAG_WIDTH).

(** The loop of [ssa_tag_print] that fills [offset_buf]; [leaf] and [res] are what the last
    call has returned. *)
Fixpoint offset_buf_loop (fuel : nat) (tag var_set leaf : N) (res offset_buf : list N) :
    prog mgr (list N) :=
  match fuel with
  | O => no_fuel
  | S fuel =>
      if leaf =? mtbdd_false then mret offset_buf
      else
        let offset := offset_of res in
        let offset_buf := offset_buf ++ [offset] in
        '(leaf, res) ← mtbdd_enum_all_next set_fuel tag var_set res None;
        offset_buf_loop fuel tag var_set leaf res offset_buf
  end.

(** One more than the number of offsets. *)
Definition offset_fuel : nat := S (N.to_nat (2 ^ 24)).

(** What the array holds at first does not matter: here, zeros. *)
Definition offset_buf (tag var_set : N) : prog mgr (list N) :=
  '(leaf, res) ← mtbdd_enum_all_first set_fuel tag var_set (replicate TAG_WIDTH 0) None;
  offset_buf_loop offset_fuel tag var_set leaf res [].
End tasks.

(** The end of [ssa_tag_print]: the offsets in order, each printed by [fmt]. *)
Definition print_offsets (fmt : N -> string) (offset_buf : list N) : string :=
  "{" +:+ String.concat "" (map fmt (merge_sort N.le offset_buf)) +:+ "}".
End SsaTask.
