(* ===== verification/SsaTaskFacts.v ===== *)
(** The tasks of [SsaTask] on diagrams of sets of offsets: the cube is a singleton, the
    combination a union, and the enumeration visits each offset once. *)

From stdpp Require Import sorting.
From S2P Require Import Prelude MtbddNode BddTree OpSpecs NodeStore MtbddCore MtbddCoreFacts.
From S2P Require Import BddApply BddApplyFacts BddQuant BddQuantFacts BddSets BddSetsFacts BddEnumFacts.
From S2P Require Import SsaTask.
From Stdlib Require Import Sorted.

Module SsaTaskFacts.
Import MtbddNode BddTree OpSpecs NodeStore MtbddCore MtbddCoreFacts BddApply BddApplyFacts
  BddQuant BddQuantFacts BddSets BddSetsFacts BddEnumFacts SsaTask.

(** ** Offsets and arrays *)

Notation vars := (nseq 0 TAG_WIDTH).

(** The number whose bits an array has, the lowest first. *)
Fixpoint bits (x : list N) : N :=
  match x with
  | [] => 0
  | a :: x => (if a =? 0 then 0 else 1) + 2 * bits x
  end.

Lemma bits_lt x : bits x < 2 ^ N.of_nat (length x).
Proof.
  induction x as [|a x IH]; cbn [bits length]; [done|].
  rewrite Nat2N.inj_succ, N.pow_succ_r'. case_match; lia.
Qed.

Lemma offset_loop_bits i acc x :
  acc < 2 ^ i -> i + N.of_nat (length x) <= 32 ->
  offset_loop i acc x = acc + 2 ^ i * bits x.
Proof.
  revert i acc. induction x as [|a x IH]; intros i acc Ha Hl; cbn [offset_loop bits length] in *; [lia|].
  rewrite Nat2N.inj_succ in Hl.
  assert (2 ^ (i + 1) = 2 * 2 ^ i) as Hp by (by rewrite N.add_1_r, N.pow_succ_r').
  destruct (a =? 0).
  - rewrite IH by lia. rewrite Hp. lia.
  - assert (2 ^ (i + 1) <= 2 ^ 32) by (apply N.pow_le_mono_r; lia).
    rewrite N.shiftl_1_l, w32_small by lia. rewrite IH by lia. rewrite Hp. lia.
Qed.

Lemma offset_of_bits x : (length x <= 32)%nat -> offset_of x = bits x.
Proof. intros Hl. unfold offset_of. rewrite offset_loop_bits; [lia|done|lia]. Qed.

(** The bits of the number are the assignment of the array. *)
Lemma assign_bits k n x v :
  bits01 n x -> assign (nseq k n) x v = bool_decide (k <= v) && N.testbit (bits x) (v - k).
Proof.
  revert k x. induction n as [|n IH]; intros k x [Hl Hf].
  { apply nil_length_inv in Hl as ->. cbn. by rewrite andb_false_r. }
  destruct x as [|a x]; [done|]. apply Forall_cons in Hf as [Ha Hf]. cbn [nseq assign bits].
  assert (((if a =? 0 then 0 else 1) + 2 * bits x) = 2 * bits x + N.b2n (a =? 1)) as ->.
  { assert (a = 0 \/ a = 1) as [->| ->] by lia; cbn; lia. }
  destruct (N.eqb_spec v k) as [->|Hne].
  - rewrite N.sub_diag, N.testbit_0_r, bool_decide_eq_true_2; [done|lia].
  - rewrite IH by (split; [by injection Hl|done]).
    rewrite (bool_decide_ext (k + 1 <= v) (k <= v)) by lia. case_bool_decide as Hv; [|done].
    cbn [andb]. replace (v - k) with (N.succ (v - (k + 1))) by lia. by rewrite N.testbit_succ_r.
Qed.

Lemma bits_inj n x y : bits01 n x -> bits01 n y -> bits x = bits y -> x = y.
Proof.
  revert x y. induction n as [|n IH]; intros x y [Hx Hfx] [Hy Hfy] Heq.
  { by apply nil_length_inv in Hx as ->, Hy as ->. }
  destruct x as [|a x], y as [|b y]; try done. cbn [bits] in Heq.
  apply Forall_cons in Hfx as [Ha Hfx]. apply Forall_cons in Hfy as [Hb Hfy].
  assert (bits x = bits y /\ a = b) as [Hbits ->].
  { destruct (N.eqb_spec a 0), (N.eqb_spec b 0); lia. }
  f_equal. apply IH; [split; [by injection Hx|done]|split; [by injection Hy|done]|done].
Qed.

(** Every number below the bound has an array. *)
Fixpoint array_of (n : nat) (o : N) : list N :=
  match n with
  | O => []
  | S n => (if N.testbit o 0 then 1 else 0) :: array_of n (N.div2 o)
  end.

Lemma array_of_ok n o : o < 2 ^ N.of_nat n -> bits01 n (array_of n o) /\ bits (array_of n o) = o.
Proof.
  revert o. induction n as [|n IH]; intros o Ho; cbn [array_of bits].
  { split; [by split|]. cbn in Ho. lia. }
  rewrite Nat2N.inj_succ, N.pow_succ_r' in Ho. pose proof (N.div2_odd o) as Hd.
  rewrite <- N.bit0_odd in Hd.
  destruct (IH (N.div2 o)) as [[Hl Hf] Hb]; [destruct (N.testbit o 0); cbn in Hd; lia|].
  split; [split; [cbn; lia|constructor; [case_match; lia|done]]|].
  rewrite Hb. destruct (N.testbit o 0); cbn in *; lia.
Qed.

(** ** Sets of offsets *)

(** The diagram is that of a set of offsets: it has no variable beyond the bits. *)
Definition offsets_den (s : store) (d : N) (f : bfun) : Prop :=
  den s d f /\ below (N.of_nat TAG_WIDTH) f.

Definition has (f : bfun) (o : N) : Prop := o < 2 ^ 24 /\ f (N.testbit o) = true.

Lemma offsets_tree s d f :
  offsets_den s d f ->
  exists t, denotes s 0 d t /\ vars_lt 24 t /\ (height t <= TAG_WIDTH)%nat /\ forall e, sem t e = f e.
Proof.
  intros [(t & Hd & Hs) Hb]. exists t. assert (vars_lt 24 t) as Hv.
  { apply (below_vars_lt _ 0); [apply Hd|]. intros e e' He. rewrite !Hs. by apply Hb. }
  split_and!; try done. pose proof (height_vars 24 0 t (proj2 Hd) Hv). unfold TAG_WIDTH. lia.
Qed.

(** An assignment of the variables is that of a number. *)
Lemma below_number (f : bfun) e :
  below (N.of_nat TAG_WIDTH) f -> exists o, o < 2 ^ 24 /\ f e = f (N.testbit o).
Proof.
  intros Hb.
  assert (forall n k, exists o, o < 2 ^ N.of_nat n /\
    forall v, v < N.of_nat n -> N.testbit o v = e (k + v)) as Hex.
  { induction n as [|n IH]; intros k; [exists 0; split; [done|lia]|].
    destruct (IH (k + 1)) as (o & Ho & Hbit). exists (2 * o + N.b2n (e k)).
    rewrite Nat2N.inj_succ, N.pow_succ_r'. split; [destruct (e k); cbn; lia|].
    intros v Hv. destruct (decide (v = 0)) as [->|Hne].
    - by rewrite N.testbit_0_r, N.add_0_r.
    - replace v with (N.succ (v - 1)) by lia. rewrite N.testbit_succ_r, Hbit by lia. f_equal. lia. }
  destruct (Hex TAG_WIDTH 0) as (o & Ho & Hbit). exists o. split; [exact Ho|].
  apply Hb. intros v Hv. symmetry. by rewrite Hbit.
Qed.

Lemma has_eq o o' : o < 2 ^ 24 -> o' < 2 ^ 24 ->
  (forall v, v ∈ vars -> N.testbit o v = N.testbit o' v) <-> o = o'.
Proof.
  intros Ho Ho'. split; [|by intros ->]. intros Hv. apply N.bits_inj. intros v.
  destruct (N.lt_ge_cases v 24) as [Hlt|Hge].
  - apply Hv, elem_of_nseq. split; [lia|exact Hlt].
  - by rewrite !(testbit_high _ 24).
Qed.

Lemma bit_array_map offset :
  bit_array offset = map (fun v => if N.testbit offset v then 1 else 0) vars.
Proof.
  unfold bit_array. apply map_ext. intros v.
  by rewrite N.shiftl_1_l, N.land_comm, land_pow2_eqb, negb_involutive.
Qed.

Lemma var_set_facts :
  set_ok (set_tree vars) /\ set_vars (set_tree vars) = vars /\
  (height (set_tree vars) < set_fuel)%nat /\ Forall (fun v => v < N.of_nat TAG_WIDTH) vars /\ NoDup vars.
Proof.
  split_and!; [apply set_tree_ok|apply set_tree_vars| |by apply (bool_decide_unpack _)..].
  rewrite set_tree_height, length_nseq. unfold set_fuel. lia.
Qed.

Section tasks.
Context {T C : Type} `{NodeTableLaws T} `{OpCacheLaws C}.
Notation mgr := (mgr T C).
Implicit Types m : mgr.

Section discipline.
Context {mk : N -> N -> N -> prog mgr N} {hold : N -> prog mgr N -> prog mgr N}
  `{D : !Discipline mk hold}.

(** The outcome of a task: a diagram with the offsets [P]. *)
Definition task_ok (m : mgr) (P : N -> Prop) (r : N) (m' : mgr) : Prop :=
  mgr_inv m' /\ dR (Discipline := D) m m' /\
  exists f, offsets_den (st m') r f /\ forall o, has f o <-> P o.

Lemma cube_task m d offset :
  mgr_inv m -> arg (D := D) m 0 d (set_tree vars) -> offset < 2 ^ 24 ->
  wp (cube_with mk hold set_fuel d (bit_array offset) mtbdd_true)
    (task_ok m (fun o => o = offset)) full_only m.
Proof.
  intros Hi Ha Ho. destruct var_set_facts as (Hok & Hvs & Hf & Hlt & _).
  rewrite bit_array_map. set (cube := map _ vars).
  pose proof (cube_spec (D := D) set_fuel (N.of_nat TAG_WIDTH) (Leaf true) 0 m d (set_tree vars) cube mtbdd_true
    Hi Ha Hok) as Hc. rewrite Hvs in Hc.
  eapply wp_mono; [apply Hc; try done|].
  - apply Forall_forall. intros c (v & -> & _)%list_elem_of_fmap. by case_match.
  - apply (arg_const (D := D) m _ true).
  - intros r m' (Hi' & HR & Hd). split; [done|]. split; [done|]. eexists. split; [split; [exact Hd|]|].
    + apply cube_below; [done|]. by intros e e'.
    + intros o. unfold has. cbn [sem]. change (fun _ => true) with (fun _ : N -> bool => true).
      unfold cube. rewrite cube_fun_bits. split.
      * intros [Ho' Hv]. by apply has_eq.
      * intros ->. by split.
Qed.

Lemma combine_task (rec : N -> N -> N -> prog mgr N) m a b fa fb :
  rec_spec (D := D) (fun ta tb e => sem ta e && sem tb e) pair_fuel rec ->
  mgr_inv m -> offsets_den (st m) a fa -> offsets_den (st m) b fb ->
  dok (Discipline := D) m a -> dok (Discipline := D) m b ->
  wp (res ← rec (sylvan_not a) (sylvan_not b) 0; mret (sylvan_not res))
    (task_ok m (fun o => has fa o \/ has fb o)) full_only m.
Proof.
  intros Hrec Hi Ha Hb Hoa Hob.
  destruct (offsets_tree _ _ _ Ha) as (ta & Hda & _ & Hha & Hsa).
  destruct (offsets_tree _ _ _ Hb) as (tb & Hdb & _ & Hhb & Hsb).
  wp_step. eapply wp_mono.
  - apply (Hrec m _ _ 0 (neg ta) (neg tb)); [done|by apply arg_not|by apply arg_not|].
    rewrite !height_neg. unfold pair_fuel. lia.
  - intros r m' (Hi' & HR & Hd). apply wp_ret. split; [done|]. split; [done|].
    exists (fun e => fa e || fb e). split; [split|].
    + eapply den_ext; [|by apply den_not]. intros e. cbn.
      by rewrite !sem_neg, Hsa, Hsb, negb_andb, !negb_involutive.
    + intros e e' He. by rewrite (proj2 Ha e e'), (proj2 Hb e e').
    + intros o. unfold has. rewrite orb_true_iff. tauto.
Qed.
End discipline.

Lemma task_cube_spec m d offset :
  mgr_inv m -> arg (D := gc_discipline) m 0 d (set_tree vars) -> offset < 2 ^ 24 ->
  wp (task_cube d (bit_array offset)) (task_ok (D := gc_discipline) m (fun o => o = offset))
    full_only m.
Proof. exact (cube_task (D := gc_discipline) m d offset). Qed.

Lemma task_cube_nogc_spec m d offset :
  mgr_inv m -> denotes (st m) 0 d (set_tree vars) -> offset < 2 ^ 24 ->
  wp (task_cube_nogc d (bit_array offset)) (task_ok (D := nogc_discipline) m (fun o => o = offset))
    full_only m.
Proof. intros Hi Hd. exact (cube_task (D := nogc_discipline) m d offset Hi (conj Hd I)). Qed.

Lemma task_combine_spec m a b fa fb :
  mgr_inv m -> offsets_den (st m) a fa -> offsets_den (st m) b fb ->
  live m (MTBDD_INDEX a) -> live m (MTBDD_INDEX b) ->
  wp (task_combine a b) (task_ok (D := gc_discipline) m (fun o => has fa o \/ has fb o))
    full_only m.
Proof.
  exact (combine_task (D := gc_discipline) (sylvan_and_alone pair_fuel) m a b fa fb
    (sylvan_and_alone_spec pair_fuel)).
Qed.

Lemma task_combine_nogc_spec m a b fa fb :
  mgr_inv m -> offsets_den (st m) a fa -> offsets_den (st m) b fb ->
  wp (task_combine_nogc a b) (task_ok (D := nogc_discipline) m (fun o => has fa o \/ has fb o))
    full_only m.
Proof.
  intros Hi Ha Hb. exact (combine_task (D := nogc_discipline) (sylvan_and_nogc_alone pair_fuel) m a b fa fb
    (sylvan_and_nogc_alone_spec pair_fuel) Hi Ha Hb I I).
Qed.

Lemma make_var_set_spec m :
  mgr_inv m ->
  wp make_var_set
    (fun r m' => mgr_inv m' /\ keeps m m' /\ denotes (st m') 0 r (set_tree vars)) full_only m.
Proof.
  intros Hi. apply set_from_array_spec; [done| | |unfold set_fuel; lia].
  - unfold TAG_WIDTH. cbn. repeat (constructor; [|repeat constructor; lia]). constructor.
  - apply Forall_forall. intros v Hv%elem_of_nseq. unfold TAG_WIDTH in Hv. lia.
Qed.

(** ** Enumeration *)

Lemma sats_length vs t : N.of_nat (length (sats vs t)) <= 2 ^ N.of_nat (length vs).
Proof.
  revert t. induction vs as [|v vs IH]; intros t; cbn [sats length].
  - by destruct t as [[]|].
  - rewrite length_app, !length_map, !Nat2N.inj_succ, N.pow_succ_r', Nat2N.inj_add.
    pose proof (IH (cof false v t)). pose proof (IH (cof true v t)). lia.
Qed.

Lemma after_split x pre post : NoDup (pre ++ x :: post) -> after x (pre ++ x :: post) = head post.
Proof.
  intros (_ & Hx & _)%NoDup_app. rewrite after_app_r; [cbn; by rewrite decide_True|].
  intros Hin. apply (Hx x Hin). apply elem_of_cons. by left.
Qed.

Lemma offset_buf_loop_spec fuel m tag t vs pre post E :
  mgr_inv m -> denotes (st m) 0 tag t -> vars_lt 24 t -> denotes (st m) 0 vs (set_tree vars) ->
  sats vars t = pre ++ post -> (length post < fuel)%nat -> forall x0,
  wp (offset_buf_loop fuel tag vs (if post is [] then mtbdd_false else mtbdd_true)
        (default x0 (head post)) (offset_of <$> pre))
    (fun l m' => m' = m /\ l = offset_of <$> sats vars t) E m.
Proof.
  intros Hi Hd Hv Hvs. destruct var_set_facts as (Hok & Hvars & Hf & _ & Hnd).
  revert pre fuel. induction post as [|x post IH]; intros pre fuel Hs Hfuel x0;
    (destruct fuel as [|fuel]; [cbn in Hfuel; lia|]); cbn [offset_buf_loop].
  { apply wp_ret. by rewrite Hs, app_nil_r. }
  change (mtbdd_true =? mtbdd_false) with false. cbv iota. cbn [head default from_option].
  pose proof (next_spec set_fuel m 0 tag t vs (set_tree vars) x E Hi Hd Hvs Hok) as Hn.
  rewrite Hvars in Hn. wp_step. eapply wp_mono.
  - apply Hn; [|rewrite Hs; apply elem_of_app; right; apply elem_of_cons; left; reflexivity|exact Hnd|exact Hf].
    apply (covers_nseq 0 TAG_WIDTH); [apply Hd|exact Hv].
  - intros r m1 [-> ->]. rewrite Hs, after_split by (rewrite <- Hs; apply NoDup_sats).
    specialize (IH (pre ++ [x]) fuel). rewrite <- app_assoc, fmap_app in IH. cbn [app fmap list_fmap] in IH.
    cbn [length] in Hfuel. specialize (IH Hs ltac:(lia) x). rewrite Hs in IH. by destruct post.
Qed.

Lemma offset_fuel_ok : 2 ^ 24 < N.of_nat offset_fuel.
Proof. unfold offset_fuel. rewrite Nat2N.inj_succ, N2Nat.id. apply N.lt_succ_diag_r. Qed.

(** The offsets of the arrays are those of the diagram, each once. *)
Lemma sats_bits t f x :
  wf 0 t -> vars_lt 24 t -> (forall e, sem t e = f e) -> below (N.of_nat TAG_WIDTH) f ->
  x ∈ sats vars t <-> bits01 TAG_WIDTH x /\ offset_of x = bits x /\ f (N.testbit (bits x)) = true.
Proof.
  intros Hw Hv Hsem Hb. destruct var_set_facts as (_ & _ & _ & _ & Hnd).
  rewrite (sats_elem vars t x Hnd (covers_nseq 0 TAG_WIDTH t Hw Hv)), length_nseq, Hsem.
  assert (bits01 TAG_WIDTH x -> offset_of x = bits x /\ f (assign vars x) = f (N.testbit (bits x))) as Hx.
  { intros Hx. split; [apply offset_of_bits; rewrite (proj1 Hx); unfold TAG_WIDTH; lia|].
    apply Hb. intros v Hv'. rewrite (assign_bits 0 TAG_WIDTH) by done.
    rewrite bool_decide_eq_true_2 by lia. by rewrite N.sub_0_r. }
  split; intros Hs; destruct (Hx (proj1 Hs)) as [Ho Heq].
  - destruct Hs as [Hb1 Hf]. split; [done|]. split; [done|]. by rewrite <- Heq.
  - destruct Hs as (Hb1 & _ & Hf). split; [done|]. by rewrite Heq.
Qed.

Lemma bits_bound x : bits01 TAG_WIDTH x -> bits x < 2 ^ 24.
Proof. intros [Hl _]. pose proof (bits_lt x) as Hlt. by rewrite Hl in Hlt. Qed.

(** The array of an offset. *)
Definition offset_array (o : N) : list N := array_of TAG_WIDTH o.

Lemma offset_array_ok o :
  o < 2 ^ 24 ->
  bits01 TAG_WIDTH (offset_array o) /\ bits (offset_array o) = o /\ offset_of (offset_array o) = o.
Proof.
  intros Ho. destruct (array_of_ok TAG_WIDTH o Ho) as [Hb Hval]. split; [exact Hb|]. split; [exact Hval|].
  rewrite <- Hval at 2. apply offset_of_bits. rewrite (proj1 Hb). unfold TAG_WIDTH. lia.
Qed.

Lemma sats_offsets t f :
  wf 0 t -> vars_lt 24 t -> (forall e, sem t e = f e) -> below (N.of_nat TAG_WIDTH) f ->
  NoDup (offset_of <$> sats vars t) /\
  forall o, o ∈ offset_of <$> sats vars t <-> has f o.
Proof.
  intros Hw Hv Hsem Hb. split.
  - apply NoDup_fmap_2_strong; [|apply NoDup_sats]. intros x y Hx Hy Heq.
    apply (sats_bits t f) in Hx as (Hbx & Hox & _), Hy as (Hby & Hoy & _); [|done..].
    apply (bits_inj TAG_WIDTH); [done..|]. by rewrite <- Hox, <- Hoy.
  - intros o. rewrite list_elem_of_fmap. unfold has. split.
    + intros (x & -> & Hx). apply (sats_bits t f) in Hx as (Hbx & -> & Hf); [|done..].
      split; [by apply bits_bound|done].
    + intros [Ho Hfo]. destruct (offset_array_ok o Ho) as (Hbo & Hval & Hoff).
      exists (offset_array o). split; [by rewrite Hoff|]. apply (sats_bits t f); [done..|].
      split; [exact Hbo|]. rewrite Hval. split; [exact Hoff|exact Hfo].
Qed.

(** The buffer has each offset of the diagram once. *)
Lemma offset_buf_fuel fuel m tag f vs E :
  2 ^ 24 < N.of_nat fuel ->
  mgr_inv m -> offsets_den (st m) tag f -> denotes (st m) 0 vs (set_tree vars) ->
  wp ('(leaf, res) ← mtbdd_enum_all_first set_fuel tag vs (replicate TAG_WIDTH 0) None;
      offset_buf_loop fuel tag vs leaf res [])
    (fun l m' => m' = m /\ NoDup l /\ forall o, o ∈ l <-> has f o) E m.
Proof.
  intros Hok24 Hi Hd Hvs. destruct (offsets_tree _ _ _ Hd) as (t & Ht & Hv & _ & Hsem).
  destruct var_set_facts as (Hok & Hvars & Hf & _ & Hnd).
  pose proof (covers_nseq 0 TAG_WIDTH t (proj2 Ht) Hv) as Hcov.
  pose proof (first_spec set_fuel m 0 tag t vs (set_tree vars) (replicate TAG_WIDTH 0) E Hi Ht Hvs Hok)
    as Hfirst. rewrite Hvars in Hfirst.
  assert (length (sats vars t) < fuel)%nat as Hfuel.
  { pose proof (sats_length vars t) as Hlen. rewrite length_nseq in Hlen.
    change (N.of_nat TAG_WIDTH) with 24 in Hlen. lia. }
  pose proof (offset_buf_loop_spec fuel m tag t vs [] (sats vars t) E
    Hi Ht Hv Hvs eq_refl Hfuel (replicate TAG_WIDTH 0)) as Hw.
  wp_step. eapply wp_mono; [apply Hfirst; [exact Hcov|by rewrite length_replicate, length_nseq|exact Hf]|].
  intros r m1 [-> ->].
  assert (wp (offset_buf_loop fuel tag vs (if sats vars t is [] then mtbdd_false else mtbdd_true)
      (default (replicate TAG_WIDTH 0) (head (sats vars t))) [])
    (fun l m' => m' = m /\ NoDup l /\ (forall o, o ∈ l <-> has f o)) E m) as Hgo.
  { eapply wp_mono; [exact Hw|]. intros l m' [-> ->]. split; [done|].
    apply sats_offsets; [apply Ht|done|done|apply Hd]. }
  by destruct (sats vars t).
Qed.

Lemma offset_buf_spec m tag f vs E :
  mgr_inv m -> offsets_den (st m) tag f -> denotes (st m) 0 vs (set_tree vars) ->
  wp (offset_buf tag vs)
    (fun l m' => m' = m /\ NoDup l /\ forall o, o ∈ l <-> has f o) E m.
Proof. exact (offset_buf_fuel offset_fuel m tag f vs E offset_fuel_ok). Qed.
End tasks.
End SsaTaskFacts.
