(* ===== verification/Examples.v ===== *)
(** A concrete manager, on the table of sylvan_table.c and the cache of sylvan_cache.c, with a
    few diagrams on its reference stack: the inputs that the theorems are applied to. *)

From S2P Require Import Prelude SylvanTable SylvanTableFacts SylvanTableGC SylvanCache MtbddNode.
From S2P Require Import BddTree OpSpecs NodeStore MtbddCore MtbddCoreFacts BddApply BddApplyFacts.

Module Examples.
Import LLMSSet LLMSSetFacts LLMSSetGC Cache MtbddNode BddTree OpSpecs NodeStore MtbddCore
  MtbddCoreFacts BddApply BddApplyFacts.

Definition ex_mgr : Type := mgr llmsset cache.

(** What a run returns, given a default. *)
Definition run_val {S A} (d : A) (o : outcome S A) : A := match o with Done a _ => a | _ => d end.
Definition run_state {S A} (d : S) (o : outcome S A) : S := match o with Done _ s => s | _ => d end.
Definition is_done {S A} (o : outcome S A) : bool := match o with Done _ _ => true | _ => false end.

Lemma wp_done {S A} (p : prog S A) Q E s d0 d1 :
  wp p Q E s -> is_done (p s) = true -> Q (run_val d0 (p s)) (run_state d1 (p s)).
Proof. unfold wp. by destruct (p s). Qed.

(** A run that meets its specification and returns. *)
Lemma wp_returns {S A} (p : prog S A) Q E s :
  wp p Q E s -> is_done (p s) = true -> exists r s', p s = Done r s' /\ Q r s'.
Proof. unfold wp. destruct (p s) as [r s'| |]; [by eauto|done..]. Qed.

Lemma wp_total {S A} (p : prog S A) Q s :
  wp p Q (fun _ _ => False) s -> exists r s', p s = Done r s' /\ Q r s'.
Proof. unfold wp. destruct (p s) as [r s'| |]; [by eauto|done..]. Qed.

(** A table of 512 buckets that may grow to 2048, for one worker; a cache of 16 to 64 entries. *)
Definition ex_table0 : llmsset := mk_llmsset ∅ ∅ ∅ ∅ ∅ 0 0 0 0 None 0 0 1.
Definition ex_table : llmsset := default ex_table0 (llmsset_create 512 2048 0 1).
Definition ex_cache : cache := default (mk_cache 0 0 0 ∅ ∅ 0) (cache_create 16 64).

Lemma ex_table_ok : inv ex_table /\ table_size ex_table = 512 /\ max_size ex_table = 2048.
Proof.
  destruct (create_spec 9 11 0 1) as (s & Hs & Hi & _ & Ht & Hm); [lia..|].
  change (2 ^ 9) with 512 in *. change (2 ^ 11) with 2048 in *. unfold ex_table. by rewrite Hs.
Qed.

Lemma ex_cache_ok : cache_ok ex_cache /\ no_hits ex_cache.
Proof.
  destruct (create_ok 4 6) as (c & Hc & Hok & Hno); [lia|].
  change (2 ^ 4) with 16 in Hc. change (2 ^ 6) with 64 in Hc. unfold ex_cache. by rewrite Hc.
Qed.

Definition ex_m0 : ex_mgr := mk_mgr ex_table ex_cache [] [] [] [] true 1 (fun _ => false).

Lemma ex_m0_inv : mgr_inv ex_m0.
Proof.
  destruct ex_table_ok as [Ht _], ex_cache_ok as [Hc Hno]. split; [exact Ht|exact Hc|constructor|].
  intros a b k r Hr. specialize (Hno a b k). cbn in *. congruence.
Qed.

(** A new variable, left on the reference stack. *)
Definition push_var (v : N) (m : ex_mgr) : N * ex_mgr :=
  let o := mtbdd_ithvar v m in
  let r := run_val 0 o in
  let m' := run_state m o in
  (r, set_rstack (r :: rstack m') m').

Notation ex_arg := (arg (D := gc_discipline) (T := llmsset) (C := cache)).

Definition var_tree (v : N) : bdd := Node v (Leaf false) (Leaf true).

Lemma push_arg (m : ex_mgr) n d t :
  mgr_inv m -> denotes (st m) n d t ->
  let m' := set_rstack (d :: rstack m) m in
  mgr_inv m' /\ ex_arg m' n d t /\ forall n' d' t', ex_arg m n' d' t' -> ex_arg m' n' d' t'.
Proof.
  intros Hi Hd m'. split; [|split].
  - apply set_rstack_inv; [done|]. pose proof (mi_roots m Hi) as Hr. unfold roots in Hr.
    rewrite Forall_app in Hr. constructor; [|apply Hr]. exists t. destruct Hd as [? Hw].
    split; [done|]. eapply wf_mono; [|exact Hw]. lia.
  - split; [done|]. apply live_root. unfold roots. set_solver.
  - intros n' d' t' [Hd' Hl]. split; [done|]. cbn in *. revert Hl.
    induction 1 as [|r Hin|i x Hl IH Hst|i x Hl IH Hst].
    + constructor.
    + apply live_root. unfold roots in *. cbn. set_solver.
    + by apply (live_low m' i).
    + by apply (live_high m' i).
Qed.

Lemma push_var_spec (m : ex_mgr) v :
  mgr_inv m -> v < 2 ^ 24 -> is_done (mtbdd_ithvar v m) = true ->
  mgr_inv (push_var v m).2 /\ ex_arg (push_var v m).2 v (push_var v m).1 (var_tree v) /\
  forall n' d' t', ex_arg m n' d' t' -> ex_arg (push_var v m).2 n' d' t'.
Proof.
  intros Hi Hv Hdone.
  pose proof (makenode_spec v mtbdd_false mtbdd_true (Leaf false) (Leaf true) m Hi Hv
    (denotes_const _ _ false) (denotes_const _ _ true)) as Hwp.
  apply (wp_done _ _ _ _ 0 m) in Hwp; [|exact Hdone]. destruct Hwp as (Hi1 & Hk & Hd).
  destruct (push_arg _ _ _ _ Hi1 Hd) as (Hi2 & Ha & Hargs). split; [exact Hi2|]. split; [exact Ha|].
  intros n' d' t' Harg. apply Hargs. by apply (arg_mono (D := gc_discipline) m).
Qed.

(** Three variables. *)
Definition ex1 : N * ex_mgr := push_var 1 ex_m0.
Definition ex2 : N * ex_mgr := push_var 2 ex1.2.
Definition ex3 : N * ex_mgr := push_var 3 ex2.2.
Definition ex_x : N := ex1.1.
Definition ex_y : N := ex2.1.
Definition ex_z : N := ex3.1.
Definition ex_m : ex_mgr := ex3.2.

Lemma ex_done1 : is_done (mtbdd_ithvar 1 ex_m0) = true. Proof. by vm_compute. Qed.
Lemma ex_done2 : is_done (mtbdd_ithvar 2 ex1.2) = true. Proof. by vm_compute. Qed.
Lemma ex_done3 : is_done (mtbdd_ithvar 3 ex2.2) = true. Proof. by vm_compute. Qed.

Lemma ex_m_ok :
  mgr_inv ex_m /\ ex_arg ex_m 1 ex_x (var_tree 1) /\ ex_arg ex_m 2 ex_y (var_tree 2) /\
  ex_arg ex_m 3 ex_z (var_tree 3).
Proof.
  destruct (push_var_spec ex_m0 1 ex_m0_inv) as (Hi1 & Hx1 & _); [done|exact ex_done1|].
  destruct (push_var_spec ex1.2 2 Hi1) as (Hi2 & Hy2 & Hk2); [done|exact ex_done2|].
  destruct (push_var_spec ex2.2 3 Hi2) as (Hi3 & Hz3 & Hk3); [done|exact ex_done3|].
  split; [exact Hi3|]. split; [exact (Hk3 _ _ _ (Hk2 _ _ _ Hx1))|].
  split; [exact (Hk3 _ _ _ Hy2)|exact Hz3].
Qed.
End Examples.
