(* ===== verification/SerializeProps.v ===== *)
(** The properties of the balanced trees of avl.h and of the serialization of diagrams. *)

From S2P Require Import Prelude SylvanTable SylvanCache MtbddNode BddTree OpSpecs NodeStore MtbddCore MtbddCoreFacts.
From S2P Require Import BddApply BddApplyFacts Avl AvlFacts Serialize SerializeFacts SerializeRead Examples.

Module SerializeProps.
Import MtbddNode BddTree OpSpecs NodeStore MtbddCore MtbddCoreFacts BddApply BddApplyFacts Avl AvlFacts Serialize
  SerializeFacts SerializeRead Examples.

(** ** Balanced trees *)

Section avl.
Context {A : Type} `{AvlOrder A}.

(** C11: A balanced tree implements a finite map: [put] inserts an element unless there is one of
    its key, which it returns; the tree stays ordered and balanced, so that [search] finds what
    the map has; and the iterator visits the elements in the order of their keys, inside its
    array. *)
Theorem avl_put_refines (t : avl_node A) (data : A) :
  avl_ok t ->
  exists t' y b, put t data = Some (t', y, b) /\ avl_ok t' /\
    (y, b) = match contents t !! avl_key data with Some x => (x, false) | None => (data, true) end /\
    contents t' = (if b then <[avl_key data := data]> (contents t) else contents t) /\
    (forall z, search t' z = contents t' !! avl_key z) /\
    iter_all (S (N.to_nat (avl_count t'))) t' (avl_iter t') = Some (elements t') /\ sorted (elements t').
Proof.
  intros Hok. destruct (put_spec t data Hok) as (t' & y & b & Hput & _). exists t', y, b. split; [done|].
  destruct (put_ok t data t' y b Hok Hput) as (Hok' & Hy & Hc). pose proof Hok' as [[Hh Hs] _].
  do 3 (split; [done|]). split; [intros z; by apply search_contents|]. split; [|done].
  apply iter_all_spec; [done|by apply pending_start|]. rewrite count_elements. lia.
Qed.

(** C36: Removal follows a null pointer exactly when the element is in a node with two children
    and its successor is a leaf.  Otherwise it removes the element from the map, and the tree
    stays ordered, with the right heights, but not always balanced. *)
Theorem avl_delete_partial (t : avl_node A) (data : A) :
  tree_ok t ->
  if unlink_fails t data then delete_elt t data = None
  else exists t' b, delete_elt t data = Some (t', b) /\ tree_ok t' /\
    b = bool_decide (is_Some (contents t !! avl_key data)) /\ contents t' = delete (avl_key data) (contents t).
Proof.
  intros Hok. pose proof (delete_spec t data Hok) as Hd. destruct (delete_elt t data) as [[t' b]|] eqn:E.
  - destruct Hd as [-> _]. exists t', b. split; [done|]. by apply delete_ok.
  - by rewrite Hd.
Qed.
End avl.

(** Trees of words, and the comparison of the serialization. *)
#[local] Instance ex_compare : AvlCompare N := compare_words.
#[local] Instance ex_order : AvlOrder N := {| avl_key x := x; avl_compare_key := compare_words_spec |}.

Definition ex_tree (l : list N) : avl_node N :=
  fold_left (fun t x => match put t x with Some (t, _, _) => t | None => t end) l Null.

Lemma ex_tree_ok l : avl_ok (ex_tree l).
Proof.
  assert (avl_ok (Null : avl_node N)) as H0 by (split; [split; [done|constructor]|done]).
  unfold ex_tree. revert H0. generalize (Null : avl_node N). induction l as [|x l IH]; intros t Ht; [done|].
  cbn. apply IH. destruct (put_spec t x Ht) as (t' & y & b & Hput & _). rewrite Hput.
  by destruct (put_ok t x t' y b Ht Hput).
Qed.

Lemma avl_put_refines_witness :
  exists t' y b, put (ex_tree [4; 2; 6; 1; 3]) 5 = Some (t', y, b) /\ avl_ok t' /\
    (y, b) = match contents (ex_tree [4; 2; 6; 1; 3]) !! avl_key 5 with Some x => (x, false) | None => (5, true) end /\
    contents t' = (if b then <[avl_key 5 := 5]> (contents (ex_tree [4; 2; 6; 1; 3])) else contents (ex_tree [4; 2; 6; 1; 3])) /\
    (forall z, search t' z = contents t' !! avl_key z) /\
    iter_all (S (N.to_nat (avl_count t'))) t' (avl_iter t') = Some (elements t') /\ sorted (elements t').
Proof. apply (avl_put_refines (ex_tree [4; 2; 6; 1; 3]) 5), ex_tree_ok. Defined.

(** In a complete tree of seven elements the root cannot be removed; in another tree the removal
    of an element leaves a node whose children differ by two in height. *)
Lemma avl_delete_partial_witness :
  delete_elt (ex_tree [4; 2; 6; 1; 3; 5; 7]) 4 = None /\
  exists t' b, delete_elt (ex_tree [8; 4; 10; 2; 6; 9; 1; 3; 7]) 9 = Some (t', b) /\ tree_ok t' /\
    b = bool_decide (is_Some (contents (ex_tree [8; 4; 10; 2; 6; 9; 1; 3; 7]) !! avl_key 9)) /\
    contents t' = delete (avl_key 9) (contents (ex_tree [8; 4; 10; 2; 6; 9; 1; 3; 7])).
Proof.
  split.
  - exact (avl_delete_partial (ex_tree [4; 2; 6; 1; 3; 5; 7]) 4 (proj1 (ex_tree_ok _))).
  - exact (avl_delete_partial (ex_tree [8; 4; 10; 2; 6; 9; 1; 3; 7]) 9 (proj1 (ex_tree_ok _))).
Defined.

Lemma ex_unbalanced :
  option_map (fun r => bool_decide (Z.abs (match r.1 with Tree l _ _ _ => avl_get_balance l | Null => 0 end) <= 1)%Z)
    (delete_elt (ex_tree [8; 4; 10; 2; 6; 9; 1; 3; 7]) 9) = Some false.
Proof. vm_compute. reflexivity. Qed.

(** ** Serialization *)

Section serialize.
Context {T C : Type} `{NodeTableLaws T} `{OpCacheLaws C}.
Notation mgr := (mgr T C).
Notation state := (state T C).



(** What the header says to do to store diagrams, and to read them. *)
Definition save (fuel : nat) (ds : list N) : prog state (list N * list N) :=
  vs ← mapM (sylvan_serialize_add fuel) ds; file ← sylvan_serialize_tofile; mret (vs, file).





End serialize.

(** The three variables of [Examples], and a complement. *)
Definition ex_list : list N := [ex_x; ex_y; MTBDD_TOGGLEMARK ex_z].





(** The file of that example: three nodes. *)
Lemma ex_file :
  match save 10 ex_list (mk_state ex_m serial_init) with
  | Done (vs, file) _ =>
      (vs, file) = ([1; 2; mk_edge true 3],
        [3; mtbdd_true; N.shiftl 1 40; mtbdd_true; N.shiftl 2 40; mtbdd_true; N.shiftl 3 40])
  | _ => False
  end.
Proof. vm_compute. reflexivity. Qed.
End SerializeProps.
