(* ===== verification/PackageProps.v ===== *)
(** The properties of the start of the package, of its hooks and of the report of its usage. *)

From S2P Require Import Prelude SylvanTable SylvanTableFacts SylvanTableGC SylvanCache NodeStore MtbddCore.
From S2P Require Import MtbddCoreFacts SylvanCommon SylvanCommonFacts Examples.

Module PackageProps.
Import LLMSSet LLMSSetFacts LLMSSetGC Cache NodeStore MtbddCore MtbddCoreFacts SylvanCommon SylvanCommonFacts Examples.



Lemma ex_sizes :
  sylvan_set_limits (2 ^ 29) 1 5 no_sizes = Done tt (mk_sizes (2 ^ 18) (2 ^ 23) (2 ^ 17) (2 ^ 22)).
Proof. vm_compute. reflexivity. Qed.

(** Below the cap of 64 MB the package may not start: here the limits give a table of one bucket. *)
Lemma ex_small :
  exists s, sylvan_set_limits 100 0 0 no_sizes = Done tt s /\ sylvan_init_package 0 1 s = Exit BadSize s.
Proof. eexists. split; vm_compute; reflexivity. Qed.

(** C2: A collection that runs the callbacks which the package registers keeps exactly the nodes
    that the roots reach, whichever of the two hooks resizes the tables, and it cannot fail. *)
Theorem registered_collect quit resize (m : mgr llmsset cache) :
  mgr_inv m ->
  resize = sylvan_gc_aggressive_resize \/ resize = sylvan_gc_normal_resize llmsset_count_marked ->
  wp (gc_go_hooks (sylvan_gc_hook_main resize (init_mtbdd_hooks quit hooks_init)))
    (fun _ m' => mgr_inv m' /\ same_roots m m' /\
       (forall i, used (nodes m') i <-> live m i /\ used (nodes m) i) /\
       (forall i, nt_data (nodes m') i = nt_data (nodes m) i) /\ no_hits (opcache m'))
    (fun _ _ => False) m.
Proof.
  intros Hi Hres. unfold wp. rewrite hooks_collect. fold (wp (collect resize)
    (fun _ m' => mgr_inv m' /\ same_roots m m' /\ (forall i, used (nodes m') i <-> live m i /\ used (nodes m) i) /\
       (forall i, nt_data (nodes m') i = nt_data (nodes m) i) /\ no_hits (opcache m')) (fun _ _ => False) m).
  eapply wp_mono; [apply collection_spec; [|exact Hi]|].
  - destruct Hres as [->| ->]; [apply aggressive_resizes|apply normal_resizes].
    intros t0 t (_ & Hs & _). rewrite (count_marked_spec t (used_set t) Hs (elem_of_used_set t)). by eexists.
  - intros [] m' (Hi' & [Hs _] & [Hlo Hd] & Hno). split_and!; try done.
    intros i. rewrite <- !usedb_spec. apply Hlo.
Qed.

Lemma registered_collect_witness :
  exists m', gc_go_hooks (sylvan_gc_hook_main (sylvan_gc_normal_resize llmsset_count_marked)
      (init_mtbdd_hooks (mret tt) hooks_init)) ex_m = Done tt m' /\ mgr_inv m' /\
    forall i, used (nodes m') i <-> live ex_m i /\ used (nodes ex_m) i.
Proof.
  destruct (wp_total _ _ _ (registered_collect (mret tt) _ ex_m (proj1 ex_m_ok) (or_intror eq_refl)))
    as ([] & m' & Hr & Hi & _ & Hu & _).
  exists m'. split; [exact Hr|]. split; [exact Hi|exact Hu].
Defined.

(** C37: The usage that is reported is the number of nodes, with the two reserved buckets, and the
    number of buckets: the parallel count over words is the sum over the bits. *)
Theorem usage_counts t (X : gset N) :
  inv t -> (forall i, i ∈ X <-> used t i) ->
  sylvan_table_usage t = Some (2 + N.of_nat (size X), table_size t).
Proof. intros Hi HX. unfold sylvan_table_usage. by rewrite (count_marked_spec t X (inv_shape t Hi) HX). Qed.

Lemma usage_counts_witness :
  sylvan_table_usage (nodes ex_m) = Some (2 + N.of_nat (size (used_set (nodes ex_m))), table_size (nodes ex_m)).
Proof. exact (usage_counts (nodes ex_m) (used_set (nodes ex_m)) (mi_nodes _ (proj1 ex_m_ok)) (elem_of_used_set _)). Defined.
End PackageProps.
