(* ===== verification/TableConcProps.v ===== *)
(** The properties of concurrent lookups in the node table. *)

From S2P Require Import Prelude SylvanHash SylvanTable SylvanTableFacts SylvanTableGC TableConc TableConcFacts TableConcWait.
From S2P Require Import Examples.

Module TableConcProps.
Import Hash LLMSSet LLMSSetFacts LLMSSetGC TableConc TableConcFacts TableConcWait Examples.

(** The table as the workers see it: bucket [d] has the key [a], [b]. *)
Definition stored (s : llmsset) (a b d : N) : Prop :=
  inserted s d /\ 2 <= d /\ data_at s d = (a, b).

Lemma stored_key owner s a b d d' : shared_ok owner s -> stored s a b d -> stored s a b d' -> d = d'.
Proof. intros Hs (Hi & H2 & Hd) (Hi' & H2' & Hd'). eapply (so_inj owner s Hs); congruence. Qed.

Lemma returned owner s n w d created :
  worker_ok owner s n w -> at_pc w = Return d created -> d <> 0 -> stored s (key_a w) (key_b w) d.
Proof. intros Hw Hp Hd. pose proof (wo_pc _ _ _ _ Hw) as Hr. rewrite Hp in Hr. by destruct Hr. Qed.

(** C6: Whatever the order in which the steps of several lookups are taken, a lookup that has
    returned a bucket has returned one with its key, and lookups of the same key have returned
    the same bucket. *)
Theorem lookups_agree s n c m m' w w' d d' created created' :
  inv s -> rtc sys_step (started s n) c ->
  workers c !! m = Some w -> workers c !! m' = Some w' ->
  at_pc w = Return d created -> at_pc w' = Return d' created' -> d <> 0 -> d' <> 0 ->
  stored (mem c) (key_a w) (key_b w) d /\
  (key_a w = key_a w' -> key_b w = key_b w' -> d = d').
Proof.
  intros Hi Hr Hw Hw' Hp Hp' Hd Hd'. destruct (reach_ok s n c Hi Hr) as (owner & Hs & Hws).
  pose proof (returned _ _ _ _ _ _ (Hws _ _ Hw) Hp Hd) as Hst.
  pose proof (returned _ _ _ _ _ _ (Hws _ _ Hw') Hp' Hd') as Hst'. split; [done|].
  intros Ha Hb. rewrite <- Ha, <- Hb in Hst'. by eapply stored_key.
Qed.

(** What a step does to the table as a set of keys. *)
Definition inserts (c c' : sys) : Prop :=
  exists m w w' d, workers c !! m = Some w /\ workers c' !! m = Some w' /\ at_pc w' = Return d true /\
    (forall d', ~ stored (mem c) (key_a w) (key_b w) d') /\
    forall a b d', stored (mem c') a b d' <-> stored (mem c) a b d' \/ (a, b, d') = (key_a w, key_b w, d).

Lemma frame_stored n owner owner' s s' :
  frame n owner owner' s s' -> (forall q, mget (table s') q = mget (table s) q) ->
  forall a b d, stored s' a b d <-> stored s a b d.
Proof.
  intros Hf Ht a b d. unfold stored. assert (inserted s' d <-> inserted s d) as Hi.
  { unfold inserted. by setoid_rewrite Ht. }
  rewrite Hi. split; intros (Hin & H2 & Hd); (split; [done|]; split; [done|]).
  - by rewrite <- (fr_data _ _ _ _ _ Hf).
  - by rewrite (fr_data _ _ _ _ _ Hf).
Qed.

(** A step leaves the hash array alone, but for the swap that succeeds. *)
Lemma step_table n s w o :
  step n s w = Some o ->
  (table o.1 = table s /\ forall d, at_pc o.2 <> Return d true) \/
  exists p d, at_pc w = Cas p d /\ mget (table s) (at_idx p) = 0 /\ o.2 = goto (Return d true) w /\
    o.1 = upd_table (fun t => mset t (at_idx p) (N.lor (N.land (w_hash w) MASK_HASH) d)) s.
Proof.
  assert (forall p r k d, try_region s p r k <> Return d true) as Htry.
  { intros p r k d. unfold try_region. by destruct (k =? 0). }
  assert (forall p c d, advance s w p c <> Return d true) as Hadv.
  { intros p c d. unfold advance. by destruct (next_cursor s w p). }
  assert (forall p d, claim s n w p <> Return d true) as Hclaim.
  { intros p d. unfold claim. destruct (_ =? _); [apply Htry|done]. }
  unfold step. destruct (at_pc w) as [|p c|p i|p i v|p r k|p r k v|p c|p c|p c|p c|p c v|p c d|d c|d c v|c cr] eqn:Hpc; try discriminate;
    repeat match goal with |- (if ?b then _ else _) = _ -> _ => destruct b eqn:? end;
    intros Ho; apply (inj Some) in Ho; subst o; cbn [fst snd];
    lazymatch goal with
    | |- table (upd_table _ _) = _ /\ _ \/ _ => idtac
    | _ =>
        left; split; [reflexivity|]; intros d'; cbn [at_pc goto in_region];
        repeat match goal with |- (if ?b then _ else _) <> _ => destruct b end;
        first [apply Htry|apply Hadv|apply Hclaim|discriminate]
    end.
  right. exists p, c. split_and!; [done| |done..]. by apply N.eqb_eq.
Qed.

(** C4: Seen as a set of keys, the table changes in one step of a lookup: either a step leaves
    the set as it is, and no lookup reports in it that it has created a bucket; or it is the
    step in which a lookup stores its key, which was not there, and reports so. *)
Theorem lookup_linearizes s n c c' :
  inv s -> rtc sys_step (started s n) c -> sys_step c c' ->
  (forall a b d, stored (mem c') a b d <-> stored (mem c) a b d) /\
    (forall m w d, workers c' !! m = Some w -> at_pc w = Return d true -> workers c !! m = Some w) \/
  inserts c c'.
Proof.
  intros Hi Hr Hstep. destruct (reach_ok s n c Hi Hr) as (owner & Hs & Hws).
  destruct Hstep as [s0 ws m w a b Hm Hidle Hab|s0 ws m w s' w' Hm Hst]; cbn [mem workers] in *.
  - left. split; [done|]. intros m' w1 d. destruct (decide (m' = m)) as [->|Hne].
    + rewrite lookup_insert_eq. by intros [= <-].
    + by rewrite lookup_insert_ne.
  - destruct (step_ok owner s0 m w (s', w') Hs (Hws m w Hm) Hst) as (owner' & Hf & Hs' & Hw').
    destruct (step_table m s0 w (s', w') Hst) as [[Ht Hno]|(p & d & Hpc & H0 & Ew & Es)];
      cbn [fst snd] in *.
    + left. split; [eapply frame_stored; [exact Hf|]; intros q; by rewrite Ht|].
      intros m' w1 d. destruct (decide (m' = m)) as [->|Hne]; [|by rewrite lookup_insert_ne].
      rewrite lookup_insert_eq. intros [= <-] Hd. by destruct (Hno d).
    + subst s' w'. right. exists m, w, (goto (Return d true) w), d. cbn [mem workers].
      pose proof (wo_pc _ _ _ _ (Hws m w Hm)) as Hp. rewrite Hpc in Hp. destruct Hp as (Hc & Hh & Hd).
      pose proof Hh as (_ & [H2 _] & _). destruct (cas_ok owner s0 m w p d Hs Hc Hh Hd H0) as (_ & _ & Hins).
      split_and!; [done|by rewrite lookup_insert_eq|done| |].
      * intros d' (Hx & Hx2 & Hxd). destruct Hc as [k Hk]. by eapply (absent owner s0 w p k).
      * intros a b d'. unfold stored. rewrite Hins. change (data_at (upd_table _ s0)) with (data_at s0).
        split.
        -- intros ([Hx| ->] & Hx2 & Hxd); [by left|right; congruence].
        -- intros [(Hx & Hx2 & Hxd)|[= -> -> ->]]; split_and!; auto.
Qed.


(** ** Examples *)

Lemma run_reaches schedule c : rtc sys_step c (run_schedule schedule c).
Proof.
  revert c. induction schedule as [|[n what] schedule IH]; intros c; [apply rtc_refl|]. cbn [run_schedule].
  etrans; [|apply IH]. destruct c as [s ws]; cbn [mem workers]. destruct (ws !! n) as [w|] eqn:Hw; [|apply rtc_refl].
  destruct what as [[a b]|].
  - destruct (idle w) eqn:Hi; [|apply rtc_refl]. destruct ((a =? 0) && (b =? 0)) eqn:Hab; [apply rtc_refl|].
    apply rtc_once, step_call; [done|by rewrite Hi|]. intros [= -> ->]. discriminate.
  - destruct (step n s w) as [[s' w']|] eqn:Hst; [|apply rtc_refl]. by apply rtc_once, step_worker with w.
Qed.

(** Two workers on a table of 1024 buckets look up the same key, taking turns: both claim a
    bucket, the swap of the second one fails, and it gives its bucket back. *)
Definition ex_shared : llmsset := default ex_table0 (llmsset_create 1024 2048 0 2).
Definition ex_start : sys := started ex_shared 2.
Definition turns (n : nat) : list (N * option (N * N)) := concat (replicate n [(0, None); (1, None)]).
Definition ex_before : sys := run_schedule ([(0, Some (5, 7)); (1, Some (5, 7))] ++ turns 7) ex_start.
Definition ex_end : sys := run_schedule (turns 8) ex_before.

Lemma ex_shared_inv : inv ex_shared.
Proof.
  destruct (create_spec 10 11 0 2) as (s & Hs & Hi & _); [lia..|].
  change (2 ^ 10) with 1024 in Hs. change (2 ^ 11) with 2048 in Hs. unfold ex_shared. by rewrite Hs.
Qed.

Lemma ex_before_reached : rtc sys_step ex_start ex_before.
Proof. apply run_reaches. Qed.
Lemma ex_end_reached : rtc sys_step ex_start ex_end.
Proof. etrans; [apply ex_before_reached|apply run_reaches]. Qed.

Definition pc_at (c : sys) (n : N) : pc := default Idle (at_pc <$> workers c !! n).
Lemma ex_pcs :
  (pc_at ex_end 0, pc_at ex_end 1) = (Return 2 true, Return 2 false).
Proof. vm_compute. reflexivity. Qed.

(** Worker 0 is before its swap, which succeeds. *)
Lemma ex_next_pcs :
  (match pc_at ex_before 0 with Cas _ c => Some c | _ => None end, pc_at (run_schedule [(0, None)] ex_before) 0) =
  (Some 2, Return 2 true).
Proof. vm_compute. reflexivity. Qed.

Lemma run_step c n w o :
  workers c !! n = Some w -> step n (mem c) w = Some o -> sys_step c (run_schedule [(n, None)] c).
Proof.
  intros Hw Hst. cbn [run_schedule]. rewrite Hw, Hst. destruct o as [s' w'], c as [s ws]. by apply step_worker with w.
Qed.

(** Worker [n] is inside a lookup. *)
Definition can_step (n : N) (c : sys) : bool :=
  match workers c !! n with Some w => bool_decide (is_Some (step n (mem c) w)) | None => false end.

Lemma can_step_run n c : can_step n c = true -> sys_step c (run_schedule [(n, None)] c).
Proof.
  unfold can_step. destruct (workers c !! n) as [w|] eqn:Hw; [|discriminate].
  intros [o Ho]%bool_decide_eq_true. by eapply run_step.
Qed.

Lemma ex_can_step : can_step 0 ex_before = true.
Proof. vm_compute. reflexivity. Qed.

Lemma lookups_agree_witness :
  stored (mem ex_end) 5 7 2 /\ (5 = 5 -> 7 = 7 -> 2 = 2).
Proof.
  apply (lookups_agree ex_shared 2 ex_end 0 1 (mk_worker 5 7 0 (Return 2 true)) (mk_worker 5 7 1 (Return 2 false))
           2 2 true false);
    [apply ex_shared_inv|apply ex_end_reached|vm_compute; reflexivity|vm_compute; reflexivity|
     reflexivity|reflexivity|discriminate|discriminate].
Defined.

Lemma lookup_linearizes_witness :
  let c' := run_schedule [(0, None)] ex_before in
  (forall a b d, stored (mem c') a b d <-> stored (mem ex_before) a b d) /\
    (forall m w d, workers c' !! m = Some w -> at_pc w = Return d true -> workers ex_before !! m = Some w) \/
  inserts ex_before c'.
Proof.
  intros c'. apply (lookup_linearizes ex_shared 2);
    [apply ex_shared_inv|apply ex_before_reached|apply can_step_run, ex_can_step].
Defined.

End TableConcProps.
