(* ===== verification/TableProps.v ===== *)
(** The properties of the node table of sylvan_table.c, of its hash functions and of the
    operation cache of sylvan_cache.c, with instances on small concrete tables. *)

From S2P Require Import Prelude SylvanHash SylvanTable SylvanTableFacts SylvanTableGC SylvanCache.
From S2P Require Import NodeStore Examples.

Module TableProps.
Import Hash LLMSSet LLMSSetFacts LLMSSetGC Cache NodeStore Examples.

(** ** The node table *)

(** C3: [llmsset_lookup] finds or inserts.  From a consistent table it returns, in a consistent
    table, either the bucket that already holds the key, or a fresh bucket that now does, all
    other buckets being as before, or 0; and 0 only when the key is absent and there is no
    room for it: all positions probed are taken or no bucket can be claimed. *)
Theorem lookup_find_or_insert s a b :
  inv s -> (a, b) <> (0, 0) ->
  exists c created s', llmsset_lookup a b s = Done (c, created) s' /\ inv s' /\
    lookup_post s a b c created s'.
Proof. apply lookup_spec. Qed.

Lemma lookup_find_or_insert_witness :
  exists c created s', llmsset_lookup 5 7 ex_table = Done (c, created) s' /\ inv s' /\
    lookup_post ex_table 5 7 c created s'.
Proof. apply lookup_find_or_insert; [exact (proj1 ex_table_ok)|discriminate]. Defined.

(** a key that a lookup has placed is found again: the next lookup of it returns the same
    bucket, reports that it was there, and leaves the table as it is. *)
Theorem lookup_again s a b c created s' :
  inv s -> (a, b) <> (0, 0) -> llmsset_lookup a b s = Done (c, created) s' -> c <> 0 ->
  llmsset_lookup a b s' = Done (c, false) s'.
Proof.
  intros Hi Hab Hr Hc. destruct (lookup_spec s a b Hi Hab) as (c0 & cr0 & s0 & Hr0 & Hi0 & Hp).
  assert ((c0, cr0, s0) = (c, created, s')) as [= -> -> ->] by congruence.
  assert (used s' c /\ data_at s' c = (a, b)) as [Hu Hd].
  { destruct Hp as [c Hu Hd|c s' _ _ Hu Hd _ _|]; [done| |done]. split; [by apply Hu; left|done]. }
  destruct (lookup_spec s' a b Hi0 Hab) as (c1 & cr1 & s1 & Hr1 & Hi1 & Hp1). rewrite Hr1.
  destruct Hp1 as [c1 Hu1 Hd1|c1 s1 Hno _ _ _ _ _|s1 Hno _ _ _].
  - f_equal. f_equal. apply (sh_inj s' (inv_shape s' Hi0)); [done|done|congruence].
  - by destruct (Hno c Hu).
  - by destruct (Hno c Hu).
Qed.

Lemma lookup_again_witness :
  llmsset_lookup 5 7 (run_state ex_table (llmsset_lookup 5 7 ex_table)) =
  Done (2, false) (run_state ex_table (llmsset_lookup 5 7 ex_table)).
Proof.
  apply (lookup_again ex_table 5 7 2 true); [exact (proj1 ex_table_ok)|discriminate|
    vm_compute; reflexivity|discriminate].
Defined.

(** [claim_data_bucket] fails exactly when every bucket is taken, otherwise it returns a
    free bucket and takes only that one; and the regions that are taken stay full. *)
Theorem claim_exhaustive s :
  shape s -> owned_full s ->
  exists c s', claim_data_bucket s = Done c s' /\ owned_full s' /\
    (c = minus1_64 <-> forall i, i < table_size s -> bm_get (bitmap2 s) i = true) /\
    (c <> minus1_64 -> c < table_size s /\ bm_get (bitmap2 s) c = false /\
       bitmap2 s' = bm_set (bitmap2 s) c).
Proof.
  intros Hs Ho. destruct (claim_total s Hs) as (c & s' & Hr & Hss & Hok & Hcase).
  exists c, s'. split; [done|]. pose proof (shape_512 s Hs) as [H5 H40].
  assert (owned_full s') as Ho'.
  { pose proof (claim_loop_owned (S (S (N.to_nat (table_size s / (64 * 8))))) (my_region s) s Ho H40
      (sh_words s Hs) eq_refl) as Hl.
    unfold claim_data_bucket, mbind, prog_bind, gets, id in Hr. rewrite Hr in Hl. apply Hl.
    apply N.div_str_pos. lia. }
  split; [done|]. assert (c <> minus1_64 -> c < table_size s /\ bm_get (bitmap2 s) c = false /\
    bitmap2 s' = bm_set (bitmap2 s) c) as Hnew by (intros Hne; by destruct Hcase as [[? _]|?]).
  split; [|done]. split.
  - intros ->. destruct Hcase as [(_ & Hb & Hno)|(Hlt & _)].
    + assert (shape s') as Hs' by (by apply (claim_fail_shape s)).
      destruct Hss as (_ & _ & _ & _ & Hts & _). intros i Hi. rewrite <- Hb.
      apply (no_bucket_all s' Hs' Ho' Hno). by rewrite Hts.
    + exfalso. revert Hlt H40. clear. change minus1_64 with 18446744073709551615.
      change (2 ^ 40) with 1099511627776. lia.
  - intros Hall. destruct (N.eq_dec c minus1_64) as [|Hne]; [done|].
    destruct (Hnew Hne) as (Hlt & Hf & _). by rewrite (Hall c Hlt) in Hf.
Qed.


Definition ex_table1 : llmsset := run_state ex_table (llmsset_lookup 5 7 ex_table).

Lemma ex_table1_ok : inv ex_table1.
Proof.
  destruct (lookup_spec ex_table 5 7 (proj1 ex_table_ok)) as (c & cr & s' & Hr & Hi & _);
    [discriminate|]. unfold ex_table1. rewrite Hr. exact Hi.
Qed.


Lemma claim_exhaustive_witness :
  exists c s', claim_data_bucket ex_table = Done c s' /\ owned_full s' /\
    (c = minus1_64 <-> forall i, i < table_size ex_table -> bm_get (bitmap2 ex_table) i = true) /\
    (c <> minus1_64 -> c < table_size ex_table /\ bm_get (bitmap2 ex_table) c = false /\
       bitmap2 s' = bm_set (bitmap2 ex_table) c).
Proof.
  apply claim_exhaustive; [exact (inv_shape _ (proj1 ex_table_ok))|].
  intros r _ Hr. change (bitmap1 ex_table) with (∅ : gmap N N) in Hr. unfold bm_get in Hr.
  rewrite mget_empty in Hr. discriminate.
Defined.

(** [llmsset_create] makes, for powers of two within the 40 bits of an index, an empty
    consistent table of the sizes asked for. *)
Theorem create_empty K K' worker_id n_workers :
  9 <= K -> K <= K' -> K' <= 40 ->
  exists s, llmsset_create (2 ^ K) (2 ^ K') worker_id n_workers = Some s /\ inv s /\
    (forall c, ~ used s c) /\ table_size s = 2 ^ K /\ max_size s = 2 ^ K'.
Proof. apply create_spec. Qed.

Lemma create_empty_witness :
  exists s, llmsset_create (2 ^ 9) (2 ^ 11) 0 1 = Some s /\ inv s /\
    (forall c, ~ used s c) /\ table_size s = 2 ^ 9 /\ max_size s = 2 ^ 11.
Proof. apply create_empty; lia. Defined.

(** [llmsset_mark] takes a bucket of the collected table back, returns whether it was the
    first to do so, and changes nothing else. *)
Theorem mark_first s0 s c :
  shape s0 -> shape s -> same_data s0 s -> (forall c', used s c' -> used s0 c') ->
  table_size s0 <= table_size s -> used s0 c ->
  exists s', llmsset_mark c s = Done (negb (bm_get (bitmap2 s) c)) s' /\ shape s' /\
    same_data s s' /\ (forall c', used s' c' <-> c' = c \/ used s c') /\
    table_size s' = table_size s.
Proof. apply mark_spec. Qed.

Lemma mark_first_witness :
  exists s', llmsset_mark 2 (llmsset_clear_data ex_table1) = Done true s' /\ shape s' /\
    forall c', used s' c' <-> c' = 2 \/ used (llmsset_clear_data ex_table1) c'.
Proof.
  destruct (clear_data_spec ex_table1 (inv_shape _ ex_table1_ok)) as (Hs & Hu & Hd & _).
  assert (used ex_table1 2) as H2 by (split; [discriminate|split; vm_compute; reflexivity]).
  destruct (mark_first ex_table1 (llmsset_clear_data ex_table1) 2 (inv_shape _ ex_table1_ok) Hs Hd)
    as (s' & Hr & Hs' & _ & Hu' & _).
  - intros c' Hc'. destruct (Hu c' Hc').
  - apply N.le_refl.
  - exact H2.
  - exists s'. split; [|split; [exact Hs'|exact Hu']]. rewrite Hr. f_equal.
Defined.

(** doubling the table, up to its maximum, keeps buckets and data and the well-formedness
    that the rehashing after it needs. *)
Theorem set_size_doubles s :
  shape s -> 2 * table_size s <= max_size s ->
  let s' := llmsset_set_size s (2 * table_size s) in
  shape s' /\ (forall c, used s' c <-> used s c) /\ same_data s s' /\
  table_size s' = 2 * table_size s /\ max_size s' = max_size s.
Proof. intros Hs Hm. by apply set_size_spec. Qed.

Lemma set_size_doubles_witness :
  let s' := llmsset_set_size ex_table1 (2 * table_size ex_table1) in
  shape s' /\ (forall c, used s' c <-> used ex_table1 c) /\ same_data ex_table1 s' /\
  table_size s' = 2 * table_size ex_table1 /\ max_size s' = max_size ex_table1.
Proof.
  apply set_size_doubles; [exact (inv_shape _ ex_table1_ok)|]. vm_compute. discriminate.
Defined.

(** ** Hashing *)

(** one step of [CWhash] on 32-bit limbs is multiplication and addition modulo the Mersenne
    prime 2^89 - 1, with no overflow of the 64-bit words, and [Mod64Prime89] reduces to the
    canonical residue, cut to 64 bits. *)
Theorem MultAddPrime89_step x a b :
  x < 2 ^ 64 -> limbs32 a -> limbs32 b -> l2 b < 2 ^ 31 ->
  limbs32 (MultAddPrime89 x a b) /\
  val96 (MultAddPrime89 x a b) mod Prime89 = (val96 a * x + val96 b) mod Prime89 /\
  Mod64Prime89 (MultAddPrime89 x a b) = ((val96 a * x + val96 b) mod Prime89) mod 2 ^ 64.
Proof.
  intros Hx Ha Hb Hb2. destruct (MultAdd_value x a b Hx Ha Hb Hb2) as [Hl [k Hk]].
  assert (val96 (MultAddPrime89 x a b) mod Prime89 = (val96 a * x + val96 b) mod Prime89) as He.
  { rewrite Hk, (N.mul_comm Prime89 k). by rewrite N.Div0.mod_add. }
  split; [done|]. split; [done|]. by rewrite Mod64_value, He.
Qed.

Lemma MultAddPrime89_step_witness :
  Mod64Prime89 (MultAddPrime89 12345 (mk96 7 8 9) (mk96 1 2 3)) =
  ((val96 (mk96 7 8 9) * 12345 + val96 (mk96 1 2 3)) mod Prime89) mod 2 ^ 64.
Proof. apply MultAddPrime89_step; [reflexivity|split; [reflexivity|split; reflexivity]..|reflexivity]. Defined.

(** ** The operation cache *)

(** what [cache_put] stores, [cache_get] of the same key returns, unless the bucket is
    locked; and a lookup of any other key returns only what was stored for exactly that key. *)
Theorem cache_put_get c a b k res :
  (N.land (mget (cache_status c) (N.land (cache_hash a b k) (cache_mask c))) 0x80000000 = 0 ->
   exists c', cache_put c a b k res = (true, c') /\ cache_get c' a b k = Some res) /\
  (forall a' b' k' r, cache_get (cache_put c a b k res).2 a' b' k' = Some r ->
     a' = a /\ b' = b /\ k' = k /\ r = res \/ cache_get c a' b' k' = Some r).
Proof. split; [apply put_get_same|intros a' b' k' r; apply put_get_other]. Qed.

(** a cache that has been cleared, resized or created has no entries and keeps the sizes
    that make the next resize succeed. *)
Theorem cache_clear_empty c :
  cache_ok c ->
  (exists c', cache_clear c = Some c' /\ cache_ok c' /\ no_hits c') /\
  (cache_getsize c < cache_getmaxsize c ->
   exists c', cache_setsize c (2 * cache_getsize c) = Some c' /\ cache_ok c' /\ no_hits c').
Proof.
  intros Hc. split; [exact (oc_clear_spec c Hc)|]. intros Hlt.
  exact (proj2 (oc_setsize_spec c Hc Hlt)).
Qed.

Lemma cache_clear_empty_witness :
  (exists c', cache_clear ex_cache = Some c' /\ cache_ok c' /\ no_hits c') /\
  (cache_getsize ex_cache < cache_getmaxsize ex_cache ->
   exists c', cache_setsize ex_cache (2 * cache_getsize ex_cache) = Some c' /\ cache_ok c' /\
     no_hits c').
Proof. apply cache_clear_empty. exact (proj1 ex_cache_ok). Defined.
End TableProps.
