(* ===== verification/CoreProps.v ===== *)
(** The properties of the nodes of sylvan_mtbdd_int.h and of the manager of sylvan_mtbdd.c and
    sylvan_common.c: packing, making nodes and garbage collection. *)

From S2P Require Import Prelude SylvanTable SylvanCache MtbddNode BddTree OpSpecs NodeStore.
From S2P Require Import MtbddCore MtbddCoreFacts Examples.

Module CoreProps.
Import MtbddNode BddTree OpSpecs NodeStore MtbddCore MtbddCoreFacts Examples.

(** ** Nodes *)

(** C40: the two words of a node give back the variable, the low edge and the high edge with its
    complement mark that it was packed from, and are recognised as an inner node that is no map
    node; a packed map node gives back the same fields and is recognised as one. *)
Theorem node_roundtrip var low high :
  var < 2 ^ 24 -> low < 2 ^ 40 -> is_edge high ->
  let n := mtbddnode_makenode var low high in
  let k := mtbddnode_makemapnode var low high in
  (mtbddnode_getvariable n = var /\ mtbddnode_getlow n = low /\ mtbddnode_gethigh n = high /\
   mtbddnode_isleaf n = false /\ mtbddnode_ismapnode n = false) /\
  (mtbddnode_getvariable k = var /\ mtbddnode_getlow k = low /\ mtbddnode_gethigh k = high /\
   mtbddnode_isleaf k = false /\ mtbddnode_ismapnode k = true).
Proof.
  intros Hv Hl Hh n k. split_and!.
  - by apply getvariable_makenode.
  - by apply getlow_makenode.
  - by apply gethigh_makenode.
  - by apply isleaf_makenode.
  - by apply ismapnode_makenode.
  - by apply getvariable_makemapnode.
  - by apply getlow_makemapnode.
  - by apply (gethigh_makemapnode var low high).
  - by apply isleaf_makemapnode.
  - by apply ismapnode_makemapnode.
Qed.

Lemma node_roundtrip_witness :
  mtbddnode_gethigh (mtbddnode_makenode 77 5 (mk_edge true 9)) = mk_edge true 9 /\
  mtbddnode_ismapnode (mtbddnode_makemapnode 77 5 (mk_edge true 9)) = true.
Proof.
  destruct (node_roundtrip 77 5 (mk_edge true 9)) as [H1 H2];
    [reflexivity|reflexivity|reflexivity|].
  split; [apply H1|apply H2].
Defined.

(** a leaf gives back its 32-bit type and its 64-bit value and is recognised as a leaf. *)
Theorem leaf_roundtrip type value :
  type < 2 ^ 32 ->
  let n := mtbddnode_makeleaf type value in
  mtbddnode_isleaf n = true /\ mtbddnode_gettype n = type /\ mtbddnode_getvalue n = value.
Proof. apply makeleaf_get. Qed.

Lemma leaf_roundtrip_witness :
  mtbddnode_gettype (mtbddnode_makeleaf 3 42) = 3 /\ mtbddnode_getvalue (mtbddnode_makeleaf 3 42) = 42.
Proof. apply (leaf_roundtrip 3 42). reflexivity. Defined.

(** ** The manager *)

Section props.
Context {T C : Type} `{NodeTableLaws T} `{OpCacheLaws C}.
Implicit Types m : mgr T C.

(** garbage collection cannot fail.  Afterwards a node is in the table exactly when it was
    there and a root reaches it; all data words are as before; the cache is empty; the roots
    are untouched and the invariant holds. *)
Theorem gc_keeps_exactly_live m :
  mgr_inv m ->
  wp sylvan_gc_go
    (fun _ m' => mgr_inv m' /\ same_roots m m' /\
       (forall i, nt_used (nodes m') i = true <-> live m i /\ nt_used (nodes m) i = true) /\
       (forall i, nt_data (nodes m') i = nt_data (nodes m) i) /\ no_hits (opcache m'))
    (fun _ _ => False) m.
Proof.
  intros Hi. eapply wp_mono; [by apply sylvan_gc_go_spec|].
  intros [] m' (Hi' & [Hs _] & [Hlo Hd] & Hno). by split_and!.
Qed.

(** C8: [mtbdd_makenode] returns the diagram of the reduced node: the child when both children
    are equal, otherwise the one node of the table for the variable and the children.  Live
    nodes survive the collection that a full table triggers. *)
Theorem makenode_correct v low high tl th m :
  mgr_inv m -> v < 2 ^ 24 ->
  denotes (st m) (v + 1) low tl -> denotes (st m) (v + 1) high th ->
  wp (mtbdd_makenode v low high)
    (fun r m' => mgr_inv m' /\ keeps m m' /\ denotes (st m') v r (mknode v tl th)) full_only m.
Proof. apply makenode_spec. Qed.

(** [mtbdd_makenode_nogc] does the same without ever collecting: all nodes survive. *)
Theorem makenode_nogc_correct v low high tl th m :
  mgr_inv m -> v < 2 ^ 24 ->
  denotes (st m) (v + 1) low tl -> denotes (st m) (v + 1) high th ->
  wp (mtbdd_makenode_nogc v low high)
    (fun r m' => mgr_inv m' /\ extends m m' /\ denotes (st m') v r (mknode v tl th)) full_only m.
Proof. apply makenode_nogc_spec. Qed.

(** A diagram survives a collection with its function when a root reaches it. *)
Theorem gc_preserves_diagrams m d t :
  mgr_inv m -> denotes (st m) 0 d t -> live m (MTBDD_INDEX d) ->
  wp sylvan_gc
    (fun _ m' => mgr_inv m' /\ denotes (st m') 0 d t /\ live m' (MTBDD_INDEX d))
    (fun _ _ => False) m.
Proof.
  intros Hi Hd Hl. eapply wp_mono; [by apply sylvan_gc_spec|]. intros [] m' [Hi' Hk].
  split; [done|]. split; [by eapply denotes_keeps|by eapply live_keeps].
Qed.
End props.

Lemma gc_keeps_exactly_live_witness :
  exists m', sylvan_gc_go ex_m = Done tt m' /\ mgr_inv m' /\
    forall i, nt_used (nodes m') i = true <-> live ex_m i /\ nt_used (nodes ex_m) i = true.
Proof.
  destruct (wp_total _ _ _ (gc_keeps_exactly_live ex_m (proj1 ex_m_ok)))
    as ([] & m' & Hr & Hi & _ & Hu & _).
  exists m'. split; [exact Hr|]. split; [exact Hi|exact Hu].
Defined.

Lemma makenode_correct_witness :
  exists r m', mtbdd_makenode 0 ex_x ex_y ex_m = Done r m' /\
    denotes (st m') 0 r (Node 0 (var_tree 1) (var_tree 2)).
Proof.
  destruct ex_m_ok as (Hi & [Hx _] & [[Hy1 _] _] & _).
  assert (denotes (st ex_m) 1 ex_y (var_tree 2)) as Hy.
  { split; [exact Hy1|]. cbn. repeat split; (lia || discriminate). }
  pose proof (makenode_correct 0 ex_x ex_y _ _ ex_m Hi ltac:(reflexivity) Hx Hy) as Hwp.
  destruct (wp_returns _ _ _ _ Hwp) as (r & m' & Hr & _ & _ & Hd); [vm_compute; reflexivity|].
  exists r, m'. split; [exact Hr|exact Hd].
Defined.

Lemma makenode_nogc_correct_witness :
  exists r m', mtbdd_makenode_nogc 0 ex_x ex_y ex_m = Done r m' /\
    denotes (st m') 0 r (Node 0 (var_tree 1) (var_tree 2)).
Proof.
  destruct ex_m_ok as (Hi & [Hx _] & [[Hy1 _] _] & _).
  assert (denotes (st ex_m) 1 ex_y (var_tree 2)) as Hy.
  { split; [exact Hy1|]. cbn. repeat split; (lia || discriminate). }
  pose proof (makenode_nogc_correct 0 ex_x ex_y _ _ ex_m Hi ltac:(reflexivity) Hx Hy) as Hwp.
  destruct (wp_returns _ _ _ _ Hwp) as (r & m' & Hr & _ & _ & Hd); [vm_compute; reflexivity|].
  exists r, m'. split; [exact Hr|exact Hd].
Defined.

Lemma gc_preserves_diagrams_witness :
  exists m', sylvan_gc ex_m = Done tt m' /\ denotes (st m') 0 ex_z (var_tree 3).
Proof.
  destruct ex_m_ok as (Hi & _ & _ & [[Hz Hw] Hl]).
  assert (denotes (st ex_m) 0 ex_z (var_tree 3)) as Hd.
  { split; [exact Hz|]. cbn. repeat split; (lia || discriminate). }
  destruct (wp_total _ _ _ (gc_preserves_diagrams ex_m ex_z _ Hi Hd Hl))
    as ([] & m' & Hr & _ & Hd' & _).
  exists m'. split; [exact Hr|exact Hd'].
Defined.
End CoreProps.
