(* ===== verification/BddProps.v ===== *)
(** The properties of the diagram operations of sylvan_bdd.c, for every node table and
    operation cache that keep the promises of [NodeStore], with instances on the concrete
    manager of [Examples]. *)

From S2P Require Import Prelude SylvanTable SylvanCache MtbddNode BddTree OpSpecs NodeStore.
From S2P Require Import MtbddCore MtbddCoreFacts BddApply BddApplyFacts BddQuant BddQuantFacts.
From S2P Require Import AndExistsFacts Examples.

Module BddProps.
Import MtbddNode BddTree OpSpecs NodeStore MtbddCore MtbddCoreFacts BddApply BddApplyFacts
  BddQuant BddQuantFacts AndExistsFacts Examples.

(** A diagram of the tree [t], reachable from the roots. *)
Definition valid `{NodeTable T} {C} (m : mgr T C) (d : N) (t : bdd) : Prop :=
  denotes (st m) 0 d t /\ live m (MTBDD_INDEX d).

(** What an operation promises: the invariant, all that is live, and a diagram of [f]. *)
Definition computes `{NodeTableLaws T} `{OpCacheLaws C} (m : mgr T C) (f : bfun) (r : N)
    (m' : mgr T C) : Prop :=
  mgr_inv m' /\ keeps m m' /\ den (st m') r f.

Lemma ex_valid : mgr_inv ex_m /\ valid ex_m ex_x (var_tree 1) /\ valid ex_m ex_y (var_tree 2) /\
  valid ex_m ex_z (var_tree 3).
Proof.
  destruct ex_m_ok as (Hi & Hx & Hy & Hz). split; [exact Hi|].
  split; [|split]; [exact (arg_weaken _ _ _ _ Hx)|exact (arg_weaken _ _ _ _ Hy)
    |exact (arg_weaken _ _ _ _ Hz)].
Qed.

Section props.
Context {T C : Type} `{NodeTableLaws T} `{OpCacheLaws C}.
Implicit Types m : mgr T C.

(** C1: [sylvan_and] returns a diagram of the conjunction of its operands, keeps every live
    node through the garbage collections it runs into, and ends the process only when the
    table has no room left.  Recursion to the sum of the heights is enough. *)
Theorem sylvan_and_correct fuel m a b prev_level ta tb :
  mgr_inv m -> valid m a ta -> valid m b tb -> (height ta + height tb < fuel)%nat ->
  wp (sylvan_and fuel a b prev_level) (computes m (fun e => sem ta e && sem tb e)) full_only m.
Proof. apply sylvan_and_spec. Qed.

(** the variant that never collects computes the same and keeps every node. *)
Theorem sylvan_and_nogc_correct fuel m a b prev_level ta tb :
  mgr_inv m -> denotes (st m) 0 a ta -> denotes (st m) 0 b tb ->
  (height ta + height tb < fuel)%nat ->
  wp (sylvan_and_nogc fuel a b prev_level)
    (fun r m' => mgr_inv m' /\ extends m m' /\ den (st m') r (fun e => sem ta e && sem tb e))
    full_only m.
Proof. intros Hi Ha Hb. by apply sylvan_and_nogc_spec. Qed.

(** so does the variant without collection and without tasks. *)
Theorem sylvan_and_nogc_alone_correct fuel m a b prev_level ta tb :
  mgr_inv m -> denotes (st m) 0 a ta -> denotes (st m) 0 b tb ->
  (height ta + height tb < fuel)%nat ->
  wp (sylvan_and_nogc_alone fuel a b prev_level)
    (fun r m' => mgr_inv m' /\ extends m m' /\ den (st m') r (fun e => sem ta e && sem tb e))
    full_only m.
Proof. intros Hi Ha Hb. by apply sylvan_and_nogc_alone_spec. Qed.

(** the variant without tasks, which keeps its intermediate results on the reference stack,
    computes the conjunction too. *)
Theorem sylvan_and_alone_correct fuel m a b prev_level ta tb :
  mgr_inv m -> valid m a ta -> valid m b tb -> (height ta + height tb < fuel)%nat ->
  wp (sylvan_and_alone fuel a b prev_level) (computes m (fun e => sem ta e && sem tb e)) full_only m.
Proof. apply sylvan_and_alone_spec. Qed.

(** The profiling variant behaves exactly as the one it profiles, from every state and for
    every fuel: same result, same final state, same exit. *)
Theorem sylvan_and_alone_profile_same fuel a b prev_level count m :
  match sylvan_and_alone_profile fuel a b prev_level count m with
  | Done (r, _) m' => sylvan_and_alone fuel a b prev_level m = Done r m'
  | Exit x m' => sylvan_and_alone fuel a b prev_level m = Exit x m'
  | NoFuel => sylvan_and_alone fuel a b prev_level m = NoFuel
  end.
Proof.
  pose proof (profile_run fuel a b prev_level count m) as Hp.
  destruct (sylvan_and_alone fuel a b prev_level m) as [r m'|x m'|].
  - destruct Hp as [count' Hp]. by rewrite Hp.
  - by rewrite Hp.
  - by rewrite Hp.
Qed.

(** [sylvan_xor] computes the exclusive or. *)
Theorem sylvan_xor_correct fuel m a b prev_level ta tb :
  mgr_inv m -> valid m a ta -> valid m b tb -> (height ta + height tb < fuel)%nat ->
  wp (sylvan_xor fuel a b prev_level) (computes m (fun e => xorb (sem ta e) (sem tb e))) full_only m.
Proof. apply sylvan_xor_spec. Qed.

(** C28: [sylvan_ite] computes if-then-else. *)
Theorem sylvan_ite_correct fuel m a b c prev_level ta tb tc :
  mgr_inv m -> valid m a ta -> valid m b tb -> valid m c tc ->
  (height ta + height tb + height tc < fuel)%nat ->
  wp (sylvan_ite fuel a b c prev_level)
    (computes m (fun e => if sem ta e then sem tb e else sem tc e)) full_only m.
Proof. apply sylvan_ite_spec. Qed.

(** The disjunction that the header derives from the conjunction. *)
Theorem sylvan_or_correct fuel m a b ta tb :
  mgr_inv m -> valid m a ta -> valid m b tb -> (height ta + height tb < fuel)%nat ->
  wp (sylvan_or fuel a b) (computes m (fun e => sem ta e || sem tb e)) full_only m.
Proof. apply or_spec. Qed.

(** [sylvan_exists] quantifies the variables of the set existentially.  The fuel needed is
    twice the number of variable levels below a bound on the variables. *)
Theorem sylvan_exists_correct K fuel m a v prev_level ta tv g :
  mgr_inv m -> valid m a ta -> valid m v tv -> set_ok tv -> vars_lt K ta -> vars_lt K tv ->
  (2 * N.to_nat K < fuel)%nat -> quant (fun x => x ∈ set_vars tv) (sem ta) g ->
  wp (sylvan_exists fuel a v prev_level) (computes m g) full_only m.
Proof.
  intros Hi Ha Hv Hs HKa HKv Hf Hq.
  apply (sylvan_exists_spec K fuel 0 m a v prev_level ta tv g); try done. by rewrite N.sub_0_r.
Qed.

(** [sylvan_forall] quantifies universally. *)
Theorem sylvan_forall_correct K fuel m a v ta tv (g : bfun) :
  mgr_inv m -> valid m a ta -> valid m v tv -> set_ok tv -> vars_lt K ta -> vars_lt K tv ->
  (2 * N.to_nat K < fuel)%nat ->
  (forall e, g e = true <-> forall e', (forall x, x ∉ set_vars tv -> e' x = e x) -> sem ta e' = true) ->
  wp (sylvan_forall fuel a v) (computes m g) full_only m.
Proof.
  intros Hi Ha Hv Hs HKa HKv Hf Hg. unfold sylvan_forall.
  assert (quant (fun x => x ∈ set_vars tv) (sem (neg ta)) (fun e => negb (g e))) as Hq.
  { assert (above 0 (sem (neg ta))) as H0' by (apply above_wf, wf_neg, Ha).
    pose proof (quant_list (set_vars tv) _ H0') as Hq. revert Hq. apply quant_ext; [done|].
    intros e. apply eq_true_iff_eq. rewrite (quant_list (set_vars tv) _ H0' e), negb_true_iff.
    rewrite <- not_true_iff_false, (Hg e). split.
    - intros (e' & He & Hf') Hall. rewrite sem_neg, (Hall e' He) in Hf'. done.
    - intros Hn. destruct (exists_fun (set_vars tv) (sem (neg ta)) e) eqn:E.
      + by apply (quant_list (set_vars tv) _ H0' e).
      + exfalso. apply Hn. intros e' He. apply not_false_iff_true. intros Hf'.
        apply not_true_iff_false in E. apply E.
        apply (quant_list (set_vars tv) _ H0' e). exists e'. split; [done|].
        by rewrite sem_neg, Hf'. }
  wp_step. eapply wp_mono.
  - apply (sylvan_exists_spec K fuel 0 m (sylvan_not a) v 0 (neg ta) tv); try done.
    + by apply (arg_not (D := gc_discipline)).
    + by apply vars_lt_neg.
    + by rewrite N.sub_0_r.
  - intros r m' (Hi' & Hk & Hd). apply wp_ret. split; [done|]. split; [done|].
    eapply den_ext; [|by apply den_not]. intros e. cbn. apply negb_involutive.
Qed.

(** [sylvan_project] quantifies all variables but those of the set. *)
Theorem sylvan_project_correct K fuel m a v ta tv g :
  mgr_inv m -> valid m a ta -> valid m v tv -> set_ok tv -> vars_lt K ta -> vars_lt K tv ->
  (2 * N.to_nat K < fuel)%nat -> quant (fun x => x ∉ set_vars tv) (sem ta) g ->
  wp (sylvan_project fuel a v) (computes m g) full_only m.
Proof.
  intros Hi Ha Hv Hs HKa HKv Hf Hq.
  apply (sylvan_project_spec K fuel 0 m a v ta tv g); try done. by rewrite N.sub_0_r.
Qed.

(** C31: [sylvan_and_exists] is the relational product: conjunction and quantification at once. *)
Theorem sylvan_and_exists_correct K fuel m a b v prev_level ta tb tv g :
  mgr_inv m -> valid m a ta -> valid m b tb -> valid m v tv -> set_ok tv ->
  vars_lt K ta -> vars_lt K tb -> vars_lt K tv -> (2 * N.to_nat K < fuel)%nat ->
  quant (fun x => x ∈ set_vars tv) (fun e => sem ta e && sem tb e) g ->
  wp (sylvan_and_exists fuel a b v prev_level) (computes m g) full_only m.
Proof.
  intros Hi Ha Hb Hv Hs HKa HKb HKv Hf Hq.
  apply (sylvan_and_exists_spec K fuel 0 m a b v prev_level ta tb tv g); try done.
  by rewrite N.sub_0_r.
Qed.

End props.

Lemma sylvan_and_correct_witness :
  exists r m', sylvan_and 3 ex_x ex_y 0 ex_m = Done r m' /\
    den (st m') r (fun e => sem (var_tree 1) e && sem (var_tree 2) e).
Proof.
  destruct ex_valid as (Hi & Hx & Hy & _).
  destruct (wp_returns _ _ _ _
    (sylvan_and_correct 3 ex_m ex_x ex_y 0 (var_tree 1) (var_tree 2) Hi Hx Hy ltac:(cbn; lia)))
    as (r & m' & Hr & _ & _ & Hd); [by vm_compute|].
  exists r, m'. split; [exact Hr|exact Hd].
Defined.

(** The instances: each run returns. *)

Lemma sylvan_and_nogc_correct_witness :
  exists r m', sylvan_and_nogc 3 ex_x ex_y 0 ex_m = Done r m' /\ den (st m') r (fun e => sem (var_tree 1) e && sem (var_tree 2) e).
Proof.
  destruct ex_valid as (Hi & Hx & Hy & Hz).
  destruct (wp_returns _ _ _ _ (sylvan_and_nogc_correct 3 ex_m ex_x ex_y 0 (var_tree 1) (var_tree 2) Hi (proj1 Hx) (proj1 Hy) ltac:(cbn; lia)))
    as (r & m' & Hr & _ & _ & Hd); [vm_compute; reflexivity|].
  exists r, m'. split; [exact Hr|exact Hd].
Defined.

Lemma sylvan_and_nogc_alone_correct_witness :
  exists r m', sylvan_and_nogc_alone 3 ex_x ex_y 0 ex_m = Done r m' /\ den (st m') r (fun e => sem (var_tree 1) e && sem (var_tree 2) e).
Proof.
  destruct ex_valid as (Hi & Hx & Hy & Hz).
  destruct (wp_returns _ _ _ _ (sylvan_and_nogc_alone_correct 3 ex_m ex_x ex_y 0 (var_tree 1) (var_tree 2) Hi (proj1 Hx) (proj1 Hy) ltac:(cbn; lia)))
    as (r & m' & Hr & _ & _ & Hd); [vm_compute; reflexivity|].
  exists r, m'. split; [exact Hr|exact Hd].
Defined.

Lemma sylvan_and_alone_correct_witness :
  exists r m', sylvan_and_alone 3 ex_x ex_y 0 ex_m = Done r m' /\ den (st m') r (fun e => sem (var_tree 1) e && sem (var_tree 2) e).
Proof.
  destruct ex_valid as (Hi & Hx & Hy & Hz).
  destruct (wp_returns _ _ _ _ (sylvan_and_alone_correct 3 ex_m ex_x ex_y 0 (var_tree 1) (var_tree 2) Hi Hx Hy ltac:(cbn; lia)))
    as (r & m' & Hr & _ & _ & Hd); [vm_compute; reflexivity|].
  exists r, m'. split; [exact Hr|exact Hd].
Defined.

Lemma sylvan_xor_correct_witness :
  exists r m', sylvan_xor 3 ex_x ex_y 0 ex_m = Done r m' /\ den (st m') r (fun e => xorb (sem (var_tree 1) e) (sem (var_tree 2) e)).
Proof.
  destruct ex_valid as (Hi & Hx & Hy & Hz).
  destruct (wp_returns _ _ _ _ (sylvan_xor_correct 3 ex_m ex_x ex_y 0 (var_tree 1) (var_tree 2) Hi Hx Hy ltac:(cbn; lia)))
    as (r & m' & Hr & _ & _ & Hd); [vm_compute; reflexivity|].
  exists r, m'. split; [exact Hr|exact Hd].
Defined.

Lemma sylvan_ite_correct_witness :
  exists r m', sylvan_ite 4 ex_z ex_x ex_y 0 ex_m = Done r m' /\ den (st m') r (fun e => if sem (var_tree 3) e then sem (var_tree 1) e else sem (var_tree 2) e).
Proof.
  destruct ex_valid as (Hi & Hx & Hy & Hz).
  destruct (wp_returns _ _ _ _ (sylvan_ite_correct 4 ex_m ex_z ex_x ex_y 0 (var_tree 3) (var_tree 1) (var_tree 2) Hi Hz Hx Hy ltac:(cbn; lia)))
    as (r & m' & Hr & _ & _ & Hd); [vm_compute; reflexivity|].
  exists r, m'. split; [exact Hr|exact Hd].
Defined.

Lemma sylvan_or_correct_witness :
  exists r m', sylvan_or 3 ex_x ex_y ex_m = Done r m' /\ den (st m') r (fun e => sem (var_tree 1) e || sem (var_tree 2) e).
Proof.
  destruct ex_valid as (Hi & Hx & Hy & Hz).
  destruct (wp_returns _ _ _ _ (sylvan_or_correct 3 ex_m ex_x ex_y (var_tree 1) (var_tree 2) Hi Hx Hy ltac:(cbn; lia)))
    as (r & m' & Hr & _ & _ & Hd); [vm_compute; reflexivity|].
  exists r, m'. split; [exact Hr|exact Hd].
Defined.

Lemma var_tree_set v K : v < K -> set_ok (var_tree v) /\ vars_lt K (var_tree v).
Proof. done. Qed.

Lemma var_above v : v < 2 ^ 24 -> above 0 (sem (var_tree v)).
Proof.
  intros Hv. apply above_wf. split; [apply N.le_0_l|]. split; [exact Hv|]. split; [discriminate|].
  split; exact I.
Qed.

Lemma sylvan_exists_correct_witness :
  exists r m', sylvan_exists 9 ex_y ex_y 0 ex_m = Done r m' /\ den (st m') r (exists_fun [2] (sem (var_tree 2))).
Proof.
  destruct ex_valid as (Hi & Hx & Hy & Hz).
  destruct (wp_returns _ _ _ _ (sylvan_exists_correct 4 9 ex_m ex_y ex_y 0 (var_tree 2) (var_tree 2) _ Hi Hy Hy
    ltac:(split; reflexivity) ltac:(repeat split; lia) ltac:(repeat split; lia) ltac:(cbn; lia)
    (quant_list [2] _ (var_above 2 ltac:(reflexivity)))))
    as (r & m' & Hr & _ & _ & Hd); [vm_compute; reflexivity|].
  exists r, m'. split; [exact Hr|exact Hd].
Defined.

Lemma sylvan_forall_correct_witness :
  exists r m', sylvan_forall 9 ex_y ex_y ex_m = Done r m' /\ den (st m') r (fun _ => false).
Proof.
  destruct ex_valid as (Hi & _ & Hy & _).
  destruct (wp_returns _ _ _ _ (sylvan_forall_correct 4 9 ex_m ex_y ex_y (var_tree 2) (var_tree 2) (fun _ => false)
    Hi Hy Hy ltac:(split; reflexivity) ltac:(repeat split; lia) ltac:(repeat split; lia) ltac:(cbn; lia)
    ltac:(intros e; split; [discriminate|]; intros Hall;
          specialize (Hall (fun x => if x =? 2 then false else e x)); apply Hall;
          intros x Hxs; cbn in Hxs; destruct (N.eqb_spec x 2) as [->|]; [set_solver|reflexivity])))
    as (r & m' & Hr & _ & _ & Hd); [vm_compute; reflexivity|].
  exists r, m'. split; [exact Hr|exact Hd].
Defined.

Lemma sylvan_project_correct_witness :
  exists r m', sylvan_project 9 ex_x ex_y ex_m = Done r m' /\ den (st m') r (fun _ => true).
Proof.
  destruct ex_valid as (Hi & Hx & Hy & _).
  destruct (wp_returns _ _ _ _ (sylvan_project_correct 4 9 ex_m ex_x ex_y (var_tree 1) (var_tree 2) (fun _ => true)
    Hi Hx Hy ltac:(split; reflexivity) ltac:(repeat split; lia) ltac:(repeat split; lia) ltac:(cbn; lia)
    ltac:(intros e; split; [intros _|reflexivity]; exists (fun x => if x =? 1 then true else e x);
          split; [|reflexivity]; intros x Hxs; cbn in Hxs;
          destruct (N.eqb_spec x 1) as [->|]; [exfalso; apply Hxs; set_solver|reflexivity])))
    as (r & m' & Hr & _ & _ & Hd); [vm_compute; reflexivity|].
  exists r, m'. split; [exact Hr|exact Hd].
Defined.

Lemma sylvan_and_exists_correct_witness :
  exists r m', sylvan_and_exists 9 ex_x ex_y ex_y 0 ex_m = Done r m' /\ den (st m') r (exists_fun [2] (fun e => sem (var_tree 1) e && sem (var_tree 2) e)).
Proof.
  destruct ex_valid as (Hi & Hx & Hy & Hz).
  destruct (wp_returns _ _ _ _ (sylvan_and_exists_correct 4 9 ex_m ex_x ex_y ex_y 0 (var_tree 1) (var_tree 2) (var_tree 2) _ Hi Hx Hy Hy
    ltac:(split; reflexivity) ltac:(repeat split; lia) ltac:(repeat split; lia) ltac:(repeat split; lia) ltac:(cbn; lia)
    (quant_list [2] _ (above_and 0 _ _ (var_above 1 ltac:(reflexivity)) (var_above 2 ltac:(reflexivity))))))
    as (r & m' & Hr & _ & _ & Hd); [vm_compute; reflexivity|].
  exists r, m'. split; [exact Hr|exact Hd].
Defined.
End BddProps.
