(* ===== verification/TagTraits.v ===== *)
(** The interface of the taint tags, src/tag_traits.h and src/tag_trait.cpp: what the shadow
    memory and the instrumentation use of a tag type, the laws that make a tag the set of
    the input offsets it stands for, and the two tag types without a state of their own.  The
    tags that are Boolean decision diagrams are in [BddTag] and [SsaTag]. *)

From S2P Require Import Prelude.

Module TagTraits.

(** The templates of tag_traits.h for tags of type [tag], with the global state [S] their
    implementation keeps; [tag_combine] and [tag_alloc] get the thread. *)
Class TagOps (S tag : Type) := {
  cleared_val : tag;
  tag_is_empty : tag -> bool;
  tag_combine : tag -> tag -> N -> prog S tag;
  tag_alloc : N -> N -> prog S tag
}.

(** A tag stands for a set of offsets.  [tag_bound] bounds the offsets that can be told apart,
    [tag_exits] are the ways in which an operation may end the process, [tag_later] relates a
    state to those that operations lead to. *)
Class TagLaws (S tag : Type) `{TagOps S tag} := {
  tag_inv : S -> Prop;
  tag_ok : S -> tag -> Prop;
  tag_offs : S -> tag -> N -> Prop;
  tag_bound : N;
  tag_thread : N -> Prop;
  tag_exits : exit_reason -> S -> Prop;
  tag_later : S -> S -> Prop;
  tag_later_preorder :: PreOrder tag_later;
  tag_later_ok s s' t : tag_later s s' -> tag_ok s t -> tag_ok s' t;
  tag_later_offs s s' t o : tag_later s s' -> tag_ok s t -> tag_offs s' t o <-> tag_offs s t o;
  tag_cleared s : tag_inv s -> tag_ok s cleared_val /\ forall o, ~ tag_offs s cleared_val o;
  tag_empty s t : tag_inv s -> tag_ok s t ->
    tag_is_empty t = true <-> t = cleared_val;
  tag_empty_offs s t : tag_inv s -> tag_ok s t -> (forall o, ~ tag_offs s t o) -> t = cleared_val;
  tag_combine_spec s a b tid : tag_inv s -> tag_ok s a -> tag_ok s b -> tag_thread tid ->
    wp (tag_combine a b tid)
      (fun r s' => tag_inv s' /\ tag_later s s' /\ tag_ok s' r /\
         forall o, tag_offs s' r o <-> tag_offs s a o \/ tag_offs s b o) tag_exits s;
  tag_alloc_spec s offset tid : tag_inv s -> offset < tag_bound -> tag_thread tid ->
    wp (tag_alloc offset tid)
      (fun r s' => tag_inv s' /\ tag_later s s' /\ tag_ok s' r /\
         forall o, tag_offs s' r o <-> o = offset) tag_exits s
}.

(** ** One-byte tags *)

(** [uint8_t] tags; they record that there is a taint, not where it comes from. *)
Definition uint8_combine (lhs rhs : N) : N := N.lor lhs rhs.
Definition uint8_alloc (offset : N) : N := if 0 <? offset then 1 else 0.

#[export] Instance uint8_tag : TagOps unit N := {
  cleared_val := 0;
  tag_is_empty t := t =? 0;
  tag_combine a b _ := mret (uint8_combine a b);
  tag_alloc offset _ := mret (uint8_alloc offset)
}.

(** ** Set tags *)

(** [std::set<uint32_t>]. *)
Definition set_alloc (offset : N) : gset N := {[ offset ]}.
Definition set_combine (lhs rhs : gset N) : gset N := lhs ∪ rhs.

#[export] Instance set_tag : TagOps unit (gset N) := {
  cleared_val := ∅;
  tag_is_empty t := Nat.eqb (size t) 0;
  tag_combine a b _ := mret (set_combine a b);
  tag_alloc offset _ := mret (set_alloc offset)
}.

#[export] Instance set_tag_laws : TagLaws unit (gset N).
Proof.
  refine {| tag_inv _ := True; tag_ok _ _ := True; tag_offs _ t o := o ∈ t;
    tag_bound := 2 ^ 32; tag_thread _ := True; tag_exits _ _ := False; tag_later _ _ := True |}.
  - done.
  - done.
  - intros s Hs. split; [exact I|]. intros o. apply not_elem_of_empty.
  - intros s t Hs Ht. cbn. rewrite Nat.eqb_eq, size_empty_iff. apply leibniz_equiv_iff.
  - intros s t Hs Ht Ho. cbn in *. set_solver.
  - intros s a b tid Hs Ha Hb Ht. apply wp_ret. split_and!; [done..|].
    intros o. apply elem_of_union.
  - intros s offset tid Hs Ho Ht. apply wp_ret. split_and!; [done..|].
    intros o. apply elem_of_singleton.
Defined.

End TagTraits.
