(* ===== verification/Tagmap.v ===== *)
(** The shadow memory and the shadow registers of src/tagmap.cpp and src/libdft_api.h: a tag for
    every byte of the address space, kept in a two-level directory of pages that are allocated
    on first use, and for every byte of every register of every thread. *)

From S2P Require Import Prelude TagTraits.

Module Tagmap.
Import TagTraits.

(** ** The directory *)

Definition VIRT2PAGETABLE (addr : N) : N := N.shiftr addr 24.
Definition VIRT2PAGE (addr : N) : N := N.shiftr (N.land addr 0x00FFFFFF) 12.
Definition VIRT2OFFSET (addr : N) : N := N.land addr 0x00000FFF.
Definition last_address : N := 0x7fffffffffff.

(** A page is filled with [cleared_val] when it is allocated; the entries of the two upper
    levels that are not allocated are [NULL]. *)
Notation tag_page_t tag := (gmap N tag).
Notation tag_table_t tag := (gmap N (tag_page_t tag)).
Notation tag_dir_t tag := (gmap N (tag_table_t tag)).

(** A byte of the shadow state: of memory, or [RTAG[reg][off]] of a thread. *)
Inductive loc := Mem (addr : N) | Reg (tid reg off : N).

#[export] Instance loc_eq_dec : EqDecision loc.
Proof. solve_decision. Defined.

Section tagmap.
Context {B tag : Type} `{TagOps B tag}.

Definition tag_dir_setb (dir : tag_dir_t tag) (addr : N) (t : tag) : tag_dir_t tag :=
  if last_address <? addr then dir
  else
    let table := default ∅ (dir !! VIRT2PAGETABLE addr) in
    let page := default ∅ (table !! VIRT2PAGE addr) in
    <[VIRT2PAGETABLE addr := <[VIRT2PAGE addr := <[VIRT2OFFSET addr := t]> page]> table]> dir.

(** The variant in use: it allocates nothing for an empty tag. *)
Definition tag_dir_setb_save_mem (dir : tag_dir_t tag) (addr : N) (t : tag) : tag_dir_t tag :=
  if last_address <? addr then dir
  else
    match dir !! VIRT2PAGETABLE addr, tag_is_empty t with
    | None, true => dir
    | table, _ =>
        let table := default ∅ table in
        match table !! VIRT2PAGE addr, tag_is_empty t with
        | None, true => dir
        | page, _ =>
            let page := default ∅ page in
            <[VIRT2PAGETABLE addr :=
              <[VIRT2PAGE addr := <[VIRT2OFFSET addr := t]> page]> table]> dir
        end
    end.

(** The tag the returned pointer points to; [None] for [NULL]. *)
Definition tag_dir_getb_as_ptr (dir : tag_dir_t tag) (addr : N) : option tag :=
  if last_address <? addr then None
  else
    match dir !! VIRT2PAGETABLE addr with
    | None => Some cleared_val
    | Some table =>
        match table !! VIRT2PAGE addr with
        | None => Some cleared_val
        | Some page => Some (default cleared_val (page !! VIRT2OFFSET addr))
        end
    end.

(** ** The engine *)

(** The state: that of the tags, the directory, and [threads_ctx[tid].vcpu.gpr[reg][off]]. *)
Record engine := mk_engine {
  backend : B;
  tag_dir : tag_dir_t tag;
  gpr : gmap (N * N * N) tag
}.

Definition on_backend {A} (p : prog B A) : prog engine A := fun e =>
  match p (backend e) with
  | Done a s => Done a (mk_engine s (tag_dir e) (gpr e))
  | Exit r s => Exit r (mk_engine s (tag_dir e) (gpr e))
  | NoFuel => NoFuel
  end.

Definition RTAG (tid reg off : N) (e : engine) : tag :=
  default cleared_val (gpr e !! (tid, reg, off)).

Definition tagmap_setb (addr : N) (t : tag) : prog engine unit :=
  modify (fun e => mk_engine (backend e) (tag_dir_setb_save_mem (tag_dir e) addr t) (gpr e)).

Definition tagmap_setb_reg (tid reg_idx off : N) (t : tag) : prog engine unit :=
  modify (fun e => mk_engine (backend e) (tag_dir e) (<[(tid, reg_idx, off) := t]> (gpr e))).

Definition tagmap_getb (addr : N) : prog engine tag :=
  p ← gets (fun e => tag_dir_getb_as_ptr (tag_dir e) addr);
  match p with
  | None => exit NullPointer
  | Some t => mret t
  end.

Definition tagmap_getb_reg (tid reg_idx off : N) : prog engine tag :=
  gets (RTAG tid reg_idx off).

Definition tagmap_clrb (addr : N) : prog engine unit := tagmap_setb addr cleared_val.

(** [for (i = addr; i < addr + n; i++)] in 64-bit arithmetic. *)
Fixpoint clrn_loop (fuel : nat) (i stop : N) : prog engine unit :=
  match fuel with
  | O => no_fuel
  | S fuel =>
      if i <? stop then _ ← tagmap_clrb i; clrn_loop fuel (add64 i 1) stop
      else mret tt
  end.

Definition tagmap_clrn (addr n : N) : prog engine unit :=
  clrn_loop (S (N.to_nat n)) addr (add64 addr n).

(** The loops of [tagmap_getn] and [tagmap_getn_reg], for [n] more steps from [i]; they combine
    with thread 0. *)
Fixpoint getn_loop (get : N -> prog engine tag) (n : nat) (i : N) (ts : tag) :
    prog engine tag :=
  match n with
  | O => mret ts
  | S n =>
      t ← get i;
      ts ← (if tag_is_empty t then mret ts else on_backend (tag_combine ts t 0));
      getn_loop get n (i + 1) ts
  end.

Definition tagmap_getn (addr n : N) : prog engine tag :=
  getn_loop (fun i => tagmap_getb (add64 addr i)) (N.to_nat n) 0 cleared_val.

Definition tagmap_getn_reg (tid reg_idx n : N) : prog engine tag :=
  getn_loop (fun i => tagmap_getb_reg tid reg_idx i) (N.to_nat n) 0 cleared_val.

(** Reading and writing a byte: [MTAG] and [tagmap_setb], or the array [RTAG]. *)
Definition get_tag (l : loc) : prog engine tag :=
  match l with
  | Mem addr => tagmap_getb addr
  | Reg tid reg off => tagmap_getb_reg tid reg off
  end.
Definition set_tag_at (l : loc) (t : tag) : prog engine unit :=
  match l with
  | Mem addr => tagmap_setb addr t
  | Reg tid reg off => tagmap_setb_reg tid reg off t
  end.

End tagmap.
Arguments engine : clear implicits.
Arguments mk_engine {B tag}.
Arguments backend {B tag}.
Arguments tag_dir {B tag}.
Arguments gpr {B tag}.

(** The flat view of the two-level directory. *)
Definition shadow `{TagOps B tag} (dir : tag_dir_t tag) (addr : N) : tag :=
  default cleared_val
    (table ← dir !! VIRT2PAGETABLE addr; page ← table !! VIRT2PAGE addr; page !! VIRT2OFFSET addr).

Definition tag_at `{TagOps B tag} (e : engine B tag) (l : loc) : tag :=
  match l with
  | Mem addr => shadow (tag_dir e) addr
  | Reg tid reg off => RTAG tid reg off e
  end.

(** The three parts of an address determine it. *)
Lemma virt_inj a b :
  VIRT2PAGETABLE a = VIRT2PAGETABLE b -> VIRT2PAGE a = VIRT2PAGE b ->
  VIRT2OFFSET a = VIRT2OFFSET b -> a = b.
Proof.
  unfold VIRT2PAGETABLE, VIRT2PAGE, VIRT2OFFSET.
  change 0x00FFFFFF with (N.ones 24). change 0x00000FFF with (N.ones 12).
  rewrite !N.land_ones, !N.shiftr_div_pow2. intros H1 H2 H3. modlia.
Qed.

Section facts.
Context {B tag : Type} `{TagOps B tag}.
Implicit Types (dir : tag_dir_t tag) (e : engine B tag).

Lemma getb_shadow dir addr :
  addr <= last_address -> tag_dir_getb_as_ptr dir addr = Some (shadow dir addr).
Proof.
  intros Ha. unfold tag_dir_getb_as_ptr, shadow.
  rewrite (proj2 (N.ltb_ge _ _)) by done.
  destruct (dir !! VIRT2PAGETABLE addr) as [table|]; cbn; [|done].
  by destruct (table !! VIRT2PAGE addr).
Qed.

(** The flat view of the store of a tag that allocates what is missing. *)
Lemma shadow_store dir addr t a :
  shadow (<[VIRT2PAGETABLE addr :=
    <[VIRT2PAGE addr := <[VIRT2OFFSET addr := t]>
        (default ∅ (default ∅ (dir !! VIRT2PAGETABLE addr) !! VIRT2PAGE addr))]>
      (default ∅ (dir !! VIRT2PAGETABLE addr))]> dir) a =
  if decide (a = addr) then t else shadow dir a.
Proof.
  unfold shadow. destruct (decide (a = addr)) as [->|Hne].
  - rewrite lookup_insert_eq. cbn. rewrite lookup_insert_eq. cbn. by rewrite lookup_insert_eq.
  - destruct (decide (VIRT2PAGETABLE addr = VIRT2PAGETABLE a)) as [Ht|Ht];
      [|by rewrite lookup_insert_ne].
    rewrite <- Ht, lookup_insert_eq. cbn.
    destruct (decide (VIRT2PAGE addr = VIRT2PAGE a)) as [Hp|Hp].
    + rewrite <- Hp, lookup_insert_eq. cbn.
      rewrite lookup_insert_ne by (intros Ho; apply Hne; symmetry; by apply virt_inj).
      destruct (dir !! VIRT2PAGETABLE addr) as [table|]; cbn; [|done].
      by destruct (table !! VIRT2PAGE addr).
    + rewrite lookup_insert_ne by done. by destruct (dir !! VIRT2PAGETABLE addr).
Qed.

Lemma setb_shadow dir addr t a :
  addr <= last_address ->
  shadow (tag_dir_setb dir addr t) a = if decide (a = addr) then t else shadow dir a.
Proof.
  intros Ha. unfold tag_dir_setb. rewrite (proj2 (N.ltb_ge _ _)) by done. apply shadow_store.
Qed.

(** The saving variant has the same flat view: what it does not allocate reads as cleared. *)
Lemma save_mem_shadow dir addr t a :
  addr <= last_address -> (tag_is_empty t = true -> t = cleared_val) ->
  shadow (tag_dir_setb_save_mem dir addr t) a = if decide (a = addr) then t else shadow dir a.
Proof.
  intros Ha He. unfold tag_dir_setb_save_mem. rewrite (proj2 (N.ltb_ge _ _)) by done.
  pose proof (shadow_store dir addr t a) as Hs.
  assert (tag_is_empty t = true -> shadow dir addr = cleared_val ->
    shadow dir a = if decide (a = addr) then t else shadow dir a) as Hskip.
  { intros Het Hsh. rewrite (He Het). destruct (decide (a = addr)) as [->|]; done. }
  unfold shadow in Hskip at 1.
  destruct (dir !! VIRT2PAGETABLE addr) as [table|]; destruct (tag_is_empty t) eqn:Et;
    cbn in Hs, Hskip |- *; auto;
  destruct (table !! VIRT2PAGE addr) as [page|]; cbn in Hs, Hskip |- *; auto.
Qed.
End facts.
End Tagmap.
