(* ===== verification/TagmapFacts.v ===== *)
(** The shadow state as a map from bytes to sets of offsets: the operations of [Tagmap] read and
    update it byte by byte, for every tag type that keeps the laws of [TagTraits]. *)

From S2P Require Import Prelude TagTraits Tagmap.

Module TagmapFacts.
Import TagTraits Tagmap.

Section facts.
Context {B tag : Type} `{TagLaws B tag}.
Notation engine := (engine B tag).
Implicit Types (e : engine) (l : loc) (t : tag).

(** Addresses beyond the user half have no shadow. *)
Definition mapped (l : loc) : Prop :=
  match l with Mem addr => addr <= last_address | Reg _ _ _ => True end.

(** The state is consistent: so is that of the tags, and every mapped byte has a tag of it. *)
Definition engine_inv (e : engine) : Prop :=
  tag_inv (backend e) /\ forall l, mapped l -> tag_ok (backend e) (tag_at e l).

(** The offsets that a byte carries. *)
Definition offs (e : engine) (l : loc) (o : N) : Prop := tag_offs (backend e) (tag_at e l) o.

Definition later (e e' : engine) : Prop := tag_later (backend e) (backend e').

#[export] Instance later_preorder : PreOrder later.
Proof. split; [intros e; unfold later; reflexivity|]. intros a b c H1 H2. unfold later. by etrans. Qed.

(** Only one byte changes. *)
Definition upd_tag (l : loc) (t : tag) (e e' : engine) : Prop :=
  backend e' = backend e /\
  forall l', mapped l' -> tag_at e' l' = if decide (l' = l) then t else tag_at e l'.

Lemma get_spec l e (Q : tag -> engine -> Prop) E :
  mapped l -> Q (tag_at e l) e -> wp (get_tag l) Q E e.
Proof.
  intros Hm Hq. destruct l as [addr|tid reg off]; cbn.
  - unfold tagmap_getb. wp_step. wp_step. rewrite getb_shadow by done. by apply wp_ret.
  - by apply wp_gets.
Qed.

Lemma set_spec l t e (Q : unit -> engine -> Prop) E :
  mapped l -> (tag_is_empty t = true -> t = cleared_val) ->
  (forall e', upd_tag l t e e' -> Q tt e') -> wp (set_tag_at l t) Q E e.
Proof.
  intros Hm Ht Hq. destruct l as [addr|tid reg off]; cbn; apply Hq; (split; [done|]);
    intros [a|td r f] Hl; cbn.
  - rewrite save_mem_shadow by done. by repeat case_decide; simplify_eq.
  - by rewrite decide_False.
  - by rewrite decide_False.
  - unfold RTAG; cbn. case_decide as Hd.
    + simplify_eq. by rewrite lookup_insert_eq.
    + rewrite lookup_insert_ne; [done|congruence].
Qed.
Lemma upd_inv l t e e' :
  engine_inv e -> tag_ok (backend e) t -> upd_tag l t e e' -> engine_inv e'.
Proof.
  intros [Hi Ha] Ht [Hb Hu]. split; rewrite Hb; [done|]. intros l' Hl'. rewrite Hu by done.
  case_decide; auto.
Qed.

Lemma upd_offs l t e e' l' o :
  upd_tag l t e e' -> mapped l' ->
  offs e' l' o <-> (if decide (l' = l) then tag_offs (backend e) t o else offs e l' o).
Proof. intros [Hb Hu] Hl'. unfold offs. rewrite Hb, Hu by done. by case_decide. Qed.

(** What an operation of the tags does for the engine: the bytes keep their tags. *)
Definition same_tags (e e' : engine) : Prop := forall l, tag_at e' l = tag_at e l.

Definition ends (x : exit_reason) (e : engine) : Prop := tag_exits x (backend e).

Lemma same_inv e e' :
  engine_inv e -> tag_inv (backend e') -> later e e' -> same_tags e e' -> engine_inv e'.
Proof.
  intros [_ Ha] Hi Hl Hs. split; [done|]. intros l Hm. rewrite Hs.
  eapply tag_later_ok; [exact Hl|by apply Ha].
Qed.

Lemma same_offs e e' l o :
  engine_inv e -> mapped l -> later e e' -> same_tags e e' -> offs e' l o <-> offs e l o.
Proof. intros [_ Ha] Hm Hl Hs. unfold offs. rewrite Hs. apply tag_later_offs; [done|by apply Ha]. Qed.

Lemma combine_spec e a b tid :
  engine_inv e -> tag_ok (backend e) a -> tag_ok (backend e) b -> tag_thread tid ->
  wp (on_backend (tag_combine a b tid))
    (fun r e' => engine_inv e' /\ later e e' /\ same_tags e e' /\ tag_ok (backend e') r /\
       forall o, tag_offs (backend e') r o <->
         tag_offs (backend e) a o \/ tag_offs (backend e) b o) ends e.
Proof.
  intros Hi Ha Hb Ht. pose proof (tag_combine_spec _ a b tid (proj1 Hi) Ha Hb Ht) as Hc.
  unfold wp, on_backend in *. destruct (tag_combine a b tid (backend e)) as [r s|x s|]; [|done..].
  destruct Hc as (Hi' & Hl & Hok & Ho). set (e' := mk_engine s (tag_dir e) (gpr e)).
  assert (later e e') as Hl' by exact Hl. assert (same_tags e e') as Hs by (by intros [|]).
  split; [by apply (same_inv e)|done].
Qed.

(** A loop that sets the bytes [dst 0], [dst 1], ... to the offsets [G 0], [G 1], ...  Each step
    may rely on the bytes that no earlier step has set. *)
Definition moved (n : N) (dst : N -> loc) (G : N -> N -> Prop) (e e' : engine) : Prop :=
  engine_inv e' /\ later e e' /\
  (forall i o, i < n -> offs e' (dst i) o <-> G i o) /\
  (forall l o, mapped l -> (forall i, i < n -> l <> dst i) -> offs e' l o <-> offs e l o).

Lemma each_spec n dst (G : N -> N -> Prop) step E e :
  engine_inv e ->
  (forall i, i < n -> mapped (dst i)) ->
  (forall i j, i < n -> j < n -> dst i = dst j -> i = j) ->
  (forall i e0, i < n -> engine_inv e0 -> later e e0 ->
     (forall l o, mapped l -> (forall j, j < i -> l <> dst j) -> offs e0 l o <-> offs e l o) ->
     wp (step i) (fun _ e1 => moved 1 (fun _ => dst i) (fun _ => G i) e0 e1) E e0) ->
  wp (for_loop (N.to_nat n) 0 step) (fun _ e' => moved n dst G e e') E e.
Proof.
  intros Hi Hm Hinj Hstep. apply (wp_for (fun k e' => moved k dst G e e')).
  - split; [done|]. split; [reflexivity|]. split; [lia|done].
  - intros k e0 Hk (Hi0 & Hl0 & Hset & Hrest).
    eapply wp_mono; [apply Hstep; [lia|done|done|by intros l o Hlm Hno; apply Hrest]|].
    intros [] e1 (Hi1 & Hl1 & Hset1 & Hrest1). split; [done|]. split; [by etrans|]. split.
    + intros i o Hik. destruct (decide (i = k)) as [->|Hne]; [apply (Hset1 0); lia|].
      rewrite Hrest1; [apply Hset; lia|apply Hm; lia|].
      intros _ _ Heq. apply Hinj in Heq; lia.
    + intros l o Hlm Hno. rewrite Hrest1; [apply Hrest; [done|intros j Hj; apply Hno; lia]|done|].
      intros _ _. apply Hno. lia.
  - intros e0. by rewrite N2Nat.id.
Qed.

(** The last part of a step: the byte is set to a tag with the offsets wanted. *)
Lemma set_moved l t (G : N -> Prop) E e :
  engine_inv e -> mapped l -> tag_ok (backend e) t ->
  (forall o, tag_offs (backend e) t o <-> G o) ->
  wp (set_tag_at l t) (fun _ e' => moved 1 (fun _ => l) (fun _ => G) e e') E e.
Proof.
  intros Hi Hm Ht HG. apply set_spec; [done|by apply (tag_empty _ _ (proj1 Hi))|].
  intros e' Hu. split; [by eapply upd_inv|]. split; [by destruct Hu as [Hb _]; unfold later; rewrite Hb|].
  split.
  - intros _ o _. rewrite (upd_offs _ _ _ _ _ _ Hu Hm), decide_True by done. apply HG.
  - intros l' o Hl' Hno. rewrite (upd_offs _ _ _ _ _ _ Hu Hl'), decide_False; [done|].
    apply (Hno 0). lia.
Qed.

(** A step that combines two tags of the state and sets a byte to the result. *)
Lemma combine_moved l a b tid e (G : N -> Prop) :
  engine_inv e -> mapped l -> tag_ok (backend e) a -> tag_ok (backend e) b -> tag_thread tid ->
  (forall o, tag_offs (backend e) a o \/ tag_offs (backend e) b o <-> G o) ->
  wp (r ← on_backend (tag_combine a b tid); set_tag_at l r)
    (fun _ e' => moved 1 (fun _ => l) (fun _ => G) e e') ends e.
Proof.
  intros Hi Hm Ha Hb Ht HG. wp_step. eapply wp_mono; [by apply combine_spec|].
  intros r e1 (Hi1 & Hl1 & Hs1 & Hok & Ho).
  eapply wp_mono; [apply (set_moved l r G); [done..|]|].
  - intros o. by rewrite Ho.
  - intros [] e2 (Hi2 & Hl2 & Hset & Hrest). split; [done|]. split; [by etrans|]. split; [done|].
    intros l' o Hl' Hno. rewrite Hrest by done. by apply same_offs.
Qed.

Lemma tag_at_ok e l : engine_inv e -> mapped l -> tag_ok (backend e) (tag_at e l).
Proof. intros [_ Ha]. apply Ha. Qed.
(** ** Clearing a range *)

Lemma clrn_loop_for fuel i stop (e : engine) :
  stop < 2 ^ 64 -> (N.to_nat (stop - i) < fuel)%nat ->
  clrn_loop fuel i stop e = for_loop (N.to_nat (stop - i)) i tagmap_clrb e.
Proof.
  intros Hs. revert i e. induction fuel as [|fuel IH]; intros i e Hf; [lia|]. cbn [clrn_loop].
  destruct (N.ltb_spec i stop) as [Hlt|Hge].
  - replace (N.to_nat (stop - i)) with (S (N.to_nat (stop - (i + 1)))) by lia. cbn [for_loop].
    unfold mbind, prog_bind. destruct (tagmap_clrb i e) as [[] e1|x e1|]; [|done..].
    assert (add64 i 1 = i + 1) as -> by (apply w64_small; lia). apply IH. lia.
  - by replace (stop - i) with 0 by lia.
Qed.

Lemma for_shift n a b (body : N -> prog engine unit) (e : engine) :
  for_loop n (a + b) body e = for_loop n b (fun i => body (a + i)) e.
Proof.
  revert b e. induction n as [|n IH]; intros b e; [done|]. cbn [for_loop].
  unfold mbind, prog_bind. destruct (body (a + b) e) as [[] e1|x e1|]; [|done..].
  rewrite <- N.add_assoc. apply IH.
Qed.

Lemma clrn_spec addr n E e :
  engine_inv e -> addr + n <= last_address + 1 -> n < 2 ^ 32 ->
  wp (tagmap_clrn addr n)
    (fun _ e' => moved n (fun i => Mem (addr + i)) (fun _ _ => False) e e') E e.
Proof.
  intros Hi Ha Hn. unfold last_address in Ha.
  assert (add64 addr n = addr + n) as Hw by (apply w64_small; lia).
  assert (tagmap_clrn addr n e =
    for_loop (N.to_nat n) 0 (fun i => tagmap_clrb (addr + i)) e) as Heq.
  { unfold tagmap_clrn. rewrite Hw, clrn_loop_for by lia.
    replace (addr + n - addr) with n by lia. rewrite <- (N.add_0_r addr) at 1. apply for_shift. }
  unfold wp at 1. rewrite Heq.
  apply (each_spec n _ _ (fun i => tagmap_clrb (addr + i))); [done| | |].
  - intros i Hin. cbn. unfold last_address. lia.
  - intros i j _ _ [= Hij]. lia.
  - intros i e0 Hin Hi0 _ _. destruct (tag_cleared _ (proj1 Hi0)) as [Hok Hno].
    apply (set_moved (Mem (addr + i)) cleared_val); [done| |done|].
    + cbn. unfold last_address. lia.
    + intros o. by split; [intros Ho; destruct (Hno o)|].
Qed.

(** A range that wraps around the end of the address space is left as it is. *)
Lemma clrn_wraps addr n e :
  addr < 2 ^ 64 -> n < 2 ^ 32 -> 2 ^ 64 <= addr + n -> tagmap_clrn addr n e = Done tt e.
Proof.
  intros Ha Hn Hw. unfold tagmap_clrn. cbn [clrn_loop].
  rewrite (proj2 (N.ltb_ge _ _)); [done|]. unfold add64. rewrite w64_mod.
  assert ((addr + n) mod 2 ^ 64 = addr + n - 2 ^ 64) as ->; [|lia].
  symmetry. apply (N.mod_unique _ _ 1); lia.
Qed.

(** ** The union of a range *)

Lemma getn_spec (get : N -> prog engine tag) (src : N -> loc) n i ts e (acc : N -> Prop) :
  engine_inv e -> tag_thread 0 ->
  (forall j, i <= j < i + N.of_nat n -> mapped (src j)) ->
  (forall j e0, i <= j < i + N.of_nat n -> get j e0 = get_tag (src j) e0) ->
  tag_ok (backend e) ts -> (forall o, tag_offs (backend e) ts o <-> acc o) ->
  wp (getn_loop get n i ts)
    (fun t e' => engine_inv e' /\ later e e' /\ same_tags e e' /\ tag_ok (backend e') t /\
       forall o, tag_offs (backend e') t o <->
         acc o \/ exists j, i <= j < i + N.of_nat n /\ offs e (src j) o) ends e.
Proof.
  revert i ts e acc. induction n as [|n IH]; intros i ts e acc Hi H0t Hm Hg Ht Hacc; cbn [getn_loop].
  - apply wp_ret. split; [done|]. split; [reflexivity|]. do 2 (split; [done|]).
    intros o. rewrite Hacc. split; [by left|]. intros [?|(j & ? & _)]; [done|lia].
  - wp_step. unfold wp at 1. rewrite Hg by lia. apply get_spec; [apply Hm; lia|].
    wp_step. pose proof (tag_at_ok e (src i) Hi (Hm i ltac:(lia))) as Hok.
    assert (wp (if tag_is_empty (tag_at e (src i)) then mret ts
                else on_backend (tag_combine ts (tag_at e (src i)) 0))
      (fun r e' => engine_inv e' /\ later e e' /\ same_tags e e' /\ tag_ok (backend e') r /\
         forall o, tag_offs (backend e') r o <-> acc o \/ offs e (src i) o) ends e) as Hw.
    { destruct (tag_is_empty _) eqn:Ee.
      - apply wp_ret. split; [done|]. split; [reflexivity|]. do 2 (split; [done|]). intros o.
        rewrite Hacc. split; [by left|]. intros [?|Ho]; [done|]. unfold offs in Ho.
        apply (tag_empty _ _ (proj1 Hi)) in Ee; [|done]. rewrite Ee in Ho.
        by destruct (proj2 (tag_cleared _ (proj1 Hi)) o).
      - eapply wp_mono; [by apply combine_spec|]. intros r e' (? & ? & ? & ? & Ho).
        do 4 (split; [done|]). intros o. by rewrite Ho, Hacc. }
    eapply wp_mono; [exact Hw|]. intros r e1 (Hi1 & Hl1 & Hs1 & Hok1 & Ho1).
    eapply wp_mono; [apply (IH (i + 1) r e1 (fun o => acc o \/ offs e (src i) o) Hi1 H0t)|].
    + intros j Hj. apply Hm. lia.
    + intros j e0 Hj. apply Hg. lia.
    + done.
    + exact Ho1.
    + intros t e2 (Hi2 & Hl2 & Hs2 & Hok2 & Ho2). split; [done|]. split; [by etrans|].
      split; [intros l; by rewrite Hs2, Hs1|]. split; [done|]. intros o. rewrite Ho2. split.
      * intros [[?|?]|(j & Hj & Ho)]; [by left|right; exists i; split; [lia|done]|].
        right. exists j. split; [lia|]. apply (same_offs e e1); [done|apply Hm; lia|done..].
      * intros [?|(j & Hj & Ho)]; [by left; left|].
        destruct (decide (j = i)) as [->|Hne]; [by left; right|]. right. exists j. split; [lia|].
        apply (same_offs e e1); [done|apply Hm; lia|done..].
Qed.
End facts.
End TagmapFacts.
