(* ===== verification/BddTag.v ===== *)
(** The tags of src/bdd_tag.h and src/bdd_tag.cpp: sets of offsets as labels of the nodes of a
    shared binary trie over the offsets.  A right edge spans offsets in the set, a left edge
    offsets outside it; [parent] is the previous label with its last offset in the set. *)

From S2P Require Import Prelude TagTraits.

Module BddTag.
Import TagTraits.

Record tag_seg := mk_seg { sign : bool; seg_begin : N; seg_end : N }.

Record TagNode := mk_node { left : N; right : N; parent : N; seg : tag_seg }.

Definition TagNode_new (p begin_ end_ : N) : TagNode := mk_node 0 0 p (mk_seg false begin_ end_).
Definition get_seg_size (n : TagNode) : N := sub32 (seg_end (seg n)) (seg_begin (seg n)).

Definition MAX_LB : N := N.shiftl 1 24 - 1.
Definition LB_MASK : N := MAX_LB.
Definition BDD_LEN_LB : N := 0xF0000000.
Definition BDD_HAS_LEN_LB (lb : N) : bool := BDD_LEN_LB <=? lb.
Definition ROOT : N := 0.

(** The vector [nodes]. *)
Notation bdd_nodes := (list TagNode).

Definition node_at (lb : N) : prog bdd_nodes TagNode :=
  n ← gets (fun ns : bdd_nodes => ns !! N.to_nat lb);
  match n with
  | None => exit OutOfBounds
  | Some n => mret n
  end.
Definition update_node (lb : N) (f : TagNode -> TagNode) : prog bdd_nodes unit :=
  _ ← node_at lb;
  modify (alter f (N.to_nat lb)).

Definition set_left (lb : N) (n : TagNode) : TagNode := mk_node lb (right n) (parent n) (seg n).
Definition set_right (lb : N) (n : TagNode) : TagNode := mk_node (left n) lb (parent n) (seg n).
Definition set_parent (lb : N) (n : TagNode) : TagNode := mk_node (left n) (right n) lb (seg n).
Definition set_seg (f : tag_seg -> tag_seg) (n : TagNode) : TagNode :=
  mk_node (left n) (right n) (parent n) (f (seg n)).
Definition set_begin (b : N) (n : TagNode) : TagNode :=
  set_seg (fun s => mk_seg (sign s) b (seg_end s)) n.

Definition BDDTag_new : bdd_nodes := [TagNode_new ROOT 0 0].

(** The vector is full when the label does not fit; then the code divides by zero. *)
Definition alloc_node (parent begin_ end_ : N) : prog bdd_nodes N :=
  lb ← gets (fun ns : bdd_nodes => w32 (N.of_nat (length ns)));
  if lb <? MAX_LB then
    _ ← modify (fun ns : bdd_nodes => ns ++ [TagNode_new parent begin_ end_]);
    mret lb
  else exit DivideByZero.

Fixpoint insert_zeros_loop (fuel : nat) (cur_lb num last_one_lb : N) : prog bdd_nodes N :=
  match fuel with
  | O => no_fuel
  | S fuel =>
      if num =? 0 then mret cur_lb
      else
        cur ← node_at cur_lb;
        let next := left cur in
        next_node ← node_at next;
        let next_size := get_seg_size next_node in
        if next =? 0 then
          let off := seg_end (seg cur) in
          new_lb ← alloc_node last_one_lb off (w32 (off + num));
          _ ← update_node cur_lb (set_left new_lb);
          mret new_lb
        else if num <? next_size then
          let off := seg_end (seg cur) in
          new_lb ← alloc_node last_one_lb off (w32 (off + num));
          _ ← update_node cur_lb (set_left new_lb);
          _ ← update_node next (set_begin (w32 (off + num)));
          mret new_lb
        else insert_zeros_loop fuel next (sub64 num next_size) last_one_lb
  end.

Fixpoint insert_ones_loop (fuel : nat) (cur_lb num last_one_lb : N) : prog bdd_nodes N :=
  match fuel with
  | O => no_fuel
  | S fuel =>
      if num =? 0 then mret cur_lb
      else
        cur ← node_at cur_lb;
        let next := right cur in
        let last_end := seg_end (seg cur) in
        if next =? 0 then
          let off := last_end in
          new_lb ← alloc_node last_one_lb off (w32 (off + num));
          _ ← update_node cur_lb (set_right new_lb);
          mret new_lb
        else
          next_node ← node_at next;
          let next_end := seg_end (seg next_node) in
          let next_size := sub32 next_end last_end in
          if num <? next_size then
            let off := last_end in
            new_lb ← alloc_node last_one_lb off (w32 (off + num));
            _ ← update_node cur_lb (set_right new_lb);
            _ ← update_node new_lb (set_right next);
            _ ← update_node next (set_parent new_lb);
            _ ← update_node next (set_begin (w32 (off + num)));
            mret new_lb
          else insert_ones_loop fuel next (sub64 num next_size) last_one_lb
  end.

(** Each step of the loops takes at least one off [num]. *)
Definition insert_n_zeros (cur_lb num last_one_lb : N) : prog bdd_nodes N :=
  insert_zeros_loop (S (N.to_nat num)) cur_lb num last_one_lb.
Definition insert_n_ones (cur_lb num last_one_lb : N) : prog bdd_nodes N :=
  insert_ones_loop (S (N.to_nat num)) cur_lb num last_one_lb.

Definition insert_offset (pos : N) : prog bdd_nodes N :=
  cur_lb ← insert_n_zeros ROOT pos ROOT;
  insert_n_ones cur_lb 1 ROOT.

Definition set_sign_at (lb : N) : prog bdd_nodes unit :=
  update_node lb (set_seg (fun s => mk_seg true (seg_begin s) (seg_end s))).
Definition get_sign (lb : N) : prog bdd_nodes bool :=
  n ← node_at lb; mret (sign (seg n)).
Definition set_size_at (lb size : N) : prog bdd_nodes unit :=
  update_node lb
    (set_seg (fun s => mk_seg (sign s) (seg_begin s) (w32 (seg_end s + sub64 size 1)))).

(** The loop that collects the segments of both labels, the last one on top; it returns the
    stack and the label where the two lists of segments meet. *)
Fixpoint collect_loop (fuel : nat) (l1 l2 last_begin : N) (lb_st : list N) :
    prog bdd_nodes (list N * N) :=
  match fuel with
  | O => no_fuel
  | S fuel =>
      if (0 <? l1) && negb (l1 =? l2) then
        n1 ← node_at l1;
        n2 ← node_at l2;
        let b1 := seg_begin (seg n1) in
        let b2 := seg_begin (seg n2) in
        if b1 <? b2 then
          let '(lb_st, last_begin) :=
            if b2 <? last_begin then (l2 :: lb_st, b2) else (lb_st, last_begin) in
          collect_loop fuel l1 (parent n2) last_begin lb_st
        else
          let '(lb_st, last_begin) :=
            if b1 <? last_begin then (l1 :: lb_st, b1) else (lb_st, last_begin) in
          collect_loop fuel (parent n1) l2 last_begin lb_st
      else mret (lb_st, if 0 <? l1 then l1 else l2)
  end.

(** The loop that inserts the segments of the stack after [cur_lb]. *)
Fixpoint build_loop (lb_st : list N) (cur_lb : N) : prog bdd_nodes N :=
  match lb_st with
  | [] => mret cur_lb
  | next :: lb_st =>
      cur ← node_at cur_lb;
      let cur_seg := seg cur in
      next_node ← node_at next;
      let next_seg := seg next_node in
      cur_lb ← (if seg_begin next_seg <=? seg_end cur_seg then
          if seg_end cur_seg <? seg_end next_seg then
            insert_n_ones cur_lb (sub32 (seg_end next_seg) (seg_end cur_seg)) cur_lb
          else mret cur_lb
        else
          let last_lb := cur_lb in
          cur_lb ← insert_n_zeros cur_lb (sub32 (seg_begin next_seg) (seg_end cur_seg)) last_lb;
          insert_n_ones cur_lb (sub32 (seg_end next_seg) (seg_begin next_seg)) last_lb);
      _ ← (if sign next_seg then set_sign_at cur_lb else mret tt);
      build_loop lb_st cur_lb
  end.

Definition combine (l1 l2 : N) : prog bdd_nodes N :=
  if l1 =? 0 then mret l2
  else if (l2 =? 0) || (l1 =? l2) then mret l1
  else
    let has_len_lb := BDD_HAS_LEN_LB l1 || BDD_HAS_LEN_LB l2 in
    let l1 := N.land l1 LB_MASK in
    let l2 := N.land l2 LB_MASK in
    let '(l1, l2) := if l2 <? l1 then (l2, l1) else (l1, l2) in
    ns ← gets id;
    '(lb_st, cur_lb) ← collect_loop (S (length ns + length ns)) l1 l2 MAX_LB [];
    cur_lb ← build_loop lb_st cur_lb;
    mret (if has_len_lb then N.lor cur_lb BDD_LEN_LB else cur_lb).

(** The segments of a label, the last one first. *)
Fixpoint find_loop (fuel : nat) (lb last_begin : N) : prog bdd_nodes (list tag_seg) :=
  match fuel with
  | O => no_fuel
  | S fuel =>
      if 0 <? lb then
        n ← node_at lb;
        if seg_begin (seg n) <? last_begin then
          rest ← find_loop fuel (parent n) (seg_begin (seg n));
          mret (seg n :: rest)
        else find_loop fuel (parent n) last_begin
      else mret []
  end.

Definition find (lb : N) : prog bdd_nodes (list tag_seg) :=
  ns ← gets id;
  tag_list ← find_loop (S (length (ns : bdd_nodes))) (N.land lb LB_MASK) MAX_LB;
  mret (rev tag_list).

#[export] Instance bdd_tag : TagOps bdd_nodes N := {
  cleared_val := 0;
  tag_is_empty t := t =? 0;
  tag_combine a b _ := combine a b;
  tag_alloc offset _ := insert_offset offset
}.

End BddTag.
