(* ===== verification/BddTagFacts.v ===== *)
(** The labels of [BddTag] are sets of offsets: the shape of the trie as an invariant, what the
    insertion loops, [combine] and [find] do to it, and the laws of [TagTraits] for the tags
    that [insert] and [combine] make.  All their segments in the set are one offset long. *)

From Stdlib Require Import Sorted.
From S2P Require Import Prelude TagTraits BddTag.

Module BddTagFacts.
Import TagTraits BddTag.

(** ** The invariant *)

(** What a node stands for: [One] is a label, the last edge of its path is a right edge. *)
Inductive kind := Root | One | Zero.

(** The kind of every node and the offsets of the set on its path, the last one first. *)
Notation ghost := (list (kind * list N)).

Implicit Types (ns : bdd_nodes) (g : ghost) (l : list N).

Definition nd ns (i : N) : option TagNode := ns !! N.to_nat i.
Definition gh g (i : N) : option (kind * list N) := g !! N.to_nat i.

Definition nbegin (n : TagNode) : N := seg_begin (seg n).
Definition nend (n : TagNode) : N := seg_end (seg n).

Definition descending l : Prop := StronglySorted (fun x y => y < x) l.

Definition kind_ok g (i : N) (n : TagNode) (k : kind) l : Prop :=
  match k with
  | Root => i = 0 /\ l = [] /\ nbegin n = 0 /\ nend n = 0
  | One => i <> 0 /\ exists b l' k', l = b :: l' /\ nbegin n = b /\ nend n = b + 1 /\
      parent n < i /\ gh g (parent n) = Some (k', l') /\ k' <> Zero
  | Zero => i <> 0
  end.

Record node_ok ns g (i : N) (n : TagNode) (k : kind) l : Prop := mk_node_ok {
  no_kind : kind_ok g i n k l;
  no_end : nend n <= MAX_LB;
  no_lt : forall b, b ∈ l -> b < nend n;
  no_desc : descending l;
  no_right : right n = 0 \/ gh g (right n) = Some (One, nend n :: l);
  no_left : left n = 0 \/ (gh g (left n) = Some (Zero, l) /\
    exists z, nd ns (left n) = Some z /\ nbegin z = nend n /\ nend n < nend z)
}.

Record trie_ok ns g : Prop := mk_trie_ok {
  tr_length : length g = length ns;
  tr_pos : (0 < length ns)%nat;
  tr_max : N.of_nat (length ns) <= MAX_LB;
  tr_node i n : nd ns i = Some n -> exists k l, gh g i = Some (k, l) /\ node_ok ns g i n k l;
  tr_left i j n m : nd ns i = Some n -> nd ns j = Some m -> left n = left m -> left n <> 0 -> i = j;
  tr_label i l : gh g i = Some (One, l) -> exists j m, nd ns j = Some m /\ right m = i
}.

(** A label or the empty set. *)
Definition label g (i : N) l : Prop := exists k, gh g i = Some (k, l) /\ k <> Zero.

Lemma gh_nd ns g i k l :
  trie_ok ns g -> gh g i = Some (k, l) -> exists n, nd ns i = Some n /\ node_ok ns g i n k l.
Proof.
  intros Ht Hg. assert (is_Some (nd ns i)) as [n Hn].
  { apply lookup_lt_is_Some. rewrite <- (tr_length ns g Ht). by eapply lookup_lt_Some. }
  destruct (tr_node ns g Ht i n Hn) as (k' & l' & Hg' & Hok).
  assert ((k', l') = (k, l)) as [= -> ->] by congruence. by exists n.
Qed.

Lemma root_ok ns g : trie_ok ns g -> gh g 0 = Some (Root, []).
Proof.
  intros Ht. assert (is_Some (nd ns 0)) as [n Hn].
  { apply lookup_lt_is_Some. apply (tr_pos ns g Ht). }
  destruct (tr_node ns g Ht 0 n Hn) as (k & l & Hg & Hok).
  pose proof (no_kind _ _ _ _ _ _ Hok) as Hk. destruct k; cbn in Hk.
  - destruct Hk as (_ & -> & _). done.
  - by destruct Hk.
  - done.
Qed.

Lemma gh_app g g' i x : gh g i = Some x -> gh (g ++ g') i = Some x.
Proof. apply lookup_app_l_Some. Qed.

Lemma gh_prefix g g' i x : g `prefix_of` g' -> gh g i = Some x -> gh g' i = Some x.
Proof. intros [k ->]. apply gh_app. Qed.

Lemma label_prefix g g' i l : g `prefix_of` g' -> label g i l -> label g' i l.
Proof. intros Hp (k & Hg & Hk). exists k. split; [by eapply gh_prefix|done]. Qed.

Lemma gh_new g x : gh (g ++ [x]) (N.of_nat (length g)) = Some x.
Proof. unfold gh. rewrite Nat2N.id, lookup_app_r, Nat.sub_diag; done. Qed.

(** A label is a number below the size of the trie; its list ends before its segment does. *)
Lemma label_cases ns g i l :
  trie_ok ns g -> label g i l ->
  exists n, nd ns i = Some n /\ ((i = 0 /\ l = [] /\ nbegin n = 0 /\ nend n = 0) \/
    (i <> 0 /\ exists l', l = nbegin n :: l' /\ nend n = nbegin n + 1 /\ parent n < i /\
       nbegin n < MAX_LB /\ descending l /\ label g (parent n) l')).
Proof.
  intros Ht (k & Hg & Hk). destruct (gh_nd ns g i k l Ht Hg) as (n & Hn & Hok). exists n.
  split; [done|]. pose proof (no_kind _ _ _ _ _ _ Hok) as Hkd. destruct k; cbn in Hkd; [by left| |done].
  right. destruct Hkd as (H0 & b & l' & k' & -> & Hb & He & Hp & Hg' & Hk').
  split; [done|]. exists l'. rewrite Hb. split; [done|]. split; [done|]. split; [done|].
  pose proof (no_end _ _ _ _ _ _ Hok). split; [lia|]. split; [apply (no_desc _ _ _ _ _ _ Hok)|].
  by exists k'.
Qed.
(** ** Growing the trie *)

Lemma nd_alter f c ns i :
  nd (alter f (N.to_nat c) ns) i = if decide (i = c) then f <$> nd ns i else nd ns i.
Proof.
  unfold nd. case_decide as Hd.
  - subst. apply list_lookup_alter_eq.
  - apply list_lookup_alter_ne. lia.
Qed.

Lemma nd_snoc ns x i :
  nd (ns ++ [x]) i = if decide (i = N.of_nat (length ns)) then Some x else nd ns i.
Proof.
  unfold nd. case_decide as Hd.
  - subst. rewrite Nat2N.id, lookup_app_r, Nat.sub_diag; done.
  - destruct (decide (N.to_nat i < length ns)%nat).
    + by apply lookup_app_l.
    + rewrite lookup_app_r by lia. rewrite !lookup_ge_None_2; [done|lia|cbn; lia].
Qed.

Lemma nd_lt ns i n : nd ns i = Some n -> i < N.of_nat (length ns).
Proof. intros Hn. apply lookup_lt_Some in Hn. lia. Qed.

Lemma gh_lt ns g i x : trie_ok ns g -> gh g i = Some x -> i < N.of_nat (length ns).
Proof. intros Ht Hn. apply lookup_lt_Some in Hn. rewrite (tr_length ns g Ht) in Hn. lia. Qed.

Definition same_span (z z' : TagNode) : Prop := nbegin z' = nbegin z /\ nend z' = nend z.

(** A node stays as it should be while the trie grows, when its left child keeps its span. *)
Lemma node_ok_mono ns g ns' g' i n k l :
  node_ok ns g i n k l -> g `prefix_of` g' ->
  (forall z, left n <> 0 -> nd ns (left n) = Some z ->
     exists z', nd ns' (left n) = Some z' /\ same_span z z') ->
  node_ok ns' g' i n k l.
Proof.
  intros [Hk He Hlt Hd Hr Hl] Hp Hz. split; try done.
  - destruct k; cbn in *; [done| |done]. destruct Hk as (H0 & b & l' & k' & H1 & H2 & H3 & H4 & H5 & H6).
    split; [done|]. exists b, l', k'. do 4 (split; [done|]). split; [by eapply gh_prefix|done].
  - destruct Hr as [?|Hr]; [by left|right; by eapply gh_prefix].
  - destruct (decide (left n = 0)) as [?|Hne]; [by left|right].
    destruct Hl as [?|(Hg & z & Hnz & Hb & Hlt')]; [done|]. split; [by eapply gh_prefix|].
    destruct (Hz z Hne Hnz) as (z' & Hn' & Hb' & He'). exists z'. by rewrite Hb', He'.
Qed.

(** A node whose right or left edge is set. *)
Lemma node_ok_right ns g i n k l r :
  node_ok ns g i n k l -> gh g r = Some (One, nend n :: l) ->
  node_ok ns g i (set_right r n) k l.
Proof. intros [Hk He Hlt Hd Hr Hl] Hg. split; try done. by right. Qed.

Lemma node_ok_left ns g i n k l c z :
  node_ok ns g i n k l -> gh g c = Some (Zero, l) -> nd ns c = Some z ->
  nbegin z = nend n -> nend n < nend z -> node_ok ns g i (set_left c n) k l.
Proof.
  intros [Hk He Hlt Hd Hr Hl] Hg Hz Hb Hlt'. split; try done. right. split; [done|].
  by exists z.
Qed.

(** Labels are right children still when right edges are kept. *)
Lemma label_child ns g ns' g' :
  trie_ok ns g ->
  (forall j m, nd ns j = Some m -> right m <> 0 -> exists m', nd ns' j = Some m' /\ right m' = right m) ->
  (forall i l, gh g' i = Some (One, l) -> gh g i = Some (One, l) \/
     exists j m, nd ns' j = Some m /\ right m = i) ->
  forall i l, gh g' i = Some (One, l) -> exists j m, nd ns' j = Some m /\ right m = i.
Proof.
  intros Ht Hr Hg i l Hi. destruct (Hg i l Hi) as [Hi'|?]; [|done].
  destruct (tr_label ns g Ht i l Hi') as (j & m & Hj & Hm).
  destruct (gh_nd ns g i One l Ht Hi') as (n & _ & Hok).
  destruct (no_kind _ _ _ _ _ _ Hok) as [H0 _].
  destruct (Hr j m Hj) as (m' & Hj' & Hm'); [congruence|]. exists j, m'. split; [done|congruence].
Qed.

Lemma gh_snoc g x i y : gh (g ++ [x]) i = Some y -> gh g i = Some y \/ i = N.of_nat (length g) /\ y = x.
Proof.
  unfold gh. intros Hi. destruct (decide (N.to_nat i < length g)%nat) as [Hlt|Hge].
  - left. by rewrite lookup_app_l in Hi.
  - right. pose proof Hi as Hl%lookup_lt_Some. rewrite length_app in Hl. cbn in Hl.
    rewrite lookup_app_r in Hi by lia.
    replace (N.to_nat i - length g)%nat with 0%nat in Hi by lia. cbn in Hi. split; [lia|congruence].
Qed.

Section grow.
Context (ns : bdd_nodes) (g : ghost) (cur : N) (n : TagNode) (k : kind) (l : list N).
Context (Ht : trie_ok ns g) (Hn : nd ns cur = Some n) (Hg : gh g cur = Some (k, l)).
Context (Hmax : N.of_nat (length ns) < MAX_LB).
Notation new := (N.of_nat (length ns)).

Lemma cur_ok : node_ok ns g cur n k l.
Proof.
  destruct (gh_nd ns g cur k l Ht Hg) as (n' & Hn' & Hok). by assert (n' = n) as <- by congruence.
Qed.

Lemma new_pos : new <> 0.
Proof. pose proof (tr_pos ns g Ht). lia. Qed.

Lemma cur_old : cur <> new.
Proof. pose proof (nd_lt _ _ _ Hn). lia. Qed.

Lemma left_old i m : nd ns i = Some m -> left m <> 0 -> left m <> new.
Proof.
  intros Hm H0. destruct (tr_node ns g Ht i m Hm) as (km & lm & _ & Hok).
  destruct (no_left _ _ _ _ _ _ Hok) as [?|(Hg' & _)]; [done|].
  pose proof (gh_lt _ _ _ _ Ht Hg'). lia.
Qed.

(** A new label after [cur]. *)
Lemma grow_one last :
  label g last l -> nend n < MAX_LB -> right n = 0 ->
  trie_ok (alter (set_right new) (N.to_nat cur) (ns ++ [TagNode_new last (nend n) (nend n + 1)]))
    (g ++ [(One, nend n :: l)]).
Proof.
  intros (kl & Hgl & Hkl) He Hr0. pose proof new_pos as Hnp. pose proof cur_old as Hco.
  pose proof (tr_length ns g Ht) as Hlen.
  assert (gh (g ++ [(One, nend n :: l)]) new = Some (One, nend n :: l)) as Hgn
    by (rewrite <- Hlen; apply gh_new).
  assert (g `prefix_of` g ++ [(One, nend n :: l)]) as Hp by (by exists [(One, nend n :: l)]).
  assert (forall ns', (forall i z, nd ns i = Some z -> exists z', nd ns' i = Some z' /\ same_span z z') ->
    forall i m km lm, node_ok ns g i m km lm -> node_ok ns' (g ++ [(One, nend n :: l)]) i m km lm)
    as Hmono.
  { intros ns' Hns i m km lm Hok. eapply node_ok_mono; [exact Hok|exact Hp|]. intros z _. apply Hns. }
  split.
  - rewrite length_alter, !length_app. cbn. lia.
  - rewrite length_alter, length_app. cbn. lia.
  - rewrite length_alter, length_app. cbn. lia.
  - assert (forall i z, nd ns i = Some z -> exists z',
      nd (alter (set_right new) (N.to_nat cur) (ns ++ [TagNode_new last (nend n) (nend n + 1)])) i =
        Some z' /\ same_span z z') as Hns.
    { intros i z Hz. pose proof (nd_lt _ _ _ Hz). rewrite nd_alter, nd_snoc.
      rewrite (decide_False (P := i = new)) by lia. rewrite Hz. by case_decide; eexists. }
    specialize (Hmono _ Hns). intros i m. rewrite nd_alter, nd_snoc.
    destruct (decide (i = cur)) as [->|Hic].
    + rewrite decide_False by done. rewrite Hn. intros [= <-].
      exists k, l. split; [by apply gh_app|]. apply node_ok_right; [apply Hmono, cur_ok|done].
    + case_decide as Hin.
      * intros [= <-]. subst i. exists One, (nend n :: l). split; [done|].
        pose proof cur_ok as [_ _ Hlt Hd _ _]. split; cbn; try by left.
        -- split; [done|]. exists (nend n), l, kl. do 3 (split; [done|]).
           split; [by apply (gh_lt ns g _ _ Ht Hgl)|]. split; [by apply gh_app|done].
        -- cbn. lia.
        -- intros b [->|Hb]%elem_of_cons; [lia|]. specialize (Hlt b Hb). lia.
        -- constructor; [done|]. apply List.Forall_forall. intros x Hx. apply Hlt.
           by apply list_elem_of_In.
      * intros Hm. destruct (tr_node ns g Ht i m Hm) as (km & lm & Hgm & Hok).
        exists km, lm. split; [by apply gh_app|by apply Hmono].
  - intros i j ni nj. rewrite !nd_alter, !nd_snoc.
    assert (forall i ni, (if decide (i = cur) then set_right new <$>
        (if decide (i = new) then Some (TagNode_new last (nend n) (nend n + 1)) else nd ns i)
      else if decide (i = new) then Some (TagNode_new last (nend n) (nend n + 1)) else nd ns i) =
      Some ni -> left ni <> 0 -> exists m, nd ns i = Some m /\ left m = left ni) as Hback.
    { intros i0 m0. destruct (decide (i0 = new)) as [->|]; [|].
      - rewrite (decide_False (P := new = cur)) by congruence. by intros [= <-].
      - case_decide; [|by eauto]. subst i0. rewrite Hn. intros [= <-] H0. by exists n. }
    intros Hi Hj Heq H0. destruct (Hback i ni Hi H0) as (mi & Hmi & Hli).
    destruct (Hback j nj Hj ltac:(congruence)) as (mj & Hmj & Hlj).
    apply (tr_left ns g Ht i j mi mj); congruence.
  - apply (label_child ns g _ _ Ht).
    + intros j m Hj Hm. pose proof (nd_lt _ _ _ Hj). exists m.
      rewrite nd_alter, nd_snoc, (decide_False (P := j = new)) by lia.
      rewrite decide_False by congruence. done.
    + intros i li [Hi|[-> _]]%gh_snoc; [by left|right].
      exists cur, (set_right new n). rewrite nd_alter, nd_snoc, decide_True, decide_False by done.
      rewrite Hn, Hlen. done.
Qed.

(** A new stretch of offsets outside the set after [cur], in place of its left child. *)
Lemma grow_zero last num :
  0 < num -> nend n + num <= MAX_LB ->
  trie_ok (alter (set_left new) (N.to_nat cur) (ns ++ [TagNode_new last (nend n) (nend n + num)]))
    (g ++ [(Zero, l)]).
Proof.
  intros Hnum He. pose proof new_pos as Hnp. pose proof cur_old as Hco.
  pose proof (tr_length ns g Ht) as Hlen. set (z0 := TagNode_new last (nend n) (nend n + num)).
  assert (gh (g ++ [(Zero, l)]) new = Some (Zero, l)) as Hgn by (rewrite <- Hlen; apply gh_new).
  assert (g `prefix_of` g ++ [(Zero, l)]) as Hp by (by exists [(Zero, l)]).
  assert (forall i z, nd ns i = Some z -> exists z',
    nd (alter (set_left new) (N.to_nat cur) (ns ++ [z0])) i = Some z' /\ same_span z z') as Hns.
  { intros i z Hz. pose proof (nd_lt _ _ _ Hz). rewrite nd_alter, nd_snoc.
    rewrite (decide_False (P := i = new)) by lia. rewrite Hz. by case_decide; eexists. }
  assert (forall i m km lm, node_ok ns g i m km lm ->
    node_ok (alter (set_left new) (N.to_nat cur) (ns ++ [z0])) (g ++ [(Zero, l)]) i m km lm) as Hmono.
  { intros i m km lm Hok. eapply node_ok_mono; [exact Hok|exact Hp|]. intros z _. apply Hns. }
  split.
  - rewrite length_alter, !length_app. cbn. lia.
  - rewrite length_alter, length_app. cbn. lia.
  - rewrite length_alter, length_app. cbn. lia.
  - intros i m. rewrite nd_alter, nd_snoc. destruct (decide (i = cur)) as [->|Hic].
    + rewrite decide_False by done. rewrite Hn. intros [= <-].
      exists k, l. split; [by apply gh_app|].
      apply (node_ok_left _ _ _ _ _ _ _ z0); [apply Hmono, cur_ok|done| |done|cbn; lia].
      rewrite nd_alter, nd_snoc. by rewrite decide_False, decide_True by congruence.
    + case_decide as Hin.
      * intros [= <-]. subst i. exists Zero, l. split; [done|].
        pose proof cur_ok as [_ _ Hlt Hd _ _].
        split; cbn; [done|done| |done|by left|by left].
        intros b Hb. specialize (Hlt b Hb). lia.
      * intros Hm. destruct (tr_node ns g Ht i m Hm) as (km & lm & Hgm & Hok).
        exists km, lm. split; [by apply gh_app|by apply Hmono].
  - assert (forall i ni, nd (alter (set_left new) (N.to_nat cur) (ns ++ [z0])) i = Some ni ->
      left ni <> 0 -> (i = cur /\ left ni = new) \/
        (i <> cur /\ left ni <> new /\ nd ns i = Some ni)) as Hback.
    { intros i ni. rewrite nd_alter, nd_snoc. destruct (decide (i = cur)) as [->|].
      - rewrite decide_False by done. rewrite Hn. intros [= <-] _. by left.
      - case_decide; [by intros [= <-]|]. intros Hni H0. right.
        do 2 (split; [done || by eapply left_old|]). done. }
    intros i j ni nj Hi Hj Heq H0.
    destruct (Hback i ni Hi H0) as [[-> Hli]|(? & ? & Hmi)];
      destruct (Hback j nj Hj ltac:(congruence)) as [[-> Hlj]|(? & ? & Hmj)];
      [done|congruence|congruence|]. by apply (tr_left ns g Ht i j ni nj).
  - apply (label_child ns g _ _ Ht).
    + intros j m Hj Hm. pose proof (nd_lt _ _ _ Hj).
      rewrite nd_alter, nd_snoc, (decide_False (P := j = new)) by lia. rewrite Hj.
      by case_decide; eexists.
    + intros i li [Hi|[_ ?]]%gh_snoc; [by left|done].
Qed.
End grow.

Lemma alter_left_inj ns g c f :
  trie_ok ns g -> (forall m, left (f m) = left m) ->
  forall i j n m, nd (alter f (N.to_nat c) ns) i = Some n ->
    nd (alter f (N.to_nat c) ns) j = Some m -> left n = left m -> left n <> 0 -> i = j.
Proof.
  intros Ht Hf i j n m Hi Hj. rewrite nd_alter in Hi, Hj.
  assert (forall i n, (if decide (i = c) then f <$> nd ns i else nd ns i) = Some n ->
    exists n0, nd ns i = Some n0 /\ left n0 = left n) as Hback.
  { intros i0 n0. destruct (decide (i0 = c)).
    - destruct (nd ns i0) as [n1|]; [|done]. intros [= <-]. by exists n1.
    - intros Hn0. by exists n0. }
  destruct (Hback i n Hi) as (n0 & Hn0 & Hl). destruct (Hback j m Hj) as (m0 & Hm0 & Hl').
  intros Heq H0. apply (tr_left ns g Ht i j n0 m0); congruence.
Qed.

(** The span of a node that is nobody's left child may start anywhere. *)
Lemma set_begin_ok ns g c lc b :
  trie_ok ns g -> gh g c = Some (Zero, lc) ->
  (forall i m, nd ns i = Some m -> left m <> c) ->
  trie_ok (alter (set_begin b) (N.to_nat c) ns) g.
Proof.
  intros Ht Hg Hno. split.
  - rewrite length_alter. apply Ht.
  - rewrite length_alter. apply Ht.
  - rewrite length_alter. apply Ht.
  - assert (forall i m km lm, nd ns i = Some m -> node_ok ns g i m km lm ->
      node_ok (alter (set_begin b) (N.to_nat c) ns) g i m km lm) as Hmono.
    { intros i m km lm Hm Hok. eapply node_ok_mono; [exact Hok|done|]. intros z _ Hz.
      rewrite nd_alter, decide_False by (by eapply Hno). by exists z. }
    intros i m. rewrite nd_alter. case_decide as Hic.
    + subst i. destruct (nd ns c) as [m0|] eqn:Hm0; [|done]. intros [= <-].
      destruct (tr_node ns g Ht c m0 Hm0) as (k & l & Hg' & Hok). exists k, l. split; [done|].
      assert ((k, l) = (Zero, lc)) as [= -> ->] by congruence.
      destruct (Hmono c m0 _ _ Hm0 Hok) as [Hk He Hlt Hd Hr Hl]. by split.
    + intros Hm. destruct (tr_node ns g Ht i m Hm) as (k & l & Hg' & Hok).
      exists k, l. split; [done|by apply Hmono].
  - apply (alter_left_inj ns g); [done|by intros []].
  - apply (label_child ns g _ _ Ht); [|by left]. intros j m Hj Hm. rewrite nd_alter, Hj.
    by case_decide; eexists.
Qed.

Lemma set_sign_ok ns g c :
  trie_ok ns g ->
  trie_ok (alter (set_seg (fun s => mk_seg true (seg_begin s) (seg_end s))) (N.to_nat c) ns) g.
Proof.
  intros Ht. set (f := set_seg _). split.
  - rewrite length_alter. apply Ht.
  - rewrite length_alter. apply Ht.
  - rewrite length_alter. apply Ht.
  - assert (forall i m km lm, node_ok ns g i m km lm -> node_ok (alter f (N.to_nat c) ns) g i m km lm)
      as Hmono.
    { intros i m km lm Hok. eapply node_ok_mono; [exact Hok|done|]. intros z _ Hz.
      rewrite nd_alter, Hz. by case_decide; eexists. }
    intros i m. rewrite nd_alter. case_decide as Hic.
    + destruct (nd ns i) as [m0|] eqn:Hm0; [|done]. intros [= <-].
      destruct (tr_node ns g Ht i m0 Hm0) as (k & l & Hg' & Hok). exists k, l. split; [done|].
      destruct (Hmono i m0 _ _ Hok) as [Hk He Hlt Hd Hr Hl]. by split.
    + intros Hm. destruct (tr_node ns g Ht i m Hm) as (k & l & Hg' & Hok).
      exists k, l. split; [done|by apply Hmono].
  - apply (alter_left_inj ns g); [done|by intros []].
  - apply (label_child ns g _ _ Ht); [|by left]. intros j m Hj Hm. rewrite nd_alter, Hj.
    by case_decide; eexists.
Qed.

(** ** The insertion loops *)

(** The only way to fail: there are no labels left. *)
Definition full (x : exit_reason) (ns : bdd_nodes) : Prop :=
  x = DivideByZero /\ MAX_LB <= N.of_nat (length ns).

Lemma MAX_LB_eq : MAX_LB = 16777215.
Proof. done. Qed.

Lemma node_at_spec ns i n (Q : TagNode -> bdd_nodes -> Prop) E :
  nd ns i = Some n -> Q n ns -> wp (node_at i) Q E ns.
Proof. intros Hn Hq. unfold node_at. do 2 wp_step. unfold nd in Hn. rewrite Hn. by apply wp_ret. Qed.

Lemma update_spec ns i f n (Q : unit -> bdd_nodes -> Prop) E :
  nd ns i = Some n -> Q tt (alter f (N.to_nat i) ns) -> wp (update_node i f) Q E ns.
Proof.
  intros Hn Hq. unfold update_node. wp_step. apply (node_at_spec _ _ n); [done|]. by apply wp_modify.
Qed.

Lemma alloc_spec ns g p b e (Q : N -> bdd_nodes -> Prop) :
  trie_ok ns g ->
  (N.of_nat (length ns) < MAX_LB -> Q (N.of_nat (length ns)) (ns ++ [TagNode_new p b e])) ->
  wp (alloc_node p b e) Q full ns.
Proof.
  intros Ht Hq. unfold alloc_node. do 2 wp_step. pose proof (tr_max ns g Ht) as Hm.
  pose proof MAX_LB_eq. rewrite w32_small by lia.
  destruct (N.ltb_spec (N.of_nat (length ns)) MAX_LB).
  - do 2 wp_step. apply wp_ret. auto.
  - apply wp_exit. by split.
Qed.

Lemma get_root ns g : trie_ok ns g -> exists n, nd ns 0 = Some n /\ nbegin n = 0 /\ nend n = 0.
Proof.
  intros Ht. destruct (gh_nd ns g 0 _ _ Ht (root_ok ns g Ht)) as (n & Hn & Hok).
  exists n. destruct (no_kind _ _ _ _ _ _ Hok) as (_ & _ & ? & ?). done.
Qed.

Lemma zeros_spec fuel cur num last ns g n k l :
  trie_ok ns g -> nd ns cur = Some n -> gh g cur = Some (k, l) ->
  nend n + num <= MAX_LB -> (N.to_nat num < fuel)%nat ->
  wp (insert_zeros_loop fuel cur num last)
    (fun r ns' => exists g' k' n', trie_ok ns' g' /\ g `prefix_of` g' /\ nd ns' r = Some n' /\
       gh g' r = Some (k', l) /\ nend n' = nend n + num) full ns.
Proof.
  revert cur num n k. induction fuel as [|fuel IH]; intros cur num n k Ht Hn Hg He Hf; [lia|].
  pose proof MAX_LB_eq as Hmx.
  cbn [insert_zeros_loop]. destruct (N.eqb_spec num 0) as [->|Hn0].
  { apply wp_ret. exists g, k, n. do 4 (split; [done|]). lia. }
  wp_step. apply (node_at_spec _ _ n); [done|]. wp_step.
  pose proof (cur_ok ns g cur n k l Ht Hn Hg) as Hok.
  assert (exists z, nd ns (left n) = Some z) as [z Hz].
  { destruct (no_left _ _ _ _ _ _ Hok) as [->|(_ & z & Hz & _)]; [|by exists z].
    destruct (get_root ns g Ht) as (z & Hz & _). by exists z. }
  apply (node_at_spec _ _ z); [done|].
  assert (forall m, N.of_nat (length ns) < MAX_LB -> exists n',
    nd (alter (set_left (N.of_nat (length ns))) (N.to_nat cur) (ns ++ [TagNode_new last m (m + num)]))
      (N.of_nat (length ns)) = Some n' /\ nend n' = m + num) as Hnew.
  { intros m _. pose proof (nd_lt _ _ _ Hn). eexists.
    rewrite nd_alter, nd_snoc, decide_False, decide_True by lia. done. }
  pose proof (tr_length ns g Ht) as Hlen.
  destruct (N.eqb_spec (left n) 0) as [Hl0|Hl0].
  - wp_step. apply (alloc_spec _ g); [done|]. intros Hlt. fold (nend n).
    rewrite w32_small by lia. wp_step.
    eapply update_spec; [rewrite nd_snoc, decide_False by (pose proof (nd_lt _ _ _ Hn); lia); exact Hn|].
    apply wp_ret. destruct (Hnew (nend n) Hlt) as (n' & Hn' & He').
    exists (g ++ [(Zero, l)]), Zero, n'. split; [by eapply grow_zero; [..|lia|]|].
    split; [by exists [(Zero, l)]|]. split; [done|]. split; [rewrite <- Hlen; apply gh_new|done].
  - destruct (no_left _ _ _ _ _ _ Hok) as [?|(Hgz & z' & Hz' & Hbz & Hlz)]; [done|].
    assert (z' = z) as -> by congruence.
    destruct (gh_nd _ _ _ _ _ Ht Hgz) as (z1 & Hz1 & Hokz). assert (z1 = z) as -> by congruence.
    pose proof (no_end _ _ _ _ _ _ Hokz) as Hez.
    unfold get_seg_size. fold (nend z) (nbegin z). rewrite sub32_small by lia. rewrite Hbz.
    destruct (N.ltb_spec num (nend z - nend n)) as [Hlt|Hge].
    + wp_step. apply (alloc_spec _ g); [done|]. intros Hlm. fold (nend n).
      rewrite w32_small by lia. pose proof (nd_lt _ _ _ Hn). pose proof (nd_lt _ _ _ Hz).
      wp_step. eapply update_spec; [rewrite nd_snoc, decide_False by lia; exact Hn|].
      assert (trie_ok (alter (set_left (N.of_nat (length ns))) (N.to_nat cur)
        (ns ++ [TagNode_new last (nend n) (nend n + num)])) (g ++ [(Zero, l)])) as Ht'.
      { by eapply grow_zero; [..|lia|]. }
      wp_step. eapply update_spec.
      { rewrite nd_alter, nd_snoc. rewrite (decide_False (P := left n = N.of_nat _)) by lia.
        rewrite decide_False; [done|]. intros Hc. rewrite Hc in Hz.
        assert (z = n) as -> by congruence. lia. }
      apply wp_ret. destruct (Hnew (nend n) Hlm) as (n' & Hn' & He').
      exists (g ++ [(Zero, l)]), Zero, n'. split.
      { apply (set_begin_ok _ _ _ l); [done|by apply gh_app|]. intros i m.
        rewrite nd_alter, nd_snoc. destruct (decide (i = cur)) as [->|Hic].
        - rewrite decide_False by lia. rewrite Hn. intros [= <-]. cbn. lia.
        - case_decide; [intros [= <-]; cbn; lia|]. intros Hm Heq.
          apply Hic. apply (tr_left ns g Ht i cur m n); congruence. }
      split; [by exists [(Zero, l)]|]. split; [|split; [rewrite <- Hlen; apply gh_new|done]].
      rewrite nd_alter, decide_False by lia. done.
    + rewrite sub64_small by lia.
      eapply wp_mono; [apply (IH _ _ z Zero); [done|done|done|lia|lia]|].
      intros r ns' (g' & k' & n' & H1 & H2 & H3 & H4 & H5). exists g', k', n'.
      do 4 (split; [done|]). lia.
Qed.

(** What the insertions and the whole operations leave behind: a bigger trie and a label. *)
Definition makes g (P : list N -> Prop) (r : N) (ns' : bdd_nodes) : Prop :=
  exists g' l, trie_ok ns' g' /\ g `prefix_of` g' /\ label g' r l /\ P l.

Lemma ones_spec cur last ns g n k l :
  trie_ok ns g -> nd ns cur = Some n -> gh g cur = Some (k, l) -> label g last l ->
  nend n < MAX_LB ->
  wp (insert_n_ones cur 1 last) (makes g (fun l' => l' = nend n :: l)) full ns.
Proof.
  intros Ht Hn Hg Hlast He. pose proof MAX_LB_eq as Hmx. unfold insert_n_ones.
  change (S (N.to_nat 1)) with 2%nat. cbn [insert_ones_loop]. change (1 =? 0) with false. cbv iota.
  wp_step. apply (node_at_spec _ _ n); [done|]. fold (nend n).
  pose proof (cur_ok ns g cur n k l Ht Hn Hg) as Hok. pose proof (tr_length ns g Ht) as Hlen.
  destruct (N.eqb_spec (right n) 0) as [Hr0|Hr0].
  - wp_step. apply (alloc_spec _ g); [done|]. intros Hlt. rewrite w32_small by lia. wp_step.
    eapply update_spec; [rewrite nd_snoc, decide_False by (pose proof (nd_lt _ _ _ Hn); lia); exact Hn|].
    apply wp_ret. exists (g ++ [(One, nend n :: l)]), (nend n :: l).
    split; [by apply (grow_one ns g cur n k l)|]. split; [by exists [(One, nend n :: l)]|].
    split; [|done]. exists One. split; [rewrite <- Hlen; apply gh_new|done].
  - destruct (no_right _ _ _ _ _ _ Hok) as [?|Hgr]; [done|].
    destruct (gh_nd _ _ _ _ _ Ht Hgr) as (m & Hm & Hokm).
    pose proof (no_kind _ _ _ _ _ _ Hokm) as (_ & b & l' & k' & [= <- <-] & _ & Hem & _).
    wp_step. apply (node_at_spec _ _ m); [done|]. fold (nend m). rewrite Hem.
    rewrite sub32_small by lia. replace (nend n + 1 - nend n) with 1 by lia.
    change (1 <? 1) with false. change (sub64 1 1) with 0. cbv iota. cbn [N.eqb]. apply wp_ret.
    exists g, (nend n :: l). split; [done|]. split; [done|]. split; [by exists One|done].
Qed.

(** ** Insertion of a stack of segments *)

(** The offsets of a stack of labels, the first one first. *)
Definition stacked g (lb_st : list N) (bs : list N) : Prop :=
  Forall2 (fun lb b => exists l, gh g lb = Some (One, b :: l)) lb_st bs.

Definition ascending (l : list N) : Prop := StronglySorted N.lt l.

Lemma stacked_prefix g g' st bs :
  g `prefix_of` g' -> stacked g st bs -> stacked g' st bs.
Proof.
  intros Hp Hs. eapply Forall2_impl; [exact Hs|]. intros lb b (l & Hg). exists l. by eapply gh_prefix.
Qed.

Lemma one_node ns g i b l :
  trie_ok ns g -> gh g i = Some (One, b :: l) ->
  exists n, nd ns i = Some n /\ seg_begin (seg n) = b /\ seg_end (seg n) = b + 1 /\ b < MAX_LB.
Proof.
  intros Ht Hg. destruct (gh_nd _ _ _ _ _ Ht Hg) as (n & Hn & Hok). exists n. split; [done|].
  pose proof (no_kind _ _ _ _ _ _ Hok) as (_ & b' & l' & k' & [= <- <-] & Hb & He & _).
  pose proof (no_end _ _ _ _ _ _ Hok). unfold nbegin, nend in *. split; [done|]. split; [done|]. lia.
Qed.

Lemma label_end ns g i l :
  trie_ok ns g -> label g i l ->
  exists n k, nd ns i = Some n /\ gh g i = Some (k, l) /\ nend n = (match l with [] => 0 | b :: _ => b + 1 end).
Proof.
  intros Ht Hl. pose proof Hl as (k & Hg & _).
  destruct (label_cases ns g i l Ht Hl) as (n & Hn & [(_ & -> & _ & He)|(_ & l' & -> & He & _)]);
    by exists n, k.
Qed.

(** One segment: the label with its offset added, unless it is there already. *)
Definition build_step (next cur_lb : N) : prog bdd_nodes N :=
  cur ← node_at cur_lb;
  let cur_seg := seg cur in
  next_node ← node_at next;
  let next_seg := seg next_node in
  cur_lb ← (if seg_begin next_seg <=? seg_end cur_seg then
      if seg_end cur_seg <? seg_end next_seg then
        insert_n_ones cur_lb (sub32 (seg_end next_seg) (seg_end cur_seg)) cur_lb
      else mret cur_lb
    else
      let last_lb := cur_lb in
      cur_lb ← insert_n_zeros cur_lb (sub32 (seg_begin next_seg) (seg_end cur_seg)) last_lb;
      insert_n_ones cur_lb (sub32 (seg_end next_seg) (seg_begin next_seg)) last_lb);
  _ ← (if sign next_seg then set_sign_at cur_lb else mret tt);
  mret cur_lb.

Lemma build_unfold next st cur ns :
  build_loop (next :: st) cur ns = (cur ← build_step next cur; build_loop st cur) ns.
Proof.
  cbn [build_loop]. unfold build_step. unfold mbind, prog_bind, mret, prog_ret.
  destruct (node_at cur ns) as [c ns1|x ns1|]; [|done..].
  destruct (node_at next ns1) as [n ns2|x ns2|]; [|done..].
  destruct (seg_begin (seg n) <=? seg_end (seg c)).
  - destruct (seg_end (seg c) <? seg_end (seg n)).
    + destruct (insert_n_ones _ _ _ ns2) as [r ns3|x ns3|]; [|done..].
      destruct (sign (seg n)); [|done]. by destruct (set_sign_at r ns3) as [[] ns4|x ns4|].
    + destruct (sign (seg n)); [|done]. by destruct (set_sign_at cur ns2) as [[] ns4|x ns4|].
  - destruct (insert_n_zeros _ _ _ ns2) as [z ns3|x ns3|]; [|done..].
    destruct (insert_n_ones _ _ _ ns3) as [r ns4|x ns4|]; [|done..].
    destruct (sign (seg n)); [|done]. by destruct (set_sign_at r ns4) as [[] ns5|x ns5|].
Qed.

Lemma sign_spec ns g g' r l (s : bool) (P : list N -> Prop) :
  trie_ok ns g' -> g `prefix_of` g' -> label g' r l -> P l ->
  wp (_ ← (if s then set_sign_at r else mret tt); mret r) (makes g P) full ns.
Proof.
  intros Ht Hp Hl HP. wp_step. destruct s.
  - destruct (label_end _ _ _ _ Ht Hl) as (n & k & Hn & _).
    apply (update_spec _ _ _ n); [done|]. apply wp_ret. exists g', l.
    split; [by apply set_sign_ok|done].
  - apply wp_ret. apply wp_ret. by exists g', l.
Qed.

Lemma build_step_spec ns g next b ln cur l :
  trie_ok ns g -> gh g next = Some (One, b :: ln) -> label g cur l -> (forall x, x ∈ l -> x <= b) ->
  wp (build_step next cur)
    (makes g (fun l' => (forall o, o ∈ l' <-> o = b \/ o ∈ l))) full ns.
Proof.
  intros Ht Hnext Hcur Hb. pose proof MAX_LB_eq as Hmx. unfold build_step.
  destruct (label_end _ _ _ _ Ht Hcur) as (n & k & Hn & Hg & He).
  destruct (one_node _ _ _ _ _ Ht Hnext) as (m & Hm & Hbm & Hem & Hlt).
  wp_step. apply (node_at_spec _ _ n); [done|]. wp_step. apply (node_at_spec _ _ m); [done|].
  rewrite Hbm, Hem. fold (nend n).
  assert (forall x, x ∈ l -> x < nend n) as Hxe.
  { pose proof (cur_ok ns g cur n k l Ht Hn Hg) as Hok. apply (no_lt _ _ _ _ _ _ Hok). }
  assert (forall g' r ns1, trie_ok ns1 g' -> g `prefix_of` g' -> label g' r (b :: l) ->
    wp (_ ← (if sign (seg m) then set_sign_at r else mret tt); mret r)
      (makes g (fun l' => (forall o, o ∈ l' <-> o = b \/ o ∈ l))) full ns1) as Hend.
  { intros g' r ns1 Ht' Hp' Hl'. apply (sign_spec ns1 g g' r (b :: l)); [done..|].
    intros o. apply elem_of_cons. }
  wp_step. destruct (N.leb_spec b (nend n)) as [Hle|Hgt].
  - destruct (N.ltb_spec (nend n) (b + 1)) as [Hlt'|Hge].
    + assert (nend n = b) as Hnb by lia. rewrite sub32_small by lia.
      replace (b + 1 - nend n) with 1 by lia.
      eapply wp_mono; [apply (ones_spec cur cur ns g n k l); [done..|lia]|].
      intros r ns1 (g' & l' & Ht' & Hp' & Hl' & ->). rewrite Hnb in Hl'. by apply (Hend g').
    + apply wp_ret. apply (sign_spec ns g g cur l); [done..|].
      intros o. split; [by right|]. intros [->|?]; [|done].
      destruct l as [|x l]; [lia|]. apply elem_of_cons. left.
      specialize (Hb x ltac:(apply elem_of_cons; by left)). lia.
  - wp_step. rewrite sub32_small by lia.
    eapply wp_mono; [apply (zeros_spec _ _ _ _ _ g n k l); [done|done|done|lia|lia]|].
    intros z ns1 (g1 & k1 & n1 & Ht1 & Hp1 & Hn1 & Hg1 & He1).
    rewrite sub32_small by lia. replace (b + 1 - b) with 1 by lia.
    assert (nend n1 = b) as Hnb by lia.
    eapply wp_mono; [eapply (ones_spec z cur ns1 g1 n1 k1 l); [done|done|done| |lia]|].
    + by eapply label_prefix.
    + intros r ns2 (g' & l' & Ht' & Hp' & Hl' & ->). rewrite Hnb in Hl'.
      apply (Hend g'); [done|by etrans|done].
Qed.

Lemma build_spec st bs ns g cur l :
  trie_ok ns g -> stacked g st bs -> ascending bs -> label g cur l ->
  (forall b x, b ∈ bs -> x ∈ l -> x <= b) ->
  wp (build_loop st cur) (makes g (fun l' => forall o, o ∈ l' <-> o ∈ l \/ o ∈ bs)) full ns.
Proof.
  revert bs ns g cur l. induction st as [|next st IH]; intros bs ns g cur l Ht Hst Hasc Hcur Hb.
  - inversion Hst; subst. apply wp_ret. exists g, l. split; [done|]. split; [done|]. split; [done|].
    intros o. split; [by left|]. by intros [?|?%elem_of_nil].
  - inversion Hst as [|? b ? bs' (ln & Hnext) Hst']; subst. inversion Hasc as [|? ? Hasc' Hall]; subst.
    unfold wp at 1. rewrite build_unfold. apply wp_bind.
    eapply wp_mono; [apply (build_step_spec ns g next b ln cur l); [done..|]|].
    { intros x Hx. apply Hb; [apply elem_of_cons; by left|done]. }
    intros r ns1 (g1 & l1 & Ht1 & Hp1 & Hl1 & Hin).
    eapply wp_mono; [apply (IH bs' ns1 g1 r l1); [done|by eapply stacked_prefix|done|done|]|].
    + intros b' x Hb' Hx. rewrite List.Forall_forall in Hall.
      assert (b < b') as Hlt by (by apply Hall, list_elem_of_In).
      apply Hin in Hx as [->|Hx]; [lia|]. specialize (Hb b x ltac:(apply elem_of_cons; by left) Hx). lia.
    + intros r' ns2 (g' & l' & Ht' & Hp' & Hl' & Hin'). exists g', l'. split; [done|].
      split; [by etrans|]. split; [done|]. intros o. rewrite Hin', Hin, elem_of_cons. naive_solver.
Qed.

(** ** The merge of two lists of segments *)

Lemma label_node ns g i l :
  trie_ok ns g -> label g i l -> i <> 0 ->
  exists n l', nd ns i = Some n /\ l = seg_begin (seg n) :: l' /\ seg_begin (seg n) < MAX_LB /\
    parent n < i /\ descending l /\ label g (parent n) l'.
Proof.
  intros Ht Hl H0. destruct (label_cases ns g i l Ht Hl) as (n & Hn & [[? _]|(_ & l' & Hll & _ & Hp & Hlt & Hd & Hl')]);
    [done|]. by exists n, l'.
Qed.

Lemma descending_head x l y : descending (x :: l) -> y ∈ l -> y < x.
Proof.
  intros Hd Hy. apply StronglySorted_inv in Hd as [_ Hf]. rewrite List.Forall_forall in Hf.
  by apply Hf, list_elem_of_In.
Qed.

(** A segment of one of the lists goes on the stack, unless it is there already. *)
Lemma push_spec ns g i b l st bs last :
  trie_ok ns g -> label g i (b :: l) -> i <> 0 -> stacked g st bs -> ascending bs ->
  (forall x, x ∈ bs -> b <= x) -> b < MAX_LB ->
  match bs with [] => last = MAX_LB | b :: _ => last = b end ->
  exists st' bs', (if b <? last then (i :: st, b) else (st, last)) =
    (st', match bs' with [] => MAX_LB | b :: _ => b end) /\ stacked g st' bs' /\ ascending bs' /\
    (forall o, o ∈ bs' <-> o = b \/ o ∈ bs).
Proof.
  intros Ht Hi Hi0 Hst Hasc Hb Hmax Hlast. destruct (N.ltb_spec b last) as [Hlt|Hge].
  - exists (i :: st), (b :: bs). split; [done|]. split; [|split].
    + constructor; [|done]. destruct Hi as (k & Hg & Hk). exists l.
      destruct (gh_nd _ _ _ _ _ Ht Hg) as (n & _ & Hok). pose proof (no_kind _ _ _ _ _ _ Hok) as H.
      destruct k; [|done|done]. by destruct H as [? _].
    + constructor; [done|]. destruct bs as [|b0 bs]; [done|]. subst last.
      apply StronglySorted_inv in Hasc as [_ Hall]. constructor; [done|].
      eapply List.Forall_impl; [|exact Hall]. intros x Hx. lia.
    + intros o. apply elem_of_cons.
  - exists st, bs. destruct bs as [|b0 bs]; [subst; lia|]. subst last. split; [done|].
    do 2 (split; [done|]). intros o. split; [by right|]. intros [->|?]; [|done].
    apply elem_of_cons. left. specialize (Hb b0 ltac:(apply elem_of_cons; by left)). lia.
Qed.

Lemma collect_spec fuel (l1 l2 : N) last st ns g L1 L2 bs :
  trie_ok ns g -> label g l1 L1 -> label g l2 L2 -> stacked g st bs -> ascending bs ->
  (forall x b, x ∈ L1 \/ x ∈ L2 -> b ∈ bs -> x <= b) ->
  match bs with [] => last = MAX_LB | b :: _ => last = b end ->
  (N.to_nat (l1 + l2) < fuel)%nat ->
  wp (collect_loop fuel l1 l2 last st)
    (fun '(st', cur) ns' => ns' = ns /\ exists bs' l, stacked g st' bs' /\ ascending bs' /\
       label g cur l /\ (forall x b, x ∈ l -> b ∈ bs' -> x <= b) /\
       forall o, o ∈ l \/ o ∈ bs' <-> o ∈ L1 \/ o ∈ L2 \/ o ∈ bs) full ns.
Proof.
  intros Ht. revert l1 l2 last st L1 L2 bs.
  induction fuel as [|fuel IH]; intros l1 l2 last st L1 L2 bs H1 H2 Hst Hasc Hle Hlast Hf; [lia|].
  cbn [collect_loop].
  destruct (N.ltb_spec 0 l1) as [Hl1|Hl1]; [destruct (N.eqb_spec l1 l2) as [->|Hne]|]; cbn.
  - split; [done|]. exists bs, L1. do 3 (split; [done|]).
    assert (L1 = L2) as ->.
    { destruct H1 as (? & Hg1 & _), H2 as (? & Hg2 & _). congruence. }
    split; [intros x b Hx; apply Hle; by left|]. naive_solver.
  - destruct (label_node ns g l1 L1 Ht H1 ltac:(lia)) as (n1 & L1' & Hn1 & HL1 & Hlt1 & Hp1 & Hd1 & Hl1').
    destruct (label_cases ns g l2 L2 Ht H2) as (n2 & Hn2 & Hc2).
    wp_step. apply (node_at_spec _ _ n1); [done|]. wp_step. apply (node_at_spec _ _ n2); [done|].
    destruct (N.ltb_spec (seg_begin (seg n1)) (seg_begin (seg n2))) as [Hlt|Hge].
    + destruct Hc2 as [(_ & _ & Hb2 & _)|(H20 & L2' & HL2 & _ & Hp2 & Hlt2 & Hd2 & Hl2')];
        [unfold nbegin in Hb2; lia|]. unfold nbegin in *.
      destruct (push_spec ns g l2 (seg_begin (seg n2)) L2' st bs last) as (st' & bs' & -> & Hst' & Hasc' & Hin');
        [done|by rewrite HL2 in H2|done..|intros x; apply Hle; right; rewrite HL2; apply elem_of_cons; by left|done|done|].
      eapply wp_mono; [apply (IH l1 (parent n2) _ st' L1 L2' bs'); [done..| | |lia]|].
      * intros x b Hx [->|Hb]%Hin'.
        -- destruct Hx as [Hx|Hx].
           ++ rewrite HL1 in Hx. apply elem_of_cons in Hx as [->|Hx]; [lia|].
              rewrite HL1 in Hd1. pose proof (descending_head _ _ _ Hd1 Hx). lia.
           ++ rewrite HL2 in Hd2. pose proof (descending_head _ _ _ Hd2 Hx). lia.
        -- apply Hle; [|done]. destruct Hx as [?|Hx]; [by left|right]. rewrite HL2.
           apply elem_of_cons. by right.
      * by destruct bs'.
      * intros [st'' cur] ns' (-> & bs'' & l & ? & ? & ? & ? & Ho). split; [done|]. exists bs'', l.
        do 4 (split; [done|]). intros o. rewrite Ho, Hin', HL2, elem_of_cons. naive_solver.
    + destruct (push_spec ns g l1 (seg_begin (seg n1)) L1' st bs last) as (st' & bs' & -> & Hst' & Hasc' & Hin');
        [done|by rewrite HL1 in H1|lia|done|done|intros x; apply Hle; left; rewrite HL1; apply elem_of_cons; by left|done|done|].
      eapply wp_mono; [apply (IH (parent n1) l2 _ st' L1' L2 bs'); [done..| | |lia]|].
      * intros x b Hx [->|Hb]%Hin'.
        -- destruct Hx as [Hx|Hx].
           ++ rewrite HL1 in Hd1. pose proof (descending_head _ _ _ Hd1 Hx). lia.
           ++ destruct Hc2 as [(_ & -> & _)|(H20 & L2' & HL2 & _ & Hp2 & Hlt2 & Hd2 & Hl2')].
              { by apply elem_of_nil in Hx. }
              unfold nbegin in *. rewrite HL2 in Hx, Hd2.
              apply elem_of_cons in Hx as [->|Hx]; [lia|].
              pose proof (descending_head _ _ _ Hd2 Hx). lia.
        -- apply Hle; [|done]. destruct Hx as [Hx|?]; [left|by right]. rewrite HL1.
           apply elem_of_cons. by right.
      * by destruct bs'.
      * intros [st'' cur] ns' (-> & bs'' & l & ? & ? & ? & ? & Ho). split; [done|]. exists bs'', l.
        do 4 (split; [done|]). intros o. rewrite Ho, Hin', HL1, elem_of_cons. naive_solver.
  - split; [done|]. assert (l1 = 0) as -> by lia. exists bs, L2. do 3 (split; [done|]).
    split; [intros x b Hx; apply Hle; by right|].
    assert (L1 = []) as ->.
    { destruct H1 as (? & Hg1 & _). rewrite (root_ok ns g Ht) in Hg1. congruence. }
    intros o. rewrite elem_of_nil. naive_solver.
Qed.

(** ** The operations *)

Lemma label_small ns g i l : trie_ok ns g -> label g i l -> i < MAX_LB.
Proof.
  intros Ht (k & Hg & _). pose proof (gh_lt _ _ _ _ Ht Hg). pose proof (tr_max ns g Ht). lia.
Qed.

Lemma root_label ns g : trie_ok ns g -> label g 0 [].
Proof. intros Ht. exists Root. split; [by eapply root_ok|done]. Qed.

Lemma label_inj g i l l' : label g i l -> label g i l' -> l = l'.
Proof. intros (? & H1 & _) (? & H2 & _). congruence. Qed.

Lemma mask_label ns g i l : trie_ok ns g -> label g i l -> N.land i LB_MASK = i.
Proof.
  intros Ht Hl. pose proof (label_small _ _ _ _ Ht Hl) as Hs. rewrite MAX_LB_eq in Hs.
  change LB_MASK with (N.ones 24). rewrite N.land_ones. apply N.mod_small. cbn. lia.
Qed.

Lemma insert_spec ns g pos :
  trie_ok ns g -> pos < MAX_LB ->
  wp (insert_offset pos) (makes g (fun l => l = [pos])) full ns.
Proof.
  intros Ht Hpos. unfold insert_offset. pose proof MAX_LB_eq as Hmx.
  destruct (get_root ns g Ht) as (n & Hn & _ & He). wp_step.
  eapply wp_mono; [apply (zeros_spec _ _ _ _ ns g n Root []); [done|done|by eapply root_ok|lia|lia]|].
  intros z ns1 (g1 & k1 & n1 & Ht1 & Hp1 & Hn1 & Hg1 & He1).
  eapply wp_mono; [apply (ones_spec z ROOT ns1 g1 n1 k1 []); [done|done|done|by eapply root_label|lia]|].
  intros r ns2 (g' & l' & Ht' & Hp' & Hl' & ->). exists g', [pos]. split; [done|].
  split; [by etrans|]. split; [|done]. by replace pos with (nend n1) by lia.
Qed.

Lemma combine_label_spec ns g (l1 l2 : N) L1 L2 :
  trie_ok ns g -> label g l1 L1 -> label g l2 L2 ->
  wp (combine l1 l2) (makes g (fun l => forall o, o ∈ l <-> o ∈ L1 \/ o ∈ L2)) full ns.
Proof.
  intros Ht H1 H2. unfold combine. pose proof (root_label ns g Ht) as Hroot.
  pose proof (label_small _ _ _ _ Ht H1) as Hs1. pose proof (label_small _ _ _ _ Ht H2) as Hs2.
  rewrite MAX_LB_eq in Hs1, Hs2.
  destruct (N.eqb_spec l1 0) as [->|H10].
  { apply wp_ret. exists g, L2. do 3 (split; [done|]). rewrite (label_inj _ _ _ _ H1 Hroot).
    intros o. rewrite elem_of_nil. naive_solver. }
  destruct (N.eqb_spec l2 0) as [->|H20].
  { apply wp_ret. exists g, L1. do 3 (split; [done|]). rewrite (label_inj _ _ _ _ H2 Hroot).
    intros o. rewrite elem_of_nil. naive_solver. }
  destruct (N.eqb_spec l1 l2) as [->|Hne]; cbn [orb].
  { apply wp_ret. exists g, L1. do 3 (split; [done|]). rewrite (label_inj _ _ _ _ H2 H1). naive_solver. }
  assert (BDD_HAS_LEN_LB l1 || BDD_HAS_LEN_LB l2 = false) as ->.
  { unfold BDD_HAS_LEN_LB, BDD_LEN_LB. by rewrite !(proj2 (N.leb_gt _ _)) by lia. }
  rewrite (mask_label _ _ _ _ Ht H1), (mask_label _ _ _ _ Ht H2).
  assert (exists a b A B, (if l2 <? l1 then (l2, l1) else (l1, l2)) = (a, b) /\ label g a A /\
    label g b B /\ (forall o, o ∈ A \/ o ∈ B <-> o ∈ L1 \/ o ∈ L2)) as (a & b & A & B & -> & HA & HB & HAB).
  { destruct (l2 <? l1); [exists l2, l1, L2, L1|exists l1, l2, L1, L2]; naive_solver. }
  wp_step. wp_step. wp_step. eapply wp_mono.
  - apply (collect_spec _ a b _ [] ns g A B []); [done|done|done|constructor|constructor| |done|].
    + by intros ? ? _ ?%elem_of_nil.
    + destruct HA as (? & HgA & _), HB as (? & HgB & _).
      pose proof (gh_lt _ _ _ _ Ht HgA). pose proof (gh_lt _ _ _ _ Ht HgB). unfold id. lia.
  - intros [st cur] ns1 (-> & bs & l & Hst & Hasc & Hcur & Hle & Ho). wp_step.
    eapply wp_mono; [apply (build_spec st bs ns g cur l); [done|done|done|done|by intros; apply Hle]|].
    intros r ns2 (g' & l' & Ht' & Hp' & Hl' & Ho'). apply wp_ret. exists g', l'.
    do 3 (split; [done|]). intros o. rewrite Ho', Ho, elem_of_nil, <- HAB. naive_solver.
Qed.

(** [find] lists the offsets of a label in increasing order, one segment each. *)
Lemma find_loop_spec fuel ns g lb l last :
  trie_ok ns g -> label g lb l -> (forall x, x ∈ l -> x < last) -> (N.to_nat lb < fuel)%nat ->
  wp (find_loop fuel lb last)
    (fun segs ns' => ns' = ns /\ seg_begin <$> segs = l /\
       Forall (fun s => seg_end s = seg_begin s + 1) segs) (fun _ _ => False) ns.
Proof.
  intros Ht. revert lb l last. induction fuel as [|fuel IH]; intros lb l last Hl Hx Hf; [lia|].
  cbn [find_loop]. destruct (N.ltb_spec 0 lb) as [Hlb|Hlb].
  - destruct (label_cases ns g lb l Ht Hl) as (n & Hn & [[? _]|(_ & l' & -> & He & Hp & _ & Hd & Hl')]); [lia|].
    wp_step. apply (node_at_spec _ _ n); [done|]. fold (nbegin n).
    rewrite (proj2 (N.ltb_lt _ _)) by (apply Hx, elem_of_cons; by left).
    wp_step. eapply wp_mono; [apply (IH (parent n) l' (nbegin n)); [done| |lia]|].
    + intros x. by apply descending_head.
    + intros segs ns1 (-> & Hb & Hf'). apply wp_ret. split; [done|].
      split; [cbn; by rewrite Hb|]. by constructor.
  - apply wp_ret. split; [done|]. assert (lb = 0) as -> by lia.
    by rewrite (label_inj _ _ _ _ Hl (root_label ns g Ht)).
Qed.

Lemma find_spec ns g lb l :
  trie_ok ns g -> label g lb l ->
  wp (find lb)
    (fun segs ns' => ns' = ns /\ seg_begin <$> segs = rev l /\
       Forall (fun s => seg_end s = seg_begin s + 1) segs) (fun _ _ => False) ns.
Proof.
  intros Ht Hl. unfold find. wp_step. wp_step. wp_step. rewrite (mask_label _ _ _ _ Ht Hl).
  eapply wp_mono; [apply (find_loop_spec _ ns g lb l); [done|done| |]|].
  - intros x Hx. pose proof Hl as (k & Hg & _). destruct (gh_nd _ _ _ _ _ Ht Hg) as (n & Hn & Hok).
    pose proof (no_lt _ _ _ _ _ _ Hok x Hx). pose proof (no_end _ _ _ _ _ _ Hok). lia.
  - destruct Hl as (k & Hg & _). pose proof (gh_lt _ _ _ _ Ht Hg). unfold id. lia.
  - intros segs ns1 (-> & Hb & Hf). apply wp_ret. split; [done|]. split.
    + rewrite <- Hb. apply List.map_rev.
    + by apply Forall_rev.
Qed.

(** ** The laws of the tags *)

(** A label is one however the trie is seen, with the same list. *)
Lemma label_any ns g g' i l : trie_ok ns g -> trie_ok ns g' -> label g i l -> exists l', label g' i l'.
Proof.
  intros Ht Ht' (k & Hg & Hk). destruct (gh_nd _ _ _ _ _ Ht Hg) as (n & _ & Hok).
  pose proof (no_kind _ _ _ _ _ _ Hok) as Hkd. destruct k; [|clear Hkd|done].
  - destruct Hkd as [-> _]. exists []. by apply root_label with ns.
  - destruct (tr_label ns g Ht i l Hg) as (j & m & Hj & <-).
    destruct (tr_node ns g' Ht' j m Hj) as (kj & lj & _ & Hokj).
    destruct (no_right _ _ _ _ _ _ Hokj) as [Hr0|Hr].
    + destruct (gh_nd _ _ _ _ _ Ht Hg) as (? & _ & Hok'). by destruct (no_kind _ _ _ _ _ _ Hok').
    + eexists. by exists One.
Qed.

Lemma label_unique ns g g' i l l' :
  trie_ok ns g -> trie_ok ns g' -> label g i l -> label g' i l' -> l = l'.
Proof.
  intros Ht Ht'. revert l l'. induction i as [i IH] using (well_founded_induction N.lt_wf_0).
  intros l l' Hl Hl'.
  destruct (label_cases ns g i l Ht Hl) as (n & Hn & Hc).
  destruct (label_cases ns g' i l' Ht' Hl') as (n' & Hn' & Hc').
  assert (n' = n) as -> by congruence.
  destruct Hc as [(? & -> & _)|(? & l1 & -> & _ & Hp & _ & _ & Hl1)];
    destruct Hc' as [(? & -> & _)|(? & l1' & -> & _ & _ & _ & _ & Hl1')]; [done..|].
  f_equal. by apply (IH (parent n)).
Qed.

Lemma label_agrees ns g g' i l : trie_ok ns g -> trie_ok ns g' -> label g i l -> label g' i l.
Proof.
  intros Ht Ht' Hl. destruct (label_any ns g g' i l Ht Ht' Hl) as [l' Hl'].
  by rewrite (label_unique ns g g' i l l' Ht Ht' Hl Hl').
Qed.

Definition bdd_inv ns : Prop := exists g, trie_ok ns g.
Definition bdd_ok ns (t : N) : Prop := exists g l, trie_ok ns g /\ label g t l.
Definition bdd_offs ns (t o : N) : Prop := exists g l, trie_ok ns g /\ label g t l /\ o ∈ l.
Definition bdd_later ns ns' : Prop :=
  forall g t l, trie_ok ns g -> label g t l -> exists g', trie_ok ns' g' /\ label g' t l.

#[export] Instance bdd_later_preorder : PreOrder bdd_later.
Proof.
  split; [intros ns g t l Ht Hl; by exists g|]. intros a b c H1 H2 g t l Ht Hl.
  destruct (H1 g t l Ht Hl) as (g1 & Ht1 & Hl1). by apply (H2 g1).
Qed.

Lemma bdd_offs_label ns g t l o : trie_ok ns g -> label g t l -> bdd_offs ns t o <-> o ∈ l.
Proof.
  intros Ht Hl. split; [|by intros Ho; exists g, l]. intros (g' & l' & Ht' & Hl' & Ho).
  by rewrite (label_unique ns g g' t l l' Ht Ht' Hl Hl').
Qed.

Lemma new_spec : trie_ok BDDTag_new [(Root, [])].
Proof.
  split; [done|cbn; lia|done| | |].
  - intros i n Hn. assert (i = 0) as -> by (apply nd_lt in Hn; cbn in Hn; lia).
    injection Hn as <-. exists Root, []. split; [done|].
    split; [done|done|by intros ? ?%elem_of_nil|constructor|by left|by left].
  - intros i j n m Hn _ _ H0. assert (i = 0) as -> by (apply nd_lt in Hn; cbn in Hn; lia).
    by injection Hn as <-.
  - intros i l Hl. assert (i = 0) as -> by (apply lookup_lt_Some in Hl; cbn in Hl; lia). done.
Qed.

(** From what the operations make to what the interface promises. *)
Lemma makes_law ns g (P : list N -> Prop) (Q : N -> Prop) m :
  trie_ok ns g -> wp m (makes g P) full ns -> (forall l o, P l -> o ∈ l <-> Q o) ->
  wp m (fun r ns' => bdd_inv ns' /\ bdd_later ns ns' /\ bdd_ok ns' r /\
    forall o, bdd_offs ns' r o <-> Q o) full ns.
Proof.
  intros Ht Hm HQ. eapply wp_mono; [exact Hm|]. intros r ns' (g' & l & Ht' & Hp & Hl & HP).
  split; [by exists g'|]. split; [|split; [by exists g', l|]].
  - intros g0 t l0 Ht0 Hl0. exists g'. split; [done|]. eapply label_prefix; [exact Hp|].
    by apply (label_agrees ns g0 g).
  - intros o. rewrite (bdd_offs_label ns' g' r l o Ht' Hl). by apply HQ.
Qed.

#[export] Instance bdd_tag_laws : TagLaws bdd_nodes N.
Proof.
  refine {| tag_inv := bdd_inv; tag_ok := bdd_ok; tag_offs := bdd_offs; tag_bound := MAX_LB;
    tag_thread _ := True; tag_exits := full; tag_later := bdd_later |}.
  - intros ns ns' t Hl (g & l & Ht & Hlab). destruct (Hl g t l Ht Hlab) as (g' & Ht' & Hl').
    by exists g', l.
  - intros ns ns' t o Hl (g & l & Ht & Hlab). destruct (Hl g t l Ht Hlab) as (g' & Ht' & Hl').
    by rewrite (bdd_offs_label ns g t l), (bdd_offs_label ns' g' t l).
  - intros ns [g Ht]. pose proof (root_label ns g Ht) as Hl. split; [by exists g, []|].
    intros o Ho. change (bdd_offs ns 0 o) in Ho. rewrite (bdd_offs_label ns g 0 [] o Ht Hl) in Ho.
    by apply elem_of_nil in Ho.
  - intros ns t _ _. apply N.eqb_eq.
  - intros ns t _ (g & l & Ht & Hl) Ho. cbn. destruct (decide (t = 0)) as [|H0]; [done|exfalso].
    destruct (label_node ns g t l Ht Hl H0) as (n & l' & _ & -> & _).
    apply (Ho (seg_begin (seg n))). rewrite (bdd_offs_label ns g t _ _ Ht Hl).
    apply elem_of_cons. by left.
  - intros ns a b tid _ (g & la & Ht & Hla) (g' & lb & Ht' & Hlb) _.
    pose proof (label_agrees ns g' g b lb Ht' Ht Hlb) as Hlb'.
    eapply makes_law; [exact Ht|exact (combine_label_spec ns g a b la lb Ht Hla Hlb')|].
    intros l o Hl. cbn in Hl. by rewrite (Hl o), (bdd_offs_label ns g a la), (bdd_offs_label ns g b lb).
  - intros ns offset tid [g Ht] Ho _. eapply makes_law; [exact Ht|exact (insert_spec ns g offset Ht Ho)|].
    intros l o ->. apply list_elem_of_singleton.
Defined.
End BddTagFacts.
