(* ===== verification/TagProps.v ===== *)
(** The properties of the tags of bdd_tag.cpp and of the shadow state of tagmap.cpp. *)

From Stdlib Require Import Sorted.
From S2P Require Import Prelude Examples TagTraits Tagmap TagmapFacts BddTag BddTagFacts.

Module TagProps.
Import Examples TagTraits Tagmap TagmapFacts BddTag BddTagFacts.

(** ** Labels *)

(** [find] returns a list of segments of one offset each, the increasing list [l]. *)
Definition lists (ns : bdd_nodes) (lb : N) (l : list N) : Prop :=
  StronglySorted N.lt l /\
  exists segs, find lb ns = Done segs ns /\ seg_begin <$> segs = l /\
    seg_end <$> segs = (fun o => o + 1) <$> l.

Lemma sorted_snoc (l : list N) x :
  StronglySorted N.lt l -> (forall y, y ∈ l -> y < x) -> StronglySorted N.lt (l ++ [x]).
Proof.
  induction l as [|z l IH]; intros Hs Hx; cbn; [by repeat constructor|].
  inversion Hs as [|? ? Hs' Hall]; subst. constructor.
  - apply IH; [done|]. intros y Hy. apply Hx. apply elem_of_cons. by right.
  - apply Forall_app. split; [exact Hall|]. repeat constructor. apply Hx, elem_of_cons. by left.
Qed.

Lemma descending_rev l : descending l -> StronglySorted N.lt (rev l).
Proof.
  induction l as [|x l IH]; intros Hd; cbn; [constructor|].
  apply sorted_snoc; [apply IH, (proj1 (StronglySorted_inv Hd))|].
  intros y Hy. rewrite elem_of_rev in Hy. by eapply descending_head.
Qed.

(** A label of a consistent trie lists its offsets. *)
Lemma label_lists ns g lb l : trie_ok ns g -> label g lb l -> lists ns lb (rev l).
Proof.
  intros Ht Hl. split.
  - apply descending_rev. destruct Hl as (k & Hg & _).
    destruct (gh_nd _ _ _ _ _ Ht Hg) as (n & _ & Hok). by apply (no_desc _ _ _ _ _ _ Hok).
  - destruct (wp_total _ _ _ (find_spec ns g lb l Ht Hl)) as (segs & ns' & Hr & -> & Hb & Hf).
    exists segs. split; [done|]. split; [done|]. rewrite <- Hb, <- list_fmap_compose.
    apply list_fmap_ext. intros i s Hs. by apply (proj1 (Forall_lookup _ _) Hf i).
Qed.

Lemma lists_inj ns lb l l' : lists ns lb l -> lists ns lb l' -> l = l'.
Proof. intros (_ & s & Hs & <- & _) (_ & s' & Hs' & <- & _). congruence. Qed.

Lemma later_lists ns ns' t l :
  bdd_later ns ns' -> bdd_ok ns t -> lists ns t l -> lists ns' t l.
Proof.
  intros Hlat (g & lt & Ht & Hl) Hls. destruct (Hlat g t lt Ht Hl) as (g' & Ht' & Hl').
  rewrite (lists_inj _ _ _ _ Hls (label_lists _ _ _ _ Ht Hl)). by apply (label_lists _ g').
Qed.

Lemma ok_lists ns t : bdd_ok ns t -> exists l, lists ns t l /\ forall o, o ∈ l <-> bdd_offs ns t o.
Proof.
  intros (g & l & Ht & Hl). exists (rev l). split; [by apply (label_lists ns g)|].
  intros o. by rewrite elem_of_rev, (bdd_offs_label ns g t l).
Qed.

(** C14: [combine] returns a label that lists the union of what the two labels list, keeps what
    every label lists, and ends the process only when the 2^24 - 1 labels are used up. *)
Theorem combine_union ns l1 l2 L1 L2 :
  bdd_inv ns -> bdd_ok ns l1 -> bdd_ok ns l2 -> lists ns l1 L1 -> lists ns l2 L2 ->
  wp (combine l1 l2)
    (fun r ns' => bdd_inv ns' /\ bdd_ok ns' r /\
       (exists L, lists ns' r L /\ forall o, o ∈ L <-> o ∈ L1 \/ o ∈ L2) /\
       forall t l, bdd_ok ns t -> lists ns t l -> bdd_ok ns' t /\ lists ns' t l)
    (fun x ns' => x = DivideByZero /\ 2 ^ 24 - 1 <= N.of_nat (length ns')) ns.
Proof.
  intros Hi H1 H2 HL1 HL2.
  destruct (ok_lists ns l1 H1) as (L1' & HL1' & Ho1). rewrite (lists_inj _ _ _ _ HL1' HL1) in Ho1.
  destruct (ok_lists ns l2 H2) as (L2' & HL2' & Ho2). rewrite (lists_inj _ _ _ _ HL2' HL2) in Ho2.
  eapply wp_cons; [exact (tag_combine_spec ns l1 l2 0 Hi H1 H2 I)| |done].
  intros r ns' (Hi' & Hl & Hok & Ho). split; [done|]. split; [done|]. split.
  - destruct (ok_lists ns' r Hok) as (L & HL & HoL). exists L. split; [done|].
    intros o. rewrite HoL, Ho1, Ho2. apply Ho.
  - intros t l Ht Hlt. split; [exact (tag_later_ok ns ns' t Hl Ht)|exact (later_lists ns ns' t l Hl Ht Hlt)].
Qed.

(** [insert] returns a label that lists the one offset given, for offsets below
    2^24 - 1, and keeps what every label lists. *)
Theorem insert_singleton ns pos :
  bdd_inv ns -> pos < 2 ^ 24 - 1 ->
  wp (insert_offset pos)
    (fun r ns' => bdd_inv ns' /\ bdd_ok ns' r /\ lists ns' r [pos] /\
       forall t l, bdd_ok ns t -> lists ns t l -> bdd_ok ns' t /\ lists ns' t l)
    (fun x ns' => x = DivideByZero /\ 2 ^ 24 - 1 <= N.of_nat (length ns')) ns.
Proof.
  intros [g Hg] Hp. eapply wp_cons; [exact (insert_spec ns g pos Hg Hp)| |done].
  intros r ns' (g' & l & Ht' & Hpre & Hl & ->). split; [by exists g'|]. split; [by exists g', [pos]|].
  split; [by apply (label_lists _ _ _ _ Ht' Hl)|].
  intros t lt (g0 & l0 & Ht0 & Hl0) Hlt.
  assert (label g' t l0) as Hl0'.
  { eapply label_prefix; [exact Hpre|]. by apply (label_agrees ns g0 g). }
  split; [by exists g', l0|].
  rewrite (lists_inj _ _ _ _ Hlt (label_lists _ _ _ _ Ht0 Hl0)). by apply (label_lists _ g').
Qed.

(** Concrete labels: {3}, {5} and their union. *)
Definition ex_ns : bdd_nodes :=
  run_state [] ((a ← insert_offset 3; insert_offset 5) BDDTag_new).

Lemma new_inv : bdd_inv BDDTag_new.
Proof. exists [(Root, [])]. exact new_spec. Qed.

Lemma insert_singleton_witness :
  exists r ns', insert_offset 3 BDDTag_new = Done r ns' /\ lists ns' r [3].
Proof.
  destruct (wp_returns _ _ _ _ (insert_singleton BDDTag_new 3 new_inv ltac:(vm_compute; reflexivity)))
    as (r & ns' & Hr & _ & _ & Hl & _); [vm_compute; reflexivity|].
  exists r, ns'. split; [exact Hr|exact Hl].
Defined.

Lemma ex_ns_ok :
  bdd_inv ex_ns /\ bdd_ok ex_ns 2 /\ bdd_ok ex_ns 4 /\ lists ex_ns 2 [3] /\ lists ex_ns 4 [5].
Proof.
  destruct (wp_returns _ _ _ _ (insert_spec BDDTag_new [(Root, [])] 3 new_spec eq_refl))
    as (r & ns' & Hr & g' & l & Ht' & Hp & Hl & ->); [vm_compute; reflexivity|].
  vm_compute in Hr. injection Hr as <- <-.
  destruct (wp_returns _ _ _ _ (insert_spec _ g' 5 Ht' eq_refl))
    as (r & ns2 & Hr & g2 & l & Ht2 & Hp2 & Hl2 & ->); [vm_compute; reflexivity|].
  vm_compute in Hr. injection Hr as <- <-.
  assert (label g2 2 [3]) as Hl3 by (by eapply label_prefix).
  split; [by exists g2|]. split; [by exists g2, [3]|]. split; [by exists g2, [5]|].
  split; [exact (label_lists _ _ _ _ Ht2 Hl3)|exact (label_lists _ _ _ _ Ht2 Hl2)].
Qed.

Lemma combine_union_witness :
  exists r ns', combine 2 4 ex_ns = Done r ns' /\
    exists L, lists ns' r L /\ forall o, o ∈ L <-> o ∈ [3] \/ o ∈ [5].
Proof.
  destruct ex_ns_ok as (Hi & H2 & H4 & L2 & L4).
  destruct (wp_returns _ _ _ _ (combine_union ex_ns 2 4 [3] [5] Hi H2 H4 L2 L4))
    as (r & ns' & Hr & _ & _ & HL & _); [vm_compute; reflexivity|].
  exists r, ns'. split; [exact Hr|exact HL].
Defined.

(** Equal sets may have different labels: a second left edge cuts off what was below the first. *)
Example insert_not_canonical :
  (a ← insert_offset 5; _ ← insert_offset 2; b ← insert_offset 5; mret (a =? b)) BDDTag_new =
  Done false (run_state [] ((_ ← insert_offset 5; _ ← insert_offset 2; insert_offset 5) BDDTag_new)).
Proof. vm_compute. reflexivity. Qed.
(** ** Shadow memory *)

Section shadow.
Context {B tag : Type} `{TagOps B tag}.
Implicit Types (e : engine B tag) (t : tag).

(** The abstract specification of the shadow memory: a function from the addresses of the user
    half to tags. *)
Definition flat : Type := N -> tag.
Definition flat_set (addr : N) (t : tag) (f : flat) : flat :=
  fun a => if decide (a = addr) then t else f a.
Definition refines (dir : tag_dir_t tag) (f : flat) : Prop :=
  forall a, a <= last_address -> shadow dir a = f a.

(** C13: the two-level directory implements a flat map from addresses to tags.  At an address of
    the user half a read returns the tag of the map and a write updates the map there only;
    beyond it a write does nothing and a read dereferences a null pointer.  Neither touches the
    registers or the state of the tags. *)
Theorem tagmap_refines_flat e (f : flat) addr t :
  refines (tag_dir e) f -> (tag_is_empty t = true -> t = cleared_val) ->
  tagmap_getb addr e = (if last_address <? addr then Exit NullPointer e else Done (f addr) e) /\
  exists dir, tagmap_setb addr t e = Done tt (mk_engine (backend e) dir (gpr e)) /\
    if last_address <? addr then dir = tag_dir e else refines dir (flat_set addr t f).
Proof.
  intros Hr Ht. unfold tagmap_getb, tagmap_setb, modify, gets, mbind, prog_bind.
  destruct (N.ltb_spec last_address addr) as [Hgt|Hle].
  - unfold tag_dir_getb_as_ptr, tag_dir_setb_save_mem. rewrite (proj2 (N.ltb_lt _ _)) by done.
    split; [done|]. by eexists.
  - rewrite getb_shadow by done. split; [by rewrite (Hr addr)|]. eexists. split; [done|].
    intros a Ha. rewrite save_mem_shadow by done. unfold flat_set. case_decide; [done|by apply Hr].
Qed.

(** The directory that saves memory, by not allocating pages for empty tags, reads as the
    one that allocates always, at every address and after every write. *)
Theorem save_mem_same (dir : tag_dir_t tag) addr t a :
  (tag_is_empty t = true -> t = cleared_val) ->
  tag_dir_getb_as_ptr (tag_dir_setb_save_mem dir addr t) a =
  tag_dir_getb_as_ptr (tag_dir_setb dir addr t) a.
Proof.
  intros Ht. destruct (N.ltb_spec last_address a) as [Ha|Ha].
  - unfold tag_dir_getb_as_ptr. by rewrite (proj2 (N.ltb_lt _ _)) by done.
  - rewrite !getb_shadow by done. f_equal. destruct (N.ltb_spec last_address addr) as [Hd|Hd].
    + unfold tag_dir_setb_save_mem, tag_dir_setb. by rewrite (proj2 (N.ltb_lt _ _)) by done.
    + by rewrite save_mem_shadow, setb_shadow.
Qed.
End shadow.

Section ranges.
Context {B tag : Type} `{TagLaws B tag}.
Implicit Types (e : engine B tag).

(** C34: [tagmap_clrn] clears the bytes of a range of the user half and leaves the offsets of
    every other byte of memory and of every register. *)
Theorem clrn_clears addr n e :
  engine_inv e -> addr + n <= last_address + 1 -> n < 2 ^ 32 ->
  wp (tagmap_clrn addr n)
    (fun _ e' => engine_inv e' /\
       (forall i, i < n -> tagmap_getb (addr + i) e' = Done cleared_val e') /\
       forall l o, mapped l -> (forall i, i < n -> l <> Mem (addr + i)) ->
         offs e' l o <-> offs e l o) (fun _ _ => False) e.
Proof.
  intros Hi Ha Hn. eapply wp_mono; [by apply clrn_spec|].
  intros [] e' (Hi' & Hl & Hset & Hrest). split; [done|]. split; [|done].
  intros i Hlt. assert (mapped (Mem (addr + i))) as Hm by (unfold mapped, last_address in *; lia).
  assert (tag_at e' (Mem (addr + i)) = cleared_val) as Hc.
  { eapply tag_empty_offs; [by apply Hi'|by apply tag_at_ok|]. intros o Ho.
    by apply (proj1 (Hset i o Hlt)). }
  cbn in Hc, Hm. unfold tagmap_getb, gets, mbind, prog_bind. by rewrite getb_shadow, Hc.
Qed.

(** C33: [tagmap_getn] returns a tag with exactly the offsets of the bytes of the range, and
    changes the offsets of no byte. *)
Theorem getn_union addr n e :
  engine_inv e -> tag_thread 0 -> addr + n <= last_address + 1 ->
  wp (tagmap_getn addr n)
    (fun t e' => engine_inv e' /\ tag_ok (backend e') t /\
       (forall o, tag_offs (backend e') t o <-> exists i, i < n /\ offs e (Mem (addr + i)) o) /\
       forall l o, mapped l -> offs e' l o <-> offs e l o) ends e.
Proof.
  intros Hi H0t Ha. unfold last_address in Ha. unfold tagmap_getn.
  destruct (tag_cleared _ (proj1 Hi)) as [Hok Hno].
  eapply wp_mono; [apply (getn_spec _ (fun i => Mem (addr + i)) _ _ _ e (fun _ => False))|].
  - done.
  - done.
  - intros j Hj. cbn. unfold last_address. lia.
  - intros j e0 Hj. cbn. unfold add64. by rewrite w64_small by lia.
  - done.
  - intros o. split; [by apply Hno|done].
  - intros t e' (Hi' & Hl & Hs & Hokt & Ho). split; [done|]. split; [done|]. split.
    + intros o. rewrite Ho. split; [intros [[]|(j & Hj & Hoj)]|intros (j & Hj & Hoj); right];
        exists j; (split; [lia|done]).
    + intros l o Hm. by apply same_offs.
Qed.

(** A range that wraps around the end of the 64-bit address space is not cleared at all:
    the loop compares with the wrapped end and stops at once. *)
Theorem clrn_wraps_keeps addr n e :
  addr < 2 ^ 64 -> n < 2 ^ 32 -> 2 ^ 64 <= addr + n -> tagmap_clrn addr n e = Done tt e.
Proof. apply clrn_wraps. Qed.
End ranges.

(** A state with sets as tags: byte 16 is {3}, byte 17 is {5, 6}. *)
Definition ex_engine : engine unit (gset N) :=
  run_state (mk_engine tt ∅ ∅) ((_ ← tagmap_setb 16 {[ 3 ]}; tagmap_setb 17 {[ 5; 6 ]})
    (mk_engine tt ∅ ∅)).

Lemma ex_engine_inv : engine_inv ex_engine.
Proof. split; [exact I|]. intros l _. exact I. Qed.

Lemma tagmap_refines_flat_witness :
  tagmap_getb 17 ex_engine = Done {[ 5; 6 ]} ex_engine /\
  exists dir, tagmap_setb 17 {[ 9 ]} ex_engine = Done tt (mk_engine tt dir (gpr ex_engine)) /\
    refines dir (flat_set 17 {[ 9 ]} (shadow (tag_dir ex_engine))).
Proof.
  destruct (tagmap_refines_flat ex_engine (shadow (tag_dir ex_engine)) 17 {[ 9 ]})
    as [Hg (dir & Hs & Hr)]; [intros a _; reflexivity|vm_compute; discriminate|].
  split.
  - transitivity (Done (shadow (tag_dir ex_engine) 17) ex_engine); [exact Hg|].
    f_equal; vm_compute; reflexivity.
  - exists dir. split; [exact Hs|exact Hr].
Defined.

Lemma save_mem_same_witness :
  tag_dir_getb_as_ptr (tag_dir_setb_save_mem (tag_dir ex_engine) 17 (∅ : gset N)) 17 =
  tag_dir_getb_as_ptr (tag_dir_setb (tag_dir ex_engine) 17 (∅ : gset N)) 17.
Proof. apply (save_mem_same (tag_dir ex_engine) 17 (∅ : gset N) 17). intros _. reflexivity. Defined.

Lemma clrn_clears_witness :
  exists e', tagmap_clrn 16 2 ex_engine = Done tt e' /\
    forall i, i < 2 -> tagmap_getb (16 + i) e' = Done cleared_val e'.
Proof.
  destruct (wp_total _ _ _ (clrn_clears 16 2 ex_engine ex_engine_inv
    ltac:(unfold last_address; lia) ltac:(lia))) as ([] & e' & Hr & _ & Hc & _).
  exists e'. split; [exact Hr|exact Hc].
Defined.

Lemma getn_union_witness :
  exists t e', tagmap_getn 16 2 ex_engine = Done t e' /\
    forall o, o ∈ t <-> exists i, i < 2 /\ offs ex_engine (Mem (16 + i)) o.
Proof.
  destruct (wp_total _ _ _ (getn_union 16 2 ex_engine ex_engine_inv I
    ltac:(unfold last_address; lia))) as (t & e' & Hr & _ & _ & Ho & _).
  exists t, e'. split; [exact Hr|exact Ho].
Defined.

Lemma clrn_wraps_keeps_witness :
  tagmap_clrn (2 ^ 64 - 1) 16 ex_engine = Done tt ex_engine.
Proof. apply clrn_wraps_keeps; vm_compute; [reflexivity|reflexivity|discriminate]. Defined.
End TagProps.
