(* ===== verification/Regs.v ===== *)
(** The registers: the numbers of src/def.h, under which the shadow state keeps them, and the
    mapping [REG_INDX] of src/ins_helper.h from the registers of the instrumentation framework,
    of which [REG] has the ones that the source names.  A register shares its number with its
    parts: the tags of AL are the first of those of RAX, the tags of AH the second. *)

From S2P Require Import Prelude.

Module Regs.

Definition DFT_REG_RDI : N := 3.
Definition DFT_REG_RSI : N := 4.
Definition DFT_REG_RBP : N := 5.
Definition DFT_REG_RSP : N := 6.
Definition DFT_REG_RBX : N := 7.
Definition DFT_REG_RDX : N := 8.
Definition DFT_REG_RCX : N := 9.
Definition DFT_REG_RAX : N := 10.
Definition DFT_REG_R8 : N := 11.
Definition DFT_REG_R9 : N := 12.
Definition DFT_REG_R10 : N := 13.
Definition DFT_REG_R11 : N := 14.
Definition DFT_REG_R12 : N := 15.
Definition DFT_REG_R13 : N := 16.
Definition DFT_REG_R14 : N := 17.
Definition DFT_REG_R15 : N := 18.
Definition DFT_REG_XMM0 : N := 19.
Definition DFT_REG_XMM1 : N := 20.
Definition DFT_REG_XMM2 : N := 21.
Definition DFT_REG_XMM3 : N := 22.
Definition DFT_REG_XMM4 : N := 23.
Definition DFT_REG_XMM5 : N := 24.
Definition DFT_REG_XMM6 : N := 25.
Definition DFT_REG_XMM7 : N := 26.
Definition DFT_REG_XMM8 : N := 27.
Definition DFT_REG_XMM9 : N := 28.
Definition DFT_REG_XMM10 : N := 29.
Definition DFT_REG_XMM11 : N := 30.
Definition DFT_REG_XMM12 : N := 31.
Definition DFT_REG_XMM13 : N := 32.
Definition DFT_REG_XMM14 : N := 33.
Definition DFT_REG_XMM15 : N := 34.
Definition DFT_REG_ST0 : N := 35.
Definition DFT_REG_ST1 : N := 36.
Definition DFT_REG_ST2 : N := 37.
Definition DFT_REG_ST3 : N := 38.
Definition DFT_REG_ST4 : N := 39.
Definition DFT_REG_ST5 : N := 40.
Definition DFT_REG_ST6 : N := 41.
Definition DFT_REG_ST7 : N := 42.
Definition DFT_REG_HELPER1 : N := 0.
Definition DFT_REG_HELPER2 : N := 1.
Definition DFT_REG_HELPER3 : N := 2.
Definition GRP_NUM : N := 43.
Definition TAGS_PER_GPR : N := 32.

Inductive REG :=
  | REG_RDI | REG_EDI | REG_DI | REG_DIL | REG_RSI | REG_ESI | REG_SI | REG_SIL | REG_RBP
  | REG_EBP | REG_BP | REG_BPL | REG_RSP | REG_ESP | REG_SP | REG_SPL | REG_RAX | REG_EAX
  | REG_AX | REG_AH | REG_AL | REG_RBX | REG_EBX | REG_BX | REG_BH | REG_BL | REG_RCX | REG_ECX
  | REG_CX | REG_CH | REG_CL | REG_RDX | REG_EDX | REG_DX | REG_DH | REG_DL | REG_R8 | REG_R8D
  | REG_R8W | REG_R8B | REG_R9 | REG_R9D | REG_R9W | REG_R9B | REG_R10 | REG_R10D | REG_R10W
  | REG_R10B | REG_R11 | REG_R11D | REG_R11W | REG_R11B | REG_R12 | REG_R12D | REG_R12W
  | REG_R12B | REG_R13 | REG_R13D | REG_R13W | REG_R13B | REG_R14 | REG_R14D | REG_R14W
  | REG_R14B | REG_R15 | REG_R15D | REG_R15W | REG_R15B | REG_XMM0 | REG_YMM0 | REG_XMM1
  | REG_YMM1 | REG_XMM2 | REG_YMM2 | REG_XMM3 | REG_YMM3 | REG_XMM4 | REG_YMM4 | REG_XMM5
  | REG_YMM5 | REG_XMM6 | REG_YMM6 | REG_XMM7 | REG_YMM7 | REG_XMM8 | REG_YMM8 | REG_XMM9
  | REG_YMM9 | REG_XMM10 | REG_YMM10 | REG_XMM11 | REG_YMM11 | REG_XMM12 | REG_YMM12
  | REG_XMM13 | REG_YMM13 | REG_XMM14 | REG_YMM14 | REG_XMM15 | REG_YMM15 | REG_MM0 | REG_ST0
  | REG_MM1 | REG_ST1 | REG_MM2 | REG_ST2 | REG_MM3 | REG_ST3 | REG_MM4 | REG_ST4 | REG_MM5
  | REG_ST5 | REG_MM6 | REG_ST6 | REG_MM7 | REG_ST7 | REG_ZMM0 | REG_ZMM1 | REG_ZMM2 | REG_ZMM3
  | REG_ZMM4 | REG_ZMM5 | REG_ZMM6 | REG_ZMM7
  | REG_INVALID | REG_OTHER (n : N).

Scheme Boolean Equality for REG.

Definition REG_INDX (r : REG) : N :=
  match r with
  | REG_RDI | REG_EDI | REG_DI | REG_DIL => DFT_REG_RDI
  | REG_RSI | REG_ESI | REG_SI | REG_SIL => DFT_REG_RSI
  | REG_RBP | REG_EBP | REG_BP | REG_BPL => DFT_REG_RBP
  | REG_RSP | REG_ESP | REG_SP | REG_SPL => DFT_REG_RSP
  | REG_RAX | REG_EAX | REG_AX | REG_AH | REG_AL => DFT_REG_RAX
  | REG_RBX | REG_EBX | REG_BX | REG_BH | REG_BL => DFT_REG_RBX
  | REG_RCX | REG_ECX | REG_CX | REG_CH | REG_CL => DFT_REG_RCX
  | REG_RDX | REG_EDX | REG_DX | REG_DH | REG_DL => DFT_REG_RDX
  | REG_R8 | REG_R8D | REG_R8W | REG_R8B => DFT_REG_R8
  | REG_R9 | REG_R9D | REG_R9W | REG_R9B => DFT_REG_R9
  | REG_R10 | REG_R10D | REG_R10W | REG_R10B => DFT_REG_R10
  | REG_R11 | REG_R11D | REG_R11W | REG_R11B => DFT_REG_R11
  | REG_R12 | REG_R12D | REG_R12W | REG_R12B => DFT_REG_R12
  | REG_R13 | REG_R13D | REG_R13W | REG_R13B => DFT_REG_R13
  | REG_R14 | REG_R14D | REG_R14W | REG_R14B => DFT_REG_R14
  | REG_R15 | REG_R15D | REG_R15W | REG_R15B => DFT_REG_R15
  | REG_XMM0 | REG_YMM0 => DFT_REG_XMM0
  | REG_XMM1 | REG_YMM1 => DFT_REG_XMM1
  | REG_XMM2 | REG_YMM2 => DFT_REG_XMM2
  | REG_XMM3 | REG_YMM3 => DFT_REG_XMM3
  | REG_XMM4 | REG_YMM4 => DFT_REG_XMM4
  | REG_XMM5 | REG_YMM5 => DFT_REG_XMM5
  | REG_XMM6 | REG_YMM6 => DFT_REG_XMM6
  | REG_XMM7 | REG_YMM7 => DFT_REG_XMM7
  | REG_XMM8 | REG_YMM8 => DFT_REG_XMM8
  | REG_XMM9 | REG_YMM9 => DFT_REG_XMM9
  | REG_XMM10 | REG_YMM10 => DFT_REG_XMM10
  | REG_XMM11 | REG_YMM11 => DFT_REG_XMM11
  | REG_XMM12 | REG_YMM12 => DFT_REG_XMM12
  | REG_XMM13 | REG_YMM13 => DFT_REG_XMM13
  | REG_XMM14 | REG_YMM14 => DFT_REG_XMM14
  | REG_XMM15 | REG_YMM15 => DFT_REG_XMM15
  | REG_MM0 | REG_ST0 => DFT_REG_ST0
  | REG_MM1 | REG_ST1 => DFT_REG_ST1
  | REG_MM2 | REG_ST2 => DFT_REG_ST2
  | REG_MM3 | REG_ST3 => DFT_REG_ST3
  | REG_MM4 | REG_ST4 => DFT_REG_ST4
  | REG_MM5 | REG_ST5 => DFT_REG_ST5
  | REG_MM6 | REG_ST6 => DFT_REG_ST6
  | REG_MM7 | REG_ST7 => DFT_REG_ST7
  | _ => GRP_NUM
  end.

End Regs.
