(* ===== verification/InsOps.v ===== *)
(** The analysis routines that combine and clear tags: src/ins_binary_op.cpp,
    src/ins_unitary_op.cpp and src/ins_clear_op.cpp, with the macros of src/ins_helper.h.  A
    routine runs before an instruction, with the thread, the numbers of the registers and the
    addresses of the memory operands. *)

From S2P Require Import Prelude TagTraits Tagmap Regs.

Module InsOps.
Import TagTraits Tagmap Regs.

(** ** Operands *)

(** The bytes of an operand: [RTAG[r][i]], and the bytes from an address on. *)
Definition reg (tid r : N) : N -> loc := Reg tid r.
Definition mem (addr : N) : N -> loc := fun i => Mem (add64 addr i).

Section ops.
Context {B tag : Type} `{TagOps B tag}.
Notation prog := (prog (engine B tag)).

(** ** Steps and loops *)

(** The assignment of one byte, and that of a combination. *)
Definition xfer_byte (dst src : loc) : prog unit :=
  t ← get_tag src; set_tag_at dst t.
Definition combine_to (dst : loc) (a b : tag) (tid : N) : prog unit :=
  r ← on_backend (tag_combine a b tid); set_tag_at dst r.
Definition binary_byte (tid : N) (dst src : loc) : prog unit :=
  d ← get_tag dst; s ← get_tag src; combine_to dst d s tid.

(** The loops [for (size_t i = 0; i < n; i++)] over the bytes of two operands. *)
Definition xfer_n (n : nat) (dst src : N -> loc) : prog unit :=
  for_loop n 0 (fun i => xfer_byte (dst i) (src i)).
Definition binary_n (n : nat) (tid : N) (dst src : N -> loc) : prog unit :=
  for_loop n 0 (fun i => binary_byte tid (dst i) (src i)).

(** Local arrays of tags: [R16TAG] to [R64TAG] and [M16TAG] to [M64TAG] copy the bytes of an
    operand when the array is initialised. *)
Fixpoint tags_from (n : nat) (i : N) (src : N -> loc) : prog (list tag) :=
  match n with
  | O => mret []
  | S n => t ← get_tag (src i); ts ← tags_from n (i + 1) src; mret (t :: ts)
  end.
Definition tags (n : nat) (src : N -> loc) : prog (list tag) := tags_from n 0 src.
Definition nth_tag (ts : list tag) (i : N) : tag := default cleared_val (ts !! N.to_nat i).

(** ** ins_binary_op.cpp *)

Definition r2r_binary_opb_ul (tid dst src : N) : prog unit :=
  src_tag ← get_tag (reg tid src 0);
  dst_tag ← get_tag (reg tid dst 1);
  combine_to (reg tid dst 1) dst_tag src_tag tid.
Definition r2r_binary_opb_lu (tid dst src : N) : prog unit :=
  src_tag ← get_tag (reg tid src 1);
  dst_tag ← get_tag (reg tid dst 0);
  combine_to (reg tid dst 0) dst_tag src_tag tid.
Definition r2r_binary_opb_u (tid dst src : N) : prog unit :=
  src_tag ← get_tag (reg tid src 1);
  dst_tag ← get_tag (reg tid dst 1);
  combine_to (reg tid dst 1) dst_tag src_tag tid.
Definition r2r_binary_opb_l (tid dst src : N) : prog unit :=
  src_tag ← get_tag (reg tid src 0);
  dst_tag ← get_tag (reg tid dst 0);
  combine_to (reg tid dst 0) dst_tag src_tag tid.

Definition r2r_binary_opw (tid dst src : N) : prog unit :=
  binary_n 2 tid (reg tid dst) (reg tid src).
Definition r2r_binary_opl (tid dst src : N) : prog unit :=
  binary_n 4 tid (reg tid dst) (reg tid src).
Definition r2r_binary_opq (tid dst src : N) : prog unit :=
  binary_n 8 tid (reg tid dst) (reg tid src).
Definition r2r_binary_opx (tid dst src : N) : prog unit :=
  binary_n 16 tid (reg tid dst) (reg tid src).
Definition r2r_binary_opy (tid dst src : N) : prog unit :=
  binary_n 32 tid (reg tid dst) (reg tid src).

Definition m2r_binary_opb_u (tid dst src : N) : prog unit :=
  src_tag ← tagmap_getb src;
  dst_tag ← get_tag (reg tid dst 1);
  combine_to (reg tid dst 1) src_tag dst_tag tid.
Definition m2r_binary_opb_l (tid dst src : N) : prog unit :=
  src_tag ← tagmap_getb src;
  dst_tag ← get_tag (reg tid dst 0);
  combine_to (reg tid dst 0) src_tag dst_tag tid.
Definition m2r_binary_opw (tid dst src : N) : prog unit := binary_n 2 tid (reg tid dst) (mem src).
Definition m2r_binary_opl (tid dst src : N) : prog unit := binary_n 4 tid (reg tid dst) (mem src).
Definition m2r_binary_opq (tid dst src : N) : prog unit := binary_n 8 tid (reg tid dst) (mem src).
Definition m2r_binary_opx (tid dst src : N) : prog unit := binary_n 16 tid (reg tid dst) (mem src).
Definition m2r_binary_opy (tid dst src : N) : prog unit := binary_n 32 tid (reg tid dst) (mem src).

Definition r2m_binary_opb_u (tid dst src : N) : prog unit :=
  src_tag ← get_tag (reg tid src 1);
  dst_tag ← tagmap_getb dst;
  combine_to (Mem dst) dst_tag src_tag tid.
Definition r2m_binary_opb_l (tid dst src : N) : prog unit :=
  src_tag ← get_tag (reg tid src 0);
  dst_tag ← tagmap_getb dst;
  combine_to (Mem dst) dst_tag src_tag tid.
Definition r2m_binary_opw (tid dst src : N) : prog unit := binary_n 2 tid (mem dst) (reg tid src).
Definition r2m_binary_opl (tid dst src : N) : prog unit := binary_n 4 tid (mem dst) (reg tid src).
Definition r2m_binary_opq (tid dst src : N) : prog unit := binary_n 8 tid (mem dst) (reg tid src).
Definition r2m_binary_opx (tid dst src : N) : prog unit := binary_n 16 tid (mem dst) (reg tid src).
Definition r2m_binary_opy (tid dst src : N) : prog unit := binary_n 32 tid (mem dst) (reg tid src).

(** ** ins_unitary_op.cpp *)

Definition r2r_unitary_opb_u (tid src : N) : prog unit :=
  tmp_tag ← get_tag (reg tid src 1);
  t0 ← get_tag (reg tid DFT_REG_RAX 0);
  _ ← combine_to (reg tid DFT_REG_RAX 0) t0 tmp_tag tid;
  t1 ← get_tag (reg tid DFT_REG_RAX 1);
  combine_to (reg tid DFT_REG_RAX 1) t1 tmp_tag tid.
Definition r2r_unitary_opb_l (tid src : N) : prog unit :=
  tmp_tag ← get_tag (reg tid src 0);
  t0 ← get_tag (reg tid DFT_REG_RAX 0);
  _ ← combine_to (reg tid DFT_REG_RAX 0) t0 tmp_tag tid;
  t1 ← get_tag (reg tid DFT_REG_RAX 1);
  combine_to (reg tid DFT_REG_RAX 1) t1 tmp_tag tid.

Definition r2r_unitary_opw (tid src : N) : prog unit :=
  tmp_tag ← tags 2 (reg tid src);
  dst1_tag ← tags 2 (reg tid DFT_REG_RDX);
  dst2_tag ← tags 2 (reg tid DFT_REG_RAX);
  _ ← combine_to (reg tid DFT_REG_RDX 0) (nth_tag dst1_tag 0) (nth_tag tmp_tag 0) tid;
  _ ← combine_to (reg tid DFT_REG_RDX 1) (nth_tag dst1_tag 1) (nth_tag tmp_tag 1) tid;
  _ ← combine_to (reg tid DFT_REG_RAX 0) (nth_tag dst2_tag 0) (nth_tag tmp_tag 0) tid;
  combine_to (reg tid DFT_REG_RAX 1) (nth_tag dst2_tag 1) (nth_tag tmp_tag 1) tid.

(** The common form of the wider ones, which differ in the operand and its width. *)
Definition unitary_n (n : nat) (tid : N) (src : N -> loc) : prog unit :=
  tmp_tag ← tags n src;
  dst1_tag ← tags n (reg tid DFT_REG_RDX);
  dst2_tag ← tags n (reg tid DFT_REG_RAX);
  for_loop n 0 (fun i =>
    _ ← combine_to (reg tid DFT_REG_RDX i) (nth_tag dst1_tag i) (nth_tag tmp_tag i) tid;
    combine_to (reg tid DFT_REG_RAX i) (nth_tag dst2_tag i) (nth_tag tmp_tag i) tid).
Definition r2r_unitary_opq (tid src : N) : prog unit := unitary_n 8 tid (reg tid src).
Definition r2r_unitary_opl (tid src : N) : prog unit := unitary_n 4 tid (reg tid src).

Definition m2r_unitary_opb (tid src : N) : prog unit :=
  tmp_tag ← tagmap_getb src;
  dst_tag ← tags 2 (reg tid DFT_REG_RAX);
  _ ← combine_to (reg tid DFT_REG_RAX 0) (nth_tag dst_tag 0) tmp_tag tid;
  combine_to (reg tid DFT_REG_RAX 1) (nth_tag dst_tag 1) tmp_tag tid.
Definition m2r_unitary_opw (tid src : N) : prog unit := unitary_n 2 tid (mem src).
Definition m2r_unitary_opq (tid src : N) : prog unit := unitary_n 8 tid (mem src).
Definition m2r_unitary_opl (tid src : N) : prog unit := unitary_n 4 tid (mem src).

(** ** ins_clear_op.cpp *)

Definition clear_byte (l : loc) : prog unit := set_tag_at l cleared_val.

Definition r_clrl4 (tid : N) : prog unit :=
  for_loop 8 0 (fun i =>
    _ ← clear_byte (reg tid DFT_REG_RDX i);
    _ ← clear_byte (reg tid DFT_REG_RCX i);
    _ ← clear_byte (reg tid DFT_REG_RBX i);
    clear_byte (reg tid DFT_REG_RAX i)).
Definition r_clrl2 (tid : N) : prog unit :=
  for_loop 8 0 (fun i =>
    _ ← clear_byte (reg tid DFT_REG_RDX i);
    clear_byte (reg tid DFT_REG_RAX i)).
Definition r_clrb_l (tid r : N) : prog unit := clear_byte (reg tid r 0).
Definition r_clrb_u (tid r : N) : prog unit := clear_byte (reg tid r 1).
Definition clr_n (n : nat) (l : N -> loc) : prog unit := for_loop n 0 (fun i => clear_byte (l i)).
Definition r_clrw (tid r : N) : prog unit := clr_n 2 (reg tid r).
Definition r_clrl (tid r : N) : prog unit := clr_n 4 (reg tid r).
Definition r_clrq (tid r : N) : prog unit := clr_n 8 (reg tid r).
Definition r_clrx (tid r : N) : prog unit := clr_n 16 (reg tid r).
(** Half of the 32 bytes of the register. *)
Definition r_clry (tid r : N) : prog unit := clr_n 16 (reg tid r).
End ops.
End InsOps.
