(* ===== verification/InsXfer.v ===== *)
(** The analysis routines that copy tags: src/ins_xfer_op.cpp, src/ins_movsx_op.cpp and those
    of src/libdft_core.cpp. *)

From S2P Require Import Prelude TagTraits Tagmap Regs InsOps.

Module InsXfer.
Import TagTraits Tagmap Regs InsOps.

Section ops.
Context {B tag : Type} `{TagOps B tag}.
Notation prog := (prog (engine B tag)).

(** ** ins_xfer_op.cpp *)

Definition r2r_xfer_opb_ul (tid dst src : N) : prog unit := xfer_byte (reg tid dst 1) (reg tid src 0).
Definition r2r_xfer_opb_lu (tid dst src : N) : prog unit := xfer_byte (reg tid dst 0) (reg tid src 1).
Definition r2r_xfer_opb_u (tid dst src : N) : prog unit := xfer_byte (reg tid dst 1) (reg tid src 1).
Definition r2r_xfer_opb_l (tid dst src : N) : prog unit := xfer_byte (reg tid dst 0) (reg tid src 0).
Definition r2r_xfer_opw (tid dst src : N) : prog unit := xfer_n 2 (reg tid dst) (reg tid src).
Definition r2r_xfer_opl (tid dst src : N) : prog unit := xfer_n 4 (reg tid dst) (reg tid src).
Definition r2r_xfer_opq (tid dst src : N) : prog unit := xfer_n 8 (reg tid dst) (reg tid src).
Definition r2r_xfer_opx (tid dst src : N) : prog unit := xfer_n 16 (reg tid dst) (reg tid src).
Definition r2r_xfer_opy (tid dst src : N) : prog unit := xfer_n 32 (reg tid dst) (reg tid src).

Definition m2r_xfer_opb_u (tid dst src : N) : prog unit := xfer_byte (reg tid dst 1) (Mem src).
Definition m2r_xfer_opb_l (tid dst src : N) : prog unit := xfer_byte (reg tid dst 0) (Mem src).
Definition m2r_xfer_opw (tid dst src : N) : prog unit := xfer_n 2 (reg tid dst) (mem src).
Definition m2r_xfer_opl (tid dst src : N) : prog unit := xfer_n 4 (reg tid dst) (mem src).
Definition m2r_xfer_opq (tid dst src : N) : prog unit := xfer_n 8 (reg tid dst) (mem src).
Definition m2r_xfer_opx (tid dst src : N) : prog unit := xfer_n 16 (reg tid dst) (mem src).
Definition m2r_xfer_opy (tid dst src : N) : prog unit := xfer_n 32 (reg tid dst) (mem src).

Definition r2m_xfer_opb_u (tid dst src : N) : prog unit := xfer_byte (Mem dst) (reg tid src 1).
Definition r2m_xfer_opb_l (tid dst src : N) : prog unit := xfer_byte (Mem dst) (reg tid src 0).
Definition r2m_xfer_opw (tid dst src : N) : prog unit :=
  _ ← xfer_byte (Mem dst) (reg tid src 0);
  xfer_byte (Mem (add64 dst 1)) (reg tid src 1).
Definition r2m_xfer_opl (tid dst src : N) : prog unit := xfer_n 4 (mem dst) (reg tid src).
Definition r2m_xfer_opq (tid dst src : N) : prog unit := xfer_n 8 (mem dst) (reg tid src).
Definition r2m_xfer_opx (tid dst src : N) : prog unit := xfer_n 16 (mem dst) (reg tid src).
Definition r2m_xfer_opy (tid dst src : N) : prog unit := xfer_n 32 (mem dst) (reg tid src).

Definition m2m_xfer_opb (dst src : N) : prog unit := xfer_byte (Mem dst) (Mem src).
Definition m2m_xfer_opw (dst src : N) : prog unit := xfer_n 2 (mem dst) (mem src).
Definition m2m_xfer_opl (dst src : N) : prog unit := xfer_n 4 (mem dst) (mem src).
Definition m2m_xfer_opq (dst src : N) : prog unit := xfer_n 8 (mem dst) (mem src).

(** The upper half of a 16-byte register. *)
Definition m2r_xfer_opq_h (tid dst src : N) : prog unit :=
  xfer_n 8 (fun i => reg tid dst (i + 8)) (mem src).
Definition r2m_xfer_opq_h (tid dst src : N) : prog unit :=
  xfer_n 8 (mem dst) (fun i => reg tid src (i + 8)).

(** The repeated stores of RAX to [count] elements, [count << sh] bytes, upwards or, with the
    direction flag, downwards; [w] is the number of tags of the array. *)
Definition EFLAGS_DF (eflags : N) : N := N.land eflags 0x0400.
Definition stos_n (w : nat) (sh : N) (tid dst count eflags : N) : prog unit :=
  src_tag ← tags w (reg tid DFT_REG_RAX);
  let n := shl64 count sh in
  if EFLAGS_DF eflags =? 0 then
    for_loop (N.to_nat n) 0 (fun i =>
      tagmap_setb (add64 dst i) (nth_tag src_tag (i mod N.of_nat w)))
  else
    for_loop (N.to_nat n) 0 (fun i =>
      let dst_addr := add64 (add64 (sub64 dst n) 1) i in
      tagmap_setb dst_addr (nth_tag src_tag (i mod N.of_nat w))).
Definition r2m_xfer_opbn (tid dst count eflags : N) : prog unit := stos_n 1 0 tid dst count eflags.
Definition r2m_xfer_opwn (tid dst count eflags : N) : prog unit := stos_n 2 1 tid dst count eflags.
Definition r2m_xfer_opln (tid dst count eflags : N) : prog unit := stos_n 4 2 tid dst count eflags.
(** It shifts by 2, as the one for four bytes does. *)
Definition r2m_xfer_opqn (tid dst count eflags : N) : prog unit := stos_n 8 2 tid dst count eflags.

Definition lea_n (n : nat) (tid dst base index : N) : prog unit :=
  for_loop n 0 (fun i =>
    a ← get_tag (reg tid base i);
    b ← get_tag (reg tid index i);
    combine_to (reg tid dst i) a b tid).
Definition _lea_opw (tid dst base index : N) : prog unit := lea_n 2 tid dst base index.
Definition _lea_opl (tid dst base index : N) : prog unit := lea_n 4 tid dst base index.
Definition _lea_opq (tid dst base index : N) : prog unit := lea_n 8 tid dst base index.

(** With the bytes reversed. *)
Definition m2r_xfer_opw_rev (tid dst src : N) : prog unit :=
  xfer_n 2 (reg tid dst) (fun i => mem src (1 - i)).
Definition m2r_xfer_opl_rev (tid dst src : N) : prog unit :=
  xfer_n 4 (reg tid dst) (fun i => mem src (3 - i)).
Definition m2r_xfer_opq_rev (tid dst src : N) : prog unit :=
  xfer_n 8 (reg tid dst) (fun i => mem src (7 - i)).
Definition r2m_xfer_opw_rev (tid dst src : N) : prog unit :=
  _ ← xfer_byte (Mem dst) (reg tid src 1);
  xfer_byte (Mem (add64 dst 1)) (reg tid src 0).
Definition r2m_xfer_opl_rev (tid dst src : N) : prog unit :=
  xfer_n 4 (fun i => mem dst (3 - i)) (reg tid src).
Definition r2m_xfer_opq_rev (tid dst src : N) : prog unit :=
  xfer_n 8 (fun i => mem dst (7 - i)) (reg tid src).

(** ** ins_movsx_op.cpp *)

(** One tag for all bytes of the destination. *)
Definition spread_n (n : nat) (dst : N -> loc) (src : loc) : prog unit :=
  src_tag ← get_tag src; for_loop n 0 (fun i => set_tag_at (dst i) src_tag).
Definition _movsx_r2r_opwb_u (tid dst src : N) : prog unit := spread_n 2 (reg tid dst) (reg tid src 1).
Definition _movsx_r2r_opwb_l (tid dst src : N) : prog unit := spread_n 2 (reg tid dst) (reg tid src 0).
Definition _movsx_r2r_oplb_u (tid dst src : N) : prog unit := spread_n 4 (reg tid dst) (reg tid src 1).
Definition _movsx_r2r_oplb_l (tid dst src : N) : prog unit := spread_n 4 (reg tid dst) (reg tid src 0).
Definition _movsx_r2r_opqb_u (tid dst src : N) : prog unit := spread_n 8 (reg tid dst) (reg tid src 1).
Definition _movsx_r2r_opqb_l (tid dst src : N) : prog unit := spread_n 8 (reg tid dst) (reg tid src 0).

(** The tags of the source repeated; the registers are read byte by byte. *)
Definition _movsx_r2r_oplw (tid dst src : N) : prog unit :=
  xfer_n 4 (reg tid dst) (fun i => reg tid src (i mod 2)).
Definition _movsx_r2r_opqw (tid dst src : N) : prog unit :=
  xfer_n 8 (reg tid dst) (fun i => reg tid src (i mod 2)).
Definition _movsx_r2r_opql (tid dst src : N) : prog unit :=
  xfer_n 8 (reg tid dst) (fun i => reg tid src (i mod 4)).

Definition _movsx_m2r_opwb (tid dst src : N) : prog unit := spread_n 2 (reg tid dst) (Mem src).
Definition _movsx_m2r_oplb (tid dst src : N) : prog unit := spread_n 4 (reg tid dst) (Mem src).
Definition _movsx_m2r_opqb (tid dst src : N) : prog unit := spread_n 8 (reg tid dst) (Mem src).
Definition movsx_m2r (w : nat) (n : nat) (tid dst src : N) : prog unit :=
  src_tags ← tags w (mem src);
  for_loop n 0 (fun i => set_tag_at (reg tid dst i) (nth_tag src_tags (i mod N.of_nat w))).
Definition _movsx_m2r_oplw (tid dst src : N) : prog unit := movsx_m2r 2 4 tid dst src.
Definition _movsx_m2r_opqw (tid dst src : N) : prog unit := movsx_m2r 2 8 tid dst src.
Definition _movsx_m2r_opql (tid dst src : N) : prog unit := movsx_m2r 4 8 tid dst src.

(** ** libdft_core.cpp *)

Definition _cbw (tid : N) : prog unit := xfer_byte (reg tid DFT_REG_RAX 1) (reg tid DFT_REG_RAX 0).
Definition _cwde (tid : N) : prog unit :=
  _ ← xfer_byte (reg tid DFT_REG_RAX 2) (reg tid DFT_REG_RAX 0);
  xfer_byte (reg tid DFT_REG_RAX 3) (reg tid DFT_REG_RAX 1).
Definition _cdqe (tid : N) : prog unit :=
  xfer_n 4 (fun i => reg tid DFT_REG_RAX (i + 4)) (reg tid DFT_REG_RAX).
Definition _cwd (tid : N) : prog unit :=
  _ ← xfer_byte (reg tid DFT_REG_RDX 0) (reg tid DFT_REG_RAX 0);
  xfer_byte (reg tid DFT_REG_RDX 1) (reg tid DFT_REG_RAX 1).
Definition _cdq (tid : N) : prog unit := xfer_n 4 (reg tid DFT_REG_RDX) (reg tid DFT_REG_RAX).
Definition _cqo (tid : N) : prog unit := xfer_n 8 (reg tid DFT_REG_RDX) (reg tid DFT_REG_RAX).

(** POPA and POPAD: eight registers of [2^sh] bytes from the one numbered [DFT_REG_RDI] on,
    where the test for RSP compares the counter, not the register number. *)
Definition restore_n (w : nat) (sh : N) (tid src : N) : prog unit :=
  for_loop 8 0 (fun i =>
    if i =? DFT_REG_RSP then mret tt
    else
      let offset := if i <? DFT_REG_RSP then N.shiftl i sh else N.shiftl (i - 1) sh in
      src_tag ← tags w (mem (add64 src offset));
      for_loop w 0 (fun j => set_tag_at (reg tid (DFT_REG_RDI + i) j) (nth_tag src_tag j))).
Definition m2r_restore_opw (tid src : N) : prog unit := restore_n 2 1 tid src.
Definition m2r_restore_opl (tid src : N) : prog unit := restore_n 4 2 tid src.

(** PUSHA and PUSHAD: the registers from RDI to R15, at offsets that start at that of RDI. *)
Definition save_n (w : nat) (sh : N) (tid dst : N) : prog unit :=
  for_loop (N.to_nat (DFT_REG_XMM0 - DFT_REG_RDI)) DFT_REG_RDI (fun i =>
    if i =? DFT_REG_RSP then mret tt
    else
      let offset := if i <? DFT_REG_RSP then N.shiftl i sh else N.shiftl (i - 1) sh in
      src_tag ← tags w (reg tid i);
      for_loop w 0 (fun j => tagmap_setb (add64 (add64 dst offset) j) (nth_tag src_tag j))).
Definition r2m_save_opw (tid dst : N) : prog unit := save_n 2 1 tid dst.
Definition r2m_save_opl (tid dst : N) : prog unit := save_n 4 2 tid dst.
End ops.
End InsXfer.
