(* ===== verification/InsXchg.v ===== *)
(** The analysis routines of src/ins_xchg_op.cpp: exchange, compare and exchange, exchange and
    add. *)

From S2P Require Import Prelude TagTraits Tagmap Regs InsOps InsXfer.

Module InsXchg.
Import TagTraits Tagmap Regs InsOps InsXfer.

Section ops.
Context {B tag : Type} `{TagOps B tag}.
Notation prog := (prog (engine B tag)).

(** [for (size_t i = 0; i < n; i++) dst[i] = ts[i]]. *)
Definition put_tags (n : nat) (dst : N -> loc) (ts : list tag) : prog unit :=
  for_loop n 0 (fun i => set_tag_at (dst i) (nth_tag ts i)).

(** ** CMPXCHG *)

(** The first half saves the tags of RAX in the scratch register and gives RAX those of the
    operand; it returns whether the values are equal.  Then the second half runs, which puts
    the tags of RAX back and gives the destination those of the source.  [n] is the width of
    what is saved, [w] that of the operand. *)
Definition cmpxchg_fast (n w : nat) (tid : N) (src : N -> loc) (equal : bool) : prog bool :=
  save_tags ← tags n (reg tid DFT_REG_RAX);
  _ ← put_tags n (reg tid DFT_REG_HELPER1) save_tags;
  src_tags ← tags w src;
  _ ← put_tags w (reg tid DFT_REG_RAX) src_tags;
  mret equal.
Definition cmpxchg_slow (n w : nat) (tid : N) (dst : N -> loc) (src : N) : prog unit :=
  saved_tags ← tags n (reg tid DFT_REG_HELPER1);
  _ ← put_tags n (reg tid DFT_REG_RAX) saved_tags;
  src_tags ← tags w (reg tid src);
  put_tags w dst src_tags.

(** The values are passed as integers of 32 and 16 bits. *)
Definition _cmpxchg_r2r_opq_fast (tid dst_val src src_val : N) : prog bool :=
  cmpxchg_fast 8 8 tid (reg tid src) (w32 dst_val =? w32 src_val).
Definition _cmpxchg_r2r_opl_fast (tid dst_val src src_val : N) : prog bool :=
  cmpxchg_fast 4 4 tid (reg tid src) (w32 dst_val =? w32 src_val).
Definition _cmpxchg_r2r_opq_slow (tid dst src : N) : prog unit :=
  cmpxchg_slow 8 8 tid (reg tid dst) src.
Definition _cmpxchg_r2r_opl_slow (tid dst src : N) : prog unit :=
  cmpxchg_slow 4 4 tid (reg tid dst) src.
Definition _cmpxchg_r2r_opw_fast (tid dst_val src src_val : N) : prog bool :=
  cmpxchg_fast 4 2 tid (reg tid src) (w16 dst_val =? w16 src_val).
Definition _cmpxchg_r2r_opw_slow (tid dst src : N) : prog unit :=
  cmpxchg_slow 4 2 tid (reg tid dst) src.

(** [load] is the memory of the application, from which the value is read. *)
Definition _cmpxchg_m2r_opq_fast (load : N -> N) (tid dst_val src : N) : prog bool :=
  cmpxchg_fast 8 8 tid (mem src) (w32 dst_val =? w32 (load src)).
Definition _cmpxchg_m2r_opl_fast (load : N -> N) (tid dst_val src : N) : prog bool :=
  cmpxchg_fast 4 4 tid (mem src) (w32 dst_val =? w32 (load src)).
Definition _cmpxchg_r2m_opq_slow (tid dst src : N) : prog unit :=
  cmpxchg_slow 8 8 tid (mem dst) src.
Definition _cmpxchg_r2m_opl_slow (tid dst src : N) : prog unit :=
  cmpxchg_slow 4 4 tid (mem dst) src.
Definition _cmpxchg_m2r_opw_fast (load : N -> N) (tid dst_val src : N) : prog bool :=
  cmpxchg_fast 4 2 tid (mem src) (w16 dst_val =? w16 (load src)).
Definition _cmpxchg_r2m_opw_slow (tid dst src : N) : prog unit :=
  cmpxchg_slow 4 2 tid (mem dst) src.

(** ** XCHG *)

Definition swap_byte (dst src : loc) : prog unit :=
  tmp_tag ← get_tag dst;
  src_tag ← get_tag src;
  _ ← set_tag_at dst src_tag;
  set_tag_at src tmp_tag.
Definition _xchg_r2r_opb_ul (tid dst src : N) : prog unit := swap_byte (reg tid dst 1) (reg tid src 0).
Definition _xchg_r2r_opb_lu (tid dst src : N) : prog unit := swap_byte (reg tid dst 0) (reg tid src 1).
Definition _xchg_r2r_opb_u (tid dst src : N) : prog unit := swap_byte (reg tid dst 1) (reg tid src 1).
Definition _xchg_r2r_opb_l (tid dst src : N) : prog unit := swap_byte (reg tid dst 0) (reg tid src 0).

(** Both operands are copied, then written, the first one first. *)
Definition swap_n (n : nat) (dst src : N -> loc) : prog unit :=
  dst_tag ← tags n dst;
  src_tag ← tags n src;
  _ ← put_tags n dst src_tag;
  put_tags n src dst_tag.
Definition _xchg_r2r_opw (tid dst src : N) : prog unit := swap_n 2 (reg tid dst) (reg tid src).
Definition _xchg_m2r_opb_u (tid dst src : N) : prog unit := swap_byte (reg tid dst 1) (Mem src).
Definition _xchg_m2r_opb_l (tid dst src : N) : prog unit := swap_byte (reg tid dst 0) (Mem src).
Definition _xchg_m2r_opw (tid dst src : N) : prog unit := swap_n 2 (reg tid dst) (mem src).
Definition _xchg_m2r_opq (tid dst src : N) : prog unit := swap_n 8 (reg tid dst) (mem src).
Definition _xchg_m2r_opl (tid dst src : N) : prog unit := swap_n 4 (reg tid dst) (mem src).

(** ** XADD *)

Definition xadd_byte (tid : N) (dst src : loc) : prog unit :=
  tmp_tag ← get_tag dst;
  d ← get_tag dst;
  s ← get_tag src;
  _ ← combine_to dst d s tid;
  set_tag_at src tmp_tag.
Definition _xadd_r2r_opb_ul (tid dst src : N) : prog unit := xadd_byte tid (reg tid dst 1) (reg tid src 0).
Definition _xadd_r2r_opb_lu (tid dst src : N) : prog unit := xadd_byte tid (reg tid dst 0) (reg tid src 1).
Definition _xadd_r2r_opb_u (tid dst src : N) : prog unit := xadd_byte tid (reg tid dst 1) (reg tid src 1).
Definition _xadd_r2r_opb_l (tid dst src : N) : prog unit := xadd_byte tid (reg tid dst 0) (reg tid src 0).

Definition _xadd_r2r_opw (tid dst src : N) : prog unit :=
  dst_tag ← tags 2 (reg tid dst);
  src_tag ← tags 2 (reg tid src);
  _ ← combine_to (reg tid dst 0) (nth_tag dst_tag 0) (nth_tag src_tag 0) tid;
  _ ← combine_to (reg tid dst 1) (nth_tag dst_tag 1) (nth_tag src_tag 1) tid;
  _ ← set_tag_at (reg tid src 0) (nth_tag dst_tag 0);
  set_tag_at (reg tid src 1) (nth_tag dst_tag 1).
Definition xadd_r2r_n (n : nat) (tid dst src : N) : prog unit :=
  dst_tag ← tags n (reg tid dst);
  src_tag ← tags n (reg tid src);
  for_loop n 0 (fun i =>
    _ ← combine_to (reg tid dst i) (nth_tag dst_tag i) (nth_tag src_tag i) tid;
    set_tag_at (reg tid src i) (nth_tag dst_tag i)).
Definition _xadd_r2r_opl (tid dst src : N) : prog unit := xadd_r2r_n 4 tid dst src.
Definition _xadd_r2r_opq (tid dst src : N) : prog unit := xadd_r2r_n 8 tid dst src.

Definition xadd_r2m_byte (tid dst : N) (src : loc) : prog unit :=
  src_tag ← get_tag src;
  dst_tag ← tagmap_getb dst;
  _ ← set_tag_at src dst_tag;
  combine_to (Mem dst) dst_tag src_tag tid.
Definition _xadd_r2m_opb_u (tid dst src : N) : prog unit := xadd_r2m_byte tid dst (reg tid src 1).
Definition _xadd_r2m_opb_l (tid dst src : N) : prog unit := xadd_r2m_byte tid dst (reg tid src 0).
Definition _xadd_r2m_opw (tid dst src : N) : prog unit :=
  src_tag ← tags 2 (reg tid src);
  dst_tag ← tags 2 (mem dst);
  _ ← set_tag_at (reg tid src 0) (nth_tag dst_tag 0);
  _ ← set_tag_at (reg tid src 1) (nth_tag dst_tag 1);
  _ ← combine_to (Mem dst) (nth_tag dst_tag 0) (nth_tag src_tag 0) tid;
  combine_to (Mem (add64 dst 1)) (nth_tag dst_tag 1) (nth_tag src_tag 1) tid.
Definition xadd_r2m_n (n : nat) (tid dst src : N) : prog unit :=
  src_tag ← tags n (reg tid src);
  dst_tag ← tags n (mem dst);
  for_loop n 0 (fun i =>
    _ ← combine_to (mem dst i) (nth_tag dst_tag i) (nth_tag src_tag i) tid;
    set_tag_at (reg tid src i) (nth_tag dst_tag i)).
Definition _xadd_r2m_opl (tid dst src : N) : prog unit := xadd_r2m_n 4 tid dst src.
Definition _xadd_r2m_opq (tid dst src : N) : prog unit := xadd_r2m_n 8 tid dst src.
End ops.
End InsXchg.
