(* ===== verification/Instrument.v ===== *)
(** The instrumentation: which analysis routines are inserted before an instruction, from the
    [ins_*_op] functions of the src/ins_*.cpp files and [ins_inspect] of src/libdft_core.cpp.
    The framework that decodes instructions and runs the inserted calls is a parameter, the
    class [Pin], with the functions of it that the source calls.  An inserted call is a
    function of what is known when the instruction is about to run. *)

From S2P Require Import Prelude TagTraits Tagmap Regs InsOps InsXfer InsXchg.

Module Instrument.
Import TagTraits Tagmap Regs InsOps InsXfer InsXchg.

(** ** The framework *)

(** The classes of instructions, of which the source names these. *)
Inductive xed_iclass :=
  | XED_ICLASS_ADC | XED_ICLASS_ADD | XED_ICLASS_ADD_LOCK | XED_ICLASS_ADDPD | XED_ICLASS_ADDSD
  | XED_ICLASS_ADDSS | XED_ICLASS_AND | XED_ICLASS_OR | XED_ICLASS_POR | XED_ICLASS_XOR
  | XED_ICLASS_SBB | XED_ICLASS_SUB | XED_ICLASS_PXOR | XED_ICLASS_SUBSD | XED_ICLASS_PSUBB
  | XED_ICLASS_PSUBW | XED_ICLASS_PSUBD | XED_ICLASS_XORPS | XED_ICLASS_XORPD | XED_ICLASS_DIV
  | XED_ICLASS_IDIV | XED_ICLASS_MUL | XED_ICLASS_IMUL | XED_ICLASS_MULSD | XED_ICLASS_MULPD
  | XED_ICLASS_DIVSD | XED_ICLASS_BSF | XED_ICLASS_BSR | XED_ICLASS_TZCNT | XED_ICLASS_MOV
  | XED_ICLASS_MOVD | XED_ICLASS_MOVQ | XED_ICLASS_MOVAPS | XED_ICLASS_MOVAPD
  | XED_ICLASS_MOVDQU | XED_ICLASS_MOVDQA | XED_ICLASS_MOVUPS | XED_ICLASS_MOVUPD
  | XED_ICLASS_MOVSS | XED_ICLASS_VMOVD | XED_ICLASS_VMOVQ | XED_ICLASS_VMOVAPS
  | XED_ICLASS_VMOVAPD | XED_ICLASS_VMOVDQU | XED_ICLASS_VMOVDQA | XED_ICLASS_VMOVUPS
  | XED_ICLASS_VMOVUPD | XED_ICLASS_VMOVSS | XED_ICLASS_MOVSD_XMM | XED_ICLASS_CVTSI2SD
  | XED_ICLASS_CVTSD2SI | XED_ICLASS_MOVLPD | XED_ICLASS_MOVLPS | XED_ICLASS_MOVHPD
  | XED_ICLASS_MOVHPS | XED_ICLASS_CMOVB | XED_ICLASS_CMOVBE | XED_ICLASS_CMOVL
  | XED_ICLASS_CMOVLE | XED_ICLASS_CMOVNB | XED_ICLASS_CMOVNBE | XED_ICLASS_CMOVNL
  | XED_ICLASS_CMOVNLE | XED_ICLASS_CMOVNO | XED_ICLASS_CMOVNP | XED_ICLASS_CMOVNS
  | XED_ICLASS_CMOVNZ | XED_ICLASS_CMOVO | XED_ICLASS_CMOVP | XED_ICLASS_CMOVS
  | XED_ICLASS_CMOVZ | XED_ICLASS_MOVBE | XED_ICLASS_MOVSX | XED_ICLASS_MOVZX
  | XED_ICLASS_MOVSXD | XED_ICLASS_CBW | XED_ICLASS_CWD | XED_ICLASS_CWDE | XED_ICLASS_CDQ
  | XED_ICLASS_CDQE | XED_ICLASS_CQO | XED_ICLASS_SETB | XED_ICLASS_SETBE | XED_ICLASS_SETL
  | XED_ICLASS_SETLE | XED_ICLASS_SETNB | XED_ICLASS_SETNBE | XED_ICLASS_SETNL
  | XED_ICLASS_SETNLE | XED_ICLASS_SETNO | XED_ICLASS_SETNP | XED_ICLASS_SETNS
  | XED_ICLASS_SETNZ | XED_ICLASS_SETO | XED_ICLASS_SETP | XED_ICLASS_SETS | XED_ICLASS_SETZ
  | XED_ICLASS_STMXCSR | XED_ICLASS_SMSW | XED_ICLASS_STR | XED_ICLASS_LAR | XED_ICLASS_RDPMC
  | XED_ICLASS_RDTSC | XED_ICLASS_CPUID | XED_ICLASS_LAHF | XED_ICLASS_CMPXCHG
  | XED_ICLASS_CMPXCHG_LOCK | XED_ICLASS_XCHG | XED_ICLASS_XADD | XED_ICLASS_XADD_LOCK
  | XED_ICLASS_XLAT | XED_ICLASS_LODSB | XED_ICLASS_LODSW | XED_ICLASS_LODSD | XED_ICLASS_LODSQ
  | XED_ICLASS_STOSB | XED_ICLASS_STOSW | XED_ICLASS_STOSD | XED_ICLASS_STOSQ
  | XED_ICLASS_MOVSQ | XED_ICLASS_MOVSD | XED_ICLASS_MOVSW | XED_ICLASS_MOVSB | XED_ICLASS_SALC
  | XED_ICLASS_POP | XED_ICLASS_PUSH | XED_ICLASS_POPA | XED_ICLASS_POPAD | XED_ICLASS_PUSHA
  | XED_ICLASS_PUSHAD | XED_ICLASS_PUSHF | XED_ICLASS_PUSHFD | XED_ICLASS_PUSHFQ
  | XED_ICLASS_LEA | XED_ICLASS_PCMPEQB | XED_ICLASS_XGETBV | XED_ICLASS_PMOVMSKB
  | XED_ICLASS_VPMOVMSKB | XED_ICLASS_PUNPCKLBW | XED_ICLASS_PUNPCKLWD | XED_ICLASS_PSHUFD
  | XED_ICLASS_PMINUB | XED_ICLASS_PSLLDQ | XED_ICLASS_PSRLDQ | XED_ICLASS_VPCMPEQB
  | XED_ICLASS_VPBROADCASTB | XED_ICLASS_VZEROUPPER | XED_ICLASS_BSWAP | XED_ICLASS_UNPCKLPD
  | XED_ICLASS_PSHUFB | XED_ICLASS_VPTEST | XED_ICLASS_VMULSD | XED_ICLASS_VDIVSD
  | XED_ICLASS_VPOR | XED_ICLASS_VPXOR | XED_ICLASS_VPSUBB | XED_ICLASS_VPSUBW
  | XED_ICLASS_VPSUBD | XED_ICLASS_VPXORD | XED_ICLASS_VPXORQ | XED_ICLASS_VPAND
  | XED_ICLASS_VPANDN | XED_ICLASS_VPSLLDQ | XED_ICLASS_VPCMPGTB | XED_ICLASS_VPALIGNR
  | XED_ICLASS_VPCMPISTRI | XED_ICLASS_CMP | XED_ICLASS_CMPSB | XED_ICLASS_CMPSW
  | XED_ICLASS_CMPSD | XED_ICLASS_CMPSQ | XED_ICLASS_CMPSS | XED_ICLASS_UCOMISS
  | XED_ICLASS_UCOMISD | XED_ICLASS_VPMINUB | XED_ICLASS_PCMPISTRI | XED_ICLASS_JMP
  | XED_ICLASS_JZ | XED_ICLASS_JNZ | XED_ICLASS_JB | XED_ICLASS_JNB | XED_ICLASS_JBE
  | XED_ICLASS_JNBE | XED_ICLASS_JL | XED_ICLASS_JNL | XED_ICLASS_JLE | XED_ICLASS_JNLE
  | XED_ICLASS_JS | XED_ICLASS_JNS | XED_ICLASS_JP | XED_ICLASS_JNP | XED_ICLASS_RET_FAR
  | XED_ICLASS_RET_NEAR | XED_ICLASS_CALL_FAR | XED_ICLASS_CALL_NEAR | XED_ICLASS_LEAVE
  | XED_ICLASS_SYSCALL | XED_ICLASS_TEST | XED_ICLASS_RCL | XED_ICLASS_RCR | XED_ICLASS_ROL
  | XED_ICLASS_ROR | XED_ICLASS_SHL | XED_ICLASS_SAR | XED_ICLASS_SHR | XED_ICLASS_SHLD
  | XED_ICLASS_SHRD | XED_ICLASS_NEG | XED_ICLASS_NOT | XED_ICLASS_NOP | XED_ICLASS_BT
  | XED_ICLASS_DEC | XED_ICLASS_DEC_LOCK | XED_ICLASS_INC | XED_ICLASS_INC_LOCK
  | XED_ICLASS_XSAVEC | XED_ICLASS_XRSTOR
  | XED_ICLASS_INVALID | XED_ICLASS_OTHER (n : N).

Class Pin (INS : Type) := {
  INS_Opcode : INS -> xed_iclass;
  INS_MemoryOperandCount : INS -> N;
  INS_MemoryOperandSize : INS -> N -> N;
  INS_MemoryBaseReg : INS -> REG;
  INS_MemoryIndexReg : INS -> REG;
  INS_OperandIsMemory : INS -> N -> bool;
  INS_OperandIsReg : INS -> N -> bool;
  INS_OperandIsImmediate : INS -> N -> bool;
  INS_OperandIsImplicit : INS -> N -> bool;
  INS_OperandReg : INS -> N -> REG;
  INS_OperandWidth : INS -> N -> N;
  INS_RepPrefix : INS -> bool;
  INS_RepCountRegister : INS -> REG;
  REG_is_gr64 : REG -> bool;
  REG_is_gr32 : REG -> bool;
  REG_is_gr16 : REG -> bool;
  REG_is_gr8 : REG -> bool;
  REG_is_xmm : REG -> bool;
  REG_is_ymm : REG -> bool;
  REG_is_mm : REG -> bool;
  REG_is_seg : REG -> bool;
  REG_is_Upper8 : REG -> bool;
  REG_is_Lower8 : REG -> bool
}.

(** The arguments that the framework computes when the instruction runs: the thread, the
    addresses that it reads and writes, the registers and the memory, whether its predicate
    holds, and whether this is the first iteration of a repeated instruction. *)
Record dyn := mk_dyn {
  THREAD_ID : N;
  MEMORYREAD_EA : N;
  MEMORYWRITE_EA : N;
  REG_VALUE : REG -> N;
  app_memory : N -> N;
  executing : bool;
  first_iteration : bool
}.

Definition OP_0 : N := 0.
Definition OP_1 : N := 1.
Definition OP_4 : N := 4.
Definition BIT2BYTE (len : N) : N := N.shiftr len 3.
Definition MEM_64BIT_LEN : N := 64.
Definition MEM_LONG_LEN : N := 32.
Definition MEM_WORD_LEN : N := 16.

Section instrument.
Context {B tag : Type} `{TagOps B tag} {INS : Type} `{Pin INS}.
Implicit Types (ins : INS) (dst src : REG).
Notation prog := (prog (engine B tag)).
Notation call := (dyn -> prog unit).

(** ** The macros of ins_helper.h *)

Definition always (f : call) : list call := [f].
(** A predicated call is skipped when the instruction is. *)
Definition predicated (f : call) : list call := [fun d => if executing d then f d else mret tt].
(** A call whose second half runs when the first returns true. *)
Definition if_then (f : dyn -> prog bool) (g : call) : list call :=
  [fun d => b ← f d; if b : bool then g d else mret tt].

Definition CALL (fn : N -> prog unit) : list call := always (fun d => fn (THREAD_ID d)).
Definition R_CALL (fn : N -> N -> prog unit) dst : list call :=
  always (fun d => fn (THREAD_ID d) (REG_INDX dst)).
Definition M_CALL_W (fn : N -> N -> prog unit) : list call :=
  always (fun d => fn (THREAD_ID d) (MEMORYWRITE_EA d)).
Definition M_CALL_R (fn : N -> N -> prog unit) : list call :=
  always (fun d => fn (THREAD_ID d) (MEMORYREAD_EA d)).
Definition R2R_CALL (fn : N -> N -> N -> prog unit) dst src : list call :=
  always (fun d => fn (THREAD_ID d) (REG_INDX dst) (REG_INDX src)).
Definition R2R_CALL_P (fn : N -> N -> N -> prog unit) dst src : list call :=
  predicated (fun d => fn (THREAD_ID d) (REG_INDX dst) (REG_INDX src)).
Definition M2R_CALL (fn : N -> N -> N -> prog unit) dst : list call :=
  always (fun d => fn (THREAD_ID d) (REG_INDX dst) (MEMORYREAD_EA d)).
Definition M2R_CALL_P (fn : N -> N -> N -> prog unit) dst : list call :=
  predicated (fun d => fn (THREAD_ID d) (REG_INDX dst) (MEMORYREAD_EA d)).
Definition R2M_CALL (fn : N -> N -> N -> prog unit) src : list call :=
  always (fun d => fn (THREAD_ID d) (MEMORYWRITE_EA d) (REG_INDX src)).
Definition M2M_CALL (fn : N -> N -> prog unit) : list call :=
  predicated (fun d => fn (MEMORYWRITE_EA d) (MEMORYREAD_EA d)).
Definition M_CLEAR_N (n : N) : list call :=
  always (fun d => tagmap_clrn (MEMORYWRITE_EA d) n).
Definition RR2R_CALL (fn : N -> N -> N -> N -> prog unit) dst (src1 src2 : REG) : list call :=
  always (fun d => fn (THREAD_ID d) (REG_INDX dst) (REG_INDX src1) (REG_INDX src2)).
Definition INS_MemoryWriteSize ins : N := INS_MemoryOperandSize ins OP_0.

(** ** ins_binary_op.cpp, ins_unitary_op.cpp, ins_clear_op.cpp *)

Definition ins_binary_op ins : list call :=
  if INS_OperandIsImmediate ins OP_1 then []
  else if INS_MemoryOperandCount ins =? 0 then
    let reg_dst := INS_OperandReg ins OP_0 in
    let reg_src := INS_OperandReg ins OP_1 in
    if REG_is_gr64 reg_dst then R2R_CALL r2r_binary_opq reg_dst reg_src
    else if REG_is_gr32 reg_dst then R2R_CALL r2r_binary_opl reg_dst reg_src
    else if REG_is_gr16 reg_dst then R2R_CALL r2r_binary_opw reg_dst reg_src
    else if REG_is_xmm reg_dst then R2R_CALL r2r_binary_opx reg_dst reg_src
    else if REG_is_ymm reg_dst then R2R_CALL r2r_binary_opy reg_dst reg_src
    else if REG_is_mm reg_dst then R2R_CALL r2r_binary_opq reg_dst reg_src
    else if REG_is_Lower8 reg_dst && REG_is_Lower8 reg_src then
      R2R_CALL r2r_binary_opb_l reg_dst reg_src
    else if REG_is_Upper8 reg_dst && REG_is_Upper8 reg_src then
      R2R_CALL r2r_binary_opb_u reg_dst reg_src
    else if REG_is_Lower8 reg_dst then R2R_CALL r2r_binary_opb_lu reg_dst reg_src
    else R2R_CALL r2r_binary_opb_ul reg_dst reg_src
  else if INS_OperandIsMemory ins OP_1 then
    let reg_dst := INS_OperandReg ins OP_0 in
    if REG_is_gr64 reg_dst then M2R_CALL m2r_binary_opq reg_dst
    else if REG_is_gr32 reg_dst then M2R_CALL m2r_binary_opl reg_dst
    else if REG_is_gr16 reg_dst then M2R_CALL m2r_binary_opw reg_dst
    else if REG_is_xmm reg_dst then M2R_CALL m2r_binary_opx reg_dst
    else if REG_is_ymm reg_dst then M2R_CALL m2r_binary_opy reg_dst
    else if REG_is_mm reg_dst then M2R_CALL m2r_binary_opq reg_dst
    else if REG_is_Upper8 reg_dst then M2R_CALL m2r_binary_opb_u reg_dst
    else M2R_CALL m2r_binary_opb_l reg_dst
  else
    let reg_src := INS_OperandReg ins OP_1 in
    if REG_is_gr64 reg_src then R2M_CALL r2m_binary_opq reg_src
    else if REG_is_gr32 reg_src then R2M_CALL r2m_binary_opl reg_src
    else if REG_is_gr16 reg_src then R2M_CALL r2m_binary_opw reg_src
    else if REG_is_xmm reg_src then R2M_CALL r2m_binary_opx reg_src
    else if REG_is_ymm reg_src then R2M_CALL r2m_binary_opy reg_src
    else if REG_is_mm reg_src then R2M_CALL r2m_binary_opq reg_src
    else if REG_is_Upper8 reg_src then R2M_CALL r2m_binary_opb_u reg_src
    else R2M_CALL r2m_binary_opb_l reg_src.

Definition ins_unitary_op ins : list call :=
  if INS_OperandIsMemory ins OP_0 then
    let size := INS_MemoryWriteSize ins in
    if size =? BIT2BYTE MEM_64BIT_LEN then M_CALL_R m2r_unitary_opq
    else if size =? BIT2BYTE MEM_LONG_LEN then M_CALL_R m2r_unitary_opl
    else if size =? BIT2BYTE MEM_WORD_LEN then M_CALL_R m2r_unitary_opw
    else M_CALL_R m2r_unitary_opb
  else
    let reg_src := INS_OperandReg ins OP_0 in
    if REG_is_gr64 reg_src then R_CALL r2r_unitary_opq reg_src
    else if REG_is_gr32 reg_src then R_CALL r2r_unitary_opl reg_src
    else if REG_is_gr16 reg_src then R_CALL r2r_unitary_opw reg_src
    else if REG_is_Upper8 reg_src then R_CALL r2r_unitary_opb_u reg_src
    else R_CALL r2r_unitary_opb_l reg_src.

Definition ins_clear_op ins : list call :=
  if INS_OperandIsMemory ins OP_0 then
    M_CLEAR_N (INS_OperandWidth ins OP_0 / 8)
  else
    let reg_dst := INS_OperandReg ins OP_0 in
    if REG_is_gr64 reg_dst then R_CALL r_clrq reg_dst
    else if REG_is_gr32 reg_dst then R_CALL r_clrl reg_dst
    else if REG_is_gr16 reg_dst then R_CALL r_clrw reg_dst
    else if REG_is_xmm reg_dst then R_CALL r_clrx reg_dst
    else if REG_is_mm reg_dst then R_CALL r_clrq reg_dst
    else if REG_is_ymm reg_dst then R_CALL r_clry reg_dst
    else if REG_is_Upper8 reg_dst then R_CALL r_clrb_u reg_dst
    else R_CALL r_clrb_l reg_dst.

Definition ins_clear_op_predicated ins : list call :=
  if INS_MemoryOperandCount ins =? 0 then
    let reg_dst := INS_OperandReg ins OP_0 in
    if REG_is_Upper8 reg_dst then
      predicated (fun d => r_clrb_u (THREAD_ID d) (REG_INDX reg_dst))
    else predicated (fun d => r_clrb_l (THREAD_ID d) (REG_INDX reg_dst))
  else predicated (fun d => tagmap_clrn (MEMORYWRITE_EA d) 1).

Definition ins_clear_op_l2 ins : list call := always (fun d => r_clrl2 (THREAD_ID d)).
Definition ins_clear_op_l4 ins : list call := always (fun d => r_clrl4 (THREAD_ID d)).

(** ** ins_xfer_op.cpp *)

Definition ins_xfer_op ins : list call :=
  if INS_MemoryOperandCount ins =? 0 then
    let reg_dst := INS_OperandReg ins OP_0 in
    let reg_src := INS_OperandReg ins OP_1 in
    if REG_is_gr64 reg_dst then R2R_CALL r2r_xfer_opq reg_dst reg_src
    else if REG_is_gr32 reg_dst then R2R_CALL r2r_xfer_opl reg_dst reg_src
    else if REG_is_gr16 reg_dst then R2R_CALL r2r_xfer_opw reg_dst reg_src
    else if REG_is_xmm reg_dst then R2R_CALL r2r_xfer_opx reg_dst reg_src
    else if REG_is_ymm reg_dst then R2R_CALL r2r_xfer_opy reg_dst reg_src
    else if REG_is_mm reg_dst then R2R_CALL r2r_xfer_opq reg_dst reg_src
    else if REG_is_Lower8 reg_dst && REG_is_Lower8 reg_src then
      R2R_CALL r2r_xfer_opb_l reg_dst reg_src
    else if REG_is_Upper8 reg_dst && REG_is_Upper8 reg_src then
      R2R_CALL r2r_xfer_opb_u reg_dst reg_src
    else if REG_is_Lower8 reg_dst then R2R_CALL r2r_xfer_opb_lu reg_dst reg_src
    else R2R_CALL r2r_xfer_opb_ul reg_dst reg_src
  else if INS_OperandIsMemory ins OP_1 then
    let reg_dst := INS_OperandReg ins OP_0 in
    if REG_is_gr64 reg_dst then M2R_CALL m2r_xfer_opq reg_dst
    else if REG_is_gr32 reg_dst then M2R_CALL m2r_xfer_opl reg_dst
    else if REG_is_gr16 reg_dst then M2R_CALL m2r_xfer_opw reg_dst
    else if REG_is_xmm reg_dst then M2R_CALL m2r_xfer_opx reg_dst
    else if REG_is_ymm reg_dst then M2R_CALL m2r_xfer_opy reg_dst
    else if REG_is_mm reg_dst then M2R_CALL m2r_xfer_opq reg_dst
    else if REG_is_Upper8 reg_dst then M2R_CALL m2r_xfer_opb_u reg_dst
    else M2R_CALL m2r_xfer_opb_l reg_dst
  else
    let reg_src := INS_OperandReg ins OP_1 in
    if REG_is_gr64 reg_src then R2M_CALL r2m_xfer_opq reg_src
    else if REG_is_gr32 reg_src then R2M_CALL r2m_xfer_opl reg_src
    else if REG_is_gr16 reg_src then R2M_CALL r2m_xfer_opw reg_src
    else if REG_is_xmm reg_src then R2M_CALL r2m_xfer_opx reg_src
    else if REG_is_ymm reg_src then R2M_CALL r2m_xfer_opy reg_src
    else if REG_is_mm reg_src then R2M_CALL r2m_xfer_opq reg_src
    else if REG_is_Upper8 reg_src then R2M_CALL r2m_xfer_opb_u reg_src
    else R2M_CALL r2m_xfer_opb_l reg_src.

Definition ins_xfer_op_predicated ins : list call :=
  if INS_MemoryOperandCount ins =? 0 then
    let reg_dst := INS_OperandReg ins OP_0 in
    let reg_src := INS_OperandReg ins OP_1 in
    if REG_is_gr64 reg_dst then R2R_CALL_P r2r_xfer_opq reg_dst reg_src
    else if REG_is_gr32 reg_dst then R2R_CALL_P r2r_xfer_opl reg_dst reg_src
    else R2R_CALL_P r2r_xfer_opw reg_dst reg_src
  else
    let reg_dst := INS_OperandReg ins OP_0 in
    if REG_is_gr64 reg_dst then M2R_CALL_P m2r_xfer_opq reg_dst
    else if REG_is_gr32 reg_dst then M2R_CALL_P m2r_xfer_opl reg_dst
    else M2R_CALL_P m2r_xfer_opw reg_dst.

Definition ins_push_op ins : list call :=
  if INS_OperandIsReg ins OP_0 then
    let reg_src := INS_OperandReg ins OP_0 in
    if REG_is_gr64 reg_src then R2M_CALL r2m_xfer_opq reg_src
    else if REG_is_gr32 reg_src then R2M_CALL r2m_xfer_opl reg_src
    else R2M_CALL r2m_xfer_opw reg_src
  else if INS_OperandIsMemory ins OP_0 then
    if INS_MemoryWriteSize ins =? BIT2BYTE MEM_64BIT_LEN then M2M_CALL m2m_xfer_opq
    else if INS_MemoryWriteSize ins =? BIT2BYTE MEM_LONG_LEN then M2M_CALL m2m_xfer_opl
    else M2M_CALL m2m_xfer_opw
  else M_CLEAR_N (INS_OperandWidth ins OP_0 / 8).

Definition ins_pop_op ins : list call :=
  if INS_OperandIsReg ins OP_0 then
    let reg_dst := INS_OperandReg ins OP_0 in
    if REG_is_gr64 reg_dst then M2R_CALL m2r_xfer_opq reg_dst
    else if REG_is_gr32 reg_dst then M2R_CALL m2r_xfer_opl reg_dst
    else M2R_CALL m2r_xfer_opw reg_dst
  else if INS_OperandIsMemory ins OP_0 then
    if INS_MemoryWriteSize ins =? BIT2BYTE MEM_64BIT_LEN then M2M_CALL m2m_xfer_opq
    else if INS_MemoryWriteSize ins =? BIT2BYTE MEM_LONG_LEN then M2M_CALL m2m_xfer_opl
    else M2M_CALL m2m_xfer_opw
  else [].

(** The repeated stores: once, at the first iteration, for all of them. *)
Definition rep_predicate (first : bool) : bool := first.
Definition ins_stos_ins ins (fn : N -> N -> N -> N -> prog unit) : list call :=
  [fun d => if executing d && rep_predicate (first_iteration d) then
     fn (THREAD_ID d) (MEMORYWRITE_EA d) (REG_VALUE d (INS_RepCountRegister ins))
       (REG_VALUE d (INS_OperandReg ins OP_4))
   else mret tt].
Definition ins_stosb ins : list call :=
  if INS_RepPrefix ins then ins_stos_ins ins r2m_xfer_opbn else R2M_CALL r2m_xfer_opb_l REG_AL.
Definition ins_stosw ins : list call :=
  if INS_RepPrefix ins then ins_stos_ins ins r2m_xfer_opwn else R2M_CALL r2m_xfer_opw REG_AX.
(** Without a prefix, two bytes of the four, and of the eight. *)
Definition ins_stosd ins : list call :=
  if INS_RepPrefix ins then ins_stos_ins ins r2m_xfer_opln else R2M_CALL r2m_xfer_opw REG_EAX.
Definition ins_stosq ins : list call :=
  if INS_RepPrefix ins then ins_stos_ins ins r2m_xfer_opqn else R2M_CALL r2m_xfer_opw REG_RAX.

Definition ins_movlp ins : list call :=
  if INS_OperandIsMemory ins OP_0 then R2M_CALL r2m_xfer_opq (INS_OperandReg ins OP_1)
  else M2R_CALL m2r_xfer_opq (INS_OperandReg ins OP_0).
Definition ins_movhp ins : list call :=
  if INS_OperandIsMemory ins OP_0 then R2M_CALL r2m_xfer_opq_h (INS_OperandReg ins OP_1)
  else M2R_CALL m2r_xfer_opq_h (INS_OperandReg ins OP_0).

Definition is_invalid (r : REG) : bool := REG_beq r REG_INVALID.
Definition lea_one (reg_dst reg_src : REG) : list call :=
  if REG_is_gr64 reg_dst then R2R_CALL r2r_xfer_opq reg_dst reg_src
  else if REG_is_gr32 reg_dst then R2R_CALL r2r_xfer_opl reg_dst reg_src
  else if REG_is_gr16 reg_dst then R2R_CALL r2r_xfer_opw reg_dst reg_src
  else [].
Definition ins_lea ins : list call :=
  let reg_base := INS_MemoryBaseReg ins in
  let reg_indx := INS_MemoryIndexReg ins in
  let reg_dst := INS_OperandReg ins OP_0 in
  (if is_invalid reg_base && is_invalid reg_indx then ins_clear_op ins else []) ++
  (if negb (is_invalid reg_base) && is_invalid reg_indx then lea_one reg_dst reg_base else []) ++
  (if is_invalid reg_base && negb (is_invalid reg_indx) then lea_one reg_dst reg_indx else []) ++
  (if negb (is_invalid reg_base) && negb (is_invalid reg_indx) then
     if REG_is_gr64 reg_dst then RR2R_CALL _lea_opq reg_dst reg_base reg_indx
     else if REG_is_gr32 reg_dst then RR2R_CALL _lea_opl reg_dst reg_base reg_indx
     else if REG_is_gr16 reg_dst then RR2R_CALL _lea_opw reg_dst reg_base reg_indx
     else []
   else []).

Definition ins_movbe_op ins : list call :=
  if INS_OperandIsMemory ins OP_1 then
    let reg_dst := INS_OperandReg ins OP_0 in
    if REG_is_gr64 reg_dst then M2R_CALL m2r_xfer_opq_rev reg_dst
    else if REG_is_gr32 reg_dst then M2R_CALL m2r_xfer_opl_rev reg_dst
    else if REG_is_gr16 reg_dst then M2R_CALL m2r_xfer_opw_rev reg_dst
    else []
  else
    let reg_src := INS_OperandReg ins OP_1 in
    if REG_is_gr64 reg_src then R2M_CALL r2m_xfer_opq_rev reg_src
    else if REG_is_gr32 reg_src then R2M_CALL r2m_xfer_opl_rev reg_src
    else if REG_is_gr16 reg_src then R2M_CALL r2m_xfer_opw_rev reg_src
    else [].

(** ** ins_movsx_op.cpp *)

Definition ins_movsx_op ins : list call :=
  if INS_MemoryOperandCount ins =? 0 then
    let reg_dst := INS_OperandReg ins OP_0 in
    let reg_src := INS_OperandReg ins OP_1 in
    if REG_is_gr16 reg_dst then
      if REG_is_Upper8 reg_src then R2R_CALL _movsx_r2r_opwb_u reg_dst reg_src
      else R2R_CALL _movsx_r2r_opwb_l reg_dst reg_src
    else if REG_is_gr16 reg_src then
      if REG_is_gr64 reg_dst then R2R_CALL _movsx_r2r_opqw reg_dst reg_src
      else if REG_is_gr32 reg_dst then R2R_CALL _movsx_r2r_oplw reg_dst reg_src
      else []
    else if REG_is_Upper8 reg_src then
      if REG_is_gr64 reg_dst then R2R_CALL _movsx_r2r_opqb_u reg_dst reg_src
      else if REG_is_gr32 reg_dst then R2R_CALL _movsx_r2r_oplb_u reg_dst reg_src
      else []
    else
      if REG_is_gr64 reg_dst then R2R_CALL _movsx_r2r_opqb_l reg_dst reg_src
      else if REG_is_gr32 reg_dst then R2R_CALL _movsx_r2r_oplb_l reg_dst reg_src
      else []
  else
    let reg_dst := INS_OperandReg ins OP_0 in
    if REG_is_gr16 reg_dst then M2R_CALL _movsx_m2r_opwb reg_dst
    else if INS_MemoryWriteSize ins =? BIT2BYTE MEM_WORD_LEN then
      if REG_is_gr64 reg_dst then M2R_CALL _movsx_m2r_opqw reg_dst
      else if REG_is_gr32 reg_dst then M2R_CALL _movsx_m2r_oplw reg_dst
      else []
    else
      if REG_is_gr64 reg_dst then M2R_CALL _movsx_m2r_opqb reg_dst
      else if REG_is_gr32 reg_dst then M2R_CALL _movsx_m2r_oplb reg_dst
      else [].

(** A destination that is not a 64-bit register gets the calls of [ins_xfer_op] and then those
    of a 64-bit one too. *)
Definition ins_movsxd_op ins : list call :=
  let reg_dst := INS_OperandReg ins OP_0 in
  (if REG_is_gr64 reg_dst then [] else ins_xfer_op ins) ++
  (if INS_MemoryOperandCount ins =? 0 then
     R2R_CALL _movsx_r2r_opql reg_dst (INS_OperandReg ins OP_1)
   else M2R_CALL _movsx_m2r_opql reg_dst).

(** ** ins_xchg_op.cpp *)

Definition cmpxchg_r2r (fast : N -> N -> N -> N -> prog bool) (slow : N -> N -> N -> prog unit)
    (acc reg_dst reg_src : REG) : list call :=
  if_then
    (fun d => fast (THREAD_ID d) (REG_VALUE d acc) (REG_INDX reg_dst) (REG_VALUE d reg_dst))
    (fun d => slow (THREAD_ID d) (REG_INDX reg_dst) (REG_INDX reg_src)).
Definition cmpxchg_m2r (fast : (N -> N) -> N -> N -> N -> prog bool)
    (slow : N -> N -> N -> prog unit) (acc reg_src : REG) : list call :=
  if_then
    (fun d => fast (app_memory d) (THREAD_ID d) (REG_VALUE d acc) (MEMORYREAD_EA d))
    (fun d => slow (THREAD_ID d) (MEMORYWRITE_EA d) (REG_INDX reg_src)).
Definition ins_cmpxchg_op ins : list call :=
  if INS_MemoryOperandCount ins =? 0 then
    let reg_dst := INS_OperandReg ins OP_0 in
    let reg_src := INS_OperandReg ins OP_1 in
    if REG_is_gr64 reg_dst then
      cmpxchg_r2r _cmpxchg_r2r_opq_fast _cmpxchg_r2r_opq_slow REG_EAX reg_dst reg_src
    else if REG_is_gr32 reg_dst then
      cmpxchg_r2r _cmpxchg_r2r_opl_fast _cmpxchg_r2r_opl_slow REG_EAX reg_dst reg_src
    else if REG_is_gr16 reg_dst then
      cmpxchg_r2r _cmpxchg_r2r_opw_fast _cmpxchg_r2r_opw_slow REG_AX reg_dst reg_src
    else []
  else
    let reg_src := INS_OperandReg ins OP_1 in
    if REG_is_gr64 reg_src then
      cmpxchg_m2r _cmpxchg_m2r_opq_fast _cmpxchg_r2m_opq_slow REG_EAX reg_src
    else if REG_is_gr32 reg_src then
      cmpxchg_m2r _cmpxchg_m2r_opl_fast _cmpxchg_r2m_opl_slow REG_EAX reg_src
    else if REG_is_gr16 reg_src then
      cmpxchg_m2r _cmpxchg_m2r_opw_fast _cmpxchg_r2m_opw_slow REG_AX reg_src
    else [].

(** Wide registers are exchanged by three copies through the register numbered 0. *)
Definition xchg_three (fn : N -> N -> N -> prog unit) (reg_dst reg_src : REG) : list call :=
  always (fun d => fn (THREAD_ID d) 0 (REG_INDX reg_dst)) ++
  always (fun d => fn (THREAD_ID d) (REG_INDX reg_dst) (REG_INDX reg_src)) ++
  always (fun d => fn (THREAD_ID d) (REG_INDX reg_src) 0).
Definition xchg_mem (fn : N -> N -> N -> prog unit) (r : REG) : list call :=
  always (fun d => fn (THREAD_ID d) (REG_INDX r) (MEMORYWRITE_EA d)).
Definition ins_xchg_op ins : list call :=
  if INS_MemoryOperandCount ins =? 0 then
    let reg_dst := INS_OperandReg ins OP_0 in
    let reg_src := INS_OperandReg ins OP_1 in
    if REG_is_gr64 reg_dst then xchg_three r2r_xfer_opq reg_dst reg_src
    else if REG_is_gr32 reg_dst then xchg_three r2r_xfer_opl reg_dst reg_src
    else if REG_is_gr16 reg_dst then R2R_CALL _xchg_r2r_opw reg_dst reg_src
    else if REG_is_gr8 reg_dst then
      if REG_is_Lower8 reg_dst && REG_is_Lower8 reg_src then
        R2R_CALL _xchg_r2r_opb_l reg_dst reg_src
      else if REG_is_Upper8 reg_dst && REG_is_Upper8 reg_src then
        R2R_CALL _xchg_r2r_opb_u reg_dst reg_src
      else if REG_is_Lower8 reg_dst then R2R_CALL _xchg_r2r_opb_lu reg_dst reg_src
      else R2R_CALL _xchg_r2r_opb_ul reg_dst reg_src
    else []
  else if INS_OperandIsMemory ins OP_1 then
    let reg_dst := INS_OperandReg ins OP_0 in
    if REG_is_gr64 reg_dst then M2R_CALL _xchg_m2r_opq reg_dst
    else if REG_is_gr32 reg_dst then M2R_CALL _xchg_m2r_opl reg_dst
    else if REG_is_gr16 reg_dst then M2R_CALL _xchg_m2r_opw reg_dst
    else if REG_is_Upper8 reg_dst then M2R_CALL _xchg_m2r_opb_u reg_dst
    else M2R_CALL _xchg_m2r_opb_l reg_dst
  else
    let reg_src := INS_OperandReg ins OP_1 in
    if REG_is_gr64 reg_src then xchg_mem _xchg_m2r_opq reg_src
    else if REG_is_gr32 reg_src then xchg_mem _xchg_m2r_opl reg_src
    else if REG_is_gr16 reg_src then xchg_mem _xchg_m2r_opw reg_src
    else if REG_is_Upper8 reg_src then xchg_mem _xchg_m2r_opb_u reg_src
    else xchg_mem _xchg_m2r_opb_l reg_src.

Definition ins_xadd_op ins : list call :=
  if INS_MemoryOperandCount ins =? 0 then
    let reg_dst := INS_OperandReg ins OP_0 in
    let reg_src := INS_OperandReg ins OP_1 in
    if REG_is_gr64 reg_dst then R2R_CALL _xadd_r2r_opq reg_dst reg_src
    else if REG_is_gr32 reg_dst then R2R_CALL _xadd_r2r_opl reg_dst reg_src
    else if REG_is_gr16 reg_dst then R2R_CALL _xadd_r2r_opw reg_dst reg_src
    else if REG_is_gr8 reg_dst then
      if REG_is_Lower8 reg_dst && REG_is_Lower8 reg_src then
        R2R_CALL _xadd_r2r_opb_l reg_dst reg_src
      else if REG_is_Upper8 reg_dst && REG_is_Upper8 reg_src then
        R2R_CALL _xadd_r2r_opb_u reg_dst reg_src
      else if REG_is_Lower8 reg_dst then R2R_CALL _xadd_r2r_opb_lu reg_dst reg_src
      else R2R_CALL _xadd_r2r_opb_ul reg_dst reg_src
    else []
  else
    let reg_src := INS_OperandReg ins OP_1 in
    if REG_is_gr64 reg_src then R2M_CALL _xadd_r2m_opq reg_src
    else if REG_is_gr32 reg_src then R2M_CALL _xadd_r2m_opl reg_src
    else if REG_is_gr16 reg_src then R2M_CALL _xadd_r2m_opw reg_src
    else if REG_is_Upper8 reg_src then R2M_CALL _xadd_r2m_opb_u reg_src
    else R2M_CALL _xadd_r2m_opb_l reg_src.
(** ** libdft_core.cpp *)

Definition reg_eq ins : bool :=
  negb (INS_OperandIsImmediate ins OP_1) && (INS_MemoryOperandCount ins =? 0) &&
  REG_beq (INS_OperandReg ins OP_0) (INS_OperandReg ins OP_1).

(** The case of MOV, into which that of MULSD, MULPD and DIVSD falls through. *)
Definition inspect_mov ins : list call :=
  if INS_OperandIsImmediate ins OP_1 ||
     (INS_OperandIsReg ins OP_1 && REG_is_seg (INS_OperandReg ins OP_1)) then ins_clear_op ins
  else ins_xfer_op ins.

Definition ins_inspect ins : list call :=
  match INS_Opcode ins with
  | XED_ICLASS_INVALID => []
  | XED_ICLASS_ADC | XED_ICLASS_ADD | XED_ICLASS_ADD_LOCK | XED_ICLASS_ADDPD
  | XED_ICLASS_ADDSD | XED_ICLASS_ADDSS | XED_ICLASS_AND | XED_ICLASS_OR | XED_ICLASS_POR =>
      ins_binary_op ins
  | XED_ICLASS_XOR | XED_ICLASS_SBB | XED_ICLASS_SUB | XED_ICLASS_PXOR | XED_ICLASS_SUBSD
  | XED_ICLASS_PSUBB | XED_ICLASS_PSUBW | XED_ICLASS_PSUBD | XED_ICLASS_XORPS
  | XED_ICLASS_XORPD => if reg_eq ins then ins_clear_op ins else ins_binary_op ins
  | XED_ICLASS_DIV | XED_ICLASS_IDIV | XED_ICLASS_MUL => ins_unitary_op ins
  | XED_ICLASS_IMUL =>
      if INS_OperandIsImplicit ins OP_1 then ins_unitary_op ins else ins_binary_op ins
  | XED_ICLASS_MULSD | XED_ICLASS_MULPD | XED_ICLASS_DIVSD => ins_binary_op ins ++ inspect_mov ins
  | XED_ICLASS_BSF | XED_ICLASS_BSR | XED_ICLASS_TZCNT | XED_ICLASS_MOV => inspect_mov ins
  | XED_ICLASS_MOVD | XED_ICLASS_MOVQ | XED_ICLASS_MOVAPS | XED_ICLASS_MOVAPD
  | XED_ICLASS_MOVDQU | XED_ICLASS_MOVDQA | XED_ICLASS_MOVUPS | XED_ICLASS_MOVUPD
  | XED_ICLASS_MOVSS | XED_ICLASS_VMOVD | XED_ICLASS_VMOVQ | XED_ICLASS_VMOVAPS
  | XED_ICLASS_VMOVAPD | XED_ICLASS_VMOVDQU | XED_ICLASS_VMOVDQA | XED_ICLASS_VMOVUPS
  | XED_ICLASS_VMOVUPD | XED_ICLASS_VMOVSS | XED_ICLASS_MOVSD_XMM | XED_ICLASS_CVTSI2SD
  | XED_ICLASS_CVTSD2SI => ins_xfer_op ins
  | XED_ICLASS_MOVLPD | XED_ICLASS_MOVLPS => ins_movlp ins
  | XED_ICLASS_MOVHPD | XED_ICLASS_MOVHPS => ins_movhp ins
  | XED_ICLASS_CMOVB | XED_ICLASS_CMOVBE | XED_ICLASS_CMOVL | XED_ICLASS_CMOVLE
  | XED_ICLASS_CMOVNB | XED_ICLASS_CMOVNBE | XED_ICLASS_CMOVNL | XED_ICLASS_CMOVNLE
  | XED_ICLASS_CMOVNO | XED_ICLASS_CMOVNP | XED_ICLASS_CMOVNS | XED_ICLASS_CMOVNZ
  | XED_ICLASS_CMOVO | XED_ICLASS_CMOVP | XED_ICLASS_CMOVS | XED_ICLASS_CMOVZ =>
      ins_xfer_op_predicated ins
  | XED_ICLASS_MOVBE => ins_movbe_op ins
  | XED_ICLASS_MOVSX | XED_ICLASS_MOVZX => ins_movsx_op ins
  | XED_ICLASS_MOVSXD => ins_movsxd_op ins
  | XED_ICLASS_CBW => CALL _cbw
  | XED_ICLASS_CWD => CALL _cwd
  | XED_ICLASS_CWDE => CALL _cwde
  | XED_ICLASS_CDQ => CALL _cdq
  | XED_ICLASS_CDQE => CALL _cdqe
  | XED_ICLASS_CQO => CALL _cqo
  | XED_ICLASS_SETB | XED_ICLASS_SETBE | XED_ICLASS_SETL | XED_ICLASS_SETLE
  | XED_ICLASS_SETNB | XED_ICLASS_SETNBE | XED_ICLASS_SETNL | XED_ICLASS_SETNLE
  | XED_ICLASS_SETNO | XED_ICLASS_SETNP | XED_ICLASS_SETNS | XED_ICLASS_SETNZ
  | XED_ICLASS_SETO | XED_ICLASS_SETP | XED_ICLASS_SETS | XED_ICLASS_SETZ =>
      ins_clear_op_predicated ins
  | XED_ICLASS_STMXCSR => ins_clear_op ins
  | XED_ICLASS_SMSW | XED_ICLASS_STR | XED_ICLASS_LAR => ins_clear_op ins
  | XED_ICLASS_RDPMC | XED_ICLASS_RDTSC => ins_clear_op_l2 ins
  | XED_ICLASS_CPUID => ins_clear_op_l4 ins
  | XED_ICLASS_LAHF => ins_clear_op ins
  | XED_ICLASS_CMPXCHG | XED_ICLASS_CMPXCHG_LOCK => ins_cmpxchg_op ins
  | XED_ICLASS_XCHG => ins_xchg_op ins
  | XED_ICLASS_XADD | XED_ICLASS_XADD_LOCK => ins_xadd_op ins
  | XED_ICLASS_XLAT => M2R_CALL m2r_xfer_opb_l REG_AL
  | XED_ICLASS_LODSB => M2R_CALL_P m2r_xfer_opb_l REG_AL
  | XED_ICLASS_LODSW => M2R_CALL_P m2r_xfer_opw REG_AX
  | XED_ICLASS_LODSD => M2R_CALL_P m2r_xfer_opl REG_EAX
  | XED_ICLASS_LODSQ => M2R_CALL_P m2r_xfer_opq REG_RAX
  | XED_ICLASS_STOSB => ins_stosb ins
  | XED_ICLASS_STOSW => ins_stosw ins
  | XED_ICLASS_STOSD => ins_stosd ins
  | XED_ICLASS_STOSQ => ins_stosq ins
  | XED_ICLASS_MOVSQ => M2M_CALL m2m_xfer_opq
  | XED_ICLASS_MOVSD => M2M_CALL m2m_xfer_opl
  | XED_ICLASS_MOVSW => M2M_CALL m2m_xfer_opw
  | XED_ICLASS_MOVSB => M2M_CALL m2m_xfer_opb
  | XED_ICLASS_SALC => ins_clear_op ins
  | XED_ICLASS_POP => ins_pop_op ins
  | XED_ICLASS_PUSH => ins_push_op ins
  | XED_ICLASS_POPA => M_CALL_R m2r_restore_opw
  | XED_ICLASS_POPAD => M_CALL_R m2r_restore_opl
  | XED_ICLASS_PUSHA => M_CALL_W r2m_save_opw
  | XED_ICLASS_PUSHAD => M_CALL_W r2m_save_opl
  | XED_ICLASS_PUSHF => M_CLEAR_N 2
  | XED_ICLASS_PUSHFD => M_CLEAR_N 4
  | XED_ICLASS_PUSHFQ => M_CLEAR_N 8
  | XED_ICLASS_LEA => ins_lea ins
  | XED_ICLASS_PCMPEQB => ins_binary_op ins
  | XED_ICLASS_XGETBV | XED_ICLASS_PMOVMSKB | XED_ICLASS_VPMOVMSKB | XED_ICLASS_PUNPCKLBW
  | XED_ICLASS_PUNPCKLWD | XED_ICLASS_PSHUFD | XED_ICLASS_PMINUB | XED_ICLASS_PSLLDQ
  | XED_ICLASS_PSRLDQ | XED_ICLASS_VPCMPEQB | XED_ICLASS_VPBROADCASTB | XED_ICLASS_VZEROUPPER
  | XED_ICLASS_BSWAP | XED_ICLASS_UNPCKLPD | XED_ICLASS_PSHUFB | XED_ICLASS_VPTEST
  | XED_ICLASS_VMULSD | XED_ICLASS_VDIVSD | XED_ICLASS_VPOR | XED_ICLASS_VPXOR
  | XED_ICLASS_VPSUBB | XED_ICLASS_VPSUBW | XED_ICLASS_VPSUBD | XED_ICLASS_VPXORD
  | XED_ICLASS_VPXORQ | XED_ICLASS_VPAND | XED_ICLASS_VPANDN | XED_ICLASS_VPSLLDQ
  | XED_ICLASS_VPCMPGTB | XED_ICLASS_VPALIGNR | XED_ICLASS_VPCMPISTRI => []
  | XED_ICLASS_CMP => []
  | XED_ICLASS_CMPSB | XED_ICLASS_CMPSW | XED_ICLASS_CMPSD | XED_ICLASS_CMPSQ
  | XED_ICLASS_CMPSS | XED_ICLASS_UCOMISS | XED_ICLASS_UCOMISD | XED_ICLASS_VPMINUB
  | XED_ICLASS_PCMPISTRI => []
  | XED_ICLASS_JMP | XED_ICLASS_JZ | XED_ICLASS_JNZ | XED_ICLASS_JB | XED_ICLASS_JNB
  | XED_ICLASS_JBE | XED_ICLASS_JNBE | XED_ICLASS_JL | XED_ICLASS_JNL | XED_ICLASS_JLE
  | XED_ICLASS_JNLE | XED_ICLASS_JS | XED_ICLASS_JNS | XED_ICLASS_JP | XED_ICLASS_JNP
  | XED_ICLASS_RET_FAR | XED_ICLASS_RET_NEAR | XED_ICLASS_CALL_FAR | XED_ICLASS_CALL_NEAR
  | XED_ICLASS_LEAVE | XED_ICLASS_SYSCALL | XED_ICLASS_TEST | XED_ICLASS_RCL | XED_ICLASS_RCR
  | XED_ICLASS_ROL | XED_ICLASS_ROR | XED_ICLASS_SHL | XED_ICLASS_SAR | XED_ICLASS_SHR
  | XED_ICLASS_SHLD | XED_ICLASS_SHRD | XED_ICLASS_NEG | XED_ICLASS_NOT | XED_ICLASS_NOP
  | XED_ICLASS_BT | XED_ICLASS_DEC | XED_ICLASS_DEC_LOCK | XED_ICLASS_INC
  | XED_ICLASS_INC_LOCK | XED_ICLASS_XSAVEC | XED_ICLASS_XRSTOR => []
  | XED_ICLASS_OTHER _ => []
  end.

(** The calls run one after the other before the instruction. *)
Fixpoint run_calls (cs : list call) (d : dyn) : prog unit :=
  match cs with
  | [] => mret tt
  | c :: cs => _ ← c d; run_calls cs d
  end.
End instrument.
End Instrument.
