(* ===== verification/InsFacts.v ===== *)
(** What the loops of the analysis routines do to the offsets that the bytes of the shadow state
    carry, for every tag type that keeps the laws of [TagTraits]. *)

From S2P Require Import Prelude TagTraits Tagmap TagmapFacts Regs InsOps InsXfer InsXchg.

Create HintDb ins.

Module InsFacts.
Import TagTraits Tagmap TagmapFacts Regs InsOps InsXfer InsXchg.

Section facts.
Context {B tag : Type} `{TagLaws B tag}.
Notation engine := (engine B tag).
Implicit Types (e : engine) (l : loc) (t : tag).

(** [n] bytes that are bytes of the shadow state, and different ones. *)
Definition bytes (n : N) (f : N -> loc) : Prop :=
  (forall i, i < n -> mapped (f i)) /\ forall i j, i < n -> j < n -> f i = f j -> i = j.

(** A step reads no byte that an earlier one has written. *)
Definition ordered (n : N) (dst src : N -> loc) : Prop :=
  forall i j, j < i -> i < n -> src i <> dst j.

Lemma bytes_reg n tid r : bytes n (reg tid r).
Proof. split; [done|]. by intros i j _ _ [= ?]. Qed.

Lemma mem_at a i : a + i < 2 ^ 64 -> mem a i = Mem (a + i).
Proof. intros Ha. unfold mem, add64. by rewrite w64_small by lia. Qed.

Lemma bytes_mem n a : a + n <= last_address + 1 -> bytes n (mem a).
Proof.
  unfold last_address. intros Ha. split.
  - intros i Hi. rewrite mem_at by lia. cbn. unfold last_address. lia.
  - intros i j Hi Hj. rewrite !mem_at by lia. intros [= ?]. lia.
Qed.

Lemma bytes_one l : mapped l -> bytes 1 (fun _ => l).
Proof. intros Hm. split; [done|lia]. Qed.

Lemma ordered_reg_mem n tid r a : ordered n (reg tid r) (mem a).
Proof. by intros i j _ _. Qed.
Lemma ordered_mem_reg n tid r a : ordered n (mem a) (reg tid r).
Proof. by intros i j _ _. Qed.
Lemma ordered_regs n tid r r' : ordered n (reg tid r) (reg tid r').
Proof. intros i j Hj Hi [= _ ?]. lia. Qed.
Lemma ordered_one f g : ordered 1 f g.
Proof. intros i j. lia. Qed.
Hint Resolve bytes_reg bytes_mem bytes_one ordered_reg_mem ordered_mem_reg ordered_regs
  ordered_one : ins.

(** ** Steps *)

Lemma combine_to_moved l a b tid e (G : N -> Prop) :
  engine_inv e -> mapped l -> tag_ok (backend e) a -> tag_ok (backend e) b -> tag_thread tid ->
  (forall o, tag_offs (backend e) a o \/ tag_offs (backend e) b o <-> G o) ->
  wp (combine_to l a b tid) (fun _ e' => moved 1 (fun _ => l) (fun _ => G) e e') ends e.
Proof. apply combine_moved. Qed.

Lemma xfer_byte_moved dst src e E :
  engine_inv e -> mapped dst -> mapped src ->
  wp (xfer_byte dst src) (fun _ e' => moved 1 (fun _ => dst) (fun _ => offs e src) e e') E e.
Proof.
  intros Hi Hd Hs. unfold xfer_byte. wp_step. apply get_spec; [done|].
  apply set_moved; [done|done|by apply tag_at_ok|done].
Qed.

Lemma binary_byte_moved tid dst src e :
  engine_inv e -> mapped dst -> mapped src -> tag_thread tid ->
  wp (binary_byte tid dst src)
    (fun _ e' => moved 1 (fun _ => dst) (fun _ o => offs e dst o \/ offs e src o) e e') ends e.
Proof.
  intros Hi Hd Hs Ht. unfold binary_byte. wp_step. apply get_spec; [done|].
  wp_step. apply get_spec; [done|]. apply combine_to_moved; [done..| | |done|done]; by apply tag_at_ok.
Qed.

Lemma moved_iff n dst (G G' : N -> N -> Prop) e e' :
  moved n dst G e e' -> (forall i o, i < n -> G i o <-> G' i o) -> moved n dst G' e e'.
Proof.
  intros (Hi & Hl & Hset & Hrest) HG. split; [done|]. split; [done|]. split; [|done].
  intros i o Hin. by rewrite Hset, HG.
Qed.

(** ** Loops *)

Lemma xfer_n_moved n dst src e E :
  engine_inv e -> bytes (N.of_nat n) dst -> (forall i, i < N.of_nat n -> mapped (src i)) ->
  ordered (N.of_nat n) dst src ->
  wp (xfer_n n dst src)
    (fun _ e' => moved (N.of_nat n) dst (fun i => offs e (src i)) e e') E e.
Proof.
  intros Hi [Hm Hinj] Hs Ho. unfold xfer_n. rewrite <- (Nat2N.id n) at 1.
  apply each_spec; [done..|]. intros i e0 Hin Hi0 Hl0 Hk.
  eapply wp_mono; [by apply xfer_byte_moved; auto|]. intros [] e1 Hmv.
  eapply moved_iff; [exact Hmv|]. intros i0 o _. cbn. apply Hk; [by apply Hs|].
  intros j Hj. by apply Ho.
Qed.

Lemma binary_n_moved n tid dst src e :
  engine_inv e -> tag_thread tid -> bytes (N.of_nat n) dst ->
  (forall i, i < N.of_nat n -> mapped (src i)) -> ordered (N.of_nat n) dst src ->
  wp (binary_n n tid dst src)
    (fun _ e' => moved (N.of_nat n) dst (fun i o => offs e (dst i) o \/ offs e (src i) o) e e')
    ends e.
Proof.
  intros Hi Ht [Hm Hinj] Hs Ho. unfold binary_n. rewrite <- (Nat2N.id n) at 1.
  apply each_spec; [done..|]. intros i e0 Hin Hi0 Hl0 Hk.
  eapply wp_mono; [by apply binary_byte_moved; auto|]. intros [] e1 Hmv.
  eapply moved_iff; [exact Hmv|]. intros i0 o _. cbn.
  rewrite (Hk (dst i)), (Hk (src i)); [done|by apply Hs| |by apply Hm|].
  - intros j Hj. by apply Ho.
  - intros j Hj Heq. apply Hinj in Heq; lia.
Qed.

Lemma clr_n_moved n dst e E :
  engine_inv e -> bytes (N.of_nat n) dst ->
  wp (clr_n n dst) (fun _ e' => moved (N.of_nat n) dst (fun _ _ => False) e e') E e.
Proof.
  intros Hi [Hm Hinj]. unfold clr_n. rewrite <- (Nat2N.id n) at 1.
  apply each_spec; [done..|]. intros i e0 Hin Hi0 _ _.
  destruct (tag_cleared _ (proj1 Hi0)) as [Hok Hno].
  apply set_moved; [done|by apply Hm|done|]. intros o. split; [by apply Hno|done].
Qed.

(** ** Arrays of tags *)

(** [ts] has the tags that the bytes had in the state [e]. *)
Definition snapshot (n : N) (src : N -> loc) e (ts : list tag) : Prop :=
  forall i, i < n -> nth_tag ts i = tag_at e (src i).

Lemma tags_from_spec n i src e (Q : list tag -> engine -> Prop) E :
  (forall j, i <= j < i + N.of_nat n -> mapped (src j)) ->
  (forall ts, length ts = n ->
     (forall j, j < N.of_nat n -> nth_tag ts j = tag_at e (src (i + j))) -> Q ts e) ->
  wp (tags_from n i src) Q E e.
Proof.
  revert i Q. induction n as [|n IH]; intros i Q Hm Hq; cbn [tags_from].
  - apply wp_ret, Hq; [done|lia].
  - wp_step. apply get_spec; [apply Hm; lia|]. wp_step. apply IH; [intros j Hj; apply Hm; lia|].
    intros ts Hlen Hts. apply wp_ret, Hq; [cbn; lia|]. intros j Hj.
    destruct (decide (j = 0)) as [->|Hne]; [by rewrite N.add_0_r|].
    replace j with (N.succ (j - 1)) at 1 by lia. unfold nth_tag. rewrite N2Nat.inj_succ. cbn.
    change (default cleared_val (ts !! N.to_nat (j - 1))) with (nth_tag ts (j - 1)).
    rewrite Hts by lia. do 2 f_equal. lia.
Qed.

Lemma tags_spec n src e (Q : list tag -> engine -> Prop) E :
  (forall j, j < N.of_nat n -> mapped (src j)) ->
  (forall ts, snapshot (N.of_nat n) src e ts -> Q ts e) -> wp (tags n src) Q E e.
Proof.
  intros Hm Hq. apply tags_from_spec; [intros j Hj; apply Hm; lia|]. intros ts _ Hts. by apply Hq.
Qed.

Lemma snapshot_ok n src e e' ts i :
  engine_inv e -> later e e' -> (forall j, j < n -> mapped (src j)) -> snapshot n src e ts ->
  i < n -> tag_ok (backend e') (nth_tag ts i) /\
    forall o, tag_offs (backend e') (nth_tag ts i) o <-> offs e (src i) o.
Proof.
  intros Hi Hl Hm Hs Hin. pose proof (tag_at_ok e _ Hi (Hm i Hin)) as Hok.
  pose proof (Hs i Hin) as Heq. unfold offs. rewrite <- Heq in Hok |- *.
  split; [by eapply tag_later_ok|]. intros o. by apply tag_later_offs.
Qed.

(** The array that was read in the state [e0] is written to [dst]. *)
Lemma put_tags_moved n dst src ts e0 e E :
  engine_inv e0 -> engine_inv e -> later e0 e -> bytes (N.of_nat n) dst ->
  (forall j, j < N.of_nat n -> mapped (src j)) -> snapshot (N.of_nat n) src e0 ts ->
  wp (put_tags n dst ts)
    (fun _ e' => moved (N.of_nat n) dst (fun i => offs e0 (src i)) e e') E e.
Proof.
  intros Hi0 Hi Hl [Hm Hinj] Hs Hts. unfold put_tags. rewrite <- (Nat2N.id n) at 1.
  apply each_spec; [done..|]. intros i e1 Hin Hi1 Hl1 _.
  destruct (snapshot_ok _ src e0 e1 ts i Hi0 ltac:(by etrans) Hs Hts Hin) as [Hok Ho].
  apply set_moved; [done|by apply Hm|done|done].
Qed.
(** ** Exchange *)

(** The two operands are different bytes, or the same in the same order. *)
Definition apart (n : N) (f g : N -> loc) : Prop :=
  forall i j, i < n -> j < n -> f i = g j -> i = j.

(** The scratch register of a thread. *)
Definition scratch (tid : N) (l : loc) : Prop := exists i, l = reg tid DFT_REG_HELPER1 i.

(** The operands have exchanged their offsets; bytes in [skip] may have changed. *)
Definition swapped (skip : loc -> Prop) (n : N) (f g : N -> loc) (e e' : engine) : Prop :=
  engine_inv e' /\
  (forall i o, i < n -> offs e' (f i) o <-> offs e (g i) o) /\
  (forall i o, i < n -> offs e' (g i) o <-> offs e (f i) o) /\
  (forall l o, mapped l -> ~ skip l -> (forall i, i < n -> l <> f i /\ l <> g i) ->
     offs e' l o <-> offs e l o).

Lemma swapped_sym skip n f g e e' : swapped skip n f g e e' -> swapped skip n g f e e'.
Proof.
  intros (Hi & Hf & Hg & Hr). split; [done|]. do 2 (split; [done|]). intros l o Hm Hs Hno.
  apply Hr; [done..|]. intros i Hin. destruct (Hno i Hin). done.
Qed.

Lemma swap_n_spec skip n f g e E :
  engine_inv e -> bytes (N.of_nat n) f -> bytes (N.of_nat n) g -> apart (N.of_nat n) f g ->
  wp (swap_n n f g) (fun _ e' => swapped skip (N.of_nat n) f g e e') E e.
Proof.
  intros Hi Hf Hg Hap. unfold swap_n. destruct Hf as [Hfm Hfi], Hg as [Hgm Hgi].
  wp_step. apply tags_spec; [done|]. intros tf Htf. wp_step. apply tags_spec; [done|].
  intros tg Htg. wp_step. eapply wp_mono; [by apply (put_tags_moved n f g tg e e)|].
  intros [] e1 (Hi1 & Hl1 & Hset1 & Hrest1).
  eapply wp_mono; [by apply (put_tags_moved n g f tf e e1)|].
  intros [] e2 (Hi2 & Hl2 & Hset2 & Hrest2). split; [done|]. split; [|split; [done|]].
  - intros i o Hin. destruct (decide (f i = g i)) as [Heq|Hne].
    + rewrite Heq, Hset2 by done. by rewrite Heq.
    + rewrite Hrest2; [by apply Hset1|by apply Hfm|]. intros j Hj Heq.
      pose proof (Hap i j Hin Hj Heq). by subst j.
  - intros l o Hm _ Hno. rewrite Hrest2, Hrest1; [done|done| |done|]; intros i Hin; by destruct (Hno i Hin).
Qed.

Lemma swap_byte_spec skip f g e E :
  engine_inv e -> mapped f -> mapped g ->
  wp (swap_byte f g) (fun _ e' => swapped skip 1 (fun _ => f) (fun _ => g) e e') E e.
Proof.
  intros Hi Hf Hg. unfold swap_byte. wp_step. apply get_spec; [done|]. wp_step. apply get_spec; [done|].
  wp_step. eapply wp_mono; [apply (set_moved f (tag_at e g) (offs e g)); [done|done|by apply tag_at_ok|done]|].
  intros [] e1 (Hi1 & Hl1 & Hset1 & Hrest1).
  eapply wp_mono; [apply (set_moved g (tag_at e f) (offs e f)); [done|done| |]|].
  - eapply tag_later_ok; [exact Hl1|by apply tag_at_ok].
  - intros o. apply tag_later_offs; [exact Hl1|by apply tag_at_ok].
  - intros [] e2 (Hi2 & Hl2 & Hset2 & Hrest2). split; [done|]. split; [|split].
    + intros i o Hin. destruct (decide (f = g)) as [<-|Hne]; [by apply (Hset2 0)|].
      rewrite Hrest2; [by apply (Hset1 0)|done|done].
    + intros i o Hin. by apply (Hset2 0).
    + intros l o Hm _ Hno. rewrite Hrest2, Hrest1; [done|done| |done|]; intros i Hin; by destruct (Hno i Hin).
Qed.

(** Three copies through the scratch register. *)
Lemma swap_three n tid a b e E :
  engine_inv e -> DFT_REG_HELPER1 <> a -> DFT_REG_HELPER1 <> b ->
  wp (_ ← xfer_n n (reg tid DFT_REG_HELPER1) (reg tid a);
      _ ← xfer_n n (reg tid a) (reg tid b);
      xfer_n n (reg tid b) (reg tid DFT_REG_HELPER1))
    (fun _ e' => swapped (scratch tid) (N.of_nat n) (reg tid a) (reg tid b) e e') E e.
Proof.
  intros Hi Ha Hb.
  assert (forall i j r r', r <> r' -> reg tid r i <> reg tid r' j) as Hne
    by (intros i j r r' Hr [= Heq _]; done).
  wp_step. eapply wp_mono; [apply xfer_n_moved; auto with ins; done|].
  intros [] e1 (Hi1 & _ & Hset1 & Hrest1).
  wp_step. eapply wp_mono; [apply xfer_n_moved; auto with ins; done|].
  intros [] e2 (Hi2 & _ & Hset2 & Hrest2).
  eapply wp_mono; [apply xfer_n_moved; auto with ins; done|].
  intros [] e3 (Hi3 & _ & Hset3 & Hrest3).
  assert (forall r i o, r <> DFT_REG_HELPER1 -> offs e1 (reg tid r i) o <-> offs e (reg tid r i) o) as H1.
  { intros r i o Hr. apply Hrest1; [done|]. intros j _. by apply Hne. }
  split; [done|]. split; [|split].
  - intros i o Hin. destruct (decide (a = b)) as [->|Hab].
    + rewrite Hset3, Hrest2 by (done || (intros; by apply Hne)). by apply Hset1.
    + rewrite Hrest3; [|done|intros j _; by apply Hne]. rewrite Hset2 by done. by apply H1.
  - intros i o Hin. rewrite Hset3, Hrest2 by (done || (intros; by apply Hne)). by apply Hset1.
  - intros l o Hm Hs Hno.
    rewrite Hrest3, Hrest2, Hrest1; [done|done| |done| |done|]; intros i Hin;
      [intros ->; apply Hs; by exists i|by destruct (Hno i Hin)..].
Qed.

(** ** Compare and exchange *)

(** [n] bytes have the offsets [G] gives, and others but those in [skip] have kept theirs. *)
Definition moved_but (skip : loc -> Prop) (n : N) (dst : N -> loc) (G : N -> N -> Prop)
    (e e' : engine) : Prop :=
  engine_inv e' /\
  (forall i o, i < n -> offs e' (dst i) o <-> G i o) /\
  (forall l o, mapped l -> ~ skip l -> (forall i, i < n -> l <> dst i) ->
     offs e' l o <-> offs e l o).

Lemma cmpxchg_fast_spec n w tid f (eq : bool) e E :
  engine_inv e -> (w <= n)%nat -> bytes (N.of_nat w) f -> (forall i, ~ scratch tid (f i)) ->
  wp (cmpxchg_fast n w tid f eq)
    (fun b e' => b = eq /\ later e e' /\
       (forall i o, i < N.of_nat n ->
          offs e' (reg tid DFT_REG_HELPER1 i) o <-> offs e (reg tid DFT_REG_RAX i) o) /\
       moved_but (scratch tid) (N.of_nat w) (reg tid DFT_REG_RAX) (fun i => offs e (f i)) e e') E e.
Proof.
  intros Hi Hwn [Hfm Hfi] Hsc. unfold cmpxchg_fast.
  wp_step. apply tags_spec; [done|]. intros ts Hts.
  wp_step. eapply wp_mono; [apply (put_tags_moved n _ (reg tid DFT_REG_RAX) ts e e); auto with ins; done|].
  intros [] e1 (Hi1 & Hl1 & Hset1 & Hrest1). wp_step. apply tags_spec; [done|]. intros tf Htf.
  wp_step. eapply wp_mono; [apply (put_tags_moved w _ f tf e1 e1); auto with ins; done|].
  intros [] e2 (Hi2 & Hl2 & Hset2 & Hrest2). apply wp_ret. split; [done|]. split; [by etrans|].
  split; [|split; [done|split]].
  - intros i o Hin. rewrite Hrest2; [by apply Hset1|done|by intros j Hj].
  - intros i o Hin. rewrite Hset2 by done. apply Hrest1; [by apply Hfm|]. intros j Hj Heq.
    apply (Hsc i). rewrite Heq. by exists j.
  - intros l o Hm Hs Hno. rewrite Hrest2, Hrest1; [done|done| |done|done].
    intros j Hj ->. apply Hs. by exists j.
Qed.

Lemma reg_cases tid r n l :
  (exists i, i < n /\ l = reg tid r i) \/ forall i, i < n -> l <> reg tid r i.
Proof.
  destruct l as [a|t r' k]; [by right|].
  destruct (decide (t = tid /\ r' = r /\ k < n)) as [(-> & -> & Hk)|Hno]; [left; by exists k|].
  right. intros i Hin [= -> -> ->]. by apply Hno.
Qed.

(** Both halves, where the values are equal, or the first one alone. *)
Lemma cmpxchg_spec n w tid f r (eq : bool) e E :
  engine_inv e -> (w <= n)%nat -> bytes (N.of_nat w) f -> (forall i, ~ scratch tid (f i)) ->
  r <> DFT_REG_HELPER1 ->
  wp (b ← cmpxchg_fast n w tid f eq; if b : bool then cmpxchg_slow n w tid f r else mret tt)
    (fun _ e' => if eq
       then moved_but (scratch tid) (N.of_nat w) f (fun i => offs e (reg tid r i)) e e'
       else moved_but (scratch tid) (N.of_nat w) (reg tid DFT_REG_RAX) (fun i => offs e (f i)) e e') E e.
Proof.
  intros Hi Hwn Hf Hsc Hr. wp_step. eapply wp_mono; [by apply cmpxchg_fast_spec|].
  intros b e1 (-> & Hl1 & Hh1 & Hm1). destruct eq; [|by apply wp_ret].
  destruct Hm1 as (Hi1 & Hset1 & Hrest1). destruct Hf as [Hfm Hfi]. unfold cmpxchg_slow.
  wp_step. apply tags_spec; [done|]. intros ts Hts.
  wp_step. eapply wp_mono; [apply (put_tags_moved n _ (reg tid DFT_REG_HELPER1) ts e1 e1); auto with ins; done|].
  intros [] e2 (Hi2 & Hl2 & Hset2 & Hrest2).
  assert (forall l o, mapped l -> ~ scratch tid l -> offs e2 l o <-> offs e l o) as Hback.
  { intros l o Hm Hs. destruct (reg_cases tid DFT_REG_RAX (N.of_nat n) l) as [(i & Hin & ->)|Hno].
    - rewrite Hset2 by done. by apply Hh1.
    - rewrite Hrest2, Hrest1; [done|done|done| |done|done]. intros i Hin. apply Hno. lia. }
  wp_step. apply tags_spec; [done|]. intros tr Htr.
  eapply wp_mono; [apply (put_tags_moved w f (reg tid r) tr e2 e2); done|].
  intros [] e3 (Hi3 & Hl3 & Hset3 & Hrest3). split; [done|]. split.
  - intros i o Hin. rewrite Hset3 by done. apply Hback; [done|]. intros [j Heq]. injection Heq as Heq _. done.
  - intros l o Hm Hs Hno. rewrite Hrest3 by done. by apply Hback.
Qed.
End facts.

#[export] Hint Resolve bytes_reg bytes_mem bytes_one ordered_reg_mem ordered_mem_reg ordered_regs
  ordered_one : ins.
End InsFacts.
