(* ===== verification/InsProps.v ===== *)
(** The properties of the instrumentation: what the calls inserted before an instruction do to
    the offsets that its operands carry, for every tag type and for every operand width. *)

From S2P Require Import Prelude Examples TagTraits Tagmap TagmapFacts Regs InsOps InsXfer InsXchg.
From S2P Require Import Instrument InsFacts.

Module InsProps.
Import Examples TagTraits Tagmap TagmapFacts Regs InsOps InsXfer InsXchg Instrument InsFacts.

(** ** Operands *)

Section operands.
Context {INS : Type} `{Pin INS}.

(** The width in bytes of a register, and its bytes: a register of one byte is the first or the
    second byte of the wide register it belongs to. *)
Definition wide (r : REG) : option nat :=
  if REG_is_gr64 r then Some 8%nat else if REG_is_gr32 r then Some 4%nat
  else if REG_is_gr16 r then Some 2%nat else if REG_is_xmm r then Some 16%nat
  else if REG_is_ymm r then Some 32%nat else if REG_is_mm r then Some 8%nat else None.
Definition width (r : REG) : nat := default 1%nat (wide r).
Definition part (tid : N) (r : REG) : N -> loc :=
  match wide r with
  | Some _ => reg tid (REG_INDX r)
  | None => fun _ => reg tid (REG_INDX r) (if REG_is_Upper8 r then 1 else 0)
  end.

(** The width of an instruction with two operands, and the bytes of the destination and the
    source: two registers, or a register and memory. *)
Definition operands (ins : INS) (d : dyn) : nat * (N -> loc) * (N -> loc) :=
  let r0 := INS_OperandReg ins OP_0 in
  let r1 := INS_OperandReg ins OP_1 in
  let tid := THREAD_ID d in
  if INS_MemoryOperandCount ins =? 0 then (width r0, part tid r0, part tid r1)
  else if INS_OperandIsMemory ins OP_1 then (width r0, part tid r0, mem (MEMORYREAD_EA d))
  else (width r1, mem (MEMORYWRITE_EA d), part tid r1).

(** A register is of a wide class or a lower or an upper byte. *)
Definition one_class (r : REG) : Prop := wide r = None -> REG_is_Lower8 r = negb (REG_is_Upper8 r).

(** Registers of one width; memory in the user half of the address space. *)
Definition regular (ins : INS) (d : dyn) : Prop :=
  let r0 := INS_OperandReg ins OP_0 in
  let r1 := INS_OperandReg ins OP_1 in
  if INS_MemoryOperandCount ins =? 0 then wide r0 = wide r1 /\ one_class r0 /\ one_class r1
  else if INS_OperandIsMemory ins OP_1 then
    MEMORYREAD_EA d + N.of_nat (width r0) <= last_address + 1
  else MEMORYWRITE_EA d + N.of_nat (width r1) <= last_address + 1.
End operands.

(** ** Propagation *)

Section props.
Context {B tag : Type} `{TagLaws B tag} {INS : Type} {P : Pin INS}.
Implicit Types (e : engine B tag) (ins : INS) (d : dyn).

Lemma run_always (f : dyn -> prog (engine B tag) unit) d Q E e :
  wp (f d) Q E e -> wp (run_calls (always f) d) Q E e.
Proof.
  intros Hf. cbn [run_calls always]. wp_step. eapply wp_mono; [exact Hf|]. by intros [] e'.
Qed.

(** The routines for one byte: the two tags are read, then combined in either order. *)
Lemma combine_bytes tid dst src e (sw : bool) :
  engine_inv e -> mapped dst -> mapped src -> tag_thread tid ->
  wp (s ← get_tag src; d ← get_tag dst;
      combine_to dst (if sw then s else d) (if sw then d else s) tid)
    (fun _ e' => moved 1 (fun _ => dst) (fun _ o => offs e dst o \/ offs e src o) e e') ends e.
Proof.
  intros Hi Hd Hs Ht. wp_step. apply get_spec; [done|]. wp_step. apply get_spec; [done|].
  apply combine_to_moved; [done|done| | |done|]; [by destruct sw; apply tag_at_ok..|].
  intros o. unfold offs. destruct sw; [apply or_comm|done].
Qed.

(** The effect wanted: every byte of the destination gets the offsets [G] gives for it. *)
Notation result n dst G e := (fun (_ : unit) e' => moved (N.of_nat n) dst G e e').

Lemma mem0 a : a + 1 <= last_address + 1 -> mem a 0 = Mem a.
Proof. unfold last_address. intros Ha. rewrite mem_at by lia. by rewrite N.add_0_r. Qed.

(** A routine for one byte. *)
Lemma moved_one f (G : N -> N -> Prop) l (G0 : N -> Prop) e e' :
  moved 1 (fun _ => l) (fun _ => G0) e e' -> f 0 = l -> (forall o, G 0 o <-> G0 o) ->
  moved 1 f G e e'.
Proof.
  intros (Hi & Hl & Hset & Hrest) Hf HG. split; [done|]. split; [done|]. split.
  - intros i o Hin. replace i with 0 by lia. rewrite Hf, HG. by apply (Hset 0).
  - intros l' o Hm Hno. apply Hrest; [done|]. intros i Hin. rewrite <- Hf. by apply Hno.
Qed.

Lemma binary_regs ins d e :
  engine_inv e -> tag_thread (THREAD_ID d) -> INS_OperandIsImmediate ins OP_1 = false ->
  INS_MemoryOperandCount ins = 0 -> regular ins d ->
  let '(n, dst, src) := operands ins d in
  wp (run_calls (ins_binary_op ins) d)
    (result n dst (fun i o => offs e (dst i) o \/ offs e (src i) o) e) ends e.
Proof.
  intros Hi Ht Himm Hc Hr. unfold regular, operands in *. unfold ins_binary_op.
  rewrite Himm, Hc in *. cbn [N.eqb] in *. destruct Hr as (Hw & H0c & H1c).
  unfold part. rewrite <- Hw. unfold width, one_class in *. rewrite <- Hw in H1c.
  unfold wide in *.
  repeat (case_match; [apply run_always, binary_n_moved; auto with ins; done|]).
  specialize (H0c eq_refl). specialize (H1c eq_refl). rewrite H0c, H1c.
  destruct (REG_is_Upper8 (INS_OperandReg ins OP_0)), (REG_is_Upper8 (INS_OperandReg ins OP_1));
    cbn [negb andb]; apply run_always; by apply (combine_bytes _ _ _ _ false).
Qed.

Lemma binary_load ins d e :
  engine_inv e -> tag_thread (THREAD_ID d) -> INS_OperandIsImmediate ins OP_1 = false ->
  INS_MemoryOperandCount ins <> 0 -> INS_OperandIsMemory ins OP_1 = true -> regular ins d ->
  let '(n, dst, src) := operands ins d in
  wp (run_calls (ins_binary_op ins) d)
    (result n dst (fun i o => offs e (dst i) o \/ offs e (src i) o) e) ends e.
Proof.
  intros Hi Ht Himm Hc Hm Hr. unfold regular, operands in *. unfold ins_binary_op.
  apply N.eqb_neq in Hc. rewrite Himm, Hc, Hm in *. unfold part, width, wide in *.
  pose proof (bytes_mem _ _ Hr) as [Hb _].
  repeat (case_match; [apply run_always, binary_n_moved; auto with ins; done|]).
  cbn in Hr. case_match; apply run_always;
    (eapply wp_mono; [apply (combine_bytes _ _ (Mem (MEMORYREAD_EA d)) e true); auto with ins; cbn; lia|]);
    intros [] e' Hmv; (eapply moved_one; [exact Hmv|done|]); intros o; by rewrite mem0.
Qed.

Lemma binary_store ins d e :
  engine_inv e -> tag_thread (THREAD_ID d) -> INS_OperandIsImmediate ins OP_1 = false ->
  INS_MemoryOperandCount ins <> 0 -> INS_OperandIsMemory ins OP_1 = false -> regular ins d ->
  let '(n, dst, src) := operands ins d in
  wp (run_calls (ins_binary_op ins) d)
    (result n dst (fun i o => offs e (dst i) o \/ offs e (src i) o) e) ends e.
Proof.
  intros Hi Ht Himm Hc Hm Hr. unfold regular, operands in *. unfold ins_binary_op.
  apply N.eqb_neq in Hc. rewrite Himm, Hc, Hm in *. unfold part, width, wide in *.
  pose proof (bytes_mem _ _ Hr) as Hb.
  repeat (case_match; [apply run_always, binary_n_moved; auto with ins; done|]).
  cbn in Hr. case_match; apply run_always;
    (eapply wp_mono; [apply (combine_bytes _ (Mem (MEMORYWRITE_EA d)) _ e false); auto with ins; cbn; lia|]);
    intros [] e' Hmv; (eapply moved_one; [exact Hmv|by apply mem0|]); intros o; by rewrite mem0.
Qed.

Lemma binary_op_spec ins d e :
  engine_inv e -> tag_thread (THREAD_ID d) -> INS_OperandIsImmediate ins OP_1 = false ->
  regular ins d ->
  let '(n, dst, src) := operands ins d in
  wp (run_calls (ins_binary_op ins) d)
    (result n dst (fun i o => offs e (dst i) o \/ offs e (src i) o) e) ends e.
Proof.
  intros Hi Ht Himm Hr. destruct (decide (INS_MemoryOperandCount ins = 0)) as [Hc|Hc].
  - by apply binary_regs.
  - destruct (INS_OperandIsMemory ins OP_1) eqn:Hm; [by apply binary_load|by apply binary_store].
Qed.

Lemma xfer_regs ins d e E :
  engine_inv e -> INS_MemoryOperandCount ins = 0 -> regular ins d ->
  let '(n, dst, src) := operands ins d in
  wp (run_calls (ins_xfer_op ins) d) (result n dst (fun i => offs e (src i)) e) E e.
Proof.
  intros Hi Hc Hr. unfold regular, operands in *. unfold ins_xfer_op.
  rewrite Hc in *. cbn [N.eqb] in *. destruct Hr as (Hw & H0c & H1c).
  unfold part. rewrite <- Hw. unfold width, one_class in *. rewrite <- Hw in H1c.
  unfold wide in *.
  repeat (case_match; [apply run_always, xfer_n_moved; auto with ins; done|]).
  specialize (H0c eq_refl). specialize (H1c eq_refl). rewrite H0c, H1c.
  destruct (REG_is_Upper8 (INS_OperandReg ins OP_0)), (REG_is_Upper8 (INS_OperandReg ins OP_1));
    cbn [negb andb]; apply run_always; by apply xfer_byte_moved.
Qed.

Lemma store_word tid dst src e :
  dst + 2 <= last_address + 1 -> r2m_xfer_opw tid dst src e = xfer_n 2 (mem dst) (reg tid src) e.
Proof.
  intros Ha. unfold r2m_xfer_opw, xfer_n. cbn [for_loop]. rewrite mem0 by (unfold last_address in *; lia).
  unfold mem at 1. cbn [N.add Pos.add Pos.succ]. unfold mbind, prog_bind.
  destruct (xfer_byte (Mem dst) _ e) as [[] e1|x e1|]; [|done|done].
  change (0 + 1) with 1. by destruct (xfer_byte (Mem (add64 dst 1)) _ e1) as [[] e2|x e2|].
Qed.

Lemma xfer_mem ins d e E :
  engine_inv e -> INS_MemoryOperandCount ins <> 0 -> regular ins d ->
  let '(n, dst, src) := operands ins d in
  wp (run_calls (ins_xfer_op ins) d) (result n dst (fun i => offs e (src i)) e) E e.
Proof.
  intros Hi Hc Hr. unfold regular, operands in *. unfold ins_xfer_op.
  apply N.eqb_neq in Hc. rewrite Hc in *. unfold part, width, wide in *.
  destruct (INS_OperandIsMemory ins OP_1); pose proof (bytes_mem _ _ Hr) as [Hb Hinj];
    repeat (case_match; [first [apply run_always, xfer_n_moved; auto with ins; done
      |apply run_always; unfold wp; rewrite store_word by done; apply xfer_n_moved; auto with ins; done]|]);
    cbn in Hr; case_match; apply run_always.
  1, 2: eapply wp_mono; [apply (xfer_byte_moved _ (Mem (MEMORYREAD_EA d))); auto with ins; cbn; lia|];
    intros [] e' Hmv; eapply moved_one; [exact Hmv|done|]; intros o; by rewrite mem0.
  all: eapply wp_mono; [apply (xfer_byte_moved (Mem (MEMORYWRITE_EA d))); auto with ins; cbn; lia|];
    intros [] e' Hmv; eapply moved_one; [exact Hmv|by apply mem0|done].
Qed.

Lemma xfer_op_spec ins d e E :
  engine_inv e -> regular ins d ->
  let '(n, dst, src) := operands ins d in
  wp (run_calls (ins_xfer_op ins) d) (result n dst (fun i => offs e (src i)) e) E e.
Proof.
  intros Hi Hr. destruct (decide (INS_MemoryOperandCount ins = 0)) as [Hc|Hc];
    [by apply xfer_regs|by apply xfer_mem].
Qed.

(** C9: the calls that [ins_binary_op] inserts before an instruction with two registers, or a
    register and memory, of any of the widths, give every byte of the destination the union of
    the offsets that it and the corresponding byte of the source had, and no other byte of the
    shadow state changes. *)
Theorem binary_propagates ins d e n dst src :
  engine_inv e -> tag_thread (THREAD_ID d) -> INS_OperandIsImmediate ins OP_1 = false ->
  regular ins d -> operands ins d = (n, dst, src) ->
  wp (run_calls (ins_binary_op ins) d)
    (result n dst (fun i o => offs e (dst i) o \/ offs e (src i) o) e) ends e.
Proof.
  intros Hi Ht Himm Hr Ho. pose proof (binary_op_spec ins d e Hi Ht Himm Hr) as Hw.
  by rewrite Ho in Hw.
Qed.

(** C32: the calls of [ins_xfer_op] give every byte of the destination the offsets of the
    corresponding byte of the source, at every width, and change no other byte. *)
Theorem xfer_copies ins d e n dst src :
  engine_inv e -> regular ins d -> operands ins d = (n, dst, src) ->
  wp (run_calls (ins_xfer_op ins) d) (result n dst (fun i => offs e (src i)) e)
    (fun _ _ => False) e.
Proof.
  intros Hi Hr Ho. pose proof (xfer_op_spec ins d e (fun _ _ => False) Hi Hr) as Hw.
  by rewrite Ho in Hw.
Qed.

(** ** Fall-through *)

Lemma operands_apart ins d :
  regular ins d -> let '(n, dst, src) := operands ins d in
  apart (N.of_nat n) dst src /\ forall i, i < N.of_nat n -> mapped (dst i) /\ mapped (src i).
Proof.
  unfold regular, operands. destruct (INS_MemoryOperandCount ins =? 0).
  - intros (Hw & _). unfold part, width. rewrite <- Hw.
    destruct (wide (INS_OperandReg ins OP_0)); (split; [|done]).
    + by intros i j _ _ [= _ ?].
    + intros i j. cbn. lia.
  - destruct (INS_OperandIsMemory ins OP_1); intros Hr; pose proof (bytes_mem _ _ Hr) as [Hb _];
      unfold part, width in *; destruct (wide _); split; try done; intros i Hin; (split; [by try apply Hb|by try apply Hb]).
Qed.

Lemma run_calls_app cs cs' d Q E e :
  wp (run_calls cs d) (fun _ => wp (run_calls cs' d) Q E) E e ->
  wp (run_calls (cs ++ cs') d) Q E e.
Proof.
  revert e. induction cs as [|c cs IH]; intros e Hw; [exact Hw|]. cbn [run_calls app] in *.
  unfold wp, mbind, prog_bind in *. destruct (c d e) as [[] e1|x e1|]; [|done..]. by apply IH.
Qed.

(** C35: the cases of MULSD, MULPD and DIVSD in [ins_inspect] fall through to that of MOV: the
    copy overwrites what the combination has computed, so that every byte of the destination is
    left with the offsets of the source alone and those of the destination are lost. *)
Theorem mulsd_loses ins d e n dst src :
  engine_inv e -> tag_thread (THREAD_ID d) -> INS_OperandIsImmediate ins OP_1 = false ->
  INS_OperandIsReg ins OP_1 && REG_is_seg (INS_OperandReg ins OP_1) = false ->
  regular ins d -> INS_Opcode ins ∈ [XED_ICLASS_MULSD; XED_ICLASS_MULPD; XED_ICLASS_DIVSD] ->
  operands ins d = (n, dst, src) ->
  wp (run_calls (ins_inspect ins) d) (result n dst (fun i => offs e (src i)) e) ends e.
Proof.
  intros Hi Ht Himm Hseg Hr Hop Ho.
  assert (ins_inspect ins = ins_binary_op ins ++ ins_xfer_op (B := B) ins) as ->.
  { unfold ins_inspect, inspect_mov. rewrite Himm, Hseg.
    rewrite !elem_of_cons, elem_of_nil in Hop. by destruct Hop as [->|[->|[->|[]]]]. }
  pose proof (binary_op_spec ins d e Hi Ht Himm Hr) as Hb.
  pose proof (fun e1 Hi1 => xfer_op_spec ins d e1 ends Hi1 Hr) as Hx.
  pose proof (operands_apart ins d Hr) as Hap.
  rewrite Ho in Hb, Hx, Hap. destruct Hap as [Hap Hm].
  apply run_calls_app. eapply wp_mono; [exact Hb|]. intros [] e1 (Hi1 & Hl1 & Hset1 & Hrest1).
  eapply wp_mono; [exact (Hx e1 Hi1)|]. intros [] e2 (Hi2 & Hl2 & Hset2 & Hrest2).
  split; [done|]. split; [by etrans|]. split.
  - intros i o Hin. rewrite Hset2 by done. destruct (decide (src i = dst i)) as [Heq|Hne].
    + rewrite Heq, Hset1 by done. rewrite Heq. naive_solver.
    + apply Hrest1; [by apply Hm|]. intros j Hj Heq. pose proof (Hap j i Hj Hin (eq_sym Heq)).
      by subst j.
  - intros l o Hml Hno. rewrite Hrest2 by done. by apply Hrest1.
Qed.

(** ** Exchange *)

Lemma three_calls (fn : N -> N -> N -> prog (engine B tag) unit) n r0 r1 d e E :
  (forall tid a b, fn tid a b = xfer_n n (reg tid a) (reg tid b)) ->
  engine_inv e -> REG_INDX r0 <> DFT_REG_HELPER1 -> REG_INDX r1 <> DFT_REG_HELPER1 ->
  wp (run_calls (xchg_three fn r0 r1) d)
    (fun _ e' => swapped (scratch (THREAD_ID d)) (N.of_nat n) (reg (THREAD_ID d) (REG_INDX r0))
       (reg (THREAD_ID d) (REG_INDX r1)) e e') E e.
Proof.
  intros Hfn Hi H0' H1'. pose proof (swap_three n (THREAD_ID d) (REG_INDX r0) (REG_INDX r1) e E Hi
    ltac:(congruence) ltac:(congruence)) as Hs. revert Hs.
  unfold wp, xchg_three, always. cbn [run_calls app]. unfold mbind, prog_bind. rewrite !Hfn.
  change 0 with DFT_REG_HELPER1.
  destruct (xfer_n n (reg _ DFT_REG_HELPER1) _ e) as [[] e1|x e1|]; [|done|done].
  destruct (xfer_n n _ _ e1) as [[] e2|x e2|]; [|done|done].
  by destruct (xfer_n n _ _ e2) as [[] e3|x e3|].
Qed.

(** The bytes of one operand, for instructions on general registers and memory. *)
Definition general (r : REG) : Prop :=
  REG_is_gr64 r || REG_is_gr32 r || REG_is_gr16 r = true \/
  (REG_is_gr8 r = true /\ wide r = None).

Lemma REG_INDX_helper r : REG_INDX r <> DFT_REG_HELPER1.
Proof. by destruct r. Qed.

Lemma apart_one f g : apart 1 f g.
Proof. intros i j. lia. Qed.
Lemma apart_regs n tid r r' : apart n (reg tid r) (reg tid r').
Proof. by intros i j _ _ [= _ ?]. Qed.
Lemma apart_reg_mem n tid r a : apart n (reg tid r) (mem a).
Proof. done. Qed.
Hint Resolve apart_one apart_regs apart_reg_mem : ins.

Lemma swapped_one skip f g f0 g0 e e' :
  swapped skip 1 (fun _ => f0) (fun _ => g0) e e' -> f 0 = f0 -> g 0 = g0 ->
  swapped skip 1 f g e e'.
Proof.
  intros (Hi & Hf & Hg & Hr) H0f H0g. split; [done|]. split; [|split].
  - intros i o Hin. replace i with 0 by lia. rewrite H0f, H0g. by apply (Hf 0).
  - intros i o Hin. replace i with 0 by lia. rewrite H0f, H0g. by apply (Hg 0).
  - intros l o Hm Hs Hno. apply Hr; [done..|]. intros i Hin. destruct (Hno 0 ltac:(lia)). by subst.
Qed.

(** The operands of an instruction exchange what they carry; only they and the scratch register
    change. *)
Definition exchanges ins d e (e' : engine B tag) : Prop :=
  let '(n, dst, src) := operands ins d in
  swapped (scratch (THREAD_ID d)) (N.of_nat n) dst src e e'.

Lemma xchg_regs ins d e E :
  engine_inv e -> INS_MemoryOperandCount ins = 0 -> regular ins d ->
  general (INS_OperandReg ins OP_0) ->
  wp (run_calls (ins_xchg_op ins) d) (fun _ => exchanges ins d e) E e.
Proof.
  intros Hi Hc Hr Hg. unfold exchanges, regular, operands in *. unfold ins_xchg_op.
  rewrite Hc in *. cbn [N.eqb] in *. destruct Hr as (Hw & H0c & H1c).
  unfold part. rewrite <- Hw. unfold width, one_class in *. rewrite <- Hw in H1c.
  unfold general, wide in *.
  do 2 (case_match; [apply three_calls; [done|done|apply REG_INDX_helper..]|]).
  case_match; [apply run_always, swap_n_spec; auto with ins; done|].
  destruct Hg as [Hg|[Hg Hn]]; [done|].
  repeat (case_match; [done|]). rewrite Hg.
  specialize (H0c eq_refl). specialize (H1c eq_refl). rewrite H0c, H1c.
  destruct (REG_is_Upper8 (INS_OperandReg ins OP_0)), (REG_is_Upper8 (INS_OperandReg ins OP_1));
    cbn [negb andb]; apply run_always; by apply swap_byte_spec.
Qed.

Lemma xchg_with_mem r a tid e E :
  engine_inv e -> general r -> a + N.of_nat (width r) <= last_address + 1 ->
  wp (if REG_is_gr64 r then _xchg_m2r_opq tid (REG_INDX r) a
      else if REG_is_gr32 r then _xchg_m2r_opl tid (REG_INDX r) a
      else if REG_is_gr16 r then _xchg_m2r_opw tid (REG_INDX r) a
      else if REG_is_Upper8 r then _xchg_m2r_opb_u tid (REG_INDX r) a
      else _xchg_m2r_opb_l tid (REG_INDX r) a)
    (fun _ => swapped (scratch tid) (N.of_nat (width r)) (part tid r) (mem a) e) E e.
Proof.
  intros Hi Hg Ha. unfold part, width, general, wide in *.
  do 3 (case_match; [apply swap_n_spec; auto with ins; done|]).
  destruct Hg as [Hg|[Hg Hn]]; [done|].
  repeat (case_match; [done|]). cbn in Ha.
  case_match; (eapply wp_mono; [apply (swap_byte_spec (scratch tid) _ (Mem a)); auto with ins; cbn; lia|]);
    intros [] e' Hs; (eapply swapped_one; [exact Hs|done|by apply mem0]).
Qed.

Lemma xchg_spec ins d e :
  engine_inv e -> regular ins d ->
  general (INS_OperandReg ins
    (if (INS_MemoryOperandCount ins =? 0) || INS_OperandIsMemory ins OP_1 then OP_0 else OP_1)) ->
  wp (run_calls (ins_xchg_op ins) d) (fun _ => exchanges ins d e) (fun _ _ => False) e.
Proof.
  intros Hi Hr Hg. destruct (N.eqb_spec (INS_MemoryOperandCount ins) 0) as [Hc|Hc];
    [by apply xchg_regs|].
  unfold exchanges, regular, operands in *. unfold ins_xchg_op. apply N.eqb_neq in Hc.
  rewrite Hc in *. cbn [orb] in Hg.
  destruct (INS_OperandIsMemory ins OP_1);
    pose proof (xchg_with_mem _ _ (THREAD_ID d) e (fun _ _ => False) Hi Hg Hr) as Hx.
  - repeat case_match; apply run_always; exact Hx.
  - eapply wp_mono in Hx; [|intros u e' Hs; exact (swapped_sym _ _ _ _ _ _ Hs)].
    repeat case_match; apply run_always; exact Hx.
Qed.

(** C29: the calls of [ins_xchg_op] exchange the offsets of its two operands, byte by byte, at
    every width, and change nothing else but the scratch register, through which the copies of
    the wide registers go. *)
Theorem xchg_swaps ins d e n dst src :
  engine_inv e -> regular ins d ->
  general (INS_OperandReg ins
    (if (INS_MemoryOperandCount ins =? 0) || INS_OperandIsMemory ins OP_1 then OP_0 else OP_1)) ->
  operands ins d = (n, dst, src) ->
  wp (run_calls (ins_xchg_op ins) d)
    (fun _ e' => swapped (scratch (THREAD_ID d)) (N.of_nat n) dst src e e') (fun _ _ => False) e.
Proof.
  intros Hi Hr Hg Ho. pose proof (xchg_spec ins d e Hi Hr Hg) as Hw. unfold exchanges in Hw.
  by rewrite Ho in Hw.
Qed.

(** ** Compare and exchange *)

(** The value of the first operand, and the comparison that the code makes: of 16 bits, or of 32
    also when the operands have 64. *)
Definition operand_value ins d : N :=
  if INS_MemoryOperandCount ins =? 0 then REG_VALUE d (INS_OperandReg ins OP_0)
  else app_memory d (MEMORYREAD_EA d).
Definition compares ins d : bool :=
  if Nat.eqb (fst (fst (operands ins d))) 2
  then w16 (REG_VALUE d REG_AX) =? w16 (operand_value ins d)
  else w32 (REG_VALUE d REG_EAX) =? w32 (operand_value ins d).

(** The registers that have code: of 64, 32 and 16 bits. *)
Definition word (r : REG) : Prop := REG_is_gr64 r || REG_is_gr32 r || REG_is_gr16 r = true.

(** If the operands compare equal, the destination gets what the source carries; if not, RAX gets
    what the destination carries. *)
Definition cmpxchg_result ins d e (e' : engine B tag) : Prop :=
  let '(n, dst, src) := operands ins d in
  if compares ins d
  then moved_but (scratch (THREAD_ID d)) (N.of_nat n) dst (fun i => offs e (src i)) e e'
  else moved_but (scratch (THREAD_ID d)) (N.of_nat n) (reg (THREAD_ID d) DFT_REG_RAX)
    (fun i => offs e (dst i)) e e'.

Lemma run_cmpxchg F G n w tid f r (eq : bool) d e (Q : engine B tag -> Prop) E :
  F d = cmpxchg_fast n w tid f eq -> G d = cmpxchg_slow n w tid f (REG_INDX r) -> engine_inv e -> (w <= n)%nat -> bytes (N.of_nat w) f -> (forall i, ~ scratch tid (f i)) ->
  (forall e', (if eq
     then moved_but (scratch tid) (N.of_nat w) f (fun i => offs e (reg tid (REG_INDX r) i)) e e'
     else moved_but (scratch tid) (N.of_nat w) (reg tid DFT_REG_RAX) (fun i => offs e (f i)) e e') ->
     Q e') ->
  wp (run_calls (if_then F G) d) (fun _ => Q) E e.
Proof.
  intros HF HG Hi Hw Hf Hs Hq. cbn [run_calls if_then]. wp_step. rewrite HF, HG.
  eapply wp_mono; [apply (cmpxchg_spec n w tid f (REG_INDX r) eq); try done; apply REG_INDX_helper|].
  intros [] e' He. apply wp_ret. by apply Hq.
Qed.

Lemma cmpxchg_op_spec ins d e :
  engine_inv e -> regular ins d -> INS_OperandIsMemory ins OP_1 = false ->
  MEMORYREAD_EA d = MEMORYWRITE_EA d ->
  word (INS_OperandReg ins (if INS_MemoryOperandCount ins =? 0 then OP_0 else OP_1)) ->
  wp (run_calls (ins_cmpxchg_op ins) d) (fun _ => cmpxchg_result ins d e) (fun _ _ => False) e.
Proof.
  intros Hi Hr Hm1 Hea Hg. unfold cmpxchg_result, compares, regular, operands, operand_value in *.
  unfold ins_cmpxchg_op. rewrite Hm1 in *.
  destruct (INS_MemoryOperandCount ins =? 0).
  - destruct Hr as (Hw & _ & _). unfold part. rewrite <- Hw. unfold width, wide, word in *.
    assert (forall r i, ~ scratch (THREAD_ID d) (reg (THREAD_ID d) (REG_INDX r) i)) as Hs.
    { intros r i [j Heq]. injection Heq as Heq _. by apply (REG_INDX_helper r). }
    do 3 (case_match; [eapply run_cmpxchg; [reflexivity|reflexivity|done|lia|auto with ins|apply Hs|
      intros e' He; exact He]|]). done.
  - pose proof (bytes_mem _ _ Hr) as Hb. unfold part, width, wide, word in *.
    assert (forall a i, ~ scratch (THREAD_ID d) (mem a i)) as Hs by (by intros a i [j Heq]).
    unfold cmpxchg_m2r, _cmpxchg_r2m_opq_slow, _cmpxchg_r2m_opl_slow, _cmpxchg_r2m_opw_slow.
    do 3 (case_match; [eapply (run_cmpxchg _ _ _ _ _ (mem (MEMORYWRITE_EA d)));
      [cbv beta; rewrite Hea; reflexivity|reflexivity|done|lia|exact Hb|apply Hs|
       intros e' He; rewrite Hea; exact He]|]). done.
Qed.

(** C30: the two calls that [ins_cmpxchg_op] inserts implement the conditional exchange: where the
    operands compare equal, the destination gets the offsets of the source and RAX keeps its own,
    restored from the scratch register; where not, RAX gets those of the destination.  Nothing
    else changes. *)
Theorem cmpxchg_exchanges ins d e n dst src :
  engine_inv e -> regular ins d -> INS_OperandIsMemory ins OP_1 = false ->
  MEMORYREAD_EA d = MEMORYWRITE_EA d ->
  word (INS_OperandReg ins (if INS_MemoryOperandCount ins =? 0 then OP_0 else OP_1)) ->
  operands ins d = (n, dst, src) ->
  wp (run_calls (ins_cmpxchg_op ins) d)
    (fun _ e' => if compares ins d
       then moved_but (scratch (THREAD_ID d)) (N.of_nat n) dst (fun i => offs e (src i)) e e'
       else moved_but (scratch (THREAD_ID d)) (N.of_nat n) (reg (THREAD_ID d) DFT_REG_RAX)
         (fun i => offs e (dst i)) e e') (fun _ _ => False) e.
Proof.
  intros Hi Hr Hm Hea Hg Ho. pose proof (cmpxchg_op_spec ins d e Hi Hr Hm Hea Hg) as Hw.
  unfold cmpxchg_result in Hw. by rewrite Ho in Hw.
Qed.
End props.

(** ** Concrete instructions *)

(** Instructions as a record of what the framework says of them. *)
Record ex_ins := mk_ex_ins {
  ex_class : xed_iclass;
  ex_memory_operands : N;
  ex_memory_op1 : bool;
  ex_reg0 : REG;
  ex_reg1 : REG
}.

#[export] Instance ex_pin : Pin ex_ins := {
  INS_Opcode := ex_class;
  INS_MemoryOperandCount := ex_memory_operands;
  INS_MemoryOperandSize _ _ := 8;
  INS_MemoryBaseReg _ := REG_INVALID;
  INS_MemoryIndexReg _ := REG_INVALID;
  INS_OperandIsMemory i k :=
    (0 <? ex_memory_operands i) && (if ex_memory_op1 i then k =? OP_1 else k =? OP_0);
  INS_OperandIsReg i k := ex_memory_operands i =? 0;
  INS_OperandIsImmediate _ _ := false;
  INS_OperandIsImplicit _ _ := false;
  INS_OperandReg i k := if k =? OP_0 then ex_reg0 i else ex_reg1 i;
  INS_OperandWidth _ _ := 64;
  INS_RepPrefix _ := false;
  INS_RepCountRegister _ := REG_RCX;
  REG_is_gr64 r := match r with REG_RAX | REG_RBX | REG_RCX => true | _ => false end;
  REG_is_gr32 r := match r with REG_EAX | REG_EBX => true | _ => false end;
  REG_is_gr16 r := match r with REG_AX | REG_BX => true | _ => false end;
  REG_is_gr8 r := match r with REG_AL | REG_AH | REG_BL | REG_BH => true | _ => false end;
  REG_is_xmm r := match r with REG_XMM0 | REG_XMM1 => true | _ => false end;
  REG_is_ymm r := match r with REG_YMM0 | REG_YMM1 => true | _ => false end;
  REG_is_mm r := match r with REG_MM0 | REG_MM1 => true | _ => false end;
  REG_is_seg _ := false;
  REG_is_Upper8 r := match r with REG_AH | REG_BH => true | _ => false end;
  REG_is_Lower8 r := match r with REG_AL | REG_BL => true | _ => false end
}.

(** A byte of RBX carries {5}, one of RCX carries {3}, one of XMM0 {7}, memory at 64 {9}. *)
Definition ex_shadow : engine unit (gset N) :=
  run_state (mk_engine tt ∅ ∅)
    ((_ ← tagmap_setb_reg 0 DFT_REG_RBX 0 {[ 5 ]};
      _ ← tagmap_setb_reg 0 DFT_REG_RCX 0 {[ 3 ]};
      _ ← tagmap_setb_reg 0 DFT_REG_XMM0 0 {[ 7 ]};
      tagmap_setb 64 {[ 9 ]}) (mk_engine tt ∅ ∅)).

Lemma ex_shadow_inv : engine_inv ex_shadow.
Proof. split; [exact I|]. intros l _. exact I. Qed.

Definition ex_dyn : dyn := mk_dyn 0 64 64 (fun _ => 0) (fun _ => 0) true true.

Definition add_rbx_rcx : ex_ins := mk_ex_ins XED_ICLASS_ADD 0 false REG_RBX REG_RCX.
Definition mov_bl_mem : ex_ins := mk_ex_ins XED_ICLASS_MOV 1 true REG_BL REG_INVALID.
Definition mulsd_xmm : ex_ins := mk_ex_ins XED_ICLASS_MULSD 0 false REG_XMM0 REG_XMM1.
Definition cmpxchg_mem : ex_ins := mk_ex_ins XED_ICLASS_CMPXCHG 1 false REG_INVALID REG_RCX.

Lemma binary_propagates_witness :
  exists e', run_calls (ins_binary_op add_rbx_rcx) ex_dyn ex_shadow = Done tt e' /\
    forall i o, i < 8 -> offs e' (reg 0 DFT_REG_RBX i) o <->
      offs ex_shadow (reg 0 DFT_REG_RBX i) o \/ offs ex_shadow (reg 0 DFT_REG_RCX i) o.
Proof.
  destruct (wp_total _ _ _ (binary_propagates (P := ex_pin) add_rbx_rcx ex_dyn ex_shadow 8
    (reg 0 DFT_REG_RBX) (reg 0 DFT_REG_RCX) ex_shadow_inv I eq_refl ltac:(repeat split; done)
    eq_refl)) as ([] & e' & Hr & _ & _ & Hset & _).
  exists e'. split; [exact Hr|exact Hset].
Defined.

Lemma xfer_copies_witness :
  exists e', run_calls (ins_xfer_op mov_bl_mem) ex_dyn ex_shadow = Done tt e' /\
    forall i o, i < 1 -> offs e' (reg 0 DFT_REG_RBX 0) o <-> offs ex_shadow (mem 64 i) o.
Proof.
  destruct (wp_total _ _ _ (xfer_copies (P := ex_pin) mov_bl_mem ex_dyn ex_shadow 1
    (fun _ => reg 0 DFT_REG_RBX 0) (mem 64) ex_shadow_inv ltac:(vm_compute; discriminate)
    eq_refl)) as ([] & e' & Hr & _ & _ & Hset & _).
  exists e'. split; [exact Hr|exact Hset].
Defined.

Lemma mulsd_loses_witness :
  exists e', run_calls (ins_inspect mulsd_xmm) ex_dyn ex_shadow = Done tt e' /\
    tag_at ex_shadow (reg 0 DFT_REG_XMM0 0) = {[ 7 ]} /\
    forall i o, i < 16 -> offs e' (reg 0 DFT_REG_XMM0 i) o <-> offs ex_shadow (reg 0 DFT_REG_XMM1 i) o.
Proof.
  destruct (wp_total _ _ _ (mulsd_loses (P := ex_pin) mulsd_xmm ex_dyn ex_shadow 16
    (reg 0 DFT_REG_XMM0) (reg 0 DFT_REG_XMM1) ex_shadow_inv I eq_refl eq_refl
    ltac:(repeat split; done) ltac:(by left) eq_refl)) as ([] & e' & Hr & _ & _ & Hset & _).
  exists e'. split; [exact Hr|]. split; [vm_compute; reflexivity|exact Hset].
Defined.

Lemma xchg_swaps_witness :
  exists e', run_calls (ins_xchg_op add_rbx_rcx) ex_dyn ex_shadow = Done tt e' /\
    swapped (scratch 0) 8 (reg 0 DFT_REG_RBX) (reg 0 DFT_REG_RCX) ex_shadow e'.
Proof.
  destruct (wp_total _ _ _ (xchg_swaps (P := ex_pin) add_rbx_rcx ex_dyn ex_shadow 8
    (reg 0 DFT_REG_RBX) (reg 0 DFT_REG_RCX) ex_shadow_inv ltac:(repeat split; done)
    ltac:(by left) eq_refl)) as ([] & e' & Hr & Hres).
  exists e'. split; [exact Hr|exact Hres].
Defined.

Lemma cmpxchg_exchanges_witness :
  exists e', run_calls (ins_cmpxchg_op cmpxchg_mem) ex_dyn ex_shadow = Done tt e' /\
    moved_but (scratch 0) 8 (mem 64) (fun i => offs ex_shadow (reg 0 DFT_REG_RCX i)) ex_shadow e'.
Proof.
  destruct (wp_total _ _ _ (cmpxchg_exchanges (P := ex_pin) cmpxchg_mem ex_dyn ex_shadow 8
    (mem 64) (reg 0 DFT_REG_RCX) ex_shadow_inv ltac:(vm_compute; discriminate) eq_refl eq_refl
    eq_refl eq_refl)) as ([] & e' & Hr & Hres).
  exists e'. split; [exact Hr|exact Hres].
Defined.
End InsProps.
