(* ===== verification/SsaTag.v ===== *)
(** The diagram tags of a build without garbage collection, src/ssa_tag_nogc.h and
    src/ssa_tag_nogc.cpp: a tag is the diagram of a set of offsets, and each thread remembers
    its last combination.  A thread waits for its worker, so a task is a call. *)

From stdpp Require Import strings pretty.
From S2P Require Import Prelude MtbddNode NodeStore MtbddCore BddApply SsaTask TagTraits.

Module SsaTag.
Import MtbddNode NodeStore MtbddCore BddApply SsaTask TagTraits.

Section ssa.
Context {T C : Type} `{NodeTable T} `{OpCache C}.
Notation mgr := (mgr T C).

(** The one entry of a thread's cache, zeros when the thread starts. *)
Record ssa_tls_t := mk_tls { cb_cache_l : N; cb_cache_r : N; cb_cache_v : N }.
Definition tls_new : ssa_tls_t := mk_tls 0 0 0.

(** The package, the set of the variables and the array [ssa_tls]. *)
Record ssa := mk_ssa { package : mgr; var_set : N; ssa_tls : gmap N ssa_tls_t }.

Definition on_package {A} (p : prog mgr A) : prog ssa A := fun s =>
  match p (package s) with
  | Done a m => Done a (mk_ssa m (var_set s) (ssa_tls s))
  | Exit r m => Exit r (mk_ssa m (var_set s) (ssa_tls s))
  | NoFuel => NoFuel
  end.

Definition tls_at (tid : N) (s : ssa) : ssa_tls_t := default tls_new (ssa_tls s !! tid).
Definition set_tls (tid : N) (tls : ssa_tls_t) (s : ssa) : ssa :=
  mk_ssa (package s) (var_set s) (<[tid := tls]> (ssa_tls s)).

Definition ssa_tag_alloc (offset tid : N) : prog ssa N :=
  let array := bit_array offset in
  s ← gets id;
  on_package (task_cube_nogc (var_set s) array).

Definition ssa_tag_combine (lhs rhs tid : N) : prog ssa N :=
  if lhs =? 0 then mret rhs
  else if (rhs =? 0) || (lhs =? rhs) then mret lhs
  else
    tls ← gets (tls_at tid);
    if (cb_cache_l tls =? lhs) && (cb_cache_r tls =? rhs) then mret (cb_cache_v tls)
    else
      res ← on_package (task_combine_nogc lhs rhs);
      _ ← modify (set_tls tid (mk_tls lhs rhs res));
      mret res.

Definition print_one (offset : N) : string := pretty offset +:+ " ".

Definition ssa_tag_print (tag : N) : prog ssa string :=
  s ← gets id;
  offset_buf ← (if negb (tag =? 0) then on_package (offset_buf tag (var_set s)) else mret []);
  mret (print_offsets print_one offset_buf).

(** The package is given with its limits set and initialised. *)
Definition ssa_init : prog mgr ssa :=
  _ ← modify sylvan_gc_disable;
  vs ← make_var_set;
  m ← gets id;
  mret (mk_ssa m vs ∅).

Definition ssa_thread_start (tid : N) : prog ssa unit := modify (set_tls tid tls_new).

#[export] Instance ssa_tag : TagOps ssa N := {
  cleared_val := 0;
  tag_is_empty t := t =? 0;
  tag_combine := ssa_tag_combine;
  tag_alloc := ssa_tag_alloc
}.
End ssa.
Arguments ssa : clear implicits.
End SsaTag.
