(* ===== verification/SsaTagFacts.v ===== *)
(** The diagram tags of [SsaTag] keep the laws of tags: whatever the caches of the threads hold,
    a combination has the offsets of both operands. *)

From S2P Require Import Prelude MtbddNode BddTree OpSpecs NodeStore MtbddCore MtbddCoreFacts.
From S2P Require Import BddApply BddApplyFacts BddQuantFacts BddSetsFacts SsaTask SsaTaskFacts.
From S2P Require Import TagTraits SsaTag.

Module SsaTagFacts.
Import MtbddNode BddTree OpSpecs NodeStore MtbddCore MtbddCoreFacts BddApply BddApplyFacts
  BddQuantFacts BddSetsFacts SsaTask SsaTaskFacts TagTraits SsaTag.

Notation vars := (nseq 0 TAG_WIDTH).

(** ** Sets of offsets in a store *)

Lemma offsets_den_grows s s' d f : grows s s' -> offsets_den s d f -> offsets_den s' d f.
Proof. intros Hg [Hd Hb]. split; [by eapply den_grows|done]. Qed.

Lemma den_functional s d f g : den s d f -> den s d g -> forall e, f e = g e.
Proof.
  intros (t & [Hr _] & Hs) (t' & [Hr' _] & Hs') e.
  rewrite <- Hs, <- Hs'. f_equal. by eapply rep_functional.
Qed.

(** The offsets of a diagram. *)
Definition diagram_offs (s : store) (d : N) (o : N) : Prop := exists f, den s d f /\ has f o.

Lemma diagram_offs_iff s d f o : den s d f -> diagram_offs s d o <-> has f o.
Proof.
  intros Hd. unfold diagram_offs, has. split.
  - intros (g & Hg & Ho & Hgo). split; [done|]. by rewrite (den_functional s d f g).
  - intros Hf. by exists f.
Qed.

Lemma offsets_den_false s : offsets_den s mtbdd_false (fun _ => false).
Proof. split; [apply (den_const s false)|by intros e e']. Qed.

Section laws.
Context {T C : Type} `{NodeTableLaws T} `{OpCacheLaws C}.
Notation mgr := (mgr T C).
Notation ssa := (ssa T C).
Implicit Types (m : mgr) (s : ssa).

(** A diagram without offsets is the constant. *)
Lemma no_offsets m d f :
  mgr_inv m -> offsets_den (st m) d f -> (forall o, ~ has f o) -> d = mtbdd_false.
Proof.
  intros Hi Hd Hno. destruct (offsets_tree _ _ _ Hd) as (t & Ht & _ & _ & Hs).
  apply (den_inj m 0 0 d mtbdd_false t (Leaf false) Hi Ht (denotes_const _ _ false)).
  apply (canonical 0); [apply Ht|done|]. intros e. cbn. rewrite Hs.
  destruct (below_number f e (proj2 Hd)) as (o & Ho & ->).
  apply not_true_is_false. intros Hf. by apply (Hno o).
Qed.

Definition ssa_tag_ok (s : ssa) (t : N) : Prop := exists f, offsets_den (st (package s)) t f.
Definition ssa_offs (s : ssa) (t o : N) : Prop := diagram_offs (st (package s)) t o.

(** What a thread remembers is a combination, once it remembers something. *)
Definition tls_valid (s : ssa) (tls : ssa_tls_t) : Prop :=
  cb_cache_l tls = 0 \/
  (ssa_tag_ok s (cb_cache_l tls) /\ ssa_tag_ok s (cb_cache_r tls) /\ ssa_tag_ok s (cb_cache_v tls) /\
   forall o, ssa_offs s (cb_cache_v tls) o <->
     ssa_offs s (cb_cache_l tls) o \/ ssa_offs s (cb_cache_r tls) o).

Record ssa_inv (s : ssa) : Prop := {
  si_package : mgr_inv (package s);
  si_var_set : denotes (st (package s)) 0 (var_set s) (set_tree vars);
  si_tls : forall tid tls, ssa_tls s !! tid = Some tls -> tls_valid s tls
}.

Definition ssa_later (s s' : ssa) : Prop :=
  extends (package s) (package s') /\ var_set s' = var_set s.

#[export] Instance ssa_later_preorder : PreOrder ssa_later.
Proof.
  split; [intros s; split; reflexivity|]. intros a b c [H1' H2'] [H3' H4'].
  split; [by etrans|congruence].
Qed.

Lemma ssa_later_ok s s' t : ssa_later s s' -> ssa_tag_ok s t -> ssa_tag_ok s' t.
Proof. intros [[_ Hg] _] [f Hf]. exists f. by eapply offsets_den_grows. Qed.

Lemma ssa_later_offs s s' t o :
  ssa_later s s' -> ssa_tag_ok s t -> ssa_offs s' t o <-> ssa_offs s t o.
Proof.
  intros [[_ Hg] _] [f [Hd Hb]]. unfold ssa_offs.
  rewrite (diagram_offs_iff _ t f) by (by eapply den_grows). by rewrite (diagram_offs_iff _ t f).
Qed.

Lemma tls_later s s' tls : ssa_later s s' -> tls_valid s tls -> tls_valid s' tls.
Proof.
  intros Hl [?|(Hok1 & Hok2 & Hok3 & Ho)]; [by left|right].
  split_and!; [by eapply ssa_later_ok..|]. intros o.
  rewrite (ssa_later_offs s s'), !(ssa_later_offs s s' _ o Hl) by done. apply Ho.
Qed.

Lemma tls_at_valid s tid : ssa_inv s -> tls_valid s (tls_at tid s).
Proof.
  intros Hi. unfold tls_at. destruct (ssa_tls s !! tid) as [tls|] eqn:E; [by apply (si_tls s Hi tid)|by left].
Qed.

(** A task of the worker, as an operation on tags. *)
Lemma task_spec (p : prog mgr N) s P :
  ssa_inv s ->
  wp p (task_ok (D := nogc_discipline) (package s) P) full_only (package s) ->
  wp (on_package p)
    (fun r s' => ssa_inv s' /\ ssa_later s s' /\ ssa_tls s' = ssa_tls s /\ ssa_tag_ok s' r /\
       forall o, ssa_offs s' r o <-> P o) (fun x s' => full_only x (package s')) s.
Proof.
  intros Hi Hp. unfold wp, on_package in *. destruct (p (package s)) as [r m|x m|]; [|done..].
  destruct Hp as (Hi' & He & f & Hd & Ho). set (s' := mk_ssa m (var_set s) (ssa_tls s)).
  assert (ssa_later s s') as Hl by (by split). split; [split|split_and!]; cbn.
  - done.
  - destruct He as [_ Hg]. eapply denotes_grows; [exact Hg|apply Hi].
  - intros tid tls Ht. eapply tls_later; [exact Hl|by apply (si_tls s Hi tid)].
  - exact Hl.
  - done.
  - by exists f.
  - intros o. unfold ssa_offs. rewrite (diagram_offs_iff _ r f) by apply Hd. apply Ho.
Qed.

Lemma set_tls_spec s tid tls :
  ssa_inv s -> tls_valid s tls -> ssa_inv (set_tls tid tls s).
Proof.
  intros Hi Ht. split; cbn; [apply Hi..|]. intros tid' tls' Hl.
  destruct (decide (tid' = tid)) as [->|Hne].
  - rewrite lookup_insert_eq in Hl. by injection Hl as <-.
  - rewrite lookup_insert_ne in Hl by done. by apply (si_tls s Hi tid').
Qed.

Lemma ssa_alloc_spec s offset tid :
  ssa_inv s -> offset < 2 ^ 24 ->
  wp (ssa_tag_alloc offset tid)
    (fun r s' => ssa_inv s' /\ ssa_later s s' /\ ssa_tag_ok s' r /\
       forall o, ssa_offs s' r o <-> o = offset) (fun x s' => full_only x (package s')) s.
Proof.
  intros Hi Ho. unfold ssa_tag_alloc. wp_step. wp_step. eapply wp_mono.
  - apply (task_spec _ s (fun o => o = offset) Hi).
    apply task_cube_nogc_spec; [apply Hi..|exact Ho].
  - intros r s' (Hi' & Hl & _ & Hok & Hoffs). done.
Qed.

Lemma ssa_combine_spec s a b tid :
  ssa_inv s -> ssa_tag_ok s a -> ssa_tag_ok s b ->
  wp (ssa_tag_combine a b tid)
    (fun r s' => ssa_inv s' /\ ssa_later s s' /\ ssa_tag_ok s' r /\
       forall o, ssa_offs s' r o <-> ssa_offs s a o \/ ssa_offs s b o)
    (fun x s' => full_only x (package s')) s.
Proof.
  intros Hi Ha Hb. unfold ssa_tag_combine.
  assert (forall o, ~ ssa_offs s 0 o) as H0'.
  { intros o (f & Hd & _ & Hf). by rewrite <- (den_functional _ _ _ f (den_const _ false) Hd) in Hf. }
  destruct (N.eqb_spec a 0) as [->|Ha0].
  { apply wp_ret. split_and!; try done. intros o. specialize (H0' o). tauto. }
  destruct (N.eqb_spec b 0) as [->|Hb0]; [|destruct (N.eqb_spec a b) as [->|Hab]]; cbn [orb].
  { apply wp_ret. split_and!; try done. intros o. specialize (H0' o). tauto. }
  { apply wp_ret. split_and!; try done. intros o. tauto. }
  wp_step. wp_step. pose proof (tls_at_valid s tid Hi) as Ht.
  destruct ((cb_cache_l _ =? a) && _) eqn:Ec.
  { apply andb_true_iff in Ec as [Hl%N.eqb_eq Hr%N.eqb_eq]. apply wp_ret.
    destruct Ht as [Ht|(_ & _ & Hok & Ho)]; [congruence|]. rewrite Hl, Hr in Ho. by split_and!. }
  destruct Ha as [fa Ha], Hb as [fb Hb]. wp_step. eapply wp_mono.
  - apply (task_spec _ s (fun o => has fa o \/ has fb o) Hi). apply task_combine_nogc_spec; [apply Hi|done..].
  - intros r s1 (Hi1 & Hl & _ & Hok & Ho). wp_step. wp_step.
    assert (forall o, ssa_offs s1 r o <-> ssa_offs s1 a o \/ ssa_offs s1 b o) as Hu.
    { intros o. rewrite Ho, !(ssa_later_offs s s1 _ o Hl) by (by eexists). unfold ssa_offs.
      by rewrite (diagram_offs_iff _ a fa), (diagram_offs_iff _ b fb) by (apply Ha || apply Hb). }
    apply wp_ret. split_and!; [| |done|].
    + apply set_tls_spec; [done|]. right. cbn. split_and!; [| |done|done];
        (eapply ssa_later_ok; [exact Hl|]); by eexists.
    + destruct Hl as [He Hv]. by split.
    + intros o. change (ssa_offs s1 r o <-> ssa_offs s a o \/ ssa_offs s b o).
      rewrite Hu, !(ssa_later_offs s s1 _ o Hl) by (by eexists). done.
Qed.

#[export] Instance ssa_tag_laws : TagLaws ssa N.
Proof.
  refine {| tag_inv := ssa_inv; tag_ok := ssa_tag_ok; tag_offs := ssa_offs;
    tag_bound := 2 ^ 24; tag_thread _ := True; tag_exits x s := full_only x (package s);
    tag_later := ssa_later |}.
  - apply ssa_later_ok.
  - apply ssa_later_offs.
  - intros s Hi. split; [exists (fun _ => false); apply offsets_den_false|].
    intros o (f & Hd & _ & Hf). by rewrite <- (den_functional _ _ _ f (den_const _ false) Hd) in Hf.
  - intros s t Hi Ht. cbn. apply N.eqb_eq.
  - intros s t Hi [f Hf] Hno. apply (no_offsets (package s) t f); [apply Hi|done|].
    intros o Ho. apply (Hno o). exists f. split; [apply Hf|done].
  - intros s a b tid Hi Ha Hb _. by apply ssa_combine_spec.
  - intros s offset tid Hi Ho _. by apply ssa_alloc_spec.
Defined.
End laws.
End SsaTagFacts.
