(* ===== verification/SsaProps.v ===== *)
(** The properties of the diagram tags without garbage collection, and of the shadow memory
    that has them as its tags. *)

From stdpp Require Import strings pretty sorting.
From S2P Require Import Prelude SylvanTable SylvanCache MtbddNode BddTree OpSpecs NodeStore MtbddCore.
From S2P Require Import MtbddCoreFacts BddSetsFacts SsaTask SsaTaskFacts TagTraits SsaTag SsaTagFacts.
From S2P Require Import Tagmap TagmapFacts Examples.
From Stdlib Require Import Sorted.

Module SsaProps.
Import LLMSSet Cache MtbddNode BddTree OpSpecs NodeStore MtbddCore MtbddCoreFacts BddSetsFacts SsaTask
  SsaTaskFacts TagTraits SsaTag SsaTagFacts Tagmap TagmapFacts Examples.

(** The text of a set of offsets: each offset once, in increasing order. *)
Definition prints (fmt : N -> string) (P : N -> Prop) (text : string) : Prop :=
  exists l, StronglySorted N.lt l /\ (forall o, o ∈ l <-> P o) /\
    text = "{" +:+ String.concat "" (map fmt l) +:+ "}".

Lemma sorted_strict l : NoDup l -> StronglySorted N.le l -> StronglySorted N.lt l.
Proof.
  intros Hnd Hs. induction Hs as [|x l Hs IH Hx]; [constructor|]. apply NoDup_cons in Hnd as [Hn Hnd].
  constructor; [by apply IH|]. apply Forall_forall. intros y Hy.
  pose proof (proj1 (Forall_forall _ _) Hx y Hy). apply N.le_neq. split; [done|]. by intros ->.
Qed.

Lemma print_offsets_prints fmt P l :
  NoDup l -> (forall o, o ∈ l <-> P o) -> prints fmt P (print_offsets fmt l).
Proof.
  intros Hnd HP. exists (merge_sort N.le l). split_and!; [| |done].
  - apply sorted_strict; [by rewrite merge_sort_Permutation|].
    apply (StronglySorted_merge_sort N.le).
  - intros o. by rewrite merge_sort_Permutation.
Qed.

Section props.
Context {T C : Type} `{NodeTableLaws T} `{OpCacheLaws C}.
Notation mgr := (mgr T C).
Notation ssa := (ssa T C).
Implicit Types (m : mgr) (s : ssa).

Lemma init_spec m :
  mgr_inv m ->
  wp ssa_init
    (fun s m' => ssa_inv s /\ package s = m' /\ gc_enabled (package s) = false /\
       forall tid, tls_at tid s = tls_new) full_only m.
Proof.
  intros Hi. unfold ssa_init. do 2 wp_step.
  assert (mgr_inv (sylvan_gc_disable m)) as Hi0 by (destruct Hi; by split).
  wp_step. eapply wp_mono; [by apply make_var_set_spec|]. intros r m1 (Hi1 & [Hs _] & Hd).
  do 3 wp_step. split; [split; cbn|]; [done|done|by intros ? ? ?%lookup_empty_Some|].
  split_and!; [done| |].
  - cbn. by rewrite (proj1 (proj2 (proj2 (proj2 (proj2 Hs))))).
  - intros tid. unfold tls_at. cbn. by rewrite lookup_empty.
Qed.

(** [ssa_init] turns a consistent package into a consistent state of the tags, in which the
    set of variables is that of the 24 bits of an offset and garbage collection is off. *)
Theorem ssa_init_ok m :
  mgr_inv m ->
  wp ssa_init
    (fun s m' => ssa_inv s /\ package s = m' /\ gc_enabled (package s) = false /\
       forall tid, tls_at tid s = tls_new) full_only m.
Proof. apply init_spec. Qed.

(** [ssa_tag_alloc] returns a tag with the one offset given, for offsets of 24 bits; all
    tags keep their offsets. *)
Theorem ssa_alloc_singleton s offset tid :
  ssa_inv s -> offset < 2 ^ 24 ->
  wp (ssa_tag_alloc offset tid)
    (fun r s' => ssa_inv s' /\ ssa_tag_ok s' r /\ (forall o, ssa_offs s' r o <-> o = offset) /\
       forall t o, ssa_tag_ok s t -> ssa_offs s' t o <-> ssa_offs s t o)
    (fun x s' => full_only x (package s')) s.
Proof.
  intros Hi Ho. eapply wp_mono; [by apply ssa_alloc_spec|]. intros r s' (Hi' & Hl & Hok & Hoffs).
  split_and!; [done..|]. intros t o Ht. by apply ssa_later_offs.
Qed.

(** C23: [ssa_tag_combine] returns a tag with the offsets of both operands, from the cache of the
    thread or from the worker, and all tags keep their offsets. *)
Theorem ssa_combine_union s a b tid :
  ssa_inv s -> ssa_tag_ok s a -> ssa_tag_ok s b ->
  wp (ssa_tag_combine a b tid)
    (fun r s' => ssa_inv s' /\ ssa_tag_ok s' r /\
       (forall o, ssa_offs s' r o <-> ssa_offs s a o \/ ssa_offs s b o) /\
       forall t o, ssa_tag_ok s t -> ssa_offs s' t o <-> ssa_offs s t o)
    (fun x s' => full_only x (package s')) s.
Proof.
  intros Hi Ha Hb. eapply wp_mono; [by apply ssa_combine_spec|]. intros r s' (Hi' & Hl & Hok & Hoffs).
  split_and!; [done..|]. intros t o Ht. by apply ssa_later_offs.
Qed.

Lemma print_spec s t E :
  ssa_inv s -> ssa_tag_ok s t ->
  wp (ssa_tag_print t) (fun text s' => s' = s /\ prints print_one (ssa_offs s t) text) E s.
Proof.
  intros Hi [f Hf]. unfold ssa_tag_print. wp_step. wp_step. wp_step.
  assert (forall l, NoDup l -> (forall o, o ∈ l <-> has f o) ->
    prints print_one (ssa_offs s t) (print_offsets print_one l)) as Hp.
  { intros l Hnd Hl. apply print_offsets_prints; [done|]. intros o. rewrite Hl. unfold ssa_offs.
    by rewrite (diagram_offs_iff _ t f) by apply Hf. }
  destruct (N.eqb_spec t 0) as [->|Hne]; cbn [negb].
  - apply wp_ret, wp_ret. split; [done|]. apply Hp; [constructor|]. intros o.
    split; [by intros ?%elem_of_nil|]. intros [_ Ho].
    by rewrite <- (den_functional _ _ _ f (BddApplyFacts.BddApplyFacts.den_const _ false) (proj1 Hf)) in Ho.
  - pose proof (offset_buf_spec (package s) t f (var_set s) (fun _ _ => False)
      (si_package s Hi) Hf (si_var_set s Hi)) as Hb.
    unfold wp in Hb. unfold wp, on_package. destruct (offset_buf t (var_set (id s)) (package s)) eqn:Eb;
      change (var_set (id s)) with (var_set s) in Eb; rewrite Eb in Hb; [|done..].
    destruct Hb as (-> & Hnd & Hl). cbn. split; [by destruct s|by apply Hp].
Qed.

(** C24: printing a tag lists exactly its offsets, each once and in increasing order, and changes
    nothing. *)
Theorem ssa_print_exact s t :
  ssa_inv s -> ssa_tag_ok s t ->
  wp (ssa_tag_print t) (fun text s' => s' = s /\ prints print_one (ssa_offs s t) text)
    (fun _ _ => False) s.
Proof. apply print_spec. Qed.

(** With diagram tags, [tagmap_getn] followed by printing reports exactly the offsets of the
    bytes of a range of memory. *)
Theorem ssa_getn_report addr n (e : engine ssa N) :
  engine_inv e -> addr + n <= last_address + 1 ->
  wp (t ← tagmap_getn addr n; on_backend (ssa_tag_print t))
    (fun text e' => engine_inv e' /\
       prints print_one (fun o => exists i, i < n /\ offs e (Mem (addr + i)) o) text) ends e.
Proof.
  intros Hi Ha. unfold last_address in Ha. wp_step. unfold tagmap_getn.
  destruct (tag_cleared _ (proj1 Hi)) as [Hok Hno].
  eapply wp_mono; [apply (getn_spec _ (fun i => Mem (addr + i)) _ _ _ e (fun _ => False))|].
  - done.
  - done.
  - intros j Hj. cbn. unfold last_address. lia.
  - intros j e0 Hj. cbn. unfold add64. by rewrite w64_small by lia.
  - done.
  - intros o. split; [by apply Hno|done].
  - intros t e1 (Hi1 & _ & _ & Hokt & Ho).
    pose proof (print_spec (backend e1) t (fun _ _ => False) (proj1 Hi1) Hokt) as Hp.
    unfold wp, on_backend in *. destruct (ssa_tag_print t (backend e1)) as [text s|x s|]; [|done..].
    destruct Hp as [-> (l & Hs & Hl & Htext)]. split; [by destruct e1|].
    exists l. split_and!; [done| |done]. intros o. rewrite Hl.
    change (tag_offs (backend e1) t o <-> exists i, i < n /\ offs e (Mem (addr + i)) o).
    rewrite Ho. split; [intros [[]|(j & Hj & Hoj)]|intros (j & Hj & Hoj); right];
      exists j; (split; [lia|done]).
Qed.
End props.

(** ** Concrete tags *)

(** The package of the examples, then the tags {3} and {5}. *)
Notation ex_ssa_t := (ssa llmsset cache).
Definition ex_ssa : ex_ssa_t := run_val (mk_ssa ex_m0 0 ∅) (ssa_init ex_m0).
Definition ex_tag3 : N := run_val 0 (ssa_tag_alloc 3 0 ex_ssa).
Definition ex_ssa3 : ex_ssa_t := run_state ex_ssa (ssa_tag_alloc 3 0 ex_ssa).
Definition ex_tag5 : N := run_val 0 (ssa_tag_alloc 5 0 ex_ssa3).
Definition ex_ssa5 : ex_ssa_t := run_state ex_ssa3 (ssa_tag_alloc 5 0 ex_ssa3).

(** Computed at once, since each is part of the next. *)
Lemma ex_all_done :
  is_done (ssa_init ex_m0) && is_done (ssa_tag_alloc 3 0 ex_ssa) && is_done (ssa_tag_alloc 5 0 ex_ssa3) &&
  is_done (ssa_tag_combine ex_tag3 ex_tag5 0 ex_ssa5) = true.
Proof. vm_compute. reflexivity. Qed.

Lemma ex_steps_done :
  is_done (ssa_init ex_m0) = true /\ is_done (ssa_tag_alloc 3 0 ex_ssa) = true /\
  is_done (ssa_tag_alloc 5 0 ex_ssa3) = true /\ is_done (ssa_tag_combine ex_tag3 ex_tag5 0 ex_ssa5) = true.
Proof.
  pose proof ex_all_done as Hd. apply andb_prop in Hd as [Hd H4]. apply andb_prop in Hd as [Hd H3].
  apply andb_prop in Hd as [H1 H2]. exact (conj H1 (conj H2 (conj H3 H4))).
Qed.

Lemma ex_init_done : is_done (ssa_init ex_m0) = true. Proof. exact (proj1 ex_steps_done). Qed.
Lemma ex_alloc3_done : is_done (ssa_tag_alloc 3 0 ex_ssa) = true.
Proof. exact (proj1 (proj2 ex_steps_done)). Qed.
Lemma ex_alloc5_done : is_done (ssa_tag_alloc 5 0 ex_ssa3) = true.
Proof. exact (proj1 (proj2 (proj2 ex_steps_done))). Qed.

Lemma ex_ssa_inv : ssa_inv ex_ssa.
Proof.
  exact (proj1 (wp_done _ _ _ _ (mk_ssa ex_m0 0 ∅) ex_m0 (init_spec ex_m0 ex_m0_inv) ex_init_done)).
Qed.

Lemma ex_ssa5_ok :
  ssa_inv ex_ssa5 /\ ssa_tag_ok ex_ssa5 ex_tag3 /\ ssa_tag_ok ex_ssa5 ex_tag5 /\
  (forall o, ssa_offs ex_ssa5 ex_tag3 o <-> o = 3) /\ forall o, ssa_offs ex_ssa5 ex_tag5 o <-> o = 5.
Proof.
  destruct (wp_done _ _ _ _ 0 ex_ssa (ssa_alloc_spec ex_ssa 3 0 ex_ssa_inv eq_refl) ex_alloc3_done)
    as (Hi3 & Hl3 & Hok3 & Ho3).
  destruct (wp_done _ _ _ _ 0 ex_ssa3 (ssa_alloc_spec ex_ssa3 5 0 Hi3 eq_refl) ex_alloc5_done)
    as (Hi5 & Hl5 & Hok5 & Ho5).
  split; [exact Hi5|]. split; [exact (ssa_later_ok _ _ _ Hl5 Hok3)|]. split; [exact Hok5|].
  split; [|exact Ho5]. intros o. etrans; [exact (ssa_later_offs _ _ _ o Hl5 Hok3)|apply Ho3].
Qed.

Lemma ssa_init_ok_witness :
  exists (s : ex_ssa_t) m', ssa_init ex_m0 = Done s m' /\ ssa_inv s.
Proof.
  destruct (wp_returns _ _ _ _ (ssa_init_ok ex_m0 ex_m0_inv) ex_init_done) as (s & m' & Hr & Hi & _).
  exists s, m'. split; [exact Hr|exact Hi].
Defined.

Lemma ssa_alloc_singleton_witness :
  exists r s', ssa_tag_alloc 3 0 ex_ssa = Done r s' /\ forall o, ssa_offs s' r o <-> o = 3.
Proof.
  destruct (wp_returns _ _ _ _ (ssa_alloc_singleton ex_ssa 3 0 ex_ssa_inv eq_refl) ex_alloc3_done)
    as (r & s' & Hr & _ & _ & Ho & _).
  exists r, s'. split; [exact Hr|exact Ho].
Defined.

Lemma ssa_combine_union_witness :
  exists r s', ssa_tag_combine ex_tag3 ex_tag5 0 ex_ssa5 = Done r s' /\
    forall o, ssa_offs s' r o <-> ssa_offs ex_ssa5 ex_tag3 o \/ ssa_offs ex_ssa5 ex_tag5 o.
Proof.
  destruct ex_ssa5_ok as (Hi & H3 & H5 & _).
  pose proof (ssa_combine_union ex_ssa5 ex_tag3 ex_tag5 0 Hi H3 H5) as Hw.
  destruct (wp_returns _ _ _ _ Hw (proj2 (proj2 (proj2 ex_steps_done)))) as (r & s' & Hr & _ & _ & Ho & _).
  exists r, s'. split; [exact Hr|exact Ho].
Defined.

Lemma ssa_print_exact_witness :
  exists text, ssa_tag_print ex_tag3 ex_ssa5 = Done text ex_ssa5 /\
    prints print_one (ssa_offs ex_ssa5 ex_tag3) text.
Proof.
  destruct ex_ssa5_ok as (Hi & H3 & _).
  destruct (wp_total _ _ _ (ssa_print_exact ex_ssa5 ex_tag3 Hi H3)) as (text & s' & Hr & Hs & Hp).
  exists text. split; [rewrite Hr, Hs; reflexivity|exact Hp].
Defined.

(** A shadow memory with {3} at address 16. *)
Definition ex_empty : engine ex_ssa_t N := mk_engine ex_ssa5 ∅ ∅.
Definition ex_marked : engine ex_ssa_t N := run_state ex_empty (tagmap_setb 16 ex_tag3 ex_empty).

Lemma store_inv (s : ex_ssa_t) t :
  ssa_inv s -> ssa_tag_ok s t ->
  let e := mk_engine s ∅ ∅ in engine_inv (run_state e (tagmap_setb 16 t e)).
Proof.
  intros Hi Ht e. assert (engine_inv e) as He.
  { split; [exact Hi|]. intros [a|x r f] _; exact (proj1 (tag_cleared s Hi)). }
  assert (wp (tagmap_setb 16 t) (fun _ e' => engine_inv e') (fun _ _ => False) e) as Hw.
  { apply (set_spec (Mem 16) t); [cbn; unfold last_address; lia|by intros ?%N.eqb_eq|].
    intros e' Hu. exact (upd_inv (Mem 16) t e e' He Ht Hu). }
  exact (wp_done _ _ _ _ tt e Hw eq_refl).
Qed.

Lemma ex_marked_inv : engine_inv ex_marked.
Proof. destruct ex_ssa5_ok as (Hi & H3 & _). exact (store_inv ex_ssa5 ex_tag3 Hi H3). Qed.

Lemma ssa_getn_report_witness :
  wp (t ← tagmap_getn 16 2; on_backend (ssa_tag_print t))
    (fun text e' => engine_inv e' /\
       prints print_one (fun o => exists i, i < 2 /\ offs ex_marked (Mem (16 + i)) o) text)
    ends ex_marked.
Proof. apply (ssa_getn_report 16 2 ex_marked ex_marked_inv). unfold last_address. lia. Defined.
End SsaProps.
