(* ===== verification/SsaGc.v ===== *)
(** The diagram tags of a build with garbage collection, src/ssa_tag_gc.h and
    src/ssa_tag_gc.cpp: a tag is a counted reference to an object that protects a diagram.
    Objects whose count has dropped to zero are found by a scan and queued for reuse.

    The objects, the variable [var_set] and the results of the workers are words of one memory,
    since the table of protected pointers lists their addresses.  A tag is a pointer, 0 for
    [NULL]; who holds it, holds one reference.  A thread waits for its worker, so a task is a
    call, and the calls of threads follow one another. *)

From stdpp Require Import strings pretty.
From S2P Require Import Prelude MtbddNode NodeStore MtbddCore BddApply SsaTask ProtectStore.

Module SsaGc.
Import MtbddNode NodeStore MtbddCore BddApply SsaTask ProtectStore.

(** Where the linker and [malloc] have placed the variables: [blk k] is the k-th block. *)
Class Layout := {
  at_var_set : N;
  at_res : N -> N;
  blk : N -> N
}.

Section ssa.
Context {T C P : Type} `{NodeTable T} `{OpCache C} `{PointerTable P} `{Layout}.
(** 0x10000 in ssa_tag.h. *)
Context (SSA_BLK : N).
Notation mgr := (mgr T C).

(** The one entry of a thread's cache, and the index of its worker. *)
Record ssa_tls_t := mk_tls { cb_cache_l : N; cb_cache_r : N; cb_cache_v : N; t_worker : N }.

Record ssa := mk_ssa {
  package : mgr;
  pointers : P;              (* mtbdd_protected *)
  memory : gmap N N;
  ssa_blk_list : list N;
  free_h : N;                (* free_ssa *)
  free_t : N;
  free_q : gmap N N;
  gc_lock : N;
  ssa_tls : list ssa_tls_t;
  n_workers : N              (* lace_n_workers_id *)
}.

Definition set_package (m : mgr) (s : ssa) : ssa :=
  mk_ssa m (pointers s) (memory s) (ssa_blk_list s) (free_h s) (free_t s) (free_q s) (gc_lock s)
    (ssa_tls s) (n_workers s).
Definition set_pointers (p : P) (s : ssa) : ssa :=
  mk_ssa (package s) p (memory s) (ssa_blk_list s) (free_h s) (free_t s) (free_q s) (gc_lock s)
    (ssa_tls s) (n_workers s).
Definition set_memory (mem : gmap N N) (s : ssa) : ssa :=
  mk_ssa (package s) (pointers s) mem (ssa_blk_list s) (free_h s) (free_t s) (free_q s) (gc_lock s)
    (ssa_tls s) (n_workers s).
Definition set_blocks (l : list N) (s : ssa) : ssa :=
  mk_ssa (package s) (pointers s) (memory s) l (free_h s) (free_t s) (free_q s) (gc_lock s)
    (ssa_tls s) (n_workers s).
Definition set_queue (h t : N) (q : gmap N N) (s : ssa) : ssa :=
  mk_ssa (package s) (pointers s) (memory s) (ssa_blk_list s) h t q (gc_lock s)
    (ssa_tls s) (n_workers s).
Definition set_lock (l : N) (s : ssa) : ssa :=
  mk_ssa (package s) (pointers s) (memory s) (ssa_blk_list s) (free_h s) (free_t s) (free_q s) l
    (ssa_tls s) (n_workers s).
Definition set_threads (l : list ssa_tls_t) (n : N) (s : ssa) : ssa :=
  mk_ssa (package s) (pointers s) (memory s) (ssa_blk_list s) (free_h s) (free_t s) (free_q s)
    (gc_lock s) l n.

Definition write (a v : N) : prog ssa unit := modify (fun s => set_memory (mset (memory s) a v) s).

(** [class ssa]: two words. *)
Definition ref_count (s : ssa) (p : N) : N := mget (memory s) p.
Definition bdd (s : ssa) (p : N) : N := mget (memory s) (p + 8).
Definition var_set (s : ssa) : N := mget (memory s) at_var_set.

(** ** The package *)

Definition set_protected (l : list N) (m : mgr) : mgr :=
  mk_mgr (nodes m) (opcache m) (rstack m) (pstack m) (mtbdd_refs m) l (gc_enabled m)
    (granularity m) (has_custom_hash m).

(** What the protected pointers point to. *)
Definition protected_values (s : ssa) : list N := map (mget (memory s)) (pt_list (pointers s)).

Definition on_package {A} (p : prog mgr A) : prog ssa A := fun s =>
  match p (set_protected (protected_values s) (package s)) with
  | Done a m => Done a (set_package m s)
  | Exit r m => Exit r (set_package m s)
  | NoFuel => NoFuel
  end.

Definition on_pointers (p : prog P unit) : prog ssa unit := fun s =>
  match p (pointers s) with
  | Done a t => Done a (set_pointers t s)
  | Exit r t => Exit r (set_pointers t s)
  | NoFuel => NoFuel
  end.
Definition mtbdd_protect (a : N) : prog ssa unit := on_pointers (pt_up a).
Definition mtbdd_unprotect (a : N) : prog ssa unit := on_pointers (pt_down a).

(** A task of the worker of a thread; the result stays in [t->res]. *)
Definition run_task (tls : ssa_tls_t) (p : prog mgr N) : prog ssa N :=
  res ← on_package p;
  _ ← write (at_res (t_worker tls)) res;
  mret res.

(** ** Tags as counted references (ssa_tag_gc.h) *)

Definition incr (p : N) : prog ssa unit :=
  s ← gets id; write p (add64 (ref_count s p) 1).
Definition decr (p : N) : prog ssa unit :=
  s ← gets id; write p (sub64 (ref_count s p) 1).

(** [ssa_tag(const ssa_tag &rhs)]. *)
Definition ssa_tag_copy (rhs : N) : prog ssa N :=
  _ ← (if negb (rhs =? 0) then incr rhs else mret tt);
  mret rhs.
(** [~ssa_tag()]. *)
Definition ssa_tag_destroy (this : N) : prog ssa unit :=
  if negb (this =? 0) then decr this else mret tt.
(** [operator=(const ssa_tag &rhs)] and [operator=(ssa_tag &&rhs)], from what is overwritten to
    what is stored; the second leaves [rhs] empty. *)
Definition ssa_tag_assign (this rhs : N) : prog ssa N :=
  _ ← (if negb (rhs =? 0) then incr rhs else mret tt);
  _ ← (if negb (this =? 0) then decr this else mret tt);
  mret rhs.
Definition ssa_tag_move_assign (this rhs : N) : prog ssa N :=
  _ ← (if negb (this =? 0) then decr this else mret tt);
  mret rhs.
(** [operator==]. *)
Definition ssa_tag_eq (s : ssa) (lhs rhs : N) : bool :=
  if lhs =? rhs then true
  else if (lhs =? 0) || (rhs =? 0) then false
  else if bdd s lhs =? bdd s rhs then true
  else false.

(** ** The queue of free objects *)

Definition empty_slots (s : ssa) : N :=
  if free_h s <=? free_t s then SSA_BLK - 1 - (free_t s - free_h s) else free_h s - free_t s - 1.

(** The objects of a block. *)
Definition block_objects (sp : N) : list N := map (fun i => sp + 16 * i) (nseq 0 (N.to_nat SSA_BLK)).

(** The [memset] of a new block to 0xff. *)
Definition memset_block (sp : N) : prog ssa unit :=
  for_loop (N.to_nat SSA_BLK) 0 (fun i =>
    _ ← write (sp + 16 * i) minus1_64;
    write (sp + 16 * i + 8) minus1_64).

Definition add_ssa_blk : prog ssa unit :=
  s ← gets id;
  let empty_count := empty_slots s in
  let sp := blk (N.of_nat (length (ssa_blk_list s))) in
  _ ← memset_block sp;
  _ ← modify (fun s => set_blocks (ssa_blk_list s ++ [sp]) s);
  for_loop (N.to_nat empty_count) 0 (fun i =>
    modify (fun s => set_queue (free_h s) ((free_t s + 1) mod SSA_BLK)
                       (mset (free_q s) (free_t s) (sp + 16 * i)) s)).

(** The scan of [ssa_gc] over the objects [ptrs]: the new end of the queue, the free slots left,
    and whether the scan has ended early. *)
Fixpoint gc_loop (ptrs : list N) (temp_t empty_count : N) : prog ssa (N * N * bool) :=
  match ptrs with
  | [] => mret (temp_t, empty_count, false)
  | p :: ptrs =>
      s ← gets id;
      let enqueue (unprotect : prog ssa unit) :=
        _ ← modify (fun s => set_queue (free_h s) (free_t s) (mset (free_q s) temp_t p) s);
        _ ← unprotect;
        let temp_t := (temp_t + 1) mod SSA_BLK in
        let empty_count := sub64 empty_count 1 in
        if empty_count =? 0 then mret (temp_t, empty_count, true)
        else gc_loop ptrs temp_t empty_count in
      if ref_count s p =? 0 then
        enqueue (if negb (bdd s p =? 0) then mtbdd_unprotect (p + 8) else mret tt)
      else if ref_count s p =? 0xffffffffffffffff then enqueue (mret tt)
      else gc_loop ptrs temp_t empty_count
  end.

Definition ssa_gc : prog ssa unit :=
  s ← gets id;
  '(temp_t, empty_count, full) ←
    gc_loop (concat (map block_objects (ssa_blk_list s))) (free_t s) (empty_slots s);
  _ ← modify (fun s => set_queue (free_h s) temp_t (free_q s) s);
  _ ← (if negb full && (SSA_BLK / 2 <? empty_count) then add_ssa_blk else mret tt);
  modify (set_lock 0).

(** [while (idx == free_ssa._t) if (cas(gc_lock, 0, 1)) ssa_gc()]; one collection is enough. *)
Fixpoint wait_free (fuel : nat) (idx : N) : prog ssa unit :=
  match fuel with
  | O => no_fuel
  | S fuel =>
      s ← gets id;
      if idx =? free_t s then
        _ ← (if gc_lock s =? 0 then _ ← modify (set_lock 1); ssa_gc else mret tt);
        wait_free fuel idx
      else mret tt
  end.

(** The loop that takes an object from the queue; the compare-and-swap succeeds. *)
Definition take_victim : prog ssa N :=
  s ← gets id;
  let idx := free_h s in
  _ ← wait_free 2 idx;
  _ ← modify (fun s => set_queue ((idx + 1) mod SSA_BLK) (free_t s) (free_q s) s);
  s ← gets id;
  mret (mget (free_q s) idx).

(** ** Tags *)

Definition tls_at (tid : N) : prog ssa ssa_tls_t :=
  s ← gets id;
  match ssa_tls s !! N.to_nat tid with
  | Some tls => mret tls
  | None => exit OutOfBounds
  end.
Definition set_tls (tid : N) (tls : ssa_tls_t) : prog ssa unit :=
  modify (fun s => set_threads (<[N.to_nat tid := tls]> (ssa_tls s)) (n_workers s) s).

Definition ssa_tag_alloc (offset tid : N) : prog ssa N :=
  tls ← tls_at tid;
  victim ← take_victim;
  _ ← write victim 1;
  let array := bit_array offset in
  s ← gets id;
  res ← run_task tls (task_cube (var_set s) array);
  _ ← write (victim + 8) res;
  _ ← mtbdd_protect (victim + 8);
  _ ← write (at_res (t_worker tls)) 0;
  mret victim.

(** The three assignments to the cache of the thread. *)
Definition cache_combine (tid lhs rhs v : N) : prog ssa unit :=
  tls ← tls_at tid;
  l ← ssa_tag_assign (cb_cache_l tls) lhs;
  r ← ssa_tag_assign (cb_cache_r tls) rhs;
  v ← ssa_tag_assign (cb_cache_v tls) v;
  set_tls tid (mk_tls l r v (t_worker tls)).

Definition ssa_tag_combine (lhs rhs tid : N) : prog ssa N :=
  s ← gets id;
  if lhs =? 0 then ssa_tag_copy rhs
  else if (rhs =? 0) || ssa_tag_eq s lhs rhs then ssa_tag_copy lhs
  else
    tls ← tls_at tid;
    if ssa_tag_eq s (cb_cache_l tls) lhs && ssa_tag_eq s (cb_cache_r tls) rhs then
      ssa_tag_copy (cb_cache_v tls)
    else
      res ← run_task tls (task_combine (bdd s lhs) (bdd s rhs));
      if res =? bdd s lhs then
        _ ← cache_combine tid lhs rhs lhs;
        ssa_tag_copy lhs
      else if res =? bdd s rhs then
        _ ← cache_combine tid lhs rhs rhs;
        ssa_tag_copy rhs
      else
        victim ← take_victim;
        _ ← write victim 1;
        _ ← write (victim + 8) res;
        _ ← mtbdd_protect (victim + 8);
        _ ← write (at_res (t_worker tls)) 0;
        _ ← cache_combine tid lhs rhs victim;
        mret victim.

Definition print_one (offset : N) : string :=
  "(" +:+ pretty offset +:+ ", " +:+ pretty (offset + 1) +:+ ") ".

Definition ssa_tag_print (tag : N) : prog ssa string :=
  s ← gets id;
  offset_buf ← (if negb (tag =? 0) then on_package (offset_buf (bdd s tag) (var_set s)) else mret []);
  mret (print_offsets print_one offset_buf).

(** ** Start and end *)

(** Before the start: the package and the table of pointers are given, initialised, and the
    number of threads; words of memory and queue entries read zero before they are written. *)
Definition ssa_before (threads : nat) (m : mgr) (pointers : P) : ssa :=
  mk_ssa m pointers ∅ [] 0 0 ∅ 0 (replicate threads (mk_tls 0 0 0 0)) 0.

Definition ssa_init : prog ssa unit :=
  _ ← mtbdd_protect at_var_set;
  vs ← on_package make_var_set;
  _ ← write at_var_set vs;
  add_ssa_blk.

(** [lace_spawn_worker]: the index of the new worker. *)
Definition lace_spawn_worker : prog ssa N :=
  s ← gets id;
  let worker := n_workers s in
  _ ← mtbdd_protect (at_res worker);
  _ ← modify (fun s => set_threads (ssa_tls s) (worker + 1) s);
  mret worker.

Definition ssa_thread_start (tid : N) : prog ssa unit :=
  _ ← set_tls tid (mk_tls 0 0 0 0);
  worker ← lace_spawn_worker;
  set_tls tid (mk_tls 0 0 0 worker).

(** The worker unprotects its result when it ends, then the cache is cleared. *)
Definition ssa_thread_fini (tid : N) : prog ssa unit :=
  tls ← tls_at tid;
  _ ← mtbdd_unprotect (at_res (t_worker tls));
  _ ← ssa_tag_destroy (cb_cache_l tls);
  _ ← ssa_tag_destroy (cb_cache_r tls);
  _ ← ssa_tag_destroy (cb_cache_v tls);
  set_tls tid (mk_tls 0 0 0 (t_worker tls)).
End ssa.
Arguments ssa : clear implicits.
End SsaGc.
