(* ===== verification/SsaGcFacts.v ===== *)
(** The invariant of the counted tags of [SsaGc]: every object is in use, with as many
    references as its count says, or idle, or free in the queue; the diagrams of the objects in
    use are protected. *)

From S2P Require Import Prelude MtbddNode BddTree OpSpecs NodeStore MtbddCore MtbddCoreFacts.
From S2P Require Import BddApply BddApplyFacts BddQuantFacts BddSetsFacts SsaTask SsaTaskFacts.
From S2P Require Import SylvanRefs SylvanRefsFacts ProtectStore SsaTagFacts SsaGc.

Module SsaGcFacts.
Import MtbddNode BddTree OpSpecs NodeStore MtbddCore MtbddCoreFacts BddApply BddApplyFacts
  BddQuantFacts BddSetsFacts SsaTask SsaTaskFacts Refs RefsFacts ProtectStore SsaTagFacts SsaGc.

Notation vars := (nseq 0 TAG_WIDTH).
Notation all_ones := 0xffffffffffffffff.

(** ** References in a list of tags *)

Fixpoint refs (L : list N) (p : N) : N :=
  match L with
  | [] => 0
  | q :: L => (if q =? p then 1 else 0) + refs L p
  end.

Lemma refs_cons q L p : refs (q :: L) p = (if q =? p then 1 else 0) + refs L p.
Proof. done. Qed.

Lemma refs_app L1 L2 p : refs (L1 ++ L2) p = refs L1 p + refs L2 p.
Proof. induction L1 as [|q L IH]; cbn; [done|]. rewrite IH. lia. Qed.

Lemma refs_perm L1 L2 p : L1 ≡ₚ L2 -> refs L1 p = refs L2 p.
Proof. induction 1; cbn; lia. Qed.

Lemma refs_le L p : refs L p <= N.of_nat (length L).
Proof. induction L as [|q L IH]; cbn [refs length]; [lia|]. case_match; lia. Qed.

Lemma refs_pos L p : 0 < refs L p <-> p ∈ L.
Proof.
  induction L as [|q L IH]; cbn [refs]; [split; [lia|by intros ?%elem_of_nil]|].
  rewrite elem_of_cons, <- IH. destruct (N.eqb_spec q p); split; intros; lia.
Qed.

Lemma refs_zero L p : refs L p = 0 <-> p ∉ L.
Proof. rewrite <- refs_pos. lia. Qed.

(** ** Where variables are *)

Inductive variable := VarSet | Res (w : N) | Count (k i : N) | Bdd (k i : N).

Section layout.
Context `{Layout} (SSA_BLK : N).

Definition address (v : variable) : N :=
  match v with
  | VarSet => at_var_set
  | Res w => at_res w
  | Count k i => blk k + 16 * i
  | Bdd k i => blk k + 16 * i + 8
  end.
Definition valid (v : variable) : Prop :=
  match v with Count _ i | Bdd _ i => i < SSA_BLK | _ => True end.

(** Variables do not overlap, and no address is one of the marks of the table of pointers. *)
Class LayoutLaws := {
  address_inj v v' : valid v -> valid v' -> address v = address v' -> v = v';
  address_in_use v : valid v -> in_use (address v) = true;
  ssa_blk_size : 3 <= SSA_BLK < 2 ^ 63
}.

Context `{LayoutLaws}.

(** An object of the k-th block. *)
Definition object_of (k p : N) : Prop := exists i, i < SSA_BLK /\ p = blk k + 16 * i.
Definition object (p : N) : Prop := exists k, object_of k p.

Lemma elem_of_block k p : p ∈ block_objects SSA_BLK (blk k) <-> object_of k p.
Proof.
  unfold block_objects, object_of. rewrite list_elem_of_fmap. setoid_rewrite elem_of_nseq.
  rewrite N2Nat.id. split; intros (i & H1 & H2); exists i; lia || (split; [done|lia]).
Qed.

Lemma object_addresses p :
  object p -> exists k i, valid (Count k i) /\ p = address (Count k i) /\ p + 8 = address (Bdd k i).
Proof. intros (k & i & Hi & ->). by exists k, i. Qed.

Lemma object_ne_bdd p q : object p -> object q -> p <> q + 8.
Proof.
  intros (k & i & Hv & -> & _)%object_addresses (k' & i' & Hv' & _ & ->)%object_addresses Heq.
  by apply (address_inj (Count k i) (Bdd k' i')) in Heq.
Qed.

Lemma object_ne_var p : object p -> p <> at_var_set /\ p + 8 <> at_var_set.
Proof.
  intros (k & i & Hv & -> & Hb)%object_addresses. rewrite Hb. change at_var_set with (address VarSet).
  by split; intros Heq; apply address_inj in Heq.
Qed.

Lemma object_ne_res p w : object p -> p <> at_res w /\ p + 8 <> at_res w.
Proof.
  intros (k & i & Hv & -> & Hb)%object_addresses. rewrite Hb. change (at_res w) with (address (Res w)).
  by split; intros Heq; apply address_inj in Heq.
Qed.

Lemma res_ne_var w : at_res w <> at_var_set.
Proof.
  change (at_res w) with (address (Res w)). change at_var_set with (address VarSet). intros Heq.
  by apply address_inj in Heq.
Qed.

Lemma res_inj w w' : at_res w = at_res w' -> w = w'.
Proof.
  change (at_res w) with (address (Res w)). change (at_res w') with (address (Res w')). intros Heq.
  apply address_inj in Heq; [by injection Heq|done..].
Qed.

Lemma object_block k k' p : object_of k p -> object_of k' p -> k = k'.
Proof.
  intros (i & Hi & ->) (i' & Hi' & Heq). apply (address_inj (Count k i) (Count k' i')) in Heq; [|done..].
  by injection Heq.
Qed.

Lemma NoDup_block k : NoDup (block_objects SSA_BLK (blk k)).
Proof.
  unfold block_objects. apply (NoDup_fmap_2_strong (fun i => blk k + 16 * i)); [|apply NoDup_nseq].
  intros i j _ _ Heq. lia.
Qed.

Lemma object_pos p : object p -> p <> 0.
Proof.
  intros (k & i & Hv & -> & _)%object_addresses Heq.
  pose proof (address_in_use (Count k i) Hv) as Hu. rewrite Heq in Hu. done.
Qed.

Lemma object_guard p : object p -> in_use (p + 8) = true.
Proof. intros (k & i & Hv & _ & ->)%object_addresses. by apply address_in_use. Qed.
End layout.

Section core.
Context {T C P : Type} `{NodeTableLaws T} `{OpCacheLaws C} `{PointerTableLaws P} `{Layout}
  (SSA_BLK : N) `{!LayoutLaws SSA_BLK}.
Notation mgr := (mgr T C).
Notation ssa := (ssa T C P).
Implicit Types (m : mgr) (s : ssa) (L X Q : list N).

(** ** The invariant *)

(** The package, with the diagrams that the protected pointers point to. *)
Definition synced s : mgr := set_protected (protected_values s) (package s).
Definition guarded s (p : N) : Prop := p + 8 ∈ pt_list (pointers s).
Definition objects s : list N := concat (map (block_objects SSA_BLK) (ssa_blk_list s)).

(** The object holds the diagram of a set of offsets, which garbage collection keeps. *)
Definition used s (p : N) : Prop :=
  guarded s p /\ bdd s p <> 0 /\ exists f, offsets_den (st (package s)) (bdd s p) f.
(** The offsets of a tag. *)
Definition tag_offs s (p o : N) : Prop := p <> 0 /\ diagram_offs (st (package s)) (bdd s p) o.

(** The queue holds [Q], the next object first. *)
Record queue_is s Q : Prop := {
  qi_h : free_h s < SSA_BLK;
  qi_t : free_t s = (free_h s + N.of_nat (length Q)) mod SSA_BLK;
  qi_length : N.of_nat (length Q) < SSA_BLK;
  qi_items : forall j p, Q !! j = Some p ->
    mget (free_q s) ((free_h s + N.of_nat j) mod SSA_BLK) = p
}.

(** [L] are the references that exist, [X] the objects just taken from the queue, and [Q] those in
    the queue. *)
Record core s L X Q : Prop := {
  c_package : mgr_inv (synced s);
  c_var_set : denotes (st (package s)) 0 (var_set s) (set_tree vars);
  c_var_guarded : at_var_set ∈ pt_list (pointers s);
  c_pointers : pt_inv (pointers s);
  c_nodup : NoDup (pt_list (pointers s));
  c_known a : a ∈ pt_list (pointers s) ->
    a = at_var_set \/ (exists w, w < n_workers s /\ a = at_res w) \/
    exists p, p ∈ objects s /\ a = p + 8;
  c_blocks : ssa_blk_list s = map blk (nseq 0 (length (ssa_blk_list s)));
  c_queue : queue_is s Q;
  c_free_nodup : NoDup (X ++ Q);
  c_free p : p ∈ X ++ Q -> p ∈ objects s /\ p ∉ L /\ ~ guarded s p;
  c_count p : p ∈ objects s -> p ∉ X ->
    ref_count s p = all_ones /\ p ∉ L /\ ~ guarded s p \/ ref_count s p = refs L p;
  c_used p : p ∈ objects s -> p ∉ X ++ Q -> ref_count s p <> all_ones -> used s p;
  c_refs p : p ∈ L -> p <> 0 -> p ∈ objects s;
  c_few : N.of_nat (length L) < all_ones
}.

Lemma elem_of_objects s L X Q p :
  core s L X Q -> p ∈ objects s <->
  exists k, k < N.of_nat (length (ssa_blk_list s)) /\ object_of SSA_BLK k p.
Proof.
  intros Hc. unfold objects. rewrite (c_blocks _ _ _ _ Hc), length_map, length_nseq, map_map.
  rewrite <- flat_map_concat_map. rewrite list_elem_of_In, in_flat_map.
  setoid_rewrite <- list_elem_of_In. setoid_rewrite elem_of_nseq. setoid_rewrite elem_of_block.
  split; intros (k & Hk & Hp); exists k; split; try lia; done.
Qed.

Lemma core_object s L X Q p : core s L X Q -> p ∈ objects s -> object SSA_BLK p.
Proof. intros Hc (k & _ & Hp)%(elem_of_objects _ _ _ _ _ Hc). by exists k. Qed.

(** A reference keeps its object in use. *)
Lemma core_ref s L X Q p :
  core s L X Q -> p ∈ L -> p <> 0 ->
  p ∈ objects s /\ p ∉ X ++ Q /\ ref_count s p = refs L p /\ ref_count s p <> all_ones /\ used s p.
Proof.
  intros Hc Hp Hnz. pose proof (c_refs _ _ _ _ Hc p Hp Hnz) as Ho.
  assert (p ∉ X ++ Q) as Hn by (intros Hq; by destruct (c_free _ _ _ _ Hc p Hq) as (_ & ? & _)).
  assert (p ∉ X) as Hx by (intros ?; apply Hn, elem_of_app; by left).
  destruct (c_count _ _ _ _ Hc p Ho Hx) as [(_ & Hno & _)|Hr]; [done|].
  assert (ref_count s p <> all_ones) as Hne.
  { rewrite Hr. pose proof (refs_le L p). pose proof (c_few _ _ _ _ Hc). lia. }
  split_and!; try done. by apply (c_used _ _ _ _ Hc).
Qed.

(** Only the number of references to each object matters. *)
Lemma core_ext s L L' X Q :
  (forall p, p <> 0 -> refs L' p = refs L p) -> N.of_nat (length L') < all_ones ->
  core s L X Q -> core s L' X Q.
Proof.
  intros He Hl Hc.
  assert (forall p, p <> 0 -> p ∈ L' <-> p ∈ L) as Hin.
  { intros p Hp. rewrite <- !refs_pos. by rewrite He. }
  assert (forall p, p ∈ objects s -> p <> 0) as Hpos.
  { intros p Hp. apply (object_pos SSA_BLK), (core_object s L X Q p Hc), Hp. }
  destruct Hc as [? ? ? ? ? ? ? ? ? Hf Hct ? Hr ?]. split; try done.
  - intros p Hx. destruct (Hf p Hx) as (Ho & Hn & Hg). split_and!; [done| |done].
    rewrite Hin; [done|by apply Hpos].
  - intros p Ho Hx. rewrite He by by apply Hpos. destruct (Hct p Ho Hx) as [(Hrc & Hn & Hg)|?]; [left|by right].
    split_and!; [done| |done]. rewrite Hin; [done|by apply Hpos].
  - intros p Hp Hnz. apply Hr; [by apply Hin|done].
Qed.

Lemma core_perm s L L' X Q : L ≡ₚ L' -> core s L X Q -> core s L' X Q.
Proof.
  intros Hp Hc. apply (core_ext s L); [intros p _; symmetry; by apply refs_perm| |done].
  rewrite <- Hp. apply Hc.
Qed.

(** ** What operations leave alone *)

Record frame s s' L : Prop := {
  f_tls : ssa_tls s' = ssa_tls s;
  f_workers : n_workers s' = n_workers s;
  f_lock : gc_lock s' = gc_lock s;
  f_tags p : p ∈ L -> p <> 0 ->
    bdd s' p = bdd s p /\ forall o, tag_offs s' p o <-> tag_offs s p o
}.

Lemma frame_refl s L : frame s s L.
Proof. by split. Qed.

Lemma frame_trans s1 s2 s3 L L' :
  (forall p, p ∈ L -> p ∈ L') -> frame s1 s2 L -> frame s2 s3 L' -> frame s1 s3 L.
Proof.
  intros Hsub [Ht1 Hw1 Hl1 Hg1] [Ht2 Hw2 Hl2 Hg2]. split; [congruence..|].
  intros p Hp Hnz. destruct (Hg1 p Hp Hnz) as [Hb1 Ho1], (Hg2 p (Hsub p Hp) Hnz) as [Hb2 Ho2].
  split; [congruence|]. intros o. by rewrite Ho2.
Qed.

(** ** The roots of the package *)

Lemma set_protected_inv m l l' :
  mgr_inv (set_protected l m) -> Forall (root_ok (st m)) l' -> mgr_inv (set_protected l' m).
Proof.
  intros [Hn Hc Hr Ho] Hl. split; try done. unfold roots in *. cbn in *.
  rewrite !Forall_app in *. naive_solver.
Qed.

Lemma synced_roots s a :
  mgr_inv (synced s) -> a ∈ pt_list (pointers s) -> root_ok (st (package s)) (mget (memory s) a).
Proof.
  intros Hi Ha. pose proof (mi_roots _ Hi) as Hr. unfold roots in Hr. rewrite !Forall_app in Hr.
  destruct Hr as (_ & _ & _ & Hr). apply (proj1 (Forall_forall _ _) Hr).
  apply list_elem_of_fmap. by exists a.
Qed.

(** The package stays consistent when the pointers point to diagrams. *)
Lemma synced_inv s s' :
  mgr_inv (synced s) -> package s' = package s ->
  (forall a, a ∈ pt_list (pointers s') -> root_ok (st (package s)) (mget (memory s') a)) ->
  mgr_inv (synced s').
Proof.
  intros Hi Hp Ha. unfold synced. rewrite Hp. apply (set_protected_inv _ (protected_values s)); [done|].
  apply Forall_forall. intros d (a & -> & Hin)%list_elem_of_fmap. by apply Ha.
Qed.

Lemma used_root s p : used s p -> root_ok (st (package s)) (bdd s p).
Proof. intros (_ & _ & f & (t & Hd & _) & _). by exists t. Qed.

(** ** Counts *)

Lemma known_ne_count s L X Q a p :
  core s L X Q -> a ∈ pt_list (pointers s) -> object SSA_BLK p -> a <> p.
Proof.
  intros Hc Ha Hp. destruct (c_known _ _ _ _ Hc a Ha) as [->|[(w & _ & ->)|(q & Hq & ->)]].
  - apply not_eq_sym, (object_ne_var SSA_BLK p Hp).
  - apply not_eq_sym, (object_ne_res SSA_BLK p w Hp).
  - apply not_eq_sym, (object_ne_bdd SSA_BLK p q Hp). by apply (core_object s L X Q).
Qed.

Lemma bdd_ne_count s L X Q p q :
  core s L X Q -> p ∈ objects s -> q ∈ objects s -> p <> q + 8.
Proof. intros Hc Hp Hq. by apply (object_ne_bdd SSA_BLK); apply (core_object s L X Q). Qed.

Lemma frame_write s a v L X Q :
  core s L X Q -> (forall p, p ∈ objects s -> p ∉ X -> p + 8 <> a) ->
  frame s (set_memory (mset (memory s) a v) s) L.
Proof.
  intros Hc Ha. split; try done. intros p Hp Hnz.
  destruct (core_ref s L X Q p Hc Hp Hnz) as (Ho & Hn & _).
  assert (bdd (set_memory (mset (memory s) a v) s) p = bdd s p) as Hb.
  { unfold bdd. cbn. apply mget_mset_ne, not_eq_sym, Ha; [done|]. intros Hx. apply Hn, elem_of_app. by left. }
  split; [done|]. intros o. unfold tag_offs. by rewrite Hb.
Qed.

Lemma set_count_core s L L' X Q p :
  core s L X Q -> p ∈ objects s -> p ∉ X ++ Q -> used s p ->
  (forall q, q <> p -> q <> 0 -> refs L' q = refs L q) -> N.of_nat (length L') < all_ones ->
  let s' := set_memory (mset (memory s) p (refs L' p)) s in
  core s' L' X Q /\ frame s s' L.
Proof.
  intros Hc Hp Hx Hu Hrefs Hlen s'. pose proof (core_object s L X Q p Hc Hp) as Hobj.
  assert (forall q, q ∈ objects s -> bdd s' q = bdd s q) as Hbdd.
  { intros q Hq. unfold bdd, s'. cbn. apply mget_mset_ne, (bdd_ne_count s L X Q); done. }
  assert (forall q, q <> p -> ref_count s' q = ref_count s q) as Hcnt
    by (intros q Hq; unfold ref_count, s'; cbn; by apply mget_mset_ne).
  assert (forall q, q ∈ objects s -> used s q -> used s' q) as Hused.
  { intros q Hq (Hg & Hb & Hf). split_and!; [done|by rewrite Hbdd|by rewrite Hbdd]. }
  assert (forall q, q ∈ objects s -> q <> p -> q ∈ L' <-> q ∈ L) as Hin.
  { intros q Hq Hne. rewrite <- !refs_pos, Hrefs; [done|done|].
    by apply (object_pos SSA_BLK), (core_object s L X Q). }
  split; [|apply (frame_write s p _ L X Q Hc); intros q Hq _; apply not_eq_sym; by apply (bdd_ne_count s L X Q)].
  split; try apply Hc.
  - apply (synced_inv s); [apply Hc|done|]. intros a Ha. cbn.
    rewrite mget_mset_ne by (apply not_eq_sym; by apply (known_ne_count s L X Q)).
    apply synced_roots; [apply Hc|done].
  - unfold var_set, s'. cbn. rewrite mget_mset_ne by apply (object_ne_var SSA_BLK p Hobj). apply Hc.
  - destruct (c_queue _ _ _ _ Hc). by split.
  - intros q Hq. destruct (c_free _ _ _ _ Hc q Hq) as (Ho & Hn & Hg). split_and!; [done| |done].
    rewrite Hin; [done|done|]. by intros ->.
  - intros q Ho Hnx. destruct (decide (q = p)) as [->|Hne].
    { right. unfold ref_count, s'. cbn. by rewrite mget_mset_eq. }
    rewrite Hcnt by done. destruct (c_count _ _ _ _ Hc q Ho Hnx) as [(Hr & Hn & Hg)|Hr]; [left|right].
    + split_and!; [done|by rewrite Hin|done].
    + rewrite Hrefs; [done|done|]. by apply (object_pos SSA_BLK), (core_object s L X Q).
  - intros q Ho Hnx Hr. apply Hused; [done|]. destruct (decide (q = p)) as [->|Hne]; [done|].
    rewrite Hcnt in Hr by done. by apply (c_used _ _ _ _ Hc).
  - intros q Hq Hnz. destruct (decide (q = p)) as [->|Hne]; [done|]. apply (c_refs _ _ _ _ Hc q); [|done].
    apply refs_pos. rewrite <- Hrefs by done. by apply refs_pos.
  - done.
Qed.

Lemma incr_spec s L X Q p :
  core s L X Q -> p ∈ L -> p <> 0 -> N.of_nat (length L) + 1 < all_ones ->
  wp (incr p) (fun _ s' => core s' (p :: L) X Q /\ frame s s' L) (fun _ _ => False) s.
Proof.
  intros Hc Hp Hnz Hl. destruct (core_ref s L X Q p Hc Hp Hnz) as (Ho & Hx & Hr & _ & Hu).
  unfold incr. do 2 wp_step. unfold write. wp_step. cbn [id]. rewrite Hr.
  assert (add64 (refs L p) 1 = refs (p :: L) p) as ->.
  { rewrite refs_cons, N.eqb_refl, N.add_comm. unfold add64. rewrite N.add_comm. apply w64_small.
    pose proof (refs_le L p). lia. }
  apply set_count_core; try done; [|cbn [length]; lia]. intros q Hne _. rewrite refs_cons.
  by rewrite (proj2 (N.eqb_neq p q)) by congruence.
Qed.

Lemma decr_spec s L X Q p :
  core s (p :: L) X Q -> p <> 0 ->
  wp (decr p) (fun _ s' => core s' L X Q /\ frame s s' L) (fun _ _ => False) s.
Proof.
  intros Hc Hnz. destruct (core_ref s (p :: L) X Q p Hc) as (Ho & Hx & Hr & _ & Hu); [by left|done|].
  pose proof (c_few _ _ _ _ Hc) as Hl. cbn [length] in Hl. pose proof (refs_le L p).
  unfold decr. do 2 wp_step. unfold write. wp_step. cbn [id]. rewrite Hr, refs_cons, N.eqb_refl.
  rewrite sub64_small by lia. replace (1 + refs L p - 1) with (refs L p) by lia.
  destruct (set_count_core s (p :: L) L X Q p) as [Hc' Hf]; try done; [|lia|].
  - intros q Hne _. rewrite refs_cons. by rewrite (proj2 (N.eqb_neq p q)) by congruence.
  - split; [done|]. destruct Hf as [? ? ? Hg]. split; try done. intros q Hq. apply Hg. by right.
Qed.

(** ** Tags *)

Lemma core_null s L X Q : N.of_nat (length L) + 1 < all_ones -> core s L X Q -> core s (0 :: L) X Q.
Proof.
  intros Hl. apply core_ext; [|cbn [length]; lia]. intros p Hp. rewrite refs_cons.
  by rewrite (proj2 (N.eqb_neq 0 p)) by congruence.
Qed.

Lemma core_drop_null s L X Q : core s (0 :: L) X Q -> core s L X Q.
Proof.
  intros Hc. pose proof (c_few _ _ _ _ Hc) as Hl. cbn [length] in Hl. revert Hc.
  apply core_ext; [|lia]. intros p Hp. rewrite refs_cons.
  by rewrite (proj2 (N.eqb_neq 0 p)) by congruence.
Qed.

Lemma copy_spec s L X Q p :
  core s L X Q -> p = 0 \/ p ∈ L -> N.of_nat (length L) + 1 < all_ones ->
  wp (ssa_tag_copy p) (fun r s' => r = p /\ core s' (p :: L) X Q /\ frame s s' L) (fun _ _ => False) s.
Proof.
  intros Hc Hp Hl. unfold ssa_tag_copy. wp_step. destruct (N.eqb_spec p 0) as [->|Hnz]; cbn [negb].
  - do 2 wp_step. split_and!; [done|by apply core_null|apply frame_refl].
  - destruct Hp as [?|Hp]; [done|]. eapply wp_mono; [by apply incr_spec|]. intros [] s' [Hc' Hf]. by wp_step.
Qed.

Lemma destroy_spec s L X Q p :
  core s (p :: L) X Q ->
  wp (ssa_tag_destroy p) (fun _ s' => core s' L X Q /\ frame s s' L) (fun _ _ => False) s.
Proof.
  intros Hc. unfold ssa_tag_destroy. destruct (N.eqb_spec p 0) as [->|Hnz]; cbn [negb].
  - wp_step. split; [by apply core_drop_null|apply frame_refl].
  - by apply decr_spec.
Qed.

Lemma assign_spec s L X Q this rhs :
  core s (this :: L) X Q -> rhs = 0 \/ rhs ∈ this :: L -> N.of_nat (length L) + 2 < all_ones ->
  wp (ssa_tag_assign this rhs)
    (fun r s' => r = rhs /\ core s' (rhs :: L) X Q /\ frame s s' (rhs :: L)) (fun _ _ => False) s.
Proof.
  intros Hc Hp Hl. change (wp (_ ← (if negb (rhs =? 0) then incr rhs else mret tt);
    _ ← ssa_tag_destroy this; mret rhs)
    (fun r s' => r = rhs /\ core s' (rhs :: L) X Q /\ frame s s' (rhs :: L)) (fun _ _ => False) s).
  assert (wp (if negb (rhs =? 0) then incr rhs else mret tt)
    (fun _ s' => core s' (rhs :: this :: L) X Q /\ frame s s' (this :: L)) (fun _ _ => False) s) as Hw.
  { destruct (N.eqb_spec rhs 0) as [->|Hnz]; cbn [negb].
    - wp_step. split; [apply core_null; [cbn [length]; lia|done]|apply frame_refl].
    - destruct Hp as [?|Hp]; [done|]. apply incr_spec; [done..|]. cbn [length]. lia. }
  wp_step. eapply wp_mono; [exact Hw|]. intros [] s1 [Hc1 Hf1]. wp_step.
  eapply wp_mono; [apply (destroy_spec s1 (rhs :: L) X Q); by apply (core_perm s1 (rhs :: this :: L)); [constructor|]|].
  intros [] s2 [Hc2 Hf2]. wp_step. split_and!; [done..|].
  destruct Hf1 as [? ? ? Hg1], Hf2 as [? ? ? Hg2]. split; [congruence..|]. intros p Hin Hnz.
  assert (p ∈ this :: L) as Hin'.
  { apply elem_of_cons in Hin as [->|Hin]; [by destruct Hp|by right]. }
  destruct (Hg1 p Hin' Hnz) as [Hb1 Ho1], (Hg2 p Hin Hnz) as [Hb2 Ho2].
  split; [congruence|]. intros o. by rewrite Ho2.
Qed.

Lemma move_assign_spec s L X Q this rhs :
  core s (this :: rhs :: L) X Q ->
  wp (ssa_tag_move_assign this rhs)
    (fun r s' => r = rhs /\ core s' (rhs :: L) X Q /\ frame s s' (rhs :: L)) (fun _ _ => False) s.
Proof.
  intros Hc. change (wp (_ ← ssa_tag_destroy this; mret rhs)
    (fun r s' => r = rhs /\ core s' (rhs :: L) X Q /\ frame s s' (rhs :: L)) (fun _ _ => False) s).
  wp_step. eapply wp_mono; [by apply destroy_spec|]. intros [] s' [Hc' Hf]. by wp_step.
Qed.

(** ** Other words of memory *)

Lemma write_core s L X Q a v :
  core s L X Q -> a <> at_var_set ->
  (a ∈ pt_list (pointers s) -> root_ok (st (package s)) v) ->
  (forall p, p ∈ objects s -> p ∉ X -> p <> a /\ p + 8 <> a) ->
  let s' := set_memory (mset (memory s) a v) s in
  core s' L X Q /\ frame s s' L.
Proof.
  intros Hc Hvar Hroot Hobj s'.
  assert (forall p, p ∈ objects s -> p ∉ X -> bdd s' p = bdd s p /\ ref_count s' p = ref_count s p) as Hsame.
  { intros p Hp Hx. destruct (Hobj p Hp Hx). unfold bdd, ref_count, s'. cbn.
    by rewrite !mget_mset_ne by (by apply not_eq_sym). }
  split; [|apply (frame_write s a v L X Q Hc); intros p Hp Hx; by apply Hobj].
  split; try apply Hc.
  - apply (synced_inv s); [apply Hc|done|]. intros b Hb. cbn. rewrite mget_mset. case_decide as Hab.
    + subst b. by apply Hroot.
    + apply synced_roots; [apply Hc|done].
  - unfold var_set, s'. cbn. rewrite mget_mset_ne by done. apply Hc.
  - destruct (c_queue _ _ _ _ Hc). by split.
  - intros p Hp Hx. destruct (Hsame p Hp Hx) as [_ ->]. by apply (c_count _ _ _ _ Hc).
  - intros p Hp Hx. assert (p ∉ X) as Hx' by (intros ?; apply Hx, elem_of_app; by left).
    destruct (Hsame p Hp Hx') as [Hb ->]. intros Hr. unfold used. rewrite Hb. by apply (c_used _ _ _ _ Hc).
Qed.

Lemma elem_of_X s L X Q p : core s L X Q -> p ∈ X -> p ∈ objects s /\ p ∉ L /\ ~ guarded s p /\ object SSA_BLK p.
Proof.
  intros Hc Hp. destruct (c_free _ _ _ _ Hc p) as (Ho & Hl & Hg); [apply elem_of_app; by left|].
  split_and!; [done..|]. by apply (core_object s L X Q).
Qed.

(** The words of an object just taken from the queue. *)
Lemma write_taken s L X Q p v :
  core s L X Q -> p ∈ X ->
  (let s' := set_memory (mset (memory s) p v) s in core s' L X Q /\ frame s s' L) /\
  (let s' := set_memory (mset (memory s) (p + 8) v) s in core s' L X Q /\ frame s s' L).
Proof.
  intros Hc Hp. destruct (elem_of_X s L X Q p Hc Hp) as (Ho & _ & Hg & Hobj).
  assert (forall q, q ∈ objects s -> q ∉ X -> q <> p) as Hne by (intros q _ Hq ->; done).
  split; apply write_core; try done; try by apply (object_ne_var SSA_BLK p Hobj).
  - intros Ha. exfalso. by apply (known_ne_count s L X Q p p Hc Ha Hobj).
  - intros q Hq Hx. split; [by apply Hne|]. apply not_eq_sym, (bdd_ne_count s L X Q); done.
  - intros q Hq Hx. split; [by apply (bdd_ne_count s L X Q)|]. specialize (Hne q Hq Hx). lia.
Qed.

Lemma write_res s L X Q w v :
  core s L X Q -> root_ok (st (package s)) v ->
  let s' := set_memory (mset (memory s) (at_res w) v) s in core s' L X Q /\ frame s s' L.
Proof.
  intros Hc Hr. apply write_core; [done|apply (res_ne_var SSA_BLK)|done|]. intros p Hp _.
  apply (object_ne_res SSA_BLK). by apply (core_object s L X Q).
Qed.
End core.
End SsaGcFacts.
