(* ===== verification/SsaGcQueue.v ===== *)
(** The tasks of the workers and the queue of free objects, on the invariant of [SsaGcFacts]: a
    task keeps the diagrams of all objects in use, and the scan of [ssa_gc] refills the queue. *)

From S2P Require Import Prelude MtbddNode BddTree OpSpecs NodeStore MtbddCore MtbddCoreFacts.
From S2P Require Import BddApply BddApplyFacts BddQuantFacts BddSetsFacts SsaTask SsaTaskFacts.
From S2P Require Import SylvanRefs SylvanRefsFacts ProtectStore SsaTagFacts SsaGc SsaGcFacts.

Module SsaGcQueue.
Import MtbddNode BddTree OpSpecs NodeStore MtbddCore MtbddCoreFacts BddApply BddApplyFacts
  BddQuantFacts BddSetsFacts SsaTask SsaTaskFacts Refs RefsFacts ProtectStore SsaTagFacts SsaGc
  SsaGcFacts.

Notation all_ones := 0xffffffffffffffff.
Notation vars := (nseq 0 TAG_WIDTH).

Section queue.
Context {T C P : Type} `{NodeTableLaws T} `{OpCacheLaws C} `{PointerTableLaws P} `{Layout}
  (SSA_BLK : N) `{!LayoutLaws SSA_BLK}.
Notation mgr := (mgr T C).
Notation ssa := (ssa T C P).
Implicit Types (m : mgr) (s : ssa) (L X Q : list N).
Notation core := (core SSA_BLK).
Notation objects := (objects SSA_BLK).

Lemma live_root_of s a :
  a ∈ pt_list (pointers s) -> live (synced s) (MTBDD_INDEX (mget (memory s) a)).
Proof.
  intros Ha. apply live_root. unfold roots, synced. cbn. rewrite !elem_of_app. do 3 right.
  apply list_elem_of_fmap. by exists a.
Qed.

(** What a task leaves of the diagrams. *)
Lemma offsets_den_keeps m m' d f :
  keeps m m' -> live m (MTBDD_INDEX d) -> offsets_den (st m) d f -> offsets_den (st m') d f.
Proof.
  intros Hk Hl [(t & Hd & Hs) Hb]. split; [|done]. exists t. split; [|done]. by apply (denotes_keeps m).
Qed.

Lemma package_spec {A} (p : prog mgr A) s L X Q (R : A -> mgr -> Prop) (E : exit_reason -> mgr -> Prop) :
  core s L X Q ->
  wp p (fun r m' => mgr_inv m' /\ keeps (synced s) m' /\ R r m') E (synced s) ->
  wp (on_package p)
    (fun r s' => core s' L X Q /\ frame s s' L /\ memory s' = memory s /\ pointers s' = pointers s /\
       R r (package s'))
    (fun x s' => E x (package s')) s.
Proof.
  intros Hc Hp. unfold wp, on_package, synced in *.
  destruct (p (set_protected (protected_values s) (package s))) as [r m|x m|]; [|done..].
  destruct Hp as (Hi & Hk & HR). set (s' := set_package m s).
  assert (mgr_inv (synced s')) as Hi'.
  { unfold synced. apply (set_protected_inv m (mtbdd_protected m)); [by destruct m|].
    pose proof (mi_roots m Hi) as Hr. unfold roots in Hr. rewrite !Forall_app in Hr.
    destruct Hr as (_ & _ & _ & Hr). destruct Hk as [(_ & _ & _ & Hprot & _) _]. by rewrite Hprot in Hr. }
  assert (forall q, q ∈ objects s -> used s q -> used s' q) as Hused.
  { intros q Hq (Hg & Hb & f & Hf). split_and!; [done..|]. exists f.
    apply (offsets_den_keeps (synced s) m); [done|by apply (live_root_of s (q + 8))|done]. }
  split; [|split_and!; [|done..]].
  - split; try apply Hc; try done.
    + change (package s') with m. apply (denotes_keeps (synced s) m); [done| |apply Hc].
      apply (live_root_of s at_var_set), Hc.
    + destruct (c_queue _ _ _ _ _ Hc). by split.
    + intros q Ho Hx Hr. apply Hused; [done|]. by apply (c_used _ _ _ _ _ Hc).
  - split; try done. intros q Hq Hnz. split; [done|]. intros o.
    destruct (core_ref SSA_BLK s L X Q q Hc Hq Hnz) as (Ho & _ & _ & _ & Hu).
    destruct (Hused q Ho Hu) as (_ & _ & f' & Hf'). destruct Hu as (Hg & _ & f & Hf).
    pose proof (offsets_den_keeps (synced s) m _ f Hk (live_root_of s (q + 8) Hg) Hf) as Hf2.
    unfold tag_offs. change (bdd s' q) with (bdd s q). change (package s') with m.
    by rewrite (diagram_offs_iff (st m) _ f o (proj1 Hf2)), (diagram_offs_iff _ _ f o (proj1 Hf)).
Qed.

(** A task, its result left in [t->res]. *)
Lemma run_task_spec (tls : ssa_tls_t) (p : prog mgr N) s L X Q Pr :
  core s L X Q ->
  wp p (task_ok (D := gc_discipline) (synced s) Pr) full_only (synced s) ->
  wp (run_task tls p)
    (fun r s' => core s' L X Q /\ frame s s' L /\ pointers s' = pointers s /\
       (forall q, q ∈ X -> ref_count s' q = ref_count s q) /\
       exists f, offsets_den (st (package s')) r f /\ forall o, has f o <-> Pr o)
    (fun x s' => full_only x (package s')) s.
Proof.
  intros Hc Hp. unfold run_task. wp_step. eapply wp_mono.
  - apply (package_spec p s L X Q (fun r m' => exists f, offsets_den (st m') r f /\ forall o, has f o <-> Pr o)
      full_only Hc). eapply wp_mono; [exact Hp|]. intros r m' (Hi & Hk & Hr). by split_and!.
  - intros r s1 (Hc1 & Hf1 & Hm & Hpt & f & Hd & Ho). unfold write. do 3 wp_step.
    destruct (write_res SSA_BLK s1 L X Q (t_worker tls) r Hc1) as [Hc2 Hf2].
    { destruct Hd as [(t & Ht & _) _]. by exists t. }
    split_and!; [done|eapply frame_trans; [|done..]; done|done| |by exists f].
    intros q Hq. destruct (elem_of_X SSA_BLK s1 L X Q q Hc1 Hq) as (_ & _ & _ & Hobj).
    unfold ref_count. cbn. rewrite mget_mset_ne; [by rewrite Hm|].
    apply not_eq_sym, (object_ne_res SSA_BLK q _ Hobj).
Qed.

(** ** Protecting and unprotecting *)

Lemma protect_spec s L X Q v d f :
  core s L (v :: X) Q -> N.of_nat (length L) + 1 < all_ones -> pt_room (pointers s) (v + 8) ->
  ref_count s v = 1 -> bdd s v = d -> d <> 0 -> offsets_den (st (package s)) d f ->
  wp (mtbdd_protect (v + 8))
    (fun _ s' => core s' (v :: L) X Q /\ frame s s' L /\
       forall o, tag_offs s' v o <-> has f o) (fun _ _ => False) s.
Proof.
  intros Hc Hl Hroom Hr Hb Hd Hf. destruct (elem_of_X SSA_BLK s L (v :: X) Q v Hc) as (Ho & Hnl & Hg & Hobj);
    [by left|].
  pose proof (pt_up_spec (pointers s) (v + 8) (c_pointers _ _ _ _ _ Hc)
    (object_guard SSA_BLK v Hobj) Hroom) as Hw.
  unfold wp, mtbdd_protect, on_pointers in *. destruct (pt_up (v + 8) (pointers s)) as [[] t|x t|]; [|done..].
  destruct Hw as [Hi Hp]. set (s' := set_pointers t s).
  assert (forall a, a ∈ pt_list t <-> a = v + 8 \/ a ∈ pt_list (pointers s)) as Hin
    by (intros a; by rewrite Hp, elem_of_cons).
  assert (forall q, guarded s q -> guarded s' q) as Hmono by (intros q Hq; apply Hin; by right).
  assert (forall q, guarded s' q -> q = v \/ guarded s q) as Hinv.
  { intros q [Hq|Hq]%Hin; [left; lia|by right]. }
  assert (used s' v) as Huv.
  { split_and!; [apply Hin; by left|change (bdd s' v) with (bdd s v); by rewrite Hb|].
    exists f. change (bdd s' v) with (bdd s v). by rewrite Hb. }
  assert (v ∉ X ++ Q) as Hvx by (pose proof (c_free_nodup _ _ _ _ _ Hc) as Hnd; by apply NoDup_cons in Hnd as [? _]).
  split; [|split; [|intros o; unfold tag_offs; change (bdd s' v) with (bdd s v); rewrite Hb;
    change (package s') with (package s); rewrite (diagram_offs_iff _ d f o (proj1 Hf));
    split; [by intros [_ ?]|split; [by apply (object_pos SSA_BLK)|done]]]].
  2: by split.
  split; try apply Hc.
  - apply (synced_inv s); [apply Hc|done|]. intros a [->|Ha]%Hin.
    + by apply (used_root s' v).
    + apply (synced_roots s); [apply Hc|done].
  - apply Hin. right. apply Hc.
  - done.
  - change (NoDup (pt_list t)). rewrite Hp. constructor; [done|apply Hc].
  - intros a [->|Ha]%Hin; [right; right; by exists v|by apply (c_known _ _ _ _ _ Hc)].
  - destruct (c_queue _ _ _ _ _ Hc). by split.
  - pose proof (c_free_nodup _ _ _ _ _ Hc) as Hnd. by apply NoDup_cons in Hnd as [_ ?].
  - intros q Hq. destruct (c_free _ _ _ _ _ Hc q) as (Hqo & Hql & Hqg); [by right|].
    assert (q <> v) as Hne by by intros ->. split_and!; [done| |].
    + by intros [->|?]%elem_of_cons.
    + by intros [->|?]%Hinv.
  - intros q Hqo Hqx. destruct (decide (q = v)) as [->|Hne].
    + right. rewrite refs_cons, N.eqb_refl, (proj2 (refs_zero L v) Hnl). done.
    + rewrite refs_cons, (proj2 (N.eqb_neq v q)) by congruence.
      destruct (c_count _ _ _ _ _ Hc q Hqo) as [(Hqr & Hql & Hqg)|Hqr]; [by intros [->|?]%elem_of_cons|left|by right].
      split_and!; [done|by intros [->|?]%elem_of_cons|by intros [->|?]%Hinv].
  - intros q Hqo Hqx Hqr. destruct (decide (q = v)) as [->|Hne]; [done|].
    destruct (c_used _ _ _ _ _ Hc q Hqo) as (Hqg & Hqb); [by intros [->|?]%elem_of_cons|done|].
    by split; [apply Hmono|].
  - intros q [->|Hq]%elem_of_cons Hnz; [done|]. by apply (c_refs _ _ _ _ _ Hc).
  - cbn [length]. lia.
Qed.

Lemma unprotect_spec s L X Q p :
  core s L X Q -> p ∈ objects s -> p ∉ X ++ Q -> p ∉ L -> used s p ->
  wp (mtbdd_unprotect (p + 8))
    (fun _ s' => exists t, s' = set_pointers t s /\ core s' L (p :: X) Q /\ frame s s' L /\
       forall a, pt_room (pointers s) a -> pt_room t a) (fun _ _ => False) s.
Proof.
  intros Hc Ho Hx Hl (Hg & _). pose proof (pt_down_spec (pointers s) (p + 8) (c_pointers _ _ _ _ _ Hc) Hg) as Hw.
  unfold wp, mtbdd_unprotect, on_pointers in *. destruct (pt_down (p + 8) (pointers s)) as [[] t|x t|]; [|done..].
  destruct Hw as (Hi & Hp & Hroom). exists t. set (s' := set_pointers t s).
  pose proof (c_nodup _ _ _ _ _ Hc) as Hnd. rewrite <- Hp in Hnd. apply NoDup_cons in Hnd as [Hnin Hnd].
  assert (forall a, a ∈ pt_list t -> a ∈ pt_list (pointers s)) as Hsub
    by (intros a Ha; rewrite <- Hp; by right).
  assert (forall q, q <> p -> guarded s q -> guarded s' q) as Hkeep.
  { intros q Hne Hq. unfold guarded in Hq. rewrite <- Hp in Hq. apply elem_of_cons in Hq as [?|?]; [lia|done]. }
  assert (forall q, ~ guarded s q -> ~ guarded s' q) as Hng by (intros q Hq ?; by apply Hq, Hsub).
  split; [done|]. split; [|split; [by split|done]]. split; try apply Hc; try done.
  - apply (synced_inv s); [apply Hc|done|]. intros a Ha. apply (synced_roots s); [apply Hc|by apply Hsub].
  - assert (at_var_set ∈ p + 8 :: pt_list t) as [Heq|?]%elem_of_cons by (rewrite Hp; apply Hc); [|done].
    exfalso. by apply (proj2 (object_ne_var SSA_BLK p (core_object SSA_BLK s L X Q p Hc Ho))).
  - intros a Ha. by apply (c_known _ _ _ _ _ Hc), Hsub.
  - destruct (c_queue _ _ _ _ _ Hc). by split.
  - cbn. constructor; [done|apply Hc].
  - intros q [->|Hq]%elem_of_cons; [by split_and!|].
    destruct (c_free _ _ _ _ _ Hc q Hq) as (Hqo & Hql & Hqg). split_and!; [done..|by apply Hng].
  - intros q Hqo Hqx. destruct (c_count _ _ _ _ _ Hc q Hqo) as [(Hqr & Hql & Hqg)|Hqr];
      [intros ?; apply Hqx; by right|left|by right]. split_and!; [done..|by apply Hng].
  - intros q Hqo Hqx Hqr. destruct (c_used _ _ _ _ _ Hc q Hqo) as (Hqg & Hqb); [|done|].
    + intros ?. apply Hqx. by right.
    + split; [|done]. apply Hkeep; [|done]. intros ->. apply Hqx. by left.
Qed.

(** ** The queue *)

(** An object that was never used can be taken out of circulation. *)
Lemma fresh_core s L X Q p :
  core s L X Q -> p ∈ objects s -> p ∉ X ++ Q -> ref_count s p = all_ones -> core s L (p :: X) Q.
Proof.
  intros Hc Ho Hx Hr. assert (p ∉ X) as Hpx by (intros ?; apply Hx, elem_of_app; by left).
  assert (p ∉ L /\ ~ guarded s p) as [Hl Hg].
  { destruct (c_count _ _ _ _ _ Hc p Ho Hpx) as [(_ & ? & ?)|Hr']; [done|].
    pose proof (refs_le L p). pose proof (c_few _ _ _ _ _ Hc). lia. }
  destruct Hc as [? ? ? ? ? ? ? ? Hnd Hf Hct Hu ? ?]. split; try done.
  - cbn. by constructor.
  - intros q [->|Hq]%elem_of_cons; [done|by apply Hf].
  - intros q Hqo Hqx. apply Hct; [done|]. intros ?. apply Hqx. by right.
  - intros q Hqo Hqx. apply Hu; [done|]. intros ?. apply Hqx. by right.
Qed.

Definition push (p : N) s : ssa :=
  set_queue (free_h s) ((free_t s + 1) mod SSA_BLK) (mset (free_q s) (free_t s) p) s.

Lemma push_core s L Q p :
  core s L [p] Q -> ref_count s p = 0 \/ ref_count s p = all_ones ->
  N.of_nat (length Q) + 1 < SSA_BLK -> core (push p s) L [] (Q ++ [p]).
Proof.
  intros Hc Hr Hlen. pose proof (ssa_blk_size SSA_BLK) as Hblk.
  destruct (elem_of_X SSA_BLK s L [p] Q p Hc) as (Ho & Hl & Hg & _); [by left|].
  destruct Hc as [? ? ? ? ? ? ? [Hh Ht Hln Hit] Hnd Hf Hct Hu ? ?].
  assert (forall q, q ∈ [] ++ Q ++ [p] <-> q ∈ [p] ++ Q) as Hin by (intros q; set_solver).
  split; try done.
  - split; try done; cbn.
    + rewrite Ht, length_app, N.Div0.add_mod_idemp_l. f_equal. cbn [length]. lia.
    + rewrite length_app. cbn [length]. lia.
    + intros j q Hj. rewrite mget_mset, Ht. apply lookup_app_Some in Hj as [Hj|[Hge Hj]].
      * pose proof (lookup_lt_Some _ _ _ Hj). rewrite decide_False; [by apply Hit|].
        intros Heq. apply (pos_inj SSA_BLK (free_h s)) in Heq; lia.
      * apply list_lookup_singleton_Some in Hj as [Hj ->]. rewrite decide_True; [done|].
        do 2 f_equal. lia.
  - cbn [app] in *. rewrite Permutation_app_comm. exact Hnd.
  - intros q Hq. apply Hf. by apply Hin.
  - intros q Hqo _. destruct (decide (q = p)) as [->|Hne].
    + destruct Hr as [Hr|Hr]; [right|by left]. change (ref_count s p = refs L p).
      by rewrite Hr, (proj2 (refs_zero L p) Hl).
    + apply Hct; [done|]. by intros ->%list_elem_of_singleton.
  - intros q Hqo Hqx. apply Hu; [done|]. intros ?. by apply Hqx, Hin.
Qed.

Lemma pop_core s L Q v :
  core s L [] (v :: Q) ->
  mget (free_q s) (free_h s) = v /\
  core (set_queue ((free_h s + 1) mod SSA_BLK) (free_t s) (free_q s) s) L [v] Q.
Proof.
  intros Hc. pose proof (ssa_blk_size SSA_BLK) as Hblk.
  destruct Hc as [? ? ? ? ? ? ? [Hh Ht Hln Hit] Hnd Hf Hct Hu ? ?]. cbn [length] in *. split.
  - specialize (Hit 0%nat v eq_refl). rewrite N.add_0_r, N.mod_small in Hit; done.
  - split; try done.
    + split; cbn.
      * apply N.mod_lt. lia.
      * rewrite N.Div0.add_mod_idemp_l, Ht. f_equal. lia.
      * lia.
      * intros j q Hj. rewrite N.Div0.add_mod_idemp_l. rewrite <- (Hit (S j) q Hj). do 2 f_equal. lia.
    + intros q Hqo _. apply Hct; [done|]. by intros ?%elem_of_nil.
Qed.

Lemma queue_slots s L X Q : core s L X Q -> empty_slots SSA_BLK s = SSA_BLK - 1 - N.of_nat (length Q).
Proof.
  intros Hc. destruct (c_queue _ _ _ _ _ Hc) as [Hh Ht Hl _]. unfold empty_slots. rewrite Ht.
  destruct (N.lt_ge_cases (free_h s + N.of_nat (length Q)) SSA_BLK) as [Hlt|Hge].
  - rewrite N.mod_small by done. rewrite (proj2 (N.leb_le _ _)) by lia. lia.
  - assert ((free_h s + N.of_nat (length Q)) mod SSA_BLK = free_h s + N.of_nat (length Q) - SSA_BLK) as ->.
    { symmetry. apply (N.mod_unique _ _ 1); lia. }
    rewrite (proj2 (N.leb_gt _ _)) by lia. lia.
Qed.

(** The queue is empty when its ends meet. *)
Lemma queue_empty s L X Q : core s L X Q -> free_t s = free_h s <-> Q = [].
Proof.
  intros Hc. destruct (c_queue _ _ _ _ _ Hc) as [Hh Ht Hl _]. rewrite Ht. split.
  - intros Heq. destruct Q as [|q Q]; [done|exfalso].
    rewrite <- (N.mod_small (free_h s) SSA_BLK) in Heq at 2 by done.
    rewrite <- (N.add_0_r (free_h s)) in Heq at 2. cbn [length] in *.
    apply (pos_inj SSA_BLK (free_h s)) in Heq; lia.
  - intros ->. cbn. by rewrite N.add_0_r, N.mod_small.
Qed.

(** ** The scan *)

(** The state in which the queue ends at [t]. *)
Definition at_t (t : N) s : ssa := set_queue (free_h s) t (free_q s) s.

Definition room_kept s s' : Prop := forall a, pt_room (pointers s) a -> pt_room (pointers s') a.

(** One object joins the end of the queue. *)
Lemma recycle_spec s L Q p t (unprotect : bool) :
  core (at_t t s) L [] Q -> p ∈ objects s -> p ∉ Q -> N.of_nat (length Q) + 1 < SSA_BLK ->
  ref_count s p = (if unprotect then 0 else all_ones) ->
  wp (_ ← modify (fun s => set_queue (free_h s) (free_t s) (mset (free_q s) t p) s);
      if unprotect then if negb (bdd s p =? 0) then mtbdd_unprotect (p + 8) else mret tt else mret tt)
    (fun _ s' => core (at_t ((t + 1) mod SSA_BLK) s') L [] (Q ++ [p]) /\ frame s s' L /\
       room_kept s s' /\ free_h s' = free_h s /\ memory s' = memory s /\
       ssa_blk_list s' = ssa_blk_list s) (fun _ _ => False) s.
Proof.
  intros Hc Hp Hq Hlen Hr. wp_step. wp_step. set (s1 := set_queue _ _ _ s). destruct unprotect.
  - destruct (c_count _ _ _ _ _ Hc p Hp) as [(Hr' & _)|Hr']; [by intros ?%elem_of_nil| |].
    { change (ref_count s p = all_ones) in Hr'. congruence. }
    change (ref_count s p = refs L p) in Hr'. rewrite Hr in Hr'. symmetry in Hr'. apply refs_zero in Hr'.
    assert (used (at_t t s) p) as Hu.
    { apply (c_used _ _ _ _ _ Hc); [done|done|]. change (ref_count s p <> all_ones). by rewrite Hr. }
    pose proof Hu as (_ & Hb & _). change (bdd s p <> 0) in Hb. rewrite (proj2 (N.eqb_neq _ _)) by done.
    cbn [negb]. pose proof (unprotect_spec (at_t t s) L [] Q p Hc Hp Hq Hr' Hu) as Hw.
    unfold wp, mtbdd_unprotect, on_pointers in *. cbn [pointers at_t set_queue s1] in *.
    destruct (pt_down (p + 8) (pointers s)) as [[] t'|x t'|]; [|done..].
    destruct Hw as (t0 & Heq & Hc' & Hf & Hroom). injection Heq as <-.
    split_and!; [|by destruct Hf|done..]. apply (push_core _ _ _ _ Hc'); [|done]. left. exact Hr.
  - wp_step. split_and!; [|by split|by intros a ?|done..].
    apply (push_core (at_t t s) L Q p); [apply fresh_core; done|right; exact Hr|done].
Qed.

(** What the scan of objects leaves: a longer queue, full if the scan has ended early. *)
Definition scanned s L Q s' t e Q' : Prop :=
  core (at_t t s') L [] Q' /\ frame s s' L /\ room_kept s s' /\ free_h s' = free_h s /\
  ssa_blk_list s' = ssa_blk_list s /\ e = SSA_BLK - 1 - N.of_nat (length Q').

Lemma gc_loop_spec ptrs t e s L Q :
  core (at_t t s) L [] Q -> NoDup ptrs -> (forall p, p ∈ ptrs -> p ∈ objects s /\ p ∉ Q) ->
  e = SSA_BLK - 1 - N.of_nat (length Q) -> 0 < e ->
  wp (gc_loop SSA_BLK ptrs t e)
    (fun r s' => let '(t', e', full) := r in exists Q', scanned s L Q s' t' e' Q' /\
       ((full : bool) = true -> e' = 0)) (fun _ _ => False) s.
Proof.
  pose proof (ssa_blk_size SSA_BLK) as Hblk.
  revert t e s Q. induction ptrs as [|p ptrs IH]; intros t e s Q Hc Hnd Hin He Hpos; cbn [gc_loop].
  { wp_step. exists Q. split; [|done]. unfold scanned. split_and!; [done|apply frame_refl|by intros a ?|done..]. }
  apply NoDup_cons in Hnd as [Hnp Hnd]. destruct (Hin p) as [Hp Hq]; [by left|].
  assert (forall p', p' ∈ ptrs -> p' ∈ objects s /\ p' ∉ Q ++ [p]) as Hin'.
  { intros p' Hp'. destruct (Hin p') as [Ho Hq']; [by right|]. split; [done|].
    intros [?|?%list_elem_of_singleton]%elem_of_app; [done|congruence]. }
  assert (forall u : bool, ref_count s p = (if u then 0 else all_ones) ->
    wp (_ ← modify (fun s => set_queue (free_h s) (free_t s) (mset (free_q s) t p) s);
        _ ← (if u then if negb (bdd s p =? 0) then mtbdd_unprotect (p + 8) else mret tt else mret tt);
        if sub64 e 1 =? 0 then mret ((t + 1) mod SSA_BLK, sub64 e 1, true)
        else gc_loop SSA_BLK ptrs ((t + 1) mod SSA_BLK) (sub64 e 1))
      (fun r s' => let '(t', e', full) := r in exists Q', scanned s L Q s' t' e' Q' /\
         ((full : bool) = true -> e' = 0)) (fun _ _ => False) s) as Hgo.
  { intros u Hu. apply wp_assoc. wp_step.
    eapply wp_mono; [apply (recycle_spec s L Q p t u); [done..|lia|done]|].
    intros [] s1 (Hc1 & Hf1 & Hr1 & Hh1 & Hm1 & Hb1). rewrite sub64_small by lia.
    assert (e - 1 = SSA_BLK - 1 - N.of_nat (length (Q ++ [p]))) as He1
      by (rewrite length_app; cbn [length]; lia).
    destruct (N.eqb_spec (e - 1) 0) as [Hz|Hz].
    - wp_step. exists (Q ++ [p]). split; [|done]. unfold scanned. by split_and!.
    - eapply wp_mono; [apply (IH _ _ s1 (Q ++ [p])); [done|done| |done|lia]|].
      + intros p' Hp'. unfold SsaGcFacts.objects. rewrite Hb1. by apply Hin'.
      + intros [[t' e'] full] s2 (Q' & (Hc2 & Hf2 & Hr2 & Hh2 & Hb2 & He2) & Hfull). exists Q'.
        split; [|done]. unfold scanned. split_and!; [done| | |congruence..].
        * by eapply frame_trans; [|done..].
        * intros a Ha. by apply Hr2, Hr1. }
  do 2 wp_step. cbn [id]. destruct (N.eqb_spec (ref_count s p) 0) as [Hr|Hr].
  { exact (Hgo true Hr). }
  destruct (N.eqb_spec (ref_count s p) all_ones) as [Hr'|Hr'].
  { exact (Hgo false Hr'). }
  apply IH; [done..| |done|done]. intros p' Hp'. apply Hin. by right.
Qed.

Lemma objects_nodup s L X Q : core s L X Q -> NoDup (objects s).
Proof.
  intros Hc. unfold SsaGcFacts.objects. rewrite (c_blocks _ _ _ _ _ Hc). generalize (length (ssa_blk_list s)).
  intros n. generalize 0. induction n as [|n IH]; intros k; [constructor|]. cbn [nseq map concat].
  apply NoDup_app. split; [apply (NoDup_block SSA_BLK)|]. split; [|apply IH].
  intros p Hp Hp'. apply (elem_of_block SSA_BLK) in Hp.
  rewrite map_map, <- flat_map_concat_map, list_elem_of_In, in_flat_map in Hp'.
  destruct Hp' as (k' & Hk' & Hp'). rewrite <- list_elem_of_In in Hk', Hp'.
  apply elem_of_nseq in Hk'. apply (elem_of_block SSA_BLK) in Hp'.
  pose proof (object_block SSA_BLK k k' p Hp Hp'). lia.
Qed.

(** ** New blocks *)

(** The objects of the block that [malloc] returns next are not objects yet. *)
Lemma new_object s L X Q p :
  core s L X Q -> object_of SSA_BLK (N.of_nat (length (ssa_blk_list s))) p ->
  object SSA_BLK p /\ p ∉ objects s /\ p ∉ L /\ ~ guarded s p /\
  (forall q, q ∈ objects s -> q <> p /\ q + 8 <> p /\ q <> p + 8 /\ q + 8 <> p + 8).
Proof.
  intros Hc Hp. assert (object SSA_BLK p) as Ho by by eexists.
  assert (p ∉ objects s) as Hn.
  { intros (k & Hk & Hp')%(elem_of_objects SSA_BLK s L X Q p Hc). pose proof (object_block SSA_BLK _ _ p Hp Hp'). lia. }
  assert (forall q, q ∈ objects s -> q <> p) as Hne by (intros q Hq ->; done).
  split_and!; [done..| | |].
  - intros Hl. apply Hn, (c_refs _ _ _ _ _ Hc p Hl), (object_pos SSA_BLK p Ho).
  - intros Hg. destruct (c_known _ _ _ _ _ Hc _ Hg) as [Heq|[(w & _ & Heq)|(q & Hq & Heq)]].
    + by apply (object_ne_var SSA_BLK p Ho).
    + by apply (object_ne_res SSA_BLK p w Ho).
    + apply (Hne q Hq). lia.
  - intros q Hq. pose proof (core_object SSA_BLK s L X Q q Hc Hq) as Hqo. specialize (Hne q Hq).
    split_and!; [done| | |lia].
    + apply not_eq_sym. by apply (object_ne_bdd SSA_BLK).
    + by apply (object_ne_bdd SSA_BLK).
Qed.

Lemma write_new s L X Q p v :
  core s L X Q -> object_of SSA_BLK (N.of_nat (length (ssa_blk_list s))) p ->
  (let s' := set_memory (mset (memory s) p v) s in core s' L X Q /\ frame s s' L) /\
  (let s' := set_memory (mset (memory s) (p + 8) v) s in core s' L X Q /\ frame s s' L).
Proof.
  intros Hc Hp. destruct (new_object s L X Q p Hc Hp) as (Ho & _ & _ & Hg & Hne).
  split; apply write_core; try done; try by apply (object_ne_var SSA_BLK p Ho).
  - intros Ha. exfalso. by apply (known_ne_count SSA_BLK s L X Q p p Hc Ha Ho).
  - intros q Hq _. by destruct (Hne q Hq) as (? & ? & _).
  - intros q Hq _. by destruct (Hne q Hq) as (_ & _ & ? & ?).
Qed.

(** Outcomes in which only memory has changed. *)
Definition memory_only s s' : Prop := exists mem, s' = set_memory mem s.

Lemma memset_spec s L X Q :
  core s L X Q -> let k := N.of_nat (length (ssa_blk_list s)) in
  wp (memset_block SSA_BLK (blk k))
    (fun _ s' => memory_only s s' /\ core s' L X Q /\ frame s s' L /\
       forall p, object_of SSA_BLK k p -> ref_count s' p = all_ones) (fun _ _ => False) s.
Proof.
  intros Hc k. unfold memset_block.
  apply (wp_for (fun i s' => memory_only s s' /\ core s' L X Q /\ frame s s' L /\
    forall j, j < i -> ref_count s' (blk k + 16 * j) = all_ones)).
  - split_and!; [by exists (memory s); destruct s|done|apply frame_refl|lia].
  - intros i s1 Hi ((mem & ->) & Hc1 & Hf1 & Hones). rewrite N2Nat.id in Hi.
    assert (object_of SSA_BLK k (blk k + 16 * i)) as Hp by (exists i; split; [lia|done]).
    unfold write. wp_step. wp_step.
    destruct (proj1 (write_new _ L X Q _ minus1_64 Hc1 Hp)) as [Hc2 Hf2].
    wp_step. destruct (proj2 (write_new _ L X Q _ minus1_64 Hc2 Hp)) as [Hc3 Hf3].
    split_and!; [by eexists|done| |].
    + eapply frame_trans; [|exact Hf1|eapply frame_trans; [|exact Hf2|exact Hf3]]; done.
    + intros j Hj. unfold ref_count. cbn. rewrite !mget_mset. case_decide as Hd1; [done|].
      case_decide as Hd2; [done|]. apply Hones. assert (j <> i) by (intros ->; done). lia.
  - intros s' (Hm & Hc' & Hf & Hones). split_and!; [done..|]. intros p (i & Hi & ->). apply Hones.
    rewrite N2Nat.id. lia.
Qed.

Lemma new_block_core s L Q :
  core s L [] Q -> let k := N.of_nat (length (ssa_blk_list s)) in
  (forall p, object_of SSA_BLK k p -> ref_count s p = all_ones) ->
  core (set_blocks (ssa_blk_list s ++ [blk k]) s) L [] Q.
Proof.
  intros Hc k Hones. set (s' := set_blocks _ s).
  assert (forall p, p ∈ objects s' <-> p ∈ objects s \/ object_of SSA_BLK k p) as Hin.
  { intros p. unfold SsaGcFacts.objects. cbn. rewrite map_app, concat_app, elem_of_app. cbn.
    by rewrite app_nil_r, (elem_of_block SSA_BLK). }
  assert (forall p, p ∈ objects s -> p ∈ objects s') as Hold by (intros p Hp; apply Hin; by left).
  split; try apply Hc; try done.
  - intros a Ha. destruct (c_known _ _ _ _ _ Hc a Ha) as [?|[?|(p & Hp & ->)]]; [by left|by right; left|].
    right. right. exists p. split; [by apply Hold|done].
  - change (ssa_blk_list s ++ [blk k] = map blk (nseq 0 (length (ssa_blk_list s ++ [blk k])))).
    rewrite length_app. cbn [length]. rewrite Nat.add_comm. cbn [Nat.add].
    rewrite nseq_snoc, map_app, <- (c_blocks _ _ _ _ _ Hc). done.
  - destruct (c_queue _ _ _ _ _ Hc). by split.
  - intros p Hp. destruct (c_free _ _ _ _ _ Hc p Hp) as (Ho & Hl & Hg). by split_and!; [apply Hold|..].
  - intros p [Hp|Hp]%Hin Hx; [by apply (c_count _ _ _ _ _ Hc)|]. left.
    destruct (new_object s L [] Q p Hc Hp) as (_ & _ & Hl & Hg & _). split_and!; [by apply Hones|done..].
  - intros p [Hp|Hp]%Hin Hx Hr; [by apply (c_used _ _ _ _ _ Hc)|]. by destruct Hr; apply Hones.
  - intros p Hp Hnz. apply Hold. by apply (c_refs _ _ _ _ _ Hc).
Qed.

Lemma add_ssa_blk_spec s L Q :
  core s L [] Q ->
  wp (add_ssa_blk SSA_BLK)
    (fun _ s' => exists Q', core s' L [] Q' /\ N.of_nat (length Q') = SSA_BLK - 1 /\ frame s s' L /\
       pointers s' = pointers s /\ free_h s' = free_h s) (fun _ _ => False) s.
Proof.
  intros Hc. unfold add_ssa_blk. do 2 wp_step. cbn [id]. set (k := N.of_nat (length (ssa_blk_list s))).
  rewrite (queue_slots s L [] Q Hc). pose proof (c_queue _ _ _ _ _ Hc) as Hq.
  pose proof (qi_length _ _ _ Hq) as HQ. wp_step.
  eapply wp_mono; [by apply memset_spec|]. intros [] s1 ((mem & Hs1) & Hc1 & Hf1 & Hones).
  wp_step. wp_step. assert (ssa_blk_list s1 = ssa_blk_list s) as Hb1 by by rewrite Hs1.
  pose proof (new_block_core s1 L Q Hc1) as Hc2. rewrite Hb1 in Hc2. specialize (Hc2 Hones).
  rewrite Hb1. set (s2 := set_blocks _ s1) in *.
  apply (wp_for (fun j s' => exists Q', core s' L [] Q' /\ length Q' = (length Q + N.to_nat j)%nat /\
    (forall p, p ∈ Q' -> p ∈ Q \/ exists i, i < j /\ p = blk k + 16 * i) /\ frame s s' L /\
    pointers s' = pointers s /\ free_h s' = free_h s /\ memory s' = memory s2 /\
    ssa_blk_list s' = ssa_blk_list s2)).
  - exists Q. split_and!; [done|lia|by left| |by unfold s2; rewrite Hs1..|done|done].
    destruct Hf1. by split.
  - intros j s' Hj (Q' & Hc' & Hl' & Hin & Hf' & Hp' & Hh' & Hm' & Hb'). wp_step.
    assert (object_of SSA_BLK k (blk k + 16 * j)) as Ho by (exists j; split; [lia|done]).
    assert (blk k + 16 * j ∈ objects s') as Hobj.
    { unfold SsaGcFacts.objects. rewrite Hb'. cbn. rewrite map_app, concat_app, elem_of_app. right.
      cbn. rewrite app_nil_r. by apply (elem_of_block SSA_BLK). }
    assert (blk k + 16 * j ∉ Q') as Hnq.
    { intros [Hq'|(i & Hi & Heq)]%Hin; [|lia].
      destruct (new_object s L [] Q _ Hc Ho) as (_ & Hno & _). apply Hno, (c_free _ _ _ _ _ Hc). done. }
    assert (ref_count s' (blk k + 16 * j) = all_ones) as Hr.
    { unfold ref_count. rewrite Hm'. by apply Hones. }
    exists (Q' ++ [blk k + 16 * j]). split_and!; [| | | |done..].
    + apply push_core; [by apply fresh_core|by right|lia].
    + rewrite length_app. cbn [length]. lia.
    + intros p [Hp|Hp%list_elem_of_singleton]%elem_of_app.
      * destruct (Hin p Hp) as [?|(i & Hi & ->)]; [by left|right]. exists i. split; [lia|done].
      * subst p. right. exists j. split; [lia|done].
    + destruct Hf'. by split.
  - intros s' (Q' & Hc' & Hl' & _ & Hf' & Hp' & Hh' & _). exists Q'. split_and!; [done|lia|done..].
Qed.

(** ** Collecting and taking *)

Lemma lock_core s L X Q l : core s L X Q -> core (set_lock l s) L X Q.
Proof.
  intros [? ? ? ? ? ? ? [? ? ? ?] ? ? ? ? ? ?]. split; done || by split.
Qed.

Lemma ssa_gc_spec s L :
  core s L [] [] ->
  wp (ssa_gc SSA_BLK)
    (fun _ s' => exists Q', core s' L [] Q' /\ Q' <> [] /\ gc_lock s' = 0 /\ ssa_tls s' = ssa_tls s /\
       n_workers s' = n_workers s /\ room_kept s s' /\ free_h s' = free_h s /\
       forall p, p ∈ L -> p <> 0 -> bdd s' p = bdd s p /\ forall o, tag_offs s' p o <-> tag_offs s p o)
    (fun _ _ => False) s.
Proof.
  intros Hc. pose proof (ssa_blk_size SSA_BLK) as Hblk. unfold ssa_gc. do 2 wp_step. cbn [id].
  rewrite (queue_slots s L [] [] Hc). wp_step. eapply wp_mono.
  - apply (gc_loop_spec _ (free_t s) _ s L []); [by destruct s|by apply (objects_nodup s L [] [])| |done|cbn; lia].
    intros p Hp. split; [done|by intros ?%elem_of_nil].
  - intros [[t e] full] s1 (Q1 & (Hc1 & Hf1 & Hr1 & Hh1 & Hb1 & He1) & Hfull). wp_step. wp_step.
    change (set_queue (free_h s1) t (free_q s1) s1) with (at_t t s1). wp_step.
    destruct (negb full && (SSA_BLK / 2 <? e)) eqn:Eb.
    + eapply wp_mono; [apply (add_ssa_blk_spec _ L Q1 Hc1)|]. intros [] s2 (Q2 & Hc2 & Hl2 & Hf2 & Hp2 & Hh2).
      wp_step. exists Q2. destruct Hf1 as [? ? ? Hg1], Hf2 as [? ? ? Hg2].
      split_and!; [by apply lock_core|by intros ->; cbn in Hl2; lia|done|cbn in *; congruence..| | |].
      * intros a Ha. cbn. rewrite Hp2. by apply Hr1.
      * cbn in *. congruence.
      * intros p Hp Hnz. destruct (Hg1 p Hp Hnz) as [Hb Ho], (Hg2 p Hp Hnz) as [Hb' Ho'].
        split; [by etrans|]. intros o. by rewrite <- Ho, <- (Ho' o).
    + wp_step. wp_step. exists Q1. destruct Hf1 as [? ? ? Hg1].
      split_and!; [by apply lock_core| |done..].
      intros ->. cbn in He1. apply andb_false_iff in Eb as [Eb|Eb].
      * destruct full; [|done]. specialize (Hfull eq_refl). lia.
      * apply N.ltb_ge in Eb. assert (SSA_BLK / 2 < SSA_BLK - 1); [|lia].
        apply N.Div0.div_lt_upper_bound. lia.
Qed.

Lemma take_victim_spec s L Q :
  core s L [] Q -> gc_lock s = 0 ->
  wp (take_victim SSA_BLK)
    (fun v s' => exists Q', core s' L [v] Q' /\ frame s s' L /\ room_kept s s') (fun _ _ => False) s.
Proof.
  intros Hc Hlock. pose proof (ssa_blk_size SSA_BLK) as Hblk. unfold take_victim. do 2 wp_step. cbn [id].
  assert (wp (wait_free SSA_BLK 2 (free_h s))
    (fun _ s' => exists v Q', core s' L [] (v :: Q') /\ frame s s' L /\ room_kept s s' /\
       free_h s' = free_h s) (fun _ _ => False) s) as Hw.
  { cbn [wait_free]. do 2 wp_step. cbn [id].
    destruct (N.eqb_spec (free_h s) (free_t s)) as [Heq|Hne].
    - assert (Q = []) as -> by (apply (queue_empty s L [] Q Hc); congruence).
      rewrite Hlock, N.eqb_refl. wp_step. wp_step. wp_step.
      eapply wp_mono; [apply (ssa_gc_spec (set_lock 1 s) L); by apply lock_core|].
      intros [] s' (Q' & Hc' & Hne & Hl' & Ht' & Hn' & Hr' & Hh' & Hg'). do 2 wp_step. cbn [id].
      rewrite (proj2 (N.eqb_neq _ _)).
      + wp_step. destruct Q' as [|v Q']; [done|]. exists v, Q'. split_and!; [done| |done..].
        split; [done..|by rewrite Hl', Hlock|done].
      + intros Heq'. apply Hne, (queue_empty s' L [] Q' Hc'). rewrite <- Heq'. done.
    - wp_step. destruct Q as [|v Q].
      + exfalso. apply Hne. symmetry. by apply (queue_empty s L [] [] Hc).
      + exists v, Q. split_and!; [done|apply frame_refl|by intros a ?|done]. }
  wp_step. eapply wp_mono; [exact Hw|]. intros [] s1 (v & Q' & Hc1 & Hf1 & Hr1 & Hh1).
  wp_step. wp_step. do 3 wp_step. cbn [id]. destruct (pop_core s1 L Q' v Hc1) as [Hv Hc2].
  rewrite <- Hh1. cbn. rewrite Hv. exists Q'. split_and!; [done| |done].
  destruct Hf1. by split.
Qed.

(** ** The queue leaves the package alone *)

Definition no_task {A} (p : prog ssa A) : Prop := forall s,
  match p s with Done _ s' | Exit _ s' => package s' = package s | NoFuel => True end.

Lemma no_task_bind {A B} (p : prog ssa A) (k : A -> prog ssa B) :
  no_task p -> (forall a, no_task (k a)) -> no_task (p ≫= k).
Proof.
  intros Hp Hk s. unfold mbind, prog_bind. specialize (Hp s). destruct (p s) as [a s'|x s'|]; [|done..].
  specialize (Hk a s'). by destruct (k a s'); rewrite <- ?Hp.
Qed.

Lemma no_task_for n first (body : N -> prog ssa unit) :
  (forall i, no_task (body i)) -> no_task (for_loop n first body).
Proof.
  intros Hb. revert first. induction n as [|n IH]; intros first; [by intros s|].
  cbn [for_loop]. by apply no_task_bind.
Qed.

Lemma no_task_pointers (p : prog P unit) : no_task (on_pointers p).
Proof. intros s. unfold on_pointers. by destruct (p (pointers s)). Qed.

Lemma no_task_add : no_task (add_ssa_blk SSA_BLK).
Proof.
  unfold add_ssa_blk, memset_block, write.
  repeat first [apply no_task_bind; [|intros ?]|apply no_task_for; intros ?|by intros ?].
Qed.

Lemma no_task_loop ptrs t e : no_task (gc_loop SSA_BLK ptrs t e).
Proof.
  revert t e. induction ptrs as [|p ptrs IH]; intros t e; cbn [gc_loop]; [by intros s|].
  repeat first [apply IH|apply no_task_pointers|apply no_task_bind; [|intros ?]|by intros ?|case_match].
Qed.

Lemma no_task_take : no_task (take_victim SSA_BLK).
Proof.
  unfold take_victim, wait_free, ssa_gc.
  repeat first [apply no_task_add|apply no_task_loop|apply no_task_bind; [|intros ?]|by intros ?|case_match].
Qed.

Lemma wp_no_task {A} (p : prog ssa A) R E s :
  no_task p -> wp p R E s -> wp p (fun a s' => R a s' /\ package s' = package s) E s.
Proof. intros Hp. specialize (Hp s). unfold wp. by destruct (p s). Qed.
End queue.
End SsaGcQueue.
