(* ===== verification/SsaGcOps.v ===== *)
(** The operations on counted tags: each hands out one reference and leaves the offsets of all
    other tags as they are, through the recycling of objects and the garbage collection of
    diagrams. *)

From S2P Require Import Prelude MtbddNode BddTree OpSpecs NodeStore MtbddCore MtbddCoreFacts.
From S2P Require Import BddApply BddApplyFacts BddQuantFacts BddSetsFacts SsaTask SsaTaskFacts.
From S2P Require Import ProtectStore SsaTagFacts SsaGc SsaGcFacts SsaGcQueue.

Module SsaGcOps.
Import MtbddNode BddTree OpSpecs NodeStore MtbddCore MtbddCoreFacts BddApply BddApplyFacts
  BddQuantFacts BddSetsFacts SsaTask SsaTaskFacts ProtectStore SsaTagFacts SsaGc SsaGcFacts SsaGcQueue.

Notation all_ones := 0xffffffffffffffff.
Notation vars := (nseq 0 TAG_WIDTH).

Section ops.
Context {T C P : Type} `{NodeTableLaws T} `{OpCacheLaws C} `{PointerTableLaws P} `{Layout}
  (SSA_BLK : N) `{!LayoutLaws SSA_BLK}.
Notation mgr := (mgr T C).
Notation ssa := (ssa T C P).
Implicit Types (m : mgr) (s : ssa) (L X Q : list N).
Notation core := (core SSA_BLK).
Notation objects := (objects SSA_BLK).

Lemma wp_write a v (R : unit -> ssa -> Prop) E s :
  R tt (set_memory (mset (memory s) a v) s) -> wp (write a v) R E s.
Proof. done. Qed.

(** ** The state between operations *)

(** The references in the caches of the threads. *)
Definition trio (e : ssa_tls_t) : list N := [cb_cache_l e; cb_cache_r e; cb_cache_v e].
Definition handles_of (tls : list ssa_tls_t) : list N := concat (map trio tls).
Notation handles s := (handles_of (ssa_tls s)).

(** What a thread remembers is a combination. *)
Definition cache_ok s (e : ssa_tls_t) : Prop :=
  cb_cache_l e = 0 \/
  (cb_cache_r e <> 0 /\ cb_cache_v e <> 0 /\
   forall o, tag_offs s (cb_cache_v e) o <-> tag_offs s (cb_cache_l e) o \/ tag_offs s (cb_cache_r e) o).

(** [held] are the references outside the caches. *)
Record inv s (held : list N) : Prop := {
  i_core : exists Q, core s (held ++ handles s) [] Q;
  i_lock : gc_lock s = 0;
  i_caches e : e ∈ ssa_tls s -> cache_ok s e
}.

(** Counts cannot overflow while [n] more references are made. *)
Definition few (n : N) s (held : list N) : Prop := N.of_nat (length (held ++ handles s)) + n < all_ones.

Definition kept s s' L : Prop := forall p, p ∈ L -> forall o, tag_offs s' p o <-> tag_offs s p o.

Lemma frame_kept s s' L : frame s s' L -> kept s s' L.
Proof.
  intros Hf p Hp o. destruct (decide (p = 0)) as [->|Hnz]; [unfold tag_offs; tauto|].
  by apply (f_tags _ _ _ Hf p Hp Hnz).
Qed.

Lemma kept_trans s1 s2 s3 L L' : (forall p, p ∈ L -> p ∈ L') -> kept s1 s2 L -> kept s2 s3 L' -> kept s1 s3 L.
Proof. intros Hsub H12 H23 p Hp o. rewrite (H23 p (Hsub p Hp)). by apply H12. Qed.

Lemma trio_handles e tls p : e ∈ tls -> p ∈ trio e -> p ∈ handles_of tls.
Proof.
  intros He Hp. unfold handles_of. rewrite list_elem_of_In, <- flat_map_concat_map, in_flat_map.
  exists e. by rewrite <- !list_elem_of_In.
Qed.

Lemma cache_kept s s' L e : kept s s' L -> (forall p, p ∈ trio e -> p ∈ L) -> cache_ok s e -> cache_ok s' e.
Proof.
  intros Hk Hsub [?|(Hr & Hv & Ho)]; [by left|right]. split_and!; [done..|]. intros o.
  assert (forall p, p ∈ trio e -> tag_offs s' p o <-> tag_offs s p o) as Hk' by (intros p Hp; by apply Hk, Hsub).
  rewrite (Hk' (cb_cache_v e)), (Hk' (cb_cache_l e)), (Hk' (cb_cache_r e)) by (unfold trio; set_solver).
  apply Ho.
Qed.

Lemma caches_kept s s' L :
  kept s s' (L ++ handles s) -> ssa_tls s' = ssa_tls s -> (forall e, e ∈ ssa_tls s -> cache_ok s e) ->
  forall e, e ∈ ssa_tls s' -> cache_ok s' e.
Proof.
  intros Hk -> Ho e He. apply (cache_kept s s' (L ++ handles s)); [done| |by apply Ho].
  intros p Hp. apply elem_of_app. right. by apply (trio_handles e).
Qed.

(** The references of one thread, and the others. *)
Definition others (tls : list ssa_tls_t) (i : nat) (rest : list N) : Prop :=
  forall j e, j <> i -> tls !! j = Some e -> forall p, p ∈ trio e -> p ∈ rest.

Lemma handles_split tls i e :
  tls !! i = Some e -> exists rest, handles_of tls ≡ₚ trio e ++ rest /\ others tls i rest /\
    forall e', handles_of (<[i := e']> tls) ≡ₚ trio e' ++ rest.
Proof.
  revert i. induction tls as [|e0 tls IH]; intros i Hi; [done|]. destruct i as [|i].
  - injection Hi as ->. exists (handles_of tls). split; [done|]. split; [|by intros e'].
    intros [|j] e' Hj He' p Hp; [done|]. apply (trio_handles e'); [|done]. by eapply list_elem_of_lookup_2.
  - destruct (IH i Hi) as (rest & H1' & Ho & H2'). exists (trio e0 ++ rest). unfold handles_of in *.
    split_and!.
    + cbn [map concat]. rewrite H1'. apply Permutation_app_swap_app.
    + intros [|j] e' Hj He' p Hp; apply elem_of_app; [left|right]; [by injection He' as <-|].
      apply (Ho j e'); [lia|done..].
    + intros e'. change (<[S i := e']> (e0 :: tls)) with (e0 :: <[i := e']> tls).
      cbn [map concat]. rewrite H2'. apply Permutation_app_swap_app.
Qed.

Lemma threads_core s L X Q tls : core s L X Q -> core (set_threads tls (n_workers s) s) L X Q.
Proof. intros [? ? ? ? ? ? ? [? ? ? ?] ? ? ? ? ? ?]. split; done || by split. Qed.

Lemma frame_step s1 s2 s3 L : frame s1 s2 L -> frame s2 s3 L -> frame s1 s3 L.
Proof. by apply frame_trans. Qed.

(** The state after an operation that has left the caches alone. *)
Lemma inv_intro s s' held held' Q :
  core s' (held' ++ handles s') [] Q -> frame s s' (held ++ handles s) -> gc_lock s = 0 ->
  (forall e, e ∈ ssa_tls s -> cache_ok s e) -> inv s' held'.
Proof.
  intros Hc Hf Hl Hok. split; [by exists Q|by rewrite (f_lock _ _ _ Hf)|].
  apply (caches_kept s s' held); [by apply frame_kept|apply Hf|done].
Qed.

(** ** The cache *)

Lemma cache_combine_spec s held Q tid e lhs rhs v :
  core s (held ++ handles s) [] Q -> ssa_tls s !! N.to_nat tid = Some e ->
  lhs ∈ held -> rhs ∈ held -> v ∈ held -> few 6 s held ->
  wp (cache_combine tid lhs rhs v)
    (fun _ s' => core s' (held ++ handles s') [] Q /\
       ssa_tls s' = <[N.to_nat tid := mk_tls lhs rhs v (t_worker e)]> (ssa_tls s) /\
       gc_lock s' = gc_lock s /\ n_workers s' = n_workers s /\
       exists rest, others (ssa_tls s) (N.to_nat tid) rest /\ kept s s' (held ++ rest))
    (fun _ _ => False) s.
Proof.
  intros Hc He Hl Hr Hv Hfew. destruct (handles_split _ _ _ He) as (rest & H1' & Hoth & H2').
  set (L := held ++ rest). unfold cache_combine, tls_at. do 3 wp_step. cbn [id]. rewrite He.
  do 2 wp_step.
  assert (N.of_nat (length L) + 9 < all_ones) as HL.
  { unfold few in Hfew. rewrite length_app, H1' in Hfew. unfold L. rewrite length_app.
    cbn [trio length app] in Hfew. lia. }
  assert (core s (cb_cache_l e :: cb_cache_r e :: cb_cache_v e :: L) [] Q) as Hc0.
  { refine (core_perm SSA_BLK s _ _ [] Q _ Hc). rewrite H1'. unfold L. cbn [trio app].
    by rewrite !(Permutation_app_comm held). }
  assert (forall p, p ∈ held -> p ∈ L) as Hsub by (intros p Hp; apply elem_of_app; by left).
  eapply wp_mono; [apply (assign_spec SSA_BLK s (cb_cache_r e :: cb_cache_v e :: L) [] Q); [exact Hc0|right|cbn [length]; lia]|].
  { do 3 right. by apply Hsub. }
  intros l s1 (-> & Hc1 & Hf1). wp_step.
  eapply wp_mono; [apply (assign_spec SSA_BLK s1 (cb_cache_v e :: lhs :: L) [] Q); [|right|cbn [length]; lia]|].
  { refine (core_perm SSA_BLK s1 _ _ [] Q _ Hc1). by rewrite (Permutation_swap lhs), (Permutation_swap lhs). }
  { do 3 right. by apply Hsub. }
  intros r s2 (-> & Hc2 & Hf2). wp_step.
  eapply wp_mono; [apply (assign_spec SSA_BLK s2 (rhs :: lhs :: L) [] Q); [|right|cbn [length]; lia]|].
  { refine (core_perm SSA_BLK s2 _ _ [] Q _ Hc2). by rewrite (Permutation_swap rhs). }
  { do 3 right. by apply Hsub. }
  intros w s3 (-> & Hc3 & Hf3). unfold set_tls. wp_step.
  assert (ssa_tls s3 = ssa_tls s) as Ht by (destruct Hf1, Hf2, Hf3; congruence).
  assert (kept s s3 L) as Hk.
  { intros p Hp o. rewrite (frame_kept _ _ _ Hf3 p ltac:(by do 3 right)).
    rewrite (frame_kept _ _ _ Hf2 p ltac:(by do 3 right)). apply (frame_kept _ _ _ Hf1 p). by do 3 right. }
  assert (handles_of (<[N.to_nat tid:=mk_tls lhs rhs v (t_worker e)]> (ssa_tls s3)) ≡ₚ [lhs; rhs; v] ++ rest) as Hh
    by (rewrite Ht; apply H2').
  split_and!.
  - apply threads_core. refine (core_perm SSA_BLK s3 _ _ [] Q _ Hc3). cbn [ssa_tls set_threads].
    rewrite Hh. unfold L. cbn [app]. solve_Permutation.
  - cbn. by rewrite Ht.
  - destruct Hf1, Hf2, Hf3. cbn. congruence.
  - destruct Hf1, Hf2, Hf3. cbn. congruence.
  - by exists rest.
Qed.

(** ** New objects *)

(** An object just taken becomes a tag with the offsets of [res]. *)
Lemma finish_victim {A} (k : prog ssa A) R E s L Q v res f w :
  core s L [v] Q -> ref_count s v = 1 -> N.of_nat (length L) + 1 < all_ones ->
  (forall a, pt_room (pointers s) a) -> res <> 0 -> offsets_den (st (package s)) res f ->
  (forall s', core s' (v :: L) [] Q -> frame s s' L -> (forall o, tag_offs s' v o <-> has f o) ->
     wp k R E s') ->
  wp (_ ← write (v + 8) res; _ ← mtbdd_protect (v + 8); _ ← write (at_res w) 0; k) R E s.
Proof.
  intros Hc Hr Hl Hroom Hres Hf Hk. assert (v ∈ [v]) as Hv by by left.
  destruct (elem_of_X SSA_BLK s L [v] Q v Hc Hv) as (_ & _ & _ & Hobj).
  destruct (proj2 (write_taken SSA_BLK s L [v] Q v res Hc Hv)) as [Hc1 Hf1].
  wp_step. apply wp_write. set (s1 := set_memory _ s) in *. wp_step.
  eapply wp_cons; [apply (protect_spec SSA_BLK s1 L [] Q v res f Hc1 Hl); [apply Hroom| | |done|done]| |by intros ? ? []].
  - unfold ref_count, s1. cbn. rewrite mget_mset_ne; [done|]. lia.
  - unfold bdd, s1. cbn. by rewrite mget_mset_eq.
  - intros [] s2 (Hc2 & Hf2 & Ho). wp_step. apply wp_write.
    destruct (write_res SSA_BLK s2 (v :: L) [] Q w 0 Hc2) as [Hc3 Hf3].
    { destruct (den_const (st (package s2)) false) as (t & Ht & _). by exists t. }
    apply Hk; [done| |].
    + eapply frame_trans; [|exact Hf1|eapply frame_trans; [|exact Hf2|exact Hf3]]; [done|].
      intros p Hp. by right.
    + intros o. rewrite <- Ho. apply (frame_kept _ _ _ Hf3). by left.
Qed.

Lemma has_not_false (sg : store) d f o : offsets_den sg d f -> has f o -> d <> 0.
Proof.
  intros [Hd _] [_ Ho] ->. by rewrite <- (den_functional sg 0 (fun _ => false) f (den_const sg false) Hd) in Ho.
Qed.

Lemma gc_alloc_spec s held offset tid :
  inv s held -> few 6 s held -> (forall a, pt_room (pointers s) a) ->
  (N.to_nat tid < length (ssa_tls s))%nat -> offset < 2 ^ 24 ->
  wp (ssa_tag_alloc SSA_BLK offset tid)
    (fun r s' => inv s' (r :: held) /\ ssa_tls s' = ssa_tls s /\ n_workers s' = n_workers s /\
       kept s s' held /\ forall o, tag_offs s' r o <-> o = offset)
    (fun x s' => full_only x (package s')) s.
Proof.
  intros [(Q & Hc) Hlock Hcaches] Hfew Hroom [e He]%lookup_lt_is_Some Hoff. unfold few in Hfew.
  set (L := held ++ handles s) in *. unfold ssa_tag_alloc, tls_at. do 3 wp_step. cbn [id]. rewrite He.
  do 2 wp_step. eapply wp_cons; [by apply (take_victim_spec SSA_BLK s L Q)| |by intros ? ? []].
  intros v s1 (Q1 & Hc1 & Hf1 & Hr1). wp_step. apply wp_write.
  assert (v ∈ [v]) as Hv by by left.
  destruct (proj1 (write_taken SSA_BLK s1 L [v] Q1 v 1 Hc1 Hv)) as [Hc2 Hf2]. set (s2 := set_memory _ s1) in *.
  do 3 wp_step. cbn [id]. eapply wp_mono.
  - apply (run_task_spec SSA_BLK e _ s2 L [v] Q1 (fun o => o = offset) Hc2).
    apply task_cube_spec; [apply Hc2| |done]. split; [apply Hc2|].
    apply (live_root_of s2 at_var_set). apply Hc2.
  - intros res s3 (Hc3 & Hf3 & Hp3 & Hrc & f & Hd & Ho).
    assert (has f offset) as Hhas by by apply Ho.
    apply (finish_victim _ _ _ s3 L Q1 v res f (t_worker e)); [done|by rewrite Hrc; [apply mget_mset_eq|]|lia| |..].
    + intros a. rewrite Hp3. by apply Hr1.
    + by apply (has_not_false (st (package s3)) res f offset).
    + done.
    + intros s4 Hc4 Hf4 Ho4. wp_step.
      assert (frame s s4 L) as Hf by (eapply frame_step; [exact Hf1|eapply frame_step; [exact Hf2|by eapply frame_step]]).
      split_and!; [|by destruct Hf..| |].
      * apply (inv_intro s s4 held (v :: held) Q1); [|done..]. cbn [app]. by rewrite (f_tls _ _ _ Hf).
      * intros p Hp. apply (frame_kept _ _ _ Hf). apply elem_of_app. by left.
      * intros o. rewrite Ho4. apply Ho.
Qed.

(** ** Combining *)

Lemma used_offs s p f o :
  p <> 0 -> offsets_den (st (package s)) (bdd s p) f -> tag_offs s p o <-> has f o.
Proof.
  intros Hnz Hf. unfold tag_offs. rewrite (diagram_offs_iff _ _ f o (proj1 Hf)). by split; [intros [_ ?]|].
Qed.

Lemma tag_eq_offs s a b :
  ssa_tag_eq s a b = true -> b <> 0 -> a <> 0 /\ forall o, tag_offs s a o <-> tag_offs s b o.
Proof.
  unfold ssa_tag_eq. intros Heq Hb. destruct (N.eqb_spec a b) as [->|Hne]; [done|].
  destruct (N.eqb_spec a 0) as [->|Ha]; [done|]. rewrite (proj2 (N.eqb_neq b 0)) in Heq by done.
  cbn [orb] in Heq. destruct (N.eqb_spec (bdd s a) (bdd s b)) as [Hbdd|]; [|done].
  split; [done|]. intros o. unfold tag_offs. rewrite Hbdd. tauto.
Qed.

(** What an operation promises of the tag it returns. *)
Definition returns s held (Pr : N -> Prop) (r : N) s' : Prop :=
  inv s' (r :: held) /\ length (ssa_tls s') = length (ssa_tls s) /\ n_workers s' = n_workers s /\
  kept s s' held /\ forall o, tag_offs s' r o <-> Pr o.

Lemma return_copy s held p (Pr : N -> Prop) :
  inv s held -> few 6 s held -> p = 0 \/ p ∈ held ++ handles s -> (forall o, tag_offs s p o <-> Pr o) ->
  wp (ssa_tag_copy p) (returns s held Pr) (fun _ _ => False) s.
Proof.
  intros [(Q & Hc) Hl Hok] Hfew Hp Ho. unfold few in Hfew. set (L := held ++ handles s) in *.
  eapply wp_mono; [apply (copy_spec SSA_BLK s L [] Q p); [done|done|lia]|].
  intros r s' (-> & Hc' & Hf). pose proof (frame_kept _ _ _ Hf) as Hk. unfold returns. split_and!.
  - apply (inv_intro s s' held (p :: held) Q); [|done..]. cbn [app]. by rewrite (f_tls _ _ _ Hf).
  - by rewrite (f_tls _ _ _ Hf).
  - apply Hf.
  - intros q Hq. apply Hk, elem_of_app. by left.
  - intros o. rewrite <- Ho. destruct Hp as [->|Hp]; [unfold tag_offs; tauto|by apply Hk].
Qed.

(** After the caches have changed. *)
Lemma cached_inv s s' held Q tid e lhs rhs v rest :
  core s' (held ++ handles s') [] Q -> gc_lock s' = 0 ->
  ssa_tls s' = <[N.to_nat tid := mk_tls lhs rhs v (t_worker e)]> (ssa_tls s) ->
  others (ssa_tls s) (N.to_nat tid) rest -> kept s s' (held ++ rest) ->
  ssa_tls s !! N.to_nat tid = Some e ->
  (forall e, e ∈ ssa_tls s -> cache_ok s e) -> cache_ok s' (mk_tls lhs rhs v (t_worker e)) ->
  inv s' held.
Proof.
  intros Hc Hl Ht Hoth Hk He Hok Hnew. split; [by exists Q|done|]. intros e'. rewrite Ht.
  intros [i Hi]%list_elem_of_lookup. destruct (decide (i = N.to_nat tid)) as [->|Hne].
  - rewrite list_lookup_insert_eq in Hi by by apply lookup_lt_Some in He. by injection Hi as <-.
  - rewrite list_lookup_insert_ne in Hi by done.
    apply (cache_kept s s' (held ++ rest)); [done| |apply Hok, list_elem_of_lookup; by exists i].
    intros p Hp. apply elem_of_app. right. by apply (Hoth i e').
Qed.

(** The end of a combination: the thread remembers it, and has one reference more. *)
Lemma remember_spec s held Q tid e lhs rhs v :
  core s (held ++ handles s) [] Q -> gc_lock s = 0 -> (forall e, e ∈ ssa_tls s -> cache_ok s e) ->
  ssa_tls s !! N.to_nat tid = Some e -> few 6 s held ->
  lhs ∈ held -> rhs ∈ held -> v ∈ held -> rhs <> 0 -> v <> 0 ->
  (forall o, tag_offs s v o <-> tag_offs s lhs o \/ tag_offs s rhs o) ->
  wp (cache_combine tid lhs rhs v)
    (fun _ s' => inv s' held /\ length (ssa_tls s') = length (ssa_tls s) /\
       n_workers s' = n_workers s /\ kept s s' held) (fun _ _ => False) s.
Proof.
  intros Hc Hl Hok He Hfew Hlhs Hrhs Hv Hnr Hnv Ho.
  eapply wp_mono; [by apply (cache_combine_spec s held Q tid e)|].
  intros [] s' (Hc' & Ht & Hl' & Hw & rest & Hoth & Hk).
  assert (forall p, p ∈ held -> forall o, tag_offs s' p o <-> tag_offs s p o) as Hk'
    by (intros p Hp; apply Hk, elem_of_app; by left).
  split_and!; [|by rewrite Ht, length_insert|done|exact Hk'].
  apply (cached_inv s s' held Q tid e lhs rhs v rest); try done; [congruence|]. right.
  split_and!; [done..|]. intros o. cbn. rewrite !Hk' by done. apply Ho.
Qed.

Lemma length_handles (tls tls' : list ssa_tls_t) :
  length tls = length tls' -> length (handles_of tls) = length (handles_of tls').
Proof.
  assert (forall l : list ssa_tls_t, length (handles_of l) = (3 * length l)%nat) as Hl.
  { intros l. unfold handles_of. induction l as [|e l IH]; [done|]. cbn [map concat]. rewrite length_app, IH.
    cbn [trio length]. lia. }
  intros Heq. by rewrite !Hl, Heq.
Qed.

Lemma few_same n n' s s' held :
  length (ssa_tls s') = length (ssa_tls s) -> n' <= n -> few n s held -> few n' s' held.
Proof.
  intros Hl Hn. unfold few. rewrite !length_app, (length_handles _ _ Hl). lia.
Qed.

Lemma returns_from s s' held Pr r s2 :
  length (ssa_tls s') = length (ssa_tls s) -> n_workers s' = n_workers s -> kept s s' held ->
  returns s' held Pr r s2 -> returns s held Pr r s2.
Proof.
  intros Hl Hw Hk (Hi & Hl' & Hw' & Hk' & Ho). unfold returns. split_and!; [done|congruence..| |done].
  by eapply kept_trans.
Qed.

(** One of the operands already is the combination. *)
Lemma return_operand s held Q tid e lhs rhs v (Pr : N -> Prop) :
  core s (held ++ handles s) [] Q -> gc_lock s = 0 -> (forall e, e ∈ ssa_tls s -> cache_ok s e) ->
  ssa_tls s !! N.to_nat tid = Some e -> few 8 s held ->
  lhs ∈ held -> rhs ∈ held -> v ∈ held -> rhs <> 0 -> v <> 0 ->
  (forall o, tag_offs s v o <-> tag_offs s lhs o \/ tag_offs s rhs o) ->
  (forall o, tag_offs s v o <-> Pr o) ->
  wp (_ ← cache_combine tid lhs rhs v; ssa_tag_copy v) (returns s held Pr) (fun _ _ => False) s.
Proof.
  intros Hc Hl Hok He Hfew Hlhs Hrhs Hv Hnr Hnv Ho HPr. wp_step.
  eapply wp_mono; [apply (remember_spec s held Q tid e); try done; by apply (few_same 8 6 s s)|].
  intros [] s1 (Hi1 & Hl1 & Hw1 & Hk1). eapply wp_mono.
  - apply (return_copy s1 held v Pr Hi1); [by apply (few_same 8 6 s)|right; apply elem_of_app; by left|].
    intros o. by rewrite (Hk1 v Hv).
  - intros r s2 Hr. by apply (returns_from s s1).
Qed.

(** A new object holds the combination. *)
Lemma return_victim s held Q tid e lhs rhs res f (Pr : N -> Prop) :
  core s (held ++ handles s) [] Q -> gc_lock s = 0 -> (forall e, e ∈ ssa_tls s -> cache_ok s e) ->
  ssa_tls s !! N.to_nat tid = Some e -> few 8 s held -> (forall a, pt_room (pointers s) a) ->
  lhs ∈ held -> rhs ∈ held -> rhs <> 0 -> res <> 0 -> offsets_den (st (package s)) res f ->
  (forall o, has f o <-> tag_offs s lhs o \/ tag_offs s rhs o) -> (forall o, has f o <-> Pr o) ->
  wp (victim ← take_victim SSA_BLK;
      _ ← write victim 1;
      _ ← write (victim + 8) res;
      _ ← mtbdd_protect (victim + 8);
      _ ← write (at_res (t_worker e)) 0;
      _ ← cache_combine tid lhs rhs victim;
      mret victim) (returns s held Pr) (fun _ _ => False) s.
Proof.
  intros Hc Hlock Hok He Hfew Hroom Hlhs Hrhs Hnr Hres Hd Ho HPr. set (L := held ++ handles s) in *.
  wp_step. eapply wp_mono; [apply wp_no_task; [apply no_task_take|by apply (take_victim_spec SSA_BLK s L Q)]|].
  intros v s1 [(Q1 & Hc1 & Hf1 & Hr1) Hpkg]. wp_step. apply wp_write. assert (v ∈ [v]) as Hv by by left.
  destruct (proj1 (write_taken SSA_BLK s1 L [v] Q1 v 1 Hc1 Hv)) as [Hc2 Hf2]. set (s2 := set_memory _ s1) in *.
  apply (finish_victim _ _ _ s2 L Q1 v res f (t_worker e)); 
    [done|apply mget_mset_eq|unfold few in Hfew; fold L in Hfew; lia|by intros a; apply Hr1|done|..].
  - change (package s2) with (package s1). by rewrite Hpkg.
  - intros s3 Hc3 Hf3 Ho3.
    assert (frame s s3 L) as Hf by (eapply frame_step; [exact Hf1|by eapply frame_step]).
    pose proof (frame_kept _ _ _ Hf) as Hk. pose proof (f_tls _ _ _ Hf) as Ht.
    assert (v <> 0) as Hnv by apply (object_pos SSA_BLK), (elem_of_X SSA_BLK s1 L [v] Q1 v Hc1 Hv).
    assert (forall p, p ∈ held -> forall o, tag_offs s3 p o <-> tag_offs s p o) as Hkh
      by (intros p Hp; apply Hk, elem_of_app; by left).
    wp_step. eapply wp_mono; [apply (remember_spec s3 (v :: held) Q1 tid e)|].
    + cbn [app]. by rewrite Ht.
    + by rewrite (f_lock _ _ _ Hf).
    + by apply (caches_kept s s3 held).
    + by rewrite Ht.
    + unfold few in *. rewrite Ht. cbn [app length]. fold L in Hfew |- *. lia.
    + by right.
    + by right.
    + by left.
    + done.
    + done.
    + intros o. by rewrite Ho3, Ho, !Hkh.
    + intros [] s4 (Hi4 & Hl4 & Hw4 & Hk4). wp_step. unfold returns. split_and!.
      * done.
      * by rewrite Hl4, Ht.
      * rewrite Hw4. apply Hf.
      * intros p Hp o. rewrite (Hk4 p) by by right. by apply Hkh.
      * intros o. rewrite (Hk4 v) by by left. by rewrite Ho3.
Qed.

Lemma gc_combine_spec s held lhs rhs tid :
  inv s held -> few 8 s held -> (forall a, pt_room (pointers s) a) ->
  (N.to_nat tid < length (ssa_tls s))%nat ->
  lhs = 0 \/ lhs ∈ held -> rhs = 0 \/ rhs ∈ held ->
  wp (ssa_tag_combine SSA_BLK lhs rhs tid)
    (returns s held (fun o => tag_offs s lhs o \/ tag_offs s rhs o))
    (fun x s' => full_only x (package s')) s.
Proof.
  intros Hi Hfew Hroom [e He]%lookup_lt_is_Some Hl Hr. pose proof Hi as [(Q & Hc) Hlock Hok].
  set (L := held ++ handles s) in *. set (Pr := fun o => tag_offs s lhs o \/ tag_offs s rhs o).
  assert (forall o, ~ tag_offs s 0 o) as Hnull by (intros o [? _]; done).
  assert (few 6 s held) as Hfew6 by by apply (few_same 8 6 s s).
  assert (forall p, p = 0 \/ p ∈ L -> (forall o, tag_offs s p o <-> Pr o) ->
    wp (ssa_tag_copy p) (returns s held Pr) (fun x s' => full_only x (package s')) s) as Hcopy.
  { intros p Hp Ho. eapply wp_cons; [by apply return_copy|done|by intros ? ? []]. }
  assert (forall p, p = 0 \/ p ∈ held -> p = 0 \/ p ∈ L) as HL.
  { intros p [?|?]; [by left|right]. apply elem_of_app. by left. }
  unfold ssa_tag_combine. do 2 wp_step. cbn [id]. destruct (N.eqb_spec lhs 0) as [->|Hnl].
  { apply Hcopy; [by apply HL|]. intros o. specialize (Hnull o). unfold Pr. tauto. }
  destruct (N.eqb_spec rhs 0) as [->|Hnr]; cbn [orb].
  { apply Hcopy; [by apply HL|]. intros o. specialize (Hnull o). unfold Pr. tauto. }
  destruct (ssa_tag_eq s lhs rhs) eqn:Eeq.
  { apply Hcopy; [by apply HL|]. intros o. destruct (tag_eq_offs s lhs rhs Eeq Hnr) as [_ Ho].
    unfold Pr. rewrite Ho. tauto. }
  destruct Hl as [?|Hl]; [done|]. destruct Hr as [?|Hr]; [done|].
  unfold tls_at. do 3 wp_step. cbn [id]. rewrite He. wp_step.
  destruct (ssa_tag_eq s (cb_cache_l e) lhs && ssa_tag_eq s (cb_cache_r e) rhs) eqn:Ec.
  { apply andb_true_iff in Ec as [El Er]. apply Hcopy.
    - right. apply elem_of_app. right. apply (trio_handles e); [by eapply list_elem_of_lookup_2|].
      unfold trio. set_solver.
    - intros o. destruct (tag_eq_offs s _ _ El Hnl) as [Hne Hol], (tag_eq_offs s _ _ Er Hnr) as [_ Hor].
      destruct (Hok e) as [?|(_ & _ & Ho)]; [by eapply list_elem_of_lookup_2|done|].
      unfold Pr. by rewrite Ho, Hol, Hor. }
  assert (lhs ∈ L /\ rhs ∈ L) as [HlL HrL] by (split; apply elem_of_app; by left).
  destruct (core_ref SSA_BLK s L [] Q lhs Hc HlL Hnl) as (_ & _ & _ & _ & Hgl & _ & fl & Hfl).
  destruct (core_ref SSA_BLK s L [] Q rhs Hc HrL Hnr) as (_ & _ & _ & _ & Hgr & _ & fr & Hfr).
  wp_step. eapply wp_mono.
  { apply (run_task_spec SSA_BLK e _ s L [] Q (fun o => has fl o \/ has fr o) Hc).
    apply task_combine_spec; [apply Hc|done|done|..]; by apply live_root_of. }
  intros res s1 (Hc1 & Hf1 & Hp1 & _ & f & Hd & Ho).
  pose proof (frame_kept _ _ _ Hf1) as Hk1. pose proof (f_tls _ _ _ Hf1) as Ht1.
  assert (forall o, has f o <-> Pr o) as HPr.
  { intros o. unfold Pr. by rewrite Ho, (used_offs s lhs fl o Hnl Hfl), (used_offs s rhs fr o Hnr Hfr). }
  assert (forall o, has f o <-> tag_offs s1 lhs o \/ tag_offs s1 rhs o) as HPr1.
  { intros o. by rewrite HPr, (Hk1 lhs HlL o), (Hk1 rhs HrL o). }
  assert (forall p, p ∈ L -> p <> 0 -> res = bdd s p -> forall o, tag_offs s1 p o <-> has f o) as Hres.
  { intros p Hp Hnp Heq o. apply used_offs; [done|]. by rewrite (proj1 (f_tags _ _ _ Hf1 p Hp Hnp)), <- Heq. }
  assert (core s1 (held ++ handles s1) [] Q) as Hc1' by by rewrite Ht1.
  assert (gc_lock s1 = 0) as Hlock1 by by rewrite (f_lock _ _ _ Hf1).
  pose proof (caches_kept s s1 held Hk1 Ht1 Hok) as Hok1.
  assert (ssa_tls s1 !! N.to_nat tid = Some e) as He1 by by rewrite Ht1.
  assert (few 8 s1 held) as Hfew1 by (apply (few_same 8 8 s); [by rewrite Ht1|lia|done]).
  assert (forall p : prog ssa N, wp p (returns s1 held Pr) (fun _ _ => False) s1 ->
    wp p (returns s held Pr) (fun x s' => full_only x (package s')) s1) as Hfrom.
  { intros p Hp. eapply wp_cons; [exact Hp| |by intros ? ? []]. intros r s2.
    apply returns_from; [by rewrite Ht1|apply Hf1|]. intros q Hq. apply Hk1, elem_of_app. by left. }
  destruct (N.eqb_spec res (bdd s lhs)) as [Hrl|Hrl]; [|destruct (N.eqb_spec res (bdd s rhs)) as [Hrr|Hrr]].
  - apply Hfrom, (return_operand s1 held Q tid e); try done; intros o;
      [rewrite <- HPr1|rewrite <- HPr]; by apply Hres.
  - apply Hfrom, (return_operand s1 held Q tid e); try done; intros o;
      [rewrite <- HPr1|rewrite <- HPr]; by apply Hres.
  - apply Hfrom, (return_victim s1 held Q tid e lhs rhs res f); try done.
    + intros a. by rewrite Hp1.
    + intros ->. destruct (core_ref SSA_BLK s L [] Q lhs Hc HlL Hnl) as (_ & _ & _ & _ & _ & Hb & _).
      apply Hb, (no_offsets (synced s) _ fl); [apply Hc|done|]. intros o Hfo.
      apply (has_not_false _ _ f o Hd); [|done]. apply Ho. by left.
Qed.
End ops.
End SsaGcOps.
