(* ===== verification/SsaGcStore.v ===== *)
(** What the counted tags of [SsaGc] promise to the shadow memory: a store of cells that hold
    tags behaves as a store of sets of offsets.  The commands are what the analysis routines do
    with the tags of memory and registers. *)

From S2P Require Import Prelude MtbddNode BddTree OpSpecs NodeStore MtbddCore MtbddCoreFacts.
From S2P Require Import BddApply BddApplyFacts BddSets BddSetsFacts SsaTask SsaTaskFacts SsaTagFacts.
From S2P Require Import ProtectStore SsaGc SsaGcFacts SsaGcQueue SsaGcOps.

Module SsaGcStore.
Import MtbddNode BddTree OpSpecs NodeStore MtbddCore MtbddCoreFacts BddApply BddApplyFacts
  BddSets BddSetsFacts SsaTask SsaTaskFacts SsaTagFacts ProtectStore SsaGc SsaGcFacts SsaGcQueue SsaGcOps.

Notation all_ones := 0xffffffffffffffff.

Inductive cmd :=
| Alloc (k : nat) (offset tid : N)       (* cell = tag_alloc(offset), as a source does *)
| Combine (k k1 k2 : nat) (tid : N)      (* cell = tag_combine(cell1, cell2) *)
| Copy (k k1 : nat)                      (* cell = cell1 *)
| Clear (k : nat).                       (* cell = cleared_val *)

(** ** The specification *)

Notation offsets := (N -> Prop).
Definition empty : offsets := fun _ => False.
Definition at_cell (sets : list offsets) (k : nat) : offsets := default empty (sets !! k).

Definition spec_cmd (c : cmd) (sets : list offsets) : list offsets :=
  match c with
  | Alloc k offset _ => <[k := fun o => o = offset]> sets
  | Combine k k1 k2 _ => <[k := fun o => at_cell sets k1 o \/ at_cell sets k2 o]> sets
  | Copy k k1 => <[k := at_cell sets k1]> sets
  | Clear k => <[k := empty]> sets
  end.

Section store.
Context {T C P : Type} `{NodeTable T} `{OpCache C} `{PointerTable P} `{Layout} (SSA_BLK : N).
Notation ssa := (ssa T C P).

(** ** The implementation *)

Definition cell (cells : list N) (k : nat) : N := default 0 (cells !! k).

Definition do_cmd (c : cmd) (cells : list N) : prog ssa (list N) :=
  match c with
  | Alloc k offset tid =>
      r ← ssa_tag_alloc SSA_BLK offset tid;
      c ← ssa_tag_move_assign (cell cells k) r;
      mret (<[k := c]> cells)
  | Combine k k1 k2 tid =>
      r ← ssa_tag_combine SSA_BLK (cell cells k1) (cell cells k2) tid;
      c ← ssa_tag_move_assign (cell cells k) r;
      mret (<[k := c]> cells)
  | Copy k k1 =>
      c ← ssa_tag_assign (cell cells k) (cell cells k1);
      mret (<[k := c]> cells)
  | Clear k =>
      c ← ssa_tag_assign (cell cells k) 0;
      mret (<[k := c]> cells)
  end.

(** Cells exist, offsets have 24 bits, and the thread has its entry. *)
Definition cmd_ok (n threads : nat) (c : cmd) : Prop :=
  match c with
  | Alloc k offset tid => (k < n)%nat /\ offset < 2 ^ 24 /\ (N.to_nat tid < threads)%nat
  | Combine k k1 k2 tid => (k < n)%nat /\ (k1 < n)%nat /\ (k2 < n)%nat /\ (N.to_nat tid < threads)%nat
  | Copy k k1 => (k < n)%nat /\ (k1 < n)%nat
  | Clear k => (k < n)%nat
  end.
End store.

Lemma replace_perm (l : list N) k x y :
  l !! k = Some x -> exists rest, l ≡ₚ x :: rest /\ <[k := y]> l ≡ₚ y :: rest.
Proof.
  revert k. induction l as [|z l IH]; intros [|k] Hk; try done.
  - injection Hk as ->. by exists l.
  - destruct (IH k Hk) as (rest & H1 & H2). exists (z :: rest). change (<[S k:=y]> (z :: l)) with (z :: <[k:=y]> l).
    split; (etrans; [by apply perm_skip|apply Permutation_swap]).
Qed.

Section facts.
Context {T C P : Type} `{NodeTableLaws T} `{OpCacheLaws C} `{PointerTableLaws P} `{Layout}
  (SSA_BLK : N) `{!LayoutLaws SSA_BLK}.
Notation mgr := (mgr T C).
Notation ssa := (ssa T C P).
Implicit Types (s : ssa) (cells : list N) (sets : list offsets).
Notation core := (core SSA_BLK).
Notation inv := (inv SSA_BLK).
Notation handles s := (handles_of (ssa_tls s)).

(** The cells hold tags with the offsets of the specification. *)
Definition agree s cells sets : Prop := Forall2 (fun p S => forall o, tag_offs s p o <-> (S : offsets) o) cells sets.

Lemma agree_cell s cells sets k o : agree s cells sets -> tag_offs s (cell cells k) o <-> at_cell sets k o.
Proof.
  intros Ha. unfold cell, at_cell. destruct (cells !! k) as [p|] eqn:Ep.
  - destruct (Forall2_lookup_l _ _ _ _ _ Ha Ep) as (S & -> & HS). apply HS.
  - rewrite (Forall2_lookup_l_None _ _ _ _ Ha Ep) || (apply lookup_ge_None in Ep;
      rewrite (proj2 (lookup_ge_None sets k)) by (by rewrite <- (Forall2_length _ _ _ Ha))).
    cbn. unfold empty. split; [by intros [? _]|done].
Qed.

Lemma agree_kept s s' cells sets : kept s s' cells -> agree s cells sets -> agree s' cells sets.
Proof.
  intros Hk Ha. revert Hk. unfold agree in *. induction Ha as [|p S cells sets HS Ha IH]; intros Hk; constructor.
  - intros o. rewrite (Hk p) by by left. apply HS.
  - apply IH. intros q Hq. apply Hk. by right.
Qed.

Lemma agree_set s cells sets k p S :
  agree s cells sets -> (forall o, tag_offs s p o <-> S o) -> agree s (<[k := p]> cells) (<[k := S]> sets).
Proof. intros Ha HS. by apply Forall2_insert. Qed.

(** ** Storing a tag *)

(** The tag [r] replaces that of the cell [k]. *)
Definition stored s cells k s' (r c : N) : Prop :=
  c = r /\ inv s' (<[k := r]> cells) /\ length (ssa_tls s') = length (ssa_tls s) /\
  n_workers s' = n_workers s /\ kept s s' (<[k := r]> cells).

Lemma cell_lookup cells k : (k < length cells)%nat -> cells !! k = Some (cell cells k).
Proof. intros [p Hp]%lookup_lt_is_Some. unfold cell. by rewrite Hp. Qed.

Lemma store_core s cells k this r s' Q :
  inv s cells \/ inv s (r :: cells) -> cells !! k = Some this ->
  core s' (<[k := r]> cells ++ handles s) [] Q -> frame s s' (<[k := r]> cells ++ handles s) ->
  stored s cells k s' r r.
Proof.
  intros Hi Hk Hc Hf. pose proof (frame_kept _ _ _ Hf) as Hkept.
  assert (gc_lock s = 0 /\ forall e, e ∈ ssa_tls s -> cache_ok s e) as [Hl Hok] by (by destruct Hi as [[]|[]]).
  unfold stored. split_and!; [done| | | |].
  - apply (inv_intro SSA_BLK s s' (<[k := r]> cells) _ Q); [|done..]. by rewrite (f_tls _ _ _ Hf).
  - by rewrite (f_tls _ _ _ Hf).
  - apply Hf.
  - intros p Hp. apply Hkept, elem_of_app. by left.
Qed.

Lemma stored_intro s cells k this r s' rest Q :
  inv s cells \/ inv s (r :: cells) -> cells !! k = Some this -> <[k := r]> cells ≡ₚ r :: rest ->
  core s' (r :: rest ++ handles s) [] Q -> frame s s' (r :: rest ++ handles s) ->
  stored s cells k s' r r.
Proof.
  intros Hi Hk Hr Hc Hf.
  assert (r :: rest ++ handles s ≡ₚ <[k:=r]> cells ++ handles s) as Hp by by rewrite Hr.
  apply (store_core s cells k this r s' Q); [done..|by apply (core_perm SSA_BLK s' _ _ [] Q Hp)|].
  split; try apply Hf. intros p Hin. apply (f_tags _ _ _ Hf). by rewrite Hp.
Qed.

Lemma move_cell s cells k this r :
  inv s (r :: cells) -> cells !! k = Some this ->
  wp (ssa_tag_move_assign this r) (fun c s' => stored s cells k s' r c) (fun _ _ => False) s.
Proof.
  intros Hi Hk. pose proof Hi as [(Q & Hc) _ _].
  destruct (replace_perm _ _ _ r Hk) as (rest & Hr1 & Hr2).
  eapply wp_mono; [apply (move_assign_spec SSA_BLK s (rest ++ handles s) [] Q)|].
  - refine (core_perm SSA_BLK s _ _ [] Q _ Hc). cbn [app]. rewrite Hr1. cbn [app]. apply Permutation_swap.
  - intros c s' (-> & Hc' & Hf). apply (stored_intro s cells k this r s' rest Q); try done. by right.
Qed.

Lemma assign_cell s cells k this rhs :
  inv s cells -> few 8 s cells -> cells !! k = Some this -> rhs = 0 \/ rhs ∈ cells ->
  wp (ssa_tag_assign this rhs) (fun c s' => stored s cells k s' rhs c) (fun _ _ => False) s.
Proof.
  intros Hi Hfew Hk Hrhs. pose proof Hi as [(Q & Hc) _ _].
  destruct (replace_perm _ _ _ rhs Hk) as (rest & Hr1 & Hr2).
  assert (cells ++ handles s ≡ₚ this :: rest ++ handles s) as Hp1 by by rewrite Hr1.
  unfold few in Hfew. rewrite Hp1 in Hfew. cbn [length] in Hfew.
  eapply wp_mono; [apply (assign_spec SSA_BLK s (rest ++ handles s) [] Q)|].
  - by apply (core_perm SSA_BLK s _ _ [] Q Hp1).
  - destruct Hrhs as [?|Hin]; [by left|right]. rewrite <- Hp1. apply elem_of_app. by left.
  - lia.
  - intros c s' (-> & Hc' & Hf). apply (stored_intro s cells k this rhs s' rest Q); try done. by left.
Qed.

(** ** One command *)

Lemma cell_in cells k : (k < length cells)%nat -> cell cells k ∈ cells.
Proof. intros Hk%cell_lookup. by eapply list_elem_of_lookup_2. Qed.

(** What a command leaves: the cells agree with the specification, and nothing else is held. *)
Definition refines s cells sets s' cells' : Prop :=
  inv s' cells' /\ agree s' cells' sets /\ length cells' = length cells /\
  length (ssa_tls s') = length (ssa_tls s) /\ n_workers s' = n_workers s.

Lemma stored_refines s0 s cells sets k r c s' (S : offsets) :
  stored s cells k s' r c -> kept s0 s cells -> agree s0 cells sets ->
  (forall o, tag_offs s r o <-> S o) -> length (ssa_tls s) = length (ssa_tls s0) ->
  n_workers s = n_workers s0 -> refines s0 cells (<[k := S]> sets) s' (<[k := c]> cells).
Proof.
  intros (-> & Hi & Hl & Hw & Hk) Hk0 Ha HS Hl0 Hw0. unfold refines. split_and!.
  - done.
  - apply (agree_kept s); [done|]. apply agree_set; [|done]. by apply (agree_kept s0).
  - by rewrite length_insert.
  - congruence.
  - congruence.
Qed.

Lemma do_cmd_spec s cells sets c :
  inv s cells -> agree s cells sets -> few 8 s cells -> (forall a, pt_room (pointers s) a) ->
  cmd_ok (length cells) (length (ssa_tls s)) c ->
  wp (do_cmd SSA_BLK c cells) (fun cells' s' => refines s cells (spec_cmd c sets) s' cells')
    (fun x s' => full_only x (package s')) s.
Proof.
  intros Hi Ha Hfew Hroom Hok.
  assert (few 6 s cells) as Hfew6 by by apply (few_same 8 6 s s).
  assert (kept s s cells) as Hrefl by by intros p _ o.
  destruct c as [k offset tid|k k1 k2 tid|k k1|k]; cbn [do_cmd spec_cmd cmd_ok] in *.
  - destruct Hok as (Hk & Hoff & Htid). pose proof (cell_lookup cells k Hk) as Hck. wp_step.
    eapply wp_mono; [by apply (gc_alloc_spec SSA_BLK s cells offset tid)|].
    intros r s1 (Hi1 & Ht1 & Hw1 & Hk1 & Ho1). wp_step.
    eapply wp_cons; [apply (move_cell s1 cells k (cell cells k) r Hi1 Hck)| |by intros ? ? []].
    intros d s2 Hs. wp_step. apply (stored_refines s s1 cells sets k r d s2); try done. by rewrite Ht1.
  - destruct Hok as (Hk & Hk1 & Hk2 & Htid). pose proof (cell_lookup cells k Hk) as Hck. wp_step.
    eapply wp_mono; [apply (gc_combine_spec SSA_BLK s cells (cell cells k1) (cell cells k2) tid); try done;
      right; by apply cell_in|].
    intros r s1 (Hi1 & Ht1 & Hw1 & Hkept & Ho1). wp_step.
    eapply wp_cons; [apply (move_cell s1 cells k (cell cells k) r Hi1 Hck)| |by intros ? ? []].
    intros d s2 Hs. wp_step. apply (stored_refines s s1 cells sets k r d s2); try done.
    intros o. rewrite Ho1. by rewrite (agree_cell s cells sets k1 o Ha), (agree_cell s cells sets k2 o Ha).
  - destruct Hok as (Hk & Hk1). pose proof (cell_lookup cells k Hk) as Hck. wp_step.
    eapply wp_cons; [apply (assign_cell s cells k (cell cells k) (cell cells k1) Hi Hfew Hck);
      right; by apply cell_in| |by intros ? ? []].
    intros d s2 Hs. wp_step. apply (stored_refines s s cells sets k _ d s2 _ Hs); try done.
    intros o. by apply agree_cell.
  - pose proof (cell_lookup cells k Hok) as Hck. wp_step.
    eapply wp_cons; [apply (assign_cell s cells k (cell cells k) 0 Hi Hfew Hck); by left| |by intros ? ? []].
    intros d s2 Hs. wp_step. apply (stored_refines s s cells sets k _ d s2 _ Hs); try done.
    intros o. unfold empty, tag_offs. split; [by intros [? _]|done].
Qed.

(** ** Runs *)

(** Commands that return, each with room: the table of protected pointers need not grow, and no
    count overflows. *)
Inductive run : list cmd -> ssa -> list N -> ssa -> list N -> Prop :=
| run_nil s cells : run [] s cells s cells
| run_cons c cs s cells s1 cells1 s2 cells2 :
    few 8 s cells -> (forall a, pt_room (pointers s) a) ->
    cmd_ok (length cells) (length (ssa_tls s)) c ->
    do_cmd SSA_BLK c cells s = Done cells1 s1 ->
    run cs s1 cells1 s2 cells2 -> run (c :: cs) s cells s2 cells2.

Definition spec_run (cs : list cmd) (sets : list offsets) : list offsets :=
  fold_left (fun sets c => spec_cmd c sets) cs sets.

Lemma run_refines cs s cells s' cells' :
  run cs s cells s' cells' -> forall sets, inv s cells -> agree s cells sets ->
  inv s' cells' /\ agree s' cells' (spec_run cs sets) /\ length cells' = length cells /\
  length (ssa_tls s') = length (ssa_tls s).
Proof.
  induction 1 as [s cells|c cs s cells s1 cells1 s2 cells2 Hfew Hroom Hok Hdo Hrun IH]; intros sets Hi Ha;
    [done|].
  pose proof (do_cmd_spec s cells sets c Hi Ha Hfew Hroom Hok) as Hw. unfold wp in Hw. rewrite Hdo in Hw.
  destruct Hw as (Hi1 & Ha1 & Hl1 & Ht1 & _). destruct (IH _ Hi1 Ha1) as (Hi2 & Ha2 & Hl2 & Ht2).
  split_and!; [done..|congruence|congruence].
Qed.

(** Between commands, an object's count is the number of references to it, unless it has not been
    used yet. *)
Lemma inv_count s held p :
  inv s held -> p ∈ SsaGcFacts.objects SSA_BLK s ->
  ref_count s p = refs (held ++ handles s) p \/ ref_count s p = all_ones /\ p ∉ held ++ handles s.
Proof.
  intros [(Q & Hc) _ _] Hp. destruct (c_count _ _ _ _ _ Hc p Hp) as [(? & ? & _)|?]; [by intros ?%elem_of_nil|..].
  - by right.
  - by left.
Qed.

Lemma inv_ref s held p :
  inv s held -> p ∈ held -> p <> 0 ->
  p ∈ SsaGcFacts.objects SSA_BLK s /\ ref_count s p = refs (held ++ handles s) p /\ used s p.
Proof.
  intros [(Q & Hc) _ _] Hp Hnz.
  destruct (core_ref SSA_BLK s _ [] Q p Hc) as (? & _ & ? & _ & ?); [apply elem_of_app; by left|done|done].
Qed.
End facts.
End SsaGcStore.
