(* ===== verification/SsaGcStart.v ===== *)
(** Start and end of the counted tags: the first block, and the threads. *)

From S2P Require Import Prelude MtbddNode BddTree OpSpecs NodeStore MtbddCore MtbddCoreFacts.
From S2P Require Import BddApply BddApplyFacts BddSets BddSetsFacts SsaTask SsaTaskFacts SsaTagFacts.
From S2P Require Import ProtectStore SsaGc SsaGcFacts SsaGcQueue SsaGcOps.

Module SsaGcStart.
Import MtbddNode BddTree OpSpecs NodeStore MtbddCore MtbddCoreFacts BddApply BddApplyFacts
  BddSets BddSetsFacts SsaTask SsaTaskFacts SsaTagFacts ProtectStore SsaGc SsaGcFacts SsaGcQueue SsaGcOps.

Notation all_ones := 0xffffffffffffffff.
Notation vars := (nseq 0 TAG_WIDTH).

Section start.
Context {T C P : Type} `{NodeTableLaws T} `{OpCacheLaws C} `{PointerTableLaws P} `{Layout}
  (SSA_BLK : N) `{!LayoutLaws SSA_BLK}.
Notation mgr := (mgr T C).
Notation ssa := (ssa T C P).
Implicit Types (m : mgr) (s : ssa) (L X Q : list N).
Notation core := (core SSA_BLK).
Notation inv := (inv SSA_BLK).
Notation handles s := (handles_of (ssa_tls s)).

Lemma wp_pointers (p : prog P unit) R s :
  wp p R (fun _ _ => False) (pointers s) ->
  wp (on_pointers p) (fun _ s' => exists t, s' = set_pointers t s /\ R tt t) (fun _ _ => False) s.
Proof.
  unfold wp, on_pointers. destruct (p (pointers s)) as [[] t|x t|]; [|done..]. intros Hr. by exists t.
Qed.

(** ** The first block *)

Lemma handles_none threads p : p ∈ handles_of (replicate threads (mk_tls 0 0 0 0)) -> p = 0.
Proof.
  unfold handles_of. rewrite list_elem_of_In, <- flat_map_concat_map, in_flat_map. setoid_rewrite <- list_elem_of_In.
  intros (e & [-> _]%elem_of_replicate & Hp). unfold trio in Hp. cbn in Hp. set_solver.
Qed.

(** Without objects: only the set of variables is protected. *)
Lemma empty_core s m :
  mgr_inv m -> package s = m -> denotes (st m) 0 (var_set s) (set_tree vars) ->
  pt_inv (pointers s) -> pt_list (pointers s) = [at_var_set] -> ssa_blk_list s = [] ->
  free_h s = 0 -> free_t s = 0 -> (forall p, p ∈ handles s -> p = 0) ->
  N.of_nat (length (handles s)) < all_ones -> core s (handles s) [] [].
Proof.
  intros Hi Hm Hd Hp Hl Hb Hh Ht Hz Hfew. pose proof (ssa_blk_size SSA_BLK) as Hblk.
  assert (forall p, p ∉ SsaGcFacts.objects SSA_BLK s) as Hno.
  { intros p. unfold SsaGcFacts.objects. rewrite Hb. apply not_elem_of_nil. }
  split; try done.
  - unfold synced, protected_values. rewrite Hl, Hm. apply (set_protected_inv m (mtbdd_protected m)).
    + by destruct m.
    + constructor; [by eexists|constructor].
  - by rewrite Hm.
  - rewrite Hl. by left.
  - rewrite Hl. apply NoDup_singleton.
  - intros a. rewrite Hl. intros ->%list_elem_of_singleton. by left.
  - by rewrite Hb.
  - split; cbn [length]; [lia| |lia|done]. rewrite Hh, Ht. cbn. by rewrite N.mod_0_l by lia.
  - constructor.
  - by intros p ?%elem_of_nil.
  - intros p []%Hno.
  - intros p []%Hno.
  - intros p Hin Hnz. by apply Hz in Hin.
Qed.

Lemma gc_init_spec threads m pts :
  mgr_inv m -> pt_inv pts -> pt_list pts = [] -> pt_room pts at_var_set ->
  3 * N.of_nat threads < all_ones ->
  wp (ssa_init SSA_BLK)
    (fun _ s => inv s [] /\ ssa_tls s = replicate threads (mk_tls 0 0 0 0) /\ n_workers s = 0)
    (fun x s => full_only x (package s)) (ssa_before threads m pts).
Proof.
  intros Hi Hp Hl Hroom Hthreads. unfold ssa_init. wp_step.
  pose proof (pt_up_spec pts at_var_set Hp (address_in_use SSA_BLK VarSet I) Hroom) as Hw.
  set (s0 := ssa_before threads m pts).
  apply (wp_mono _ (fun _ s => exists t, s = set_pointers t s0 /\ pt_inv t /\ pt_list t = [at_var_set])).
  { unfold wp, mtbdd_protect, on_pointers in *. change (pointers s0) with pts.
    destruct (pt_up at_var_set pts) as [[] t|x t|]; [|done..]. destruct Hw as [Ht Hlt].
    exists t. split_and!; [done..|]. rewrite Hl in Hlt. by apply Permutation_singleton_r in Hlt. }
  intros [] s1 (t & -> & Ht & Hlt). wp_step.
  assert (mgr_inv (synced (set_pointers t s0))) as Hi1.
  { unfold synced, protected_values. cbn [pointers set_pointers]. rewrite Hlt.
    apply (set_protected_inv m (mtbdd_protected m)); [by destruct m|]. constructor; [|constructor].
    destruct (den_const (st m) false) as (t0 & Ht0 & _). by exists t0. }
  pose proof (make_var_set_spec _ Hi1) as Hv.
  apply (wp_mono _ (fun vs s => exists m1, s = set_package m1 (set_pointers t s0) /\ mgr_inv m1 /\
    denotes (st m1) 0 vs (set_tree vars))).
  { unfold wp, on_package in *. fold (synced (set_pointers t s0)).
    destruct (make_var_set (synced (set_pointers t s0))) as [vs m1|x m1|]; [|done..].
    destruct Hv as (Hm1 & _ & Hd). by exists m1. }
  intros vs s2 (m1 & -> & Hm1 & Hd). wp_step. apply wp_write. set (s3 := set_memory _ _).
  assert (var_set s3 = vs) as Hvs by (unfold var_set, s3; cbn; by rewrite mget_mset_eq).
  assert (core s3 (handles s3) [] []) as Hc.
  { apply (empty_core s3 m1); try done; [by rewrite Hvs|by apply handles_none|].
    rewrite (length_handles _ (replicate threads (mk_tls 0 0 0 0))) by done. unfold handles_of.
    assert (forall n, length (concat (map trio (replicate n (mk_tls 0 0 0 0)))) = 3 * n)%nat as ->; [|lia].
    intros n. induction n as [|n IH]; [done|]. cbn [replicate map concat]. rewrite length_app, IH. cbn. lia. }
  eapply wp_cons; [apply (add_ssa_blk_spec SSA_BLK s3 (handles s3) [] Hc)| |by intros ? ? []].
  intros [] s4 (Q & Hc4 & _ & Hf & _). rewrite (f_tls _ _ _ Hf), (f_workers _ _ _ Hf).
  split_and!; [|done..]. apply (inv_intro SSA_BLK s3 s4 [] [] Q); [by rewrite (f_tls _ _ _ Hf)|done|done|].
  intros e [-> _]%elem_of_replicate. by left.
Qed.
(** ** Threads *)

(** The results of the workers are protected or no longer. *)
Lemma results_core s L Q t tls n :
  core s L [] Q -> pt_inv t -> NoDup (pt_list t) -> n_workers s <= n ->
  (forall a, a ∈ pt_list t -> a ∈ pt_list (pointers s) \/
     exists w, w < n /\ a = at_res w /\ root_ok (st (package s)) (mget (memory s) a)) ->
  (forall a, a ∈ pt_list (pointers s) -> (forall w, a <> at_res w) -> a ∈ pt_list t) ->
  core (set_threads tls n (set_pointers t s)) L [] Q.
Proof.
  intros Hc Ht Hnd Hn Hin Hout. set (s' := set_threads _ _ _).
  assert (forall p, p ∈ SsaGcFacts.objects SSA_BLK s -> guarded s' p <-> guarded s p) as Hg.
  { intros p Hp. pose proof (core_object SSA_BLK s L [] Q p Hc Hp) as Hobj. split; intros Hgp.
    - destruct (Hin _ Hgp) as [?|(w & _ & Heq & _)]; [done|]. by apply (object_ne_res SSA_BLK p w Hobj) in Heq.
    - apply Hout; [done|]. intros w. apply (object_ne_res SSA_BLK p w Hobj). }
  split; try apply Hc; try done.
  - apply (synced_inv s); [apply Hc|done|]. intros a [Ha|(w & _ & _ & Hr)]%Hin; [|done].
    by apply (synced_roots s); [apply Hc|].
  - apply Hout; [apply Hc|]. intros w. apply not_eq_sym, (res_ne_var SSA_BLK).
  - intros a [Ha|(w & Hw & -> & _)]%Hin; [|right; left; by exists w].
    destruct (c_known _ _ _ _ _ Hc a Ha) as [?|[(w & Hw & ->)|?]]; [by left|right; left|by right; right].
    exists w. split; [cbn; lia|done].
  - destruct (c_queue _ _ _ _ _ Hc). by split.
  - intros p Hp. destruct (c_free _ _ _ _ _ Hc p Hp) as (Ho & Hl & Hgp). by rewrite Hg.
  - intros p Ho Hx. rewrite Hg by done. by apply (c_count _ _ _ _ _ Hc).
  - intros p Ho Hx Hr. destruct (c_used _ _ _ _ _ Hc p Ho Hx Hr) as (Hgp & Hu). split; [by apply Hg|done].
Qed.

(** The word of a worker that has not started is not protected. *)
Lemma new_result s L X Q w : core s L X Q -> n_workers s <= w -> at_res w ∉ pt_list (pointers s).
Proof.
  intros Hc Hw Hin. destruct (c_known _ _ _ _ _ Hc _ Hin) as [Heq|[(w' & Hw' & Heq)|(p & Hp & Heq)]].
  - by apply (res_ne_var SSA_BLK) in Heq.
  - apply (res_inj SSA_BLK) in Heq. lia.
  - symmetry in Heq. by apply (object_ne_res SSA_BLK p w (core_object SSA_BLK s L X Q p Hc Hp)) in Heq.
Qed.

(** An entry of a thread that remembers nothing. *)
Notation blank := (mk_tls 0 0 0).

Lemma set_blank s held Q tid w w' tls :
  core s (held ++ handles_of tls) [] Q -> tls !! tid = Some (blank w) ->
  core s (held ++ handles_of (<[tid := blank w']> tls)) [] Q.
Proof.
  intros Hc Hw. destruct (handles_split _ _ _ Hw) as (rest & Hp & _ & Hp').
  refine (core_perm SSA_BLK s _ _ [] Q _ Hc). by rewrite Hp, Hp'.
Qed.

Lemma caches_blank s s' held tid w :
  (forall p o, tag_offs s' p o <-> tag_offs s p o) ->
  ssa_tls s' = <[tid := blank w]> (ssa_tls s) -> inv s held ->
  forall e, e ∈ ssa_tls s' -> cache_ok s' e.
Proof.
  intros Ho -> Hi e [j Hj]%list_elem_of_lookup. destruct (decide (j = tid)) as [->|Hne].
  - left. apply list_lookup_insert_Some in Hj as [(_ & <- & _)|[? _]]; done.
  - rewrite list_lookup_insert_ne in Hj by done.
    destruct (i_caches SSA_BLK s held Hi e) as [?|(Hr & Hv & Hc)]; [by apply list_elem_of_lookup; exists j|by left|right].
    split_and!; [done..|]. intros o. by rewrite !Ho.
Qed.

Lemma offs_same s s' : package s' = package s -> memory s' = memory s ->
  forall p o, tag_offs s' p o <-> tag_offs s p o.
Proof. intros Hp Hm p o. unfold tag_offs, bdd. by rewrite Hp, Hm. Qed.

Lemma thread_start_spec s held tid w0 :
  inv s held -> ssa_tls s !! N.to_nat tid = Some (blank w0) ->
  pt_room (pointers s) (at_res (n_workers s)) ->
  root_ok (st (package s)) (mget (memory s) (at_res (n_workers s))) ->
  wp (ssa_thread_start tid)
    (fun _ s' => inv s' held /\ n_workers s' = n_workers s + 1 /\
       ssa_tls s' = <[N.to_nat tid := blank (n_workers s)]> (ssa_tls s) /\
       at_res (n_workers s) ∈ pt_list (pointers s') /\ kept s s' held) (fun _ _ => False) s.
Proof.
  intros Hi He Hroom Hroot. pose proof Hi as [(Q & Hc) Hlock Hok].
  pose proof (pt_up_spec (pointers s) (at_res (n_workers s)) (c_pointers _ _ _ _ _ Hc)
    (address_in_use SSA_BLK (Res (n_workers s)) I) Hroom) as Hw.
  pose proof (new_result s _ [] Q (n_workers s) Hc (N.le_refl _)) as Hnew.
  unfold ssa_thread_start, lace_spawn_worker, set_tls, mtbdd_protect. wp_step. wp_step. do 3 wp_step.
  cbn [id]. set (s1 := set_threads _ _ s). wp_step.
  eapply wp_mono; [apply (wp_pointers _ _ s1 Hw)|]. intros [] s2 (t & -> & Ht & Hl). do 4 wp_step.
  set (s' := set_threads _ _ _).
  assert (ssa_tls s' = <[N.to_nat tid := blank (n_workers s)]> (ssa_tls s)) as Htls by apply list_insert_insert_eq.
  assert (forall a, a ∈ pt_list t <-> a = at_res (n_workers s) \/ a ∈ pt_list (pointers s)) as Hin
    by (intros a; by rewrite Hl, elem_of_cons).
  split_and!; [|done|exact Htls|apply Hin; by left|by intros p _; apply offs_same]. split; [|done|].
  - exists Q. change (core (set_threads (ssa_tls s') (n_workers s + 1) (set_pointers t s)) (held ++ handles s') [] Q).
    rewrite Htls. apply (results_core s); [by apply (set_blank s held Q _ w0)|done| |lia|..].
    + rewrite Hl. constructor; [done|apply Hc].
    + intros a [->|Ha]%Hin; [right|by left]. exists (n_workers s). split_and!; [lia|done..].
    + intros a Ha _. apply Hin. by right.
  - apply (caches_blank s s' held (N.to_nat tid) (n_workers s)); [by apply offs_same|done|done].
Qed.

Lemma destroy_pointers s L Q p :
  core s (p :: L) [] Q ->
  wp (ssa_tag_destroy p)
    (fun _ s' => core s' L [] Q /\ frame s s' L /\ pointers s' = pointers s) (fun _ _ => False) s.
Proof.
  intros Hc. pose proof (destroy_spec SSA_BLK s L [] Q p Hc) as Hw.
  unfold wp, ssa_tag_destroy in *. destruct (negb (p =? 0)); destruct Hw as [Hc' Hf]; by split_and!.
Qed.

Lemma thread_fini_spec s held tid e :
  inv s held -> ssa_tls s !! N.to_nat tid = Some e -> at_res (t_worker e) ∈ pt_list (pointers s) ->
  wp (ssa_thread_fini tid)
    (fun _ s' => inv s' held /\ n_workers s' = n_workers s /\
       ssa_tls s' = <[N.to_nat tid := blank (t_worker e)]> (ssa_tls s) /\
       at_res (t_worker e) ∉ pt_list (pointers s') /\ kept s s' held) (fun _ _ => False) s.
Proof.
  intros Hi He Hres. pose proof Hi as [(Q & Hc) Hlock Hok].
  destruct (handles_split _ _ _ He) as (rest & Hp & Hoth & Hp'). set (L := held ++ rest).
  pose proof (pt_down_spec (pointers s) _ (c_pointers _ _ _ _ _ Hc) Hres) as Hw.
  unfold ssa_thread_fini, tls_at, set_tls, mtbdd_unprotect. do 3 wp_step. cbn [id]. rewrite He.
  wp_step. wp_step. eapply wp_mono; [apply (wp_pointers _ _ s Hw)|].
  intros [] s0 (t & -> & Ht & Hl & _). set (s1 := set_pointers t s).
  pose proof (c_nodup _ _ _ _ _ Hc) as Hnd. rewrite <- Hl in Hnd. apply NoDup_cons in Hnd as [Hnin Hnd].
  assert (core s1 (held ++ handles s) [] Q) as Hc1.
  { apply (results_core s (held ++ handles s) Q t (ssa_tls s) (n_workers s) Hc Ht Hnd (N.le_refl _)).
    - intros a Ha. left. rewrite <- Hl. by right.
    - intros a Ha Hne. rewrite <- Hl in Ha. apply elem_of_cons in Ha as [->|?]; [|done].
      by destruct (Hne (t_worker e)). }
  assert (core s1 (cb_cache_l e :: cb_cache_r e :: cb_cache_v e :: L) [] Q) as Hc2.
  { refine (core_perm SSA_BLK s1 _ _ [] Q _ Hc1). rewrite Hp. unfold L. cbn [trio app].
    by rewrite !(Permutation_app_comm held). }
  wp_step. eapply wp_mono; [by apply destroy_pointers|]. intros [] s3 (Hc3 & Hf3 & Hp3).
  wp_step. eapply wp_mono; [by apply destroy_pointers|]. intros [] s4 (Hc4 & Hf4 & Hp4).
  wp_step. eapply wp_mono; [by apply destroy_pointers|]. intros [] s5 (Hc5 & Hf5 & Hp5).
  wp_step. set (s' := set_threads _ _ s5).
  assert (ssa_tls s5 = ssa_tls s /\ n_workers s5 = n_workers s /\ gc_lock s5 = 0) as (Ht5 & Hn5 & Hl5)
    by (destruct Hf3, Hf4, Hf5; cbn in *; split_and!; congruence).
  assert (kept s s' L) as Hk.
  { intros p Hin o. change (tag_offs s5 p o <-> tag_offs s p o). rewrite (frame_kept _ _ _ Hf5 p Hin o).
    rewrite (frame_kept _ _ _ Hf4 p ltac:(by right) o). by rewrite (frame_kept _ _ _ Hf3 p ltac:(by do 2 right) o). }
  assert (ssa_tls s' = <[N.to_nat tid := blank (t_worker e)]> (ssa_tls s)) as Htls by (cbn; by rewrite Ht5).
  split_and!; [|done|done| |intros p Hin; apply Hk, elem_of_app; by left].
  - apply (cached_inv SSA_BLK s s' held Q tid e 0 0 0 rest); try done; [|by left].
    apply threads_core. rewrite Htls.
    apply (core_ext SSA_BLK s5 L); [|rewrite length_app, (Permutation_length (Hp' _))|done].
    + intros p Hnz. unfold L. rewrite !refs_app, (refs_perm _ _ p (Hp' (blank (t_worker e)))), refs_app.
      cbn [trio cb_cache_l cb_cache_r cb_cache_v refs]. by rewrite (proj2 (N.eqb_neq 0 p)) by done.
    + pose proof (c_few _ _ _ _ _ Hc) as Hlen. rewrite length_app, (Permutation_length Hp) in Hlen. done.
  - change (pointers s') with (pointers s5). by rewrite Hp5, Hp4, Hp3.
Qed.
End start.
End SsaGcStart.
