(* ===== verification/SsaGcProps.v ===== *)
(** The properties of the counted tags, and a run of them in which objects are recycled. *)

From stdpp Require Import strings pretty sorting.
From S2P Require Import Prelude SylvanTable SylvanCache SylvanRefs SylvanRefsFacts ProtectStore.
From S2P Require Import MtbddNode BddTree OpSpecs NodeStore MtbddCore MtbddCoreFacts BddApply.
From S2P Require Import BddSets BddSetsFacts SsaTask SsaTaskFacts TagTraits SsaTagFacts SsaProps.
From S2P Require Import Examples SsaGc SsaGcFacts SsaGcQueue SsaGcOps SsaGcStore SsaGcStart.

Module SsaGcProps.
Import LLMSSet Cache Refs RefsFacts ProtectStore MtbddNode BddTree OpSpecs NodeStore MtbddCore
  MtbddCoreFacts BddApply BddSets BddSetsFacts SsaTask SsaTaskFacts TagTraits SsaTagFacts Examples
  SsaGc SsaGcFacts SsaGcQueue SsaGcOps SsaGcStore SsaGcStart.

Notation all_ones := 0xffffffffffffffff.

Section props.
Context {T C P : Type} `{NodeTableLaws T} `{OpCacheLaws C} `{PointerTableLaws P} `{Layout}
  (SSA_BLK : N) `{!LayoutLaws SSA_BLK}.
Notation mgr := (mgr T C).
Notation ssa := (ssa T C P).
Implicit Types (m : mgr) (s : ssa) (held : list N).
Notation inv := (inv SSA_BLK).
Notation objects := (objects SSA_BLK).

(** Allocation returns a reference to an object with the one offset given. *)
Theorem gc_alloc_singleton s held offset tid :
  inv s held -> few 6 s held -> (forall a, pt_room (pointers s) a) ->
  (N.to_nat tid < length (ssa_tls s))%nat -> offset < 2 ^ 24 ->
  wp (ssa_tag_alloc SSA_BLK offset tid)
    (fun r s' => inv s' (r :: held) /\ (forall o, tag_offs s' r o <-> o = offset) /\
       forall p, p ∈ held -> forall o, tag_offs s' p o <-> tag_offs s p o)
    (fun x s' => full_only x (package s')) s.
Proof.
  intros Hi Hfew Hroom Htid Hoff. eapply wp_mono; [by apply gc_alloc_spec|].
  intros r s' (Hi' & _ & _ & Hk & Ho). by split_and!.
Qed.


(** C21: an object is always found: when the queue is empty, one collection refills it from idle
    objects or from a new block.  No tag refers to the object, its diagram is not protected, and
    all held tags keep their offsets. *)
Theorem gc_take_victim_free s held :
  inv s held ->
  wp (take_victim SSA_BLK)
    (fun v s' => v ∈ objects s' /\ v ∉ held ++ handles_of (ssa_tls s) /\ ~ guarded s' v /\
       ssa_tls s' = ssa_tls s /\ package s' = package s /\
       forall p, p ∈ held -> forall o, tag_offs s' p o <-> tag_offs s p o) (fun _ _ => False) s.
Proof.
  intros [(Q & Hc) Hl _].
  eapply wp_mono; [apply wp_no_task; [apply no_task_take|by apply (take_victim_spec SSA_BLK s (held ++ handles_of (ssa_tls s)) Q)]|].
  intros v s' [(Q' & Hc' & Hf & _) Hp].
  destruct (elem_of_X SSA_BLK s' _ [v] Q' v Hc') as (Ho & Hn & Hg & _); [by left|].
  split_and!; [done..|apply Hf|done|]. intros p Hin. apply (frame_kept _ _ _ Hf). apply elem_of_app. by left.
Qed.



(** Printing lists exactly the offsets of a tag, each once and in increasing order. *)
Theorem gc_print_exact s held p :
  inv s held -> p = 0 \/ p ∈ held ->
  wp (ssa_tag_print p)
    (fun text s' => inv s' held /\ SsaProps.prints print_one (tag_offs s p) text /\
       forall q, q ∈ held -> forall o, tag_offs s' q o <-> tag_offs s q o)
    (fun _ _ => False) s.
Proof.
  intros Hi Hp. pose proof Hi as [(Q & Hc) Hl Hok]. unfold ssa_tag_print. wp_step. wp_step. cbn [id].
  assert (forall f l, p <> 0 -> offsets_den (st (package s)) (bdd s p) f -> NoDup l ->
    (forall o, o ∈ l <-> has f o) -> SsaProps.prints print_one (tag_offs s p) (print_offsets print_one l)) as Hprint.
  { intros f l Hnz Hf Hnd Hin. apply SsaProps.print_offsets_prints; [done|]. intros o.
    by rewrite Hin, (used_offs s p f o Hnz Hf). }
  wp_step. destruct (N.eqb_spec p 0) as [->|Hnz]; cbn [negb].
  - do 2 wp_step. split_and!; [done| |done]. apply SsaProps.print_offsets_prints; [constructor|].
    intros o. unfold tag_offs. split; [by intros ?%elem_of_nil|by intros [? _]].
  - destruct Hp as [?|Hp]; [done|]. assert (p ∈ held ++ handles_of (ssa_tls s)) as Hp' by (apply elem_of_app; by left).
    destruct (core_ref SSA_BLK s (held ++ handles_of (ssa_tls s)) [] Q p Hc Hp' Hnz) as (_ & _ & _ & _ & _ & _ & f & Hf).
    eapply wp_cons; [apply (package_spec SSA_BLK _ s _ [] Q
      (fun l m' => NoDup l /\ forall o, o ∈ l <-> has f o) (fun _ _ => False) Hc)| |by intros ? ? []].
    + eapply wp_mono; [apply (offset_buf_spec _ _ f); [apply Hc|exact Hf|apply Hc]|].
      intros l m' (-> & Hnd & Hin). split_and!; [apply Hc|reflexivity|done..].
    + intros l s' (Hc' & Hf' & _ & _ & Hnd & Hin). wp_step. split_and!; [|by apply (Hprint f)|].
      * apply (inv_intro SSA_BLK s s' held held Q); [|done..]. by rewrite (f_tls _ _ _ Hf').
      * intros q Hq. apply (frame_kept _ _ _ Hf'). apply elem_of_app. by left.
Qed.

(** [ssa_init] turns a consistent package and an empty table of protected pointers into a
    consistent state of the tags, without workers. *)
Theorem gc_init_ok threads m pts :
  mgr_inv m -> pt_inv pts -> pt_list pts = [] -> pt_room pts at_var_set ->
  3 * N.of_nat threads < all_ones ->
  wp (ssa_init SSA_BLK)
    (fun _ s => inv s [] /\ length (ssa_tls s) = threads /\ n_workers s = 0)
    (fun x s => full_only x (package s)) (ssa_before threads m pts).
Proof.
  intros Hi Hp Hl Hroom Ht. eapply wp_mono; [by apply gc_init_spec|].
  intros [] s (Hs & -> & Hn). split_and!; [done|apply length_replicate|done].
Qed.

(** [ssa_thread_fini] gives back the references of a thread and unprotects the result of its
    worker; all held tags keep their offsets.  The thread can start again, with a new worker
    whose result is protected. *)
Theorem gc_thread_fini_ok s held tid e :
  inv s held -> ssa_tls s !! N.to_nat tid = Some e -> at_res (t_worker e) ∈ pt_list (pointers s) ->
  wp (ssa_thread_fini tid)
    (fun _ s' => inv s' held /\ at_res (t_worker e) ∉ pt_list (pointers s') /\
       (forall p, p ∈ held -> forall o, tag_offs s' p o <-> tag_offs s p o) /\
       (pt_room (pointers s') (at_res (n_workers s')) ->
        root_ok (st (package s')) (mget (memory s') (at_res (n_workers s'))) ->
        wp (ssa_thread_start tid)
          (fun _ s2 => inv s2 held /\ n_workers s2 = n_workers s + 1 /\
             at_res (n_workers s) ∈ pt_list (pointers s2)) (fun _ _ => False) s'))
    (fun _ _ => False) s.
Proof.
  intros Hi He Hr. eapply wp_mono; [by apply (thread_fini_spec SSA_BLK)|].
  intros [] s' (Hi' & Hn & Ht & Hg & Hk). split_and!; [done..|]. intros Hroom Hroot.
  eapply wp_mono; [apply (thread_start_spec SSA_BLK s' held tid (t_worker e)); try done|].
  - rewrite Ht. apply list_lookup_insert_eq. by apply lookup_lt_Some in He.
  - intros [] s2 (Hi2 & Hn2 & _ & Hg2 & _). rewrite Hn in *. by split_and!.
Qed.
End props.

(** ** A run with blocks of three objects *)

#[local] Instance ex_layout : Layout :=
  {| at_var_set := 12; at_res w := 16 * w + 4; blk k := 64 * (k + 1) |}.
Notation ex_blk := 3.

#[local] Instance ex_layout_laws : LayoutLaws ex_blk.
Proof.
  split; [|intros [|w|k i|k i] Hv; cbn in *|lia].
  - intros [|w|k i|k i] [|w'|k' i'|k' i'] Hv Hv' Heq; cbn -[N.mul N.add] in *;
      try (exfalso; lia); try done; f_equal; lia.
  - done.
  - unfold in_use, refs_ts. apply andb_true_intro. split; apply negb_true_iff, N.eqb_neq; lia.
  - unfold in_use, refs_ts. apply andb_true_intro. split; apply negb_true_iff, N.eqb_neq; lia.
  - unfold in_use, refs_ts. apply andb_true_intro. split; apply negb_true_iff, N.eqb_neq; lia.
Qed.

Notation ex_ssa_t := (ssa llmsset cache refs_table_t).
Notation ex_inv := (inv ex_blk (T := llmsset) (C := cache) (P := refs_table_t)).
Definition ex_refs : refs_table_t := mk_refs ∅ 128 0 ∅ 0 0 0.

(** One thread has started. *)
Definition ex_before : ex_ssa_t := ssa_before 1 ex_m0 ex_refs.
Definition ex_init : ex_ssa_t := run_state ex_before (ssa_init ex_blk ex_before).
Definition ex_gc : ex_ssa_t := run_state ex_init (ssa_thread_start 0 ex_init).

Lemma exg_refs_rest : rest id ex_refs /\ entries ex_refs = [].
Proof. destruct (inv_new id ex_refs 128) as [Hi He]; [by exists 7|done|done|]. by split. Qed.

Definition few_pointers (r : refs_table_t) : bool := N.of_nat (length (protect_walk r)) <? 128.

Lemma exg_room (r : refs_table_t) a :
  pt_inv r -> few_pointers r = true -> pt_room r a.
Proof.
  intros Hr Hl%N.ltb_lt. apply room_few; [apply Hr|]. by rewrite <- protect_walk_spec.
Qed.

Lemma root_zero (sg : store) : root_ok sg 0.
Proof. destruct (BddApplyFacts.BddApplyFacts.den_const sg false) as (t & Ht & _). by exists t. Qed.

Lemma start_run (s : ex_ssa_t) :
  ex_inv s [] -> ssa_tls s !! N.to_nat 0 = Some (mk_tls 0 0 0 0) ->
  few_pointers (pointers s) = true ->
  mget (memory s) (at_res (n_workers s)) = 0 -> is_done (ssa_thread_start 0 s) = true ->
  ex_inv (run_state s (ssa_thread_start 0 s)) [] /\
  at_res (n_workers s) ∈ pt_list (pointers (run_state s (ssa_thread_start 0 s))).
Proof.
  intros Hi He Hl Hz Hd. pose proof Hi as [(Q & Hc) _ _].
  assert (pt_room (pointers s) (at_res (n_workers s))) as Hroom by (apply exg_room; [apply Hc|done]).
  assert (root_ok (st (package s)) (mget (memory s) (at_res (n_workers s)))) as Hroot
    by (rewrite Hz; apply root_zero).
  destruct (wp_done _ _ _ _ tt s (thread_start_spec ex_blk s [] 0 0 Hi He Hroom Hroot) Hd)
    as (Hi' & _ & _ & Hin & _). by split.
Qed.

(** Commands that keep to the limits of [run], executed. *)
Definition cmd_okb (n threads : nat) (c : cmd) : bool :=
  match c with
  | Alloc k offset tid => (k <? n)%nat && (offset <? 2 ^ 24) && (N.to_nat tid <? threads)%nat
  | Combine k k1 k2 tid => (k <? n)%nat && (k1 <? n)%nat && (k2 <? n)%nat && (N.to_nat tid <? threads)%nat
  | Copy k k1 => (k <? n)%nat && (k1 <? n)%nat
  | Clear k => (k <? n)%nat
  end.

Fixpoint runs (cs : list cmd) (s : ex_ssa_t) (cells : list N) : option (ex_ssa_t * list N) :=
  match cs with
  | [] => Some (s, cells)
  | c :: cs =>
      if (N.of_nat (length (cells ++ handles_of (ssa_tls s))) + 8 <? all_ones) &&
         few_pointers (pointers s) &&
         cmd_okb (length cells) (length (ssa_tls s)) c
      then match do_cmd ex_blk c cells s with
           | Done cells s => runs cs s cells
           | _ => None
           end
      else None
  end.

Lemma cmd_okb_ok n threads c : cmd_okb n threads c = true -> cmd_ok n threads c.
Proof.
  destruct c; cbn [cmd_okb cmd_ok]; rewrite ?andb_true_iff, ?N.ltb_lt, ?Nat.ltb_lt; tauto.
Qed.

Lemma inv_pointers (s : ex_ssa_t) held : ex_inv s held -> pt_inv (pointers s).
Proof. intros [(Q & Hc) _ _]. apply Hc. Qed.

Lemma runs_run cs s cells sets s' cells' :
  ex_inv s cells -> agree s cells sets -> runs cs s cells = Some (s', cells') ->
  run ex_blk cs s cells s' cells'.
Proof.
  revert s cells sets. induction cs as [|c cs IH]; intros s cells sets Hi Ha Hr; cbn [runs] in Hr.
  - injection Hr as <- <-. apply run_nil.
  - destruct ((_ <? all_ones) && _ && _) eqn:Eok; [|done].
    apply andb_true_iff in Eok as [[Hfew%N.ltb_lt Hl]%andb_true_iff Hok%cmd_okb_ok].
    assert (forall a, pt_room (pointers s) a) as Hroom
      by (intros a; apply exg_room; [by apply (inv_pointers s cells)|done]).
    pose proof (do_cmd_spec ex_blk s cells sets c Hi Ha Hfew Hroom Hok) as Hw. unfold wp in Hw.
    destruct (do_cmd ex_blk c cells s) as [cells1 s1|x s1|] eqn:Ed; [|done..].
    destruct Hw as (Hi1 & Ha1 & _). apply (run_cons ex_blk c cs s cells s1 cells1); try done. by apply (IH s1 cells1 _ Hi1 Ha1).
Qed.

(** Three cells, of which two get the tags {3} and {5}. *)
Definition ex_cells : list N := [0; 0; 0].
Definition ex_sets : list (N -> Prop) := [empty; empty; empty].
Definition ex_cmds : list cmd := [Alloc 0 3 0; Alloc 1 5 0].
Definition ex_end : ex_ssa_t * list N := default (ex_gc, []) (runs ex_cmds ex_gc ex_cells).
Definition ex_two : ex_ssa_t := ex_end.1.
Definition ex_held : list N := ex_end.2.

(** Then {5} is dropped, so that the next allocation recycles its object. *)
Definition ex_more : list cmd := [Copy 2 0; Clear 1; Alloc 0 9 0; Combine 1 0 2 0].

(** ** What the run computes *)

Definition one_blank (s : ex_ssa_t) : bool :=
  match ssa_tls s with
  | [mk_tls 0 0 0 0] => true
  | _ => false
  end.
Definition member (x : N) (l : list N) : bool := existsb (N.eqb x) l.
Definition is_some {A} (o : option A) : bool := match o with Some _ => true | None => false end.

Lemma exg_facts :
  is_done (ssa_init ex_blk ex_before) && is_done (ssa_thread_start 0 ex_init) && one_blank ex_init &&
  few_pointers (pointers ex_init) && (mget (memory ex_init) (at_res (n_workers ex_init)) =? 0) && one_blank ex_gc &&
  is_some (runs ex_cmds ex_gc ex_cells) &&
  ((N.of_nat (length (ex_held ++ handles_of (ssa_tls ex_two))) + 8 <? all_ones) && few_pointers (pointers ex_two) &&
   one_blank ex_two && member 64 ex_held && member 80 ex_held && member 64 (objects ex_blk ex_two) &&
   member (at_res 0) (pt_list (pointers ex_two)) && (free_h ex_two =? free_t ex_two) &&
   is_done (ssa_tag_combine ex_blk 64 80 0 ex_two) && is_done (take_victim ex_blk ex_two) &&
   is_some (runs ex_more ex_two ex_held)) = true.
Proof. vm_compute. reflexivity. Qed.

Lemma one_blank_eq (s : ex_ssa_t) : one_blank s = true -> ssa_tls s = [mk_tls 0 0 0 0].
Proof. unfold one_blank. by destruct (ssa_tls s) as [|[[] [] [] []] []]. Qed.

Lemma member_elem x l : member x l = true -> x ∈ l.
Proof.
  unfold member. intros (y & Hy & ->%N.eqb_eq)%existsb_exists. by apply list_elem_of_In.
Qed.

Lemma exg_start :
  is_done (ssa_init ex_blk ex_before) = true /\ is_done (ssa_thread_start 0 ex_init) = true /\
  one_blank ex_init = true /\ few_pointers (pointers ex_init) = true /\
  mget (memory ex_init) (at_res (n_workers ex_init)) = 0 /\ one_blank ex_gc = true /\
  is_some (runs ex_cmds ex_gc ex_cells) = true.
Proof.
  pose proof exg_facts as [Hf _]%andb_prop.
  apply andb_prop in Hf as [Hf H1]. apply andb_prop in Hf as [Hf H2]. apply andb_prop in Hf as [Hf H3].
  apply andb_prop in Hf as [Hf H4]. apply andb_prop in Hf as [Hf H5]. apply andb_prop in Hf as [H7 H6].
  apply N.eqb_eq in H3. exact (conj H7 (conj H6 (conj H5 (conj H4 (conj H3 (conj H2 H1)))))).
Qed.

Lemma exg_init_inv : ex_inv ex_init [].
Proof.
  destruct exg_refs_rest as [Hr He].
  assert (protect_walk ex_refs = []) as Hw by by rewrite protect_walk_spec.
  assert (pt_room ex_refs at_var_set) as Hroom by (apply exg_room; [exact Hr|by unfold few_pointers; rewrite Hw]).
  pose proof (gc_init_spec ex_blk 1 ex_m0 ex_refs ex_m0_inv Hr Hw Hroom eq_refl) as Hi.
  exact (proj1 (wp_done _ _ _ _ tt ex_before Hi (proj1 exg_start))).
Qed.

Lemma exg_gc_inv : ex_inv ex_gc [].
Proof.
  destruct exg_start as (_ & Hd & Hb & Hp & Hr & _). apply one_blank_eq in Hb.
  assert (ssa_tls ex_init !! N.to_nat 0 = Some (mk_tls 0 0 0 0)) as He by (rewrite Hb; reflexivity).
  exact (proj1 (start_run ex_init exg_init_inv He Hp Hr Hd)).
Qed.

Lemma inv_null (s : ex_ssa_t) held : ex_inv s held -> few 1 s held -> ex_inv s (0 :: held).
Proof.
  intros [(Q & Hc) Hl Hok] Hfew. split; [|done..]. exists Q. unfold few in Hfew.
  apply (core_ext ex_blk s (held ++ handles_of (ssa_tls s))); [|cbn [app length]; lia|done].
  intros p Hp. cbn [app refs]. by rewrite (proj2 (N.eqb_neq 0 p)).
Qed.

Lemma inv_cells (s : ex_ssa_t) : ssa_tls s = [mk_tls 0 0 0 0] -> ex_inv s [] -> ex_inv s ex_cells.
Proof.
  intros Ht Hi. repeat (apply inv_null; [|unfold few; rewrite Ht; reflexivity]). done.
Qed.

Lemma agree_nulls (s : ex_ssa_t) : agree s ex_cells ex_sets.
Proof.
  assert (forall o, tag_offs s 0 o <-> empty o) as Hn by (intros o; split; [by intros [? _]|done]).
  do 3 (constructor; [exact Hn|]). constructor.
Qed.

(** A run that the executable check accepts. *)
Lemma runs_ok cs (s : ex_ssa_t) cells sets d :
  ex_inv s cells -> agree s cells sets -> is_some (runs cs s cells) = true ->
  let e := default d (runs cs s cells) in
  run ex_blk cs s cells e.1 e.2 /\ ex_inv e.1 e.2 /\ agree e.1 e.2 (spec_run cs sets).
Proof.
  intros Hi Ha Hd. destruct (runs cs s cells) as [[s' cells']|] eqn:Er; [|done]. cbn [default id fst snd].
  pose proof (runs_run cs s cells sets s' cells' Hi Ha Er) as Hr.
  destruct (run_refines ex_blk cs s cells s' cells' Hr sets Hi Ha) as (Hi' & Ha' & _). by split_and!.
Qed.

Lemma exg_two_inv : ex_inv ex_two ex_held /\ agree ex_two ex_held (spec_run ex_cmds ex_sets).
Proof.
  destruct exg_start as (_ & _ & _ & _ & _ & Hb & Hd).
  pose proof (inv_cells ex_gc (one_blank_eq ex_gc Hb) exg_gc_inv) as Hi.
  exact (proj2 (runs_ok ex_cmds ex_gc ex_cells ex_sets (ex_gc, []) Hi (agree_nulls ex_gc) Hd)).
Qed.

Lemma exg_two :
  few 8 ex_two ex_held /\ (forall a, pt_room (pointers ex_two) a) /\ ssa_tls ex_two = [mk_tls 0 0 0 0] /\
  64 ∈ ex_held /\ 80 ∈ ex_held /\ 64 ∈ objects ex_blk ex_two /\
  at_res 0 ∈ pt_list (pointers ex_two) /\ free_h ex_two = free_t ex_two /\
  is_done (ssa_tag_combine ex_blk 64 80 0 ex_two) = true /\ is_done (take_victim ex_blk ex_two) = true /\
  is_some (runs ex_more ex_two ex_held) = true.
Proof.
  pose proof exg_facts as [_ Hf]%andb_prop.
  apply andb_prop in Hf as [Hf H1]. apply andb_prop in Hf as [Hf H2]. apply andb_prop in Hf as [Hf H3].
  apply andb_prop in Hf as [Hf H4]. apply andb_prop in Hf as [Hf H5]. apply andb_prop in Hf as [Hf H6].
  apply andb_prop in Hf as [Hf H7]. apply andb_prop in Hf as [Hf H8]. apply andb_prop in Hf as [Hf H9].
  apply andb_prop in Hf as [H11 H10]. apply N.ltb_lt in H11. apply N.eqb_eq in H4.
  pose proof (fun a => exg_room (pointers ex_two) a (inv_pointers ex_two ex_held (proj1 exg_two_inv)) H10) as Hroom.
  exact (conj H11 (conj Hroom (conj (one_blank_eq _ H9) (conj (member_elem _ _ H8) (conj (member_elem _ _ H7)
    (conj (member_elem _ _ H6) (conj (member_elem _ _ H5) (conj H4 (conj H3 (conj H2 H1)))))))))).
Qed.

(** ** The properties of the run *)



(** Two objects are in use and the queue is empty. *)
Lemma gc_take_victim_free_witness :
  free_h ex_two = free_t ex_two /\
  exists v s', take_victim ex_blk ex_two = Done v s' /\ v ∈ objects ex_blk s' /\ v ∉ ex_held.
Proof.
  destruct exg_two as (_ & _ & _ & _ & _ & _ & _ & He & _ & Hd & _). split; [exact He|].
  pose proof (gc_take_victim_free ex_blk ex_two ex_held (proj1 exg_two_inv)) as Hw.
  destruct (wp_returns _ _ _ _ Hw Hd) as (v & s' & Hr & Ho & Hn & _). exists v, s'.
  split; [exact Hr|]. split; [exact Ho|]. intros Hin. apply Hn, elem_of_app. left. exact Hin.
Defined.


Lemma gc_thread_fini_ok_witness :
  exists u s', ssa_thread_fini 0 ex_two = Done u s' /\ ex_inv s' ex_held.
Proof.
  destruct exg_two as (_ & _ & Ht & _ & _ & _ & Hr & _).
  assert (ssa_tls ex_two !! N.to_nat 0 = Some (mk_tls 0 0 0 0)) as He by (rewrite Ht; reflexivity).
  pose proof (gc_thread_fini_ok ex_blk ex_two ex_held 0 _ (proj1 exg_two_inv) He Hr) as Hw.
  destruct (wp_total _ _ _ Hw) as (u & s' & Hd & Hi & _). exists u, s'. split; [exact Hd|exact Hi].
Defined.

Lemma gc_init_ok_witness :
  exists u s, ssa_init ex_blk ex_before = Done u s /\ ex_inv s [].
Proof.
  destruct exg_refs_rest as [Hr He].
  assert (protect_walk ex_refs = []) as Hw by (rewrite protect_walk_spec; exact He).
  assert (pt_room ex_refs at_var_set) as Hroom by (apply exg_room; [exact Hr|unfold few_pointers; rewrite Hw; reflexivity]).
  pose proof (gc_init_ok ex_blk 1 ex_m0 ex_refs ex_m0_inv Hr Hw Hroom eq_refl) as Hi0.
  destruct (wp_returns _ _ _ _ Hi0 (proj1 exg_start)) as (u & s & Hs & Hi & _).
  exists u, s. split; [exact Hs|exact Hi].
Defined.
End SsaGcProps.
