(* ===== verification/SyscallDesc.v ===== *)
(** System calls as the taint engine sees them: the descriptors of src/syscall_desc.h, the context
    of a call (src/libdft_api.h), the state that callbacks work on, and the functions of
    src/syscall_desc.cpp that register callbacks.

    A callback is a name; [LibdftApi] says what each one runs.  Sizes, offsets and constants of
    system headers are those of an [Abi]. *)

From stdpp Require Import strings.
From S2P Require Import Prelude TagTraits Tagmap.

Module SyscallDesc.
Import TagTraits Tagmap.

(** ** The system headers *)

(** Types of system headers whose size the code asks for. *)
Inductive c_type :=
| aio_context_t | cpu_set_t | fd_set | gid_t | loff_t | off_t | siginfo_t | sigset_t | stack_t
| time_t | timer_t | uid_t | struct_epoll_event | struct_f_owner_ex | struct_flock | struct_io_event
| struct_iovec | struct_itimerspec | struct_itimerval | struct_mmsghdr | struct_mq_attr
| struct_msghdr | struct_msginfo | struct_msqid_ds | struct_perf_event_attr | struct_pollfd
| struct_rlimit | struct_rusage | struct_sched_param | struct_semid_ds | struct_seminfo
| struct_shmid_ds | struct_shminfo | struct_sigaction | struct_sockaddr | struct_stat
| struct_statfs | struct_sysinfo | struct_timespec | struct_timeval | struct_timex
| struct_timezone | struct_ustat | struct_utsname.

Inductive c_field :=
| iov_base | iov_len | revents | msg_name | msg_namelen | msg_iov | msg_iovlen | msg_control
| msg_controllen | msg_flags | msg_len | oldval | oldlenp | newval | newlen | semun_buf.

Inductive c_const :=
| MAP_GROWSDOWN | MPOL_F_NODE | MPOL_F_ADDR | MPOL_F_MEMS_ALLOWED | F_GETLK | F_GETOWN_EX
| IPC_STAT | IPC_INFO | MSG_STAT | MSG_INFO | SHM_STAT | SHM_INFO | SEM_STAT | SEM_INFO.

Class Abi := {
  sizeof : c_type -> N;
  offset : c_field -> N;
  const : c_const -> N
}.

(** Sizes of the language on x86-64. *)
Definition sizeof_short : N := 2.
Definition sizeof_int : N := 4.
Definition sizeof_long : N := 8.
Definition sizeof_size_t : N := 8.
Definition sizeof_pointer : N := 8.

(** ** The types of src/syscall_struct.h *)

Definition PAGE_SZ : N := 4096.
Definition Q_GETFMT : N := 0x800004.
Definition Q_GETINFO : N := 0x800005.
Definition Q_GETQUOTA : N := 0x800007.
Definition XQM_CMD (x : N) : N := N.shiftl 88 8 + x.
Definition Q_XGETQUOTA : N := XQM_CMD 3.
Definition Q_XGETQSTAT : N := XQM_CMD 5.

(** The size of a structure of members of the given sizes, each aligned to its size. *)
Definition align (a x : N) : N := (x + a - 1) / a * a.
Definition add_member (end_ size : N) : N := align size end_ + size.
Definition struct_size (members : list N) : N :=
  align (foldr N.max 1 members) (fold_left add_member members 0).

Definition sizeof_git_t : N := 8.
Definition sizeof_getcpu_cache : N := struct_size (replicate (N.to_nat (128 / sizeof_long)) 8).
Definition sizeof_sched_attr : N := struct_size [4; 4; 8; 4; 4; 8; 8; 8].
Definition sizeof_if_dqinfo : N := struct_size [8; 8; 4; 4].
Definition sizeof_if_dqblk : N := struct_size [8; 8; 8; 8; 8; 8; 8; 8; 4].
(** A member that is a structure: its members, and the padding at its end. *)
Definition sizeof_fs_quota_stat : N :=
  struct_size [1; 2; 1; 8; 8; 4; 4; 8; 8; 4; 4; 4; 4; 4; 4; 2; 2].
Definition sizeof_fs_disk_quota : N :=
  struct_size [1; 1; 2; 4; 8; 8; 8; 8; 8; 8; 4; 4; 2; 2; 4; 8; 8; 8; 4; 2; 2; 1; 1; 1; 1; 1; 1; 1; 1].
Definition sizeof_file_handle : N := struct_size [4; 4].

(** ** Descriptors and contexts *)

(** The callbacks of syscall_desc.cpp, of mytool.cpp and of syscall_hook.cpp. *)
Inductive callback :=
| desc_read | desc_fcntl | desc_mmap | desc_syslog | desc_modify_ldt | desc_quotactl | desc_readv
| desc__sysctl | desc_poll | desc_rt_sigpending | desc_getcwd | desc_getgroups | desc_mincore
| desc_getdents | desc_getxattr | desc_listxattr | desc_io_getevents | desc_get_mempolicy
| desc_lookup_dcookie | desc_mq_timedreceive | desc_readlinkat | desc_epoll_wait | desc_recvmmsg
| desc_shmctl | desc_accept | desc_recvfrom | desc_recvmsg | desc_getsockopt | desc_semctl
| desc_msgrcv | desc_msgctl
| tool_open | tool_openat | tool_close | tool_read | tool_pread64 | tool_readv | tool_mmap
| hook_open | hook_openat | hook_dup | hook_dup2 | hook_close | hook_read | hook_pread64
| hook_mmap | hook_munmap.

#[export] Instance callback_eq_dec : EqDecision callback.
Proof. solve_decision. Defined.

Record syscall_desc_t := mk_desc {
  nargs : N;
  save_args : N;
  retval_args : N;
  map_args : list N;
  pre : option callback;
  post : option callback
}.

(** [arg] has six entries; [nr] is an [int]. *)
Record syscall_ctx_t := mk_ctx { nr : Z; arg : list N; ret : N }.
Definition syscall_ctx_new : syscall_ctx_t := mk_ctx 0 (replicate 6 0) 0.

Definition SYSCALL_MAX : N := 315 + 1.

(** ** Registering callbacks *)

(** [syscall_set_pre] and the others, for a descriptor that exists; the first component is the
    value they return. *)
Definition syscall_set_pre (desc : syscall_desc_t) (f : option callback) : N * syscall_desc_t :=
  match f with
  | None => (1, desc)
  | Some _ => (0, mk_desc (nargs desc) 1 (retval_args desc) (map_args desc) f (post desc))
  end.
Definition syscall_set_post (desc : syscall_desc_t) (f : option callback) : N * syscall_desc_t :=
  match f with
  | None => (1, desc)
  | Some _ => (0, mk_desc (nargs desc) 1 (retval_args desc) (map_args desc) (pre desc) f)
  end.
Definition syscall_clr_pre (desc : syscall_desc_t) : N * syscall_desc_t :=
  (0, mk_desc (nargs desc) (match post desc with None => 0 | Some _ => save_args desc end)
        (retval_args desc) (map_args desc) None (post desc)).
Definition syscall_clr_post (desc : syscall_desc_t) : N * syscall_desc_t :=
  (0, mk_desc (nargs desc) (match pre desc with None => 0 | Some _ => save_args desc end)
        (retval_args desc) (map_args desc) (pre desc) None).

(** ** The state of the tool *)

(** The application, as a callback finds it: its memory, its file positions, and the strings in
    its memory. *)
Record world := mk_world {
  app : N -> N;
  lseek : Z -> N;
  c_string : N -> string
}.

(** A little-endian word of [n] bytes of the application. *)
Fixpoint peek (w : world) (n : nat) (a : N) : N :=
  match n with
  | O => 0
  | S n => app w a mod 256 + N.shiftl (peek w n (add64 a 1)) 8
  end.

(** Reading a word as signed. *)
Definition to_int (x : N) : Z := if w32 x <? 2 ^ 31 then Z.of_N (w32 x) else Z.of_N (w32 x) - 2 ^ 32.
Definition to_long (x : N) : Z := if w64 x <? 2 ^ 63 then Z.of_N (w64 x) else Z.of_N (w64 x) - 2 ^ 64.

Section tool.
Context {B tag : Type} `{TagOps B tag}.

(** The engine, the descriptors of the input and the position in the standard input that the
    tool keeps, the table of descriptors, and the contexts of the threads. *)
Record tool := mk_tool {
  eng : engine B tag;
  fdset : gset Z;
  stdin_read_off : N;
  tainted : bool;
  syscall_descs : list syscall_desc_t;
  contexts : gmap N syscall_ctx_t
}.

Definition set_eng (e : engine B tag) (t : tool) : tool :=
  mk_tool e (fdset t) (stdin_read_off t) (tainted t) (syscall_descs t) (contexts t).
Definition set_fdset (f : gset Z) (t : tool) : tool :=
  mk_tool (eng t) f (stdin_read_off t) (tainted t) (syscall_descs t) (contexts t).
Definition set_stdin (o : N) (t : tool) : tool :=
  mk_tool (eng t) (fdset t) o (tainted t) (syscall_descs t) (contexts t).
Definition set_tainted (t : tool) : tool :=
  mk_tool (eng t) (fdset t) (stdin_read_off t) true (syscall_descs t) (contexts t).
Definition set_descs (d : list syscall_desc_t) (t : tool) : tool :=
  mk_tool (eng t) (fdset t) (stdin_read_off t) (tainted t) d (contexts t).

(** [threads_ctx[tid].syscall_ctx]. *)
Definition ctx_of (tid : N) (t : tool) : syscall_ctx_t := default syscall_ctx_new (contexts t !! tid).
Definition set_ctx (tid : N) (c : syscall_ctx_t) (t : tool) : tool :=
  mk_tool (eng t) (fdset t) (stdin_read_off t) (tainted t) (syscall_descs t) (<[tid := c]> (contexts t)).

Definition on_engine {A} (p : prog (engine B tag) A) : prog tool A := fun t =>
  match p (eng t) with
  | Done a e => Done a (set_eng e t)
  | Exit r e => Exit r (set_eng e t)
  | NoFuel => NoFuel
  end.

(** A call of [tagmap_clrn], whose second parameter is a [UINT32]. *)
Definition clrn (addr n : N) : prog (engine B tag) unit := tagmap_clrn addr (w32 n).
End tool.
Arguments tool : clear implicits.

(** [ctx->arg[i]]. *)
Definition arg_of (c : syscall_ctx_t) (i : nat) : N := default 0 (arg c !! i).
End SyscallDesc.
