(* ===== verification/SyscallTable.v ===== *)
(** The table of descriptors of src/syscall_desc.cpp, indexed by the number of the system call. *)

From S2P Require Import Prelude SyscallDesc.

Module SyscallTable.
Import SyscallDesc.

Section table.
Context `{Abi}.

(** A row of the table: all its callbacks are post-syscall callbacks. *)
Definition row (n save retval : N) (map : list N) (f : option callback) : syscall_desc_t :=
  mk_desc n save retval map None f.
Definition none : list N := [0; 0; 0; 0; 0; 0].

(** From __NR_read (0) on. *)
Definition syscalls_0 : list syscall_desc_t := [
  row 3 1 0 none (Some desc_read); (* __NR_read *)
  row 3 0 0 none None; (* __NR_write *)
  row 3 0 0 none None; (* __NR_open *)
  row 1 0 0 none None; (* __NR_close *)
  row 2 0 1 [0; sizeof struct_stat; 0; 0; 0; 0] None; (* __NR_stat *)
  row 2 0 1 [0; sizeof struct_stat; 0; 0; 0; 0] None; (* __NR_fstat *)
  row 2 0 1 [0; sizeof struct_stat; 0; 0; 0; 0] None; (* __NR_lstat *)
  row 3 1 0 none (Some desc_poll); (* __NR_poll *)
  row 3 0 0 none None; (* __NR_lseek *)
  row 6 1 0 none (Some desc_mmap); (* __NR_mmap *)
  row 3 0 0 none None; (* __NR_mprotect *)
  row 2 0 0 none None; (* __NR_munmap *)
  row 1 0 0 none None; (* __NR_brk *)
  row 3 0 1 [0; 0; sizeof struct_sigaction; 0; 0; 0] None; (* __NR_rt_sigaction *)
  row 4 0 1 [0; sizeof sigset_t; sizeof sigset_t; 0; 0; 0] None; (* __NR_rt_sigprocmask *)
  row 1 0 0 none None; (* __NR_rt_sigreturn *)
  row 3 1 0 none None; (* __NR_ioctl *)
  row 4 1 0 none (Some desc_read); (* __NR_pread64 *)
  row 4 0 0 none None; (* __NR_pwrite64 *)
  row 3 1 0 none (Some desc_readv); (* __NR_readv *)
  row 3 0 0 none None; (* __NR_writev *)
  row 2 0 0 none None; (* __NR_access *)
  row 1 0 1 [sizeof_int * 2; 0; 0; 0; 0; 0] None; (* __NR_pipe *)
  row 5 0 1
    [0; sizeof fd_set; sizeof fd_set; sizeof fd_set; sizeof struct_timeval; 0] None; (* __NR_select *)
  row 0 0 0 none None; (* __NR_sched_yield *)
  row 5 0 0 none None; (* __NR_mremap *)
  row 3 0 0 none None; (* __NR_msync *)
  row 3 1 0 none (Some desc_mincore); (* __NR_mincore *)
  row 3 0 0 none None; (* __NR_madvise *)
  row 3 0 0 none None; (* __NR_shmget *)
  row 3 0 0 none None; (* __NR_shmat *)
  row 3 1 0 none (Some desc_shmctl); (* __NR_shmctl *)
  row 1 0 0 none None; (* __NR_dup *)
  row 2 0 0 none None; (* __NR_dup2 *)
  row 0 0 0 none None; (* __NR_pause *)
  row 2 0 1 [sizeof struct_timespec; sizeof struct_timespec; 0; 0; 0; 0] None; (* __NR_nanosleep *)
  row 2 0 1 [0; sizeof struct_itimerval; 0; 0; 0; 0] None; (* __NR_getitimer *)
  row 1 0 0 none None; (* __NR_alarm *)
  row 3 0 1 [0; 0; sizeof struct_itimerval; 0; 0; 0] None; (* __NR_setitimer *)
  row 0 0 0 none None; (* __NR_getpid *)
  row 4 0 1 [0; 0; sizeof off_t; 0; 0; 0] None; (* __NR_sendfile *)
  row 3 0 0 none None; (* __NR_socket *)
  row 3 0 1 [0; sizeof struct_sockaddr; 0; 0; 0; 0] None; (* __NR_connect *)
  row 3 1 0 none (Some desc_accept); (* __NR_accept *)
  row 6 0 1 [0; 0; 0; 0; sizeof struct_sockaddr; 0] None; (* __NR_sendto *)
  row 6 1 0 none (Some desc_recvfrom); (* __NR_recvfrom *)
  row 3 0 1 [0; sizeof struct_msghdr; 0; 0; 0; 0] None; (* __NR_sendmsg *)
  row 3 1 0 none (Some desc_recvmsg) (* __NR_recvmsg *)
].

(** From __NR_shutdown (48) on. *)
Definition syscalls_48 : list syscall_desc_t := [
  row 2 0 0 none None; (* __NR_shutdown *)
  row 3 0 1 [0; sizeof struct_sockaddr; 0; 0; 0; 0] None; (* __NR_bind *)
  row 2 0 0 none None; (* __NR_listen *)
  row 3 1 0 none (Some desc_accept); (* __NR_getsockname *)
  row 3 1 0 none (Some desc_accept); (* __NR_getpeername *)
  row 4 0 1 [0; 0; 0; sizeof_int * 2; 0; 0] None; (* __NR_socketpair *)
  row 5 0 1 none None; (* __NR_setsockopt *)
  row 5 1 0 none (Some desc_getsockopt); (* __NR_getsockopt *)
  row 4 0 1 none None; (* __NR_clone *)
  row 0 0 0 none None; (* __NR_fork *)
  row 0 0 0 none None; (* __NR_vfork *)
  row 3 0 0 none None; (* __NR_execve *)
  row 1 0 0 none None; (* __NR_exit *)
  row 4 0 1 [0; sizeof_int; 0; sizeof struct_rusage; 0; 0] None; (* __NR_wait4 *)
  row 2 0 0 none None; (* __NR_kill *)
  row 1 0 1 [sizeof struct_utsname; 0; 0; 0; 0; 0] None; (* __NR_uname *)
  row 3 0 0 none None; (* __NR_semget *)
  row 3 0 0 none None; (* __NR_semop *)
  row 4 1 0 none (Some desc_semctl); (* __NR_semctl *)
  row 1 0 1 none None; (* __NR_shmdt *)
  row 2 0 0 none None; (* __NR_msgget *)
  row 4 0 0 none None; (* __NR_msgsnd *)
  row 5 1 0 none (Some desc_msgrcv); (* __NR_msgrcv *)
  row 3 1 0 none (Some desc_msgctl); (* __NR_msgctl *)
  row 3 1 0 none (Some desc_fcntl); (* __NR_fcntl *)
  row 2 0 0 none None; (* __NR_flock *)
  row 1 0 0 none None; (* __NR_fsync *)
  row 1 0 0 none None; (* __NR_fdatasync *)
  row 2 0 0 none None; (* __NR_truncate *)
  row 2 0 0 none None; (* __NR_ftruncate *)
  row 3 1 0 none (Some desc_getdents); (* __NR_getdents *)
  row 2 1 0 none (Some desc_getcwd); (* __NR_getcwd *)
  row 1 0 0 none None; (* __NR_chdir *)
  row 1 0 0 none None; (* __NR_fchdir *)
  row 2 0 0 none None; (* __NR_rename *)
  row 2 0 0 none None; (* __NR_mkdir *)
  row 1 0 0 none None; (* __NR_rmdir *)
  row 2 0 0 none None; (* __NR_creat *)
  row 2 0 0 none None; (* __NR_link *)
  row 1 0 0 none None; (* __NR_unlink *)
  row 2 0 0 none None; (* __NR_symlink *)
  row 3 0 1 none None; (* __NR_readlink *)
  row 2 0 0 none None; (* __NR_chmod *)
  row 2 0 0 none None; (* __NR_fchmod *)
  row 3 0 0 none None; (* __NR_chown *)
  row 3 0 0 none None; (* __NR_fchown *)
  row 3 0 0 none None; (* __NR_lchown *)
  row 1 0 0 none None (* __NR_umask *)
].

(** From __NR_gettimeofday (96) on. *)
Definition syscalls_96 : list syscall_desc_t := [
  row 2 0 1
    [sizeof struct_timeval; sizeof struct_timezone; 0; 0; 0; 0] None; (* __NR_gettimeofday *)
  row 2 0 1 [0; sizeof struct_rlimit; 0; 0; 0; 0] None; (* __NR_getrlimit *)
  row 2 0 1 [0; sizeof struct_rusage; 0; 0; 0; 0] None; (* __NR_getrusage *)
  row 1 0 1 [sizeof struct_sysinfo; 0; 0; 0; 0; 0] None; (* __NR_sysinfo *)
  row 1 0 1 [sizeof struct_sysinfo; 0; 0; 0; 0; 0] None; (* __NR_times *)
  row 4 0 0 none None; (* __NR_ptrace *)
  row 0 0 0 none None; (* __NR_getuid *)
  row 3 1 0 none (Some desc_syslog); (* __NR_syslog *)
  row 0 0 0 none None; (* __NR_getgid *)
  row 1 0 0 none None; (* __NR_setuid *)
  row 1 0 0 none None; (* __NR_setgid *)
  row 0 0 0 none None; (* __NR_geteuid *)
  row 0 0 0 none None; (* __NR_getegid *)
  row 2 0 0 none None; (* __NR_setpgid *)
  row 0 0 0 none None; (* __NR_getppid *)
  row 0 0 0 none None; (* __NR_getpgrp *)
  row 0 0 0 none None; (* __NR_setsid *)
  row 2 0 0 none None; (* __NR_setreuid *)
  row 2 0 0 none None; (* __NR_setregid *)
  row 2 1 0 none (Some desc_getgroups); (* __NR_getgroups *)
  row 2 0 0 none None; (* __NR_setgroups *)
  row 3 0 0 none None; (* __NR_setresuid *)
  row 3 0 1 [sizeof uid_t; sizeof uid_t; sizeof uid_t; 0; 0; 0] None; (* __NR_getresuid *)
  row 3 0 0 none None; (* __NR_setresgid *)
  row 3 0 1 [sizeof_git_t; sizeof_git_t; sizeof_git_t; 0; 0; 0] None; (* __NR_getresgid *)
  row 1 0 0 none None; (* __NR_getpgid *)
  row 1 0 0 none None; (* __NR_setfsuid *)
  row 1 0 0 none None; (* __NR_setfsgid *)
  row 1 0 0 none None; (* __NR_getsid *)
  row 2 0 0 none None; (* __NR_capget *)
  row 2 0 0 none None; (* __NR_capset *)
  row 2 1 0 none (Some desc_rt_sigpending); (* __NR_rt_sigpending *)
  row 4 0 1 [0; sizeof siginfo_t; 0; 0; 0; 0] None; (* __NR_rt_sigtimedwait *)
  row 3 0 1 [0; 0; sizeof siginfo_t; 0; 0; 0] None; (* __NR_rt_sigqueueinfo *)
  row 1 0 0 none None; (* __NR_rt_sigsuspend *)
  row 2 0 1 [0; sizeof stack_t; 0; 0; 0; 0] None; (* __NR_sigaltstack *)
  row 2 0 0 none None; (* __NR_utime *)
  row 3 0 0 none None; (* __NR_mknod *)
  row 1 0 0 none None; (* __NR_uselib *)
  row 1 0 0 none None; (* __NR_personality *)
  row 2 0 1 [0; sizeof struct_ustat; 0; 0; 0; 0] None; (* __NR_ustat *)
  row 2 0 1 [0; sizeof struct_statfs; 0; 0; 0; 0] None; (* __NR_statfs *)
  row 2 0 1 [0; sizeof struct_statfs; 0; 0; 0; 0] None; (* __NR_fstatfs *)
  row 3 0 0 none None; (* __NR_sysfs *)
  row 2 0 0 none None; (* __NR_getpriority *)
  row 3 0 0 none None; (* __NR_setpriority *)
  row 2 0 0 none None; (* __NR_sched_setparam *)
  row 2 0 1 [0; sizeof struct_sched_param; 0; 0; 0; 0] None (* __NR_sched_getparam *)
].

(** From __NR_sched_setscheduler (144) on. *)
Definition syscalls_144 : list syscall_desc_t := [
  row 3 0 0 none None; (* __NR_sched_setscheduler *)
  row 1 0 0 none None; (* __NR_sched_getscheduler *)
  row 1 0 0 none None; (* __NR_sched_get_priority_max *)
  row 1 0 0 none None; (* __NR_sched_get_priority_min *)
  row 2 0 1 [0; sizeof struct_timespec; 0; 0; 0; 0] None; (* __NR_sched_rr_get_interval *)
  row 2 0 0 none None; (* __NR_mlock *)
  row 2 0 0 none None; (* __NR_munlock *)
  row 1 0 0 none None; (* __NR_mlockall *)
  row 0 0 0 none None; (* __NR_munlockall *)
  row 0 0 0 none None; (* __NR_vhangup *)
  row 3 1 0 none (Some desc_modify_ldt); (* __NR_modify_ldt *)
  row 2 0 0 none None; (* __NR_pivot_root *)
  row 1 1 0 none (Some desc__sysctl); (* __NR__sysctl *)
  row 5 0 0 none None; (* __NR_prctl *)
  row 2 0 1 none None; (* __NR_arch_prctl *)
  row 1 0 1 [sizeof struct_timex; 0; 0; 0; 0; 0] None; (* __NR_adjtimex *)
  row 2 0 0 none None; (* __NR_setrlimit *)
  row 1 0 0 none None; (* __NR_chroot *)
  row 0 0 0 none None; (* __NR_sync *)
  row 1 0 0 none None; (* __NR_acct *)
  row 2 0 0 none None; (* __NR_settimeofday *)
  row 5 0 0 none None; (* __NR_mount *)
  row 2 0 0 none None; (* __NR_umount2 *)
  row 2 0 0 none None; (* __NR_swapon *)
  row 1 0 0 none None; (* __NR_swapoff *)
  row 4 0 0 none None; (* __NR_reboot *)
  row 2 0 0 none None; (* __NR_sethostname *)
  row 2 0 0 none None; (* __NR_setdomainname *)
  row 1 0 0 none None; (* __NR_iopl *)
  row 3 0 0 none None; (* __NR_ioperm *)
  row 1 0 0 none None; (* __NR_create_module *)
  row 3 0 0 none None; (* __NR_init_module *)
  row 2 0 0 none None; (* __NR_delete_module *)
  row 1 0 0 none None; (* __NR_get_kernel_syms *)
  row 1 0 0 none None; (* __NR_query_module *)
  row 4 1 0 none (Some desc_quotactl); (* __NR_quotactl *)
  row 1 0 0 none None; (* __NR_nfsservctl *)
  row 1 0 0 none None; (* __NR_getpmsg *)
  row 1 0 0 none None; (* __NR_putpmsg *)
  row 1 0 0 none None; (* __NR_afs_syscall *)
  row 1 0 0 none None; (* __NR_tuxcall *)
  row 1 0 0 none None; (* __NR_security *)
  row 0 0 0 none None; (* __NR_gettid *)
  row 3 0 0 none None; (* __NR_readahead *)
  row 5 0 0 none None; (* __NR_setxattr *)
  row 5 0 0 none None; (* __NR_lsetxattr *)
  row 5 0 0 none None; (* __NR_fsetxattr *)
  row 4 1 0 none (Some desc_getxattr) (* __NR_getxattr *)
].

(** From __NR_lgetxattr (192) on. *)
Definition syscalls_192 : list syscall_desc_t := [
  row 4 1 0 none (Some desc_getxattr); (* __NR_lgetxattr *)
  row 4 1 0 none (Some desc_getxattr); (* __NR_fgetxattr *)
  row 3 1 0 none (Some desc_listxattr); (* __NR_listxattr *)
  row 3 1 0 none (Some desc_listxattr); (* __NR_llistxattr *)
  row 3 1 0 none (Some desc_listxattr); (* __NR_flistxattr *)
  row 2 0 0 none None; (* __NR_removexattr *)
  row 2 0 0 none None; (* __NR_lremovexattr *)
  row 2 0 0 none None; (* __NR_fremovexattr *)
  row 2 0 0 none None; (* __NR_tkill *)
  row 1 0 1 [sizeof time_t; 0; 0; 0; 0; 0] None; (* __NR_time *)
  row 6 0 0 none None; (* __NR_futex *)
  row 3 0 0 none None; (* __NR_sched_setaffinity *)
  row 3 0 1 [0; 0; sizeof cpu_set_t; 0; 0; 0] None; (* __NR_sched_getaffinity *)
  row 1 0 0 none None; (* __NR_set_thread_area *)
  row 2 0 1 [0; sizeof aio_context_t; 0; 0; 0; 0] None; (* __NR_io_setup *)
  row 1 0 0 none None; (* __NR_io_destroy *)
  row 4 1 0 none (Some desc_io_getevents); (* __NR_io_getevents *)
  row 3 0 0 none None; (* __NR_io_submit *)
  row 3 0 1 [0; 0; sizeof struct_io_event; 0; 0; 0] None; (* __NR_io_cancel *)
  row 1 0 0 none None; (* __NR_get_thread_area *)
  row 3 1 0 none (Some desc_lookup_dcookie); (* __NR_lookup_dcookie *)
  row 1 0 0 none None; (* __NR_epoll_create *)
  row 1 0 0 none None; (* __NR_epoll_ctl_old *)
  row 1 0 0 none None; (* __NR_epoll_wait_old *)
  row 5 0 0 none None; (* __NR_remap_file_pages *)
  row 3 1 0 none (Some desc_getdents); (* __NR_getdents64 *)
  row 1 0 0 none None; (* __NR_set_tid_address *)
  row 0 0 0 none None; (* __NR_restart_syscall *)
  row 4 0 0 none None; (* __NR_semtimedop *)
  row 4 0 0 none None; (* __NR_fadvise64 *)
  row 3 0 1 [0; 0; sizeof timer_t; 0; 0; 0] None; (* __NR_timer_create *)
  row 4 0 1 [0; 0; 0; sizeof struct_itimerspec; 0; 0] None; (* __NR_timer_settime *)
  row 2 0 1 [0; sizeof struct_itimerspec; 0; 0; 0; 0] None; (* __NR_timer_gettime *)
  row 1 0 0 none None; (* __NR_timer_getoverrun *)
  row 1 0 0 none None; (* __NR_timer_delete *)
  row 2 0 0 none None; (* __NR_clock_settime *)
  row 2 0 1 [0; sizeof struct_timespec; 0; 0; 0; 0] None; (* __NR_clock_gettime *)
  row 2 0 1 [0; sizeof struct_timespec; 0; 0; 0; 0] None; (* __NR_clock_getres *)
  row 4 0 1 [0; 0; 0; sizeof struct_timespec; 0; 0] None; (* __NR_clock_nanosleep *)
  row 1 0 0 none None; (* __NR_exit_group *)
  row 4 1 0 none (Some desc_epoll_wait); (* __NR_epoll_wait *)
  row 4 0 0 none None; (* __NR_epoll_ctl *)
  row 3 0 0 none None; (* __NR_tgkill *)
  row 2 0 0 none None; (* __NR_utimes *)
  row 1 0 0 none None; (* __NR_vserver *)
  row 6 0 0 none None; (* __NR_mbind *)
  row 3 0 0 none None; (* __NR_set_mempolicy *)
  row 5 1 0 none (Some desc_get_mempolicy) (* __NR_get_mempolicy *)
].

(** From __NR_mq_open (240) on. *)
Definition syscalls_240 : list syscall_desc_t := [
  row 4 0 0 none None; (* __NR_mq_open *)
  row 1 0 0 none None; (* __NR_mq_unlink *)
  row 5 0 0 none None; (* __NR_mq_timedsend *)
  row 5 1 0 none (Some desc_mq_timedreceive); (* __NR_mq_timedreceive *)
  row 2 0 0 none None; (* __NR_mq_notify *)
  row 3 0 1 [0; 0; sizeof struct_mq_attr; 0; 0; 0] None; (* __NR_mq_getsetattr *)
  row 4 0 0 none None; (* __NR_kexec_load *)
  row 5 0 1 [0; 0; sizeof siginfo_t; 0; sizeof struct_rusage; 0] None; (* __NR_waitid *)
  row 4 0 0 none None; (* __NR_add_key *)
  row 4 0 0 none None; (* __NR_request_key *)
  row 5 0 0 none None; (* __NR_keyctl *)
  row 3 0 0 none None; (* __NR_ioprio_set *)
  row 2 0 0 none None; (* __NR_ioprio_get *)
  row 0 0 0 none None; (* __NR_inotify_init *)
  row 3 0 0 none None; (* __NR_inotify_add_watch *)
  row 2 0 0 none None; (* __NR_inotify_rm_watch *)
  row 4 0 0 none None; (* __NR_migrate_pages *)
  row 4 0 0 none None; (* __NR_openat *)
  row 3 0 0 none None; (* __NR_mkdirat *)
  row 4 0 0 none None; (* __NR_mknodat *)
  row 5 0 0 none None; (* __NR_fchownat *)
  row 3 0 0 none None; (* __NR_futimesat *)
  row 4 0 1 [0; 0; sizeof struct_stat; 0; 0; 0] None; (* __NR_newfstatat *)
  row 3 0 0 none None; (* __NR_unlinkat *)
  row 4 0 0 none None; (* __NR_renameat *)
  row 5 0 0 none None; (* __NR_linkat *)
  row 3 0 0 none None; (* __NR_symlinkat *)
  row 4 1 0 none (Some desc_readlinkat); (* __NR_readlinkat *)
  row 3 0 0 none None; (* __NR_fchmodat *)
  row 3 0 0 none None; (* __NR_faccessat *)
  row 6 0 1 [0; sizeof fd_set; sizeof fd_set; sizeof fd_set; 0; 0] None; (* __NR_pselect6 *)
  row 5 1 0 none (Some desc_poll); (* __NR_ppoll *)
  row 1 0 0 none None; (* __NR_unshare *)
  row 2 0 0 none None; (* __NR_set_robust_list *)
  row 3 0 1 [0; sizeof_pointer; sizeof_size_t; 0; 0; 0] None; (* __NR_get_robust_list *)
  row 6 0 1 [0; sizeof loff_t; 0; sizeof loff_t; 0; 0] None; (* __NR_splice *)
  row 4 0 0 none None; (* __NR_tee *)
  row 4 0 0 none None; (* __NR_sync_file_range *)
  row 4 0 0 none None; (* __NR_vmsplice *)
  row 6 0 1 [0; 0; 0; 0; sizeof_int; 0] None; (* __NR_move_pages *)
  row 4 0 0 none None; (* __NR_utimensat *)
  row 6 1 0 none None; (* __NR_epoll_pwait *)
  row 3 0 1 [0; sizeof sigset_t; 0; 0; 0; 0] (Some desc_epoll_wait); (* __NR_signalfd *)
  row 2 0 0 none None; (* __NR_timerfd_create *)
  row 1 0 0 none None; (* __NR_eventfd *)
  row 4 0 0 none None; (* __NR_fallocate *)
  row 4 0 1 [0; 0; 0; sizeof struct_itimerspec; 0; 0] None; (* __NR_timerfd_settime *)
  row 2 0 1 [0; sizeof struct_itimerspec; 0; 0; 0; 0] None (* __NR_timerfd_gettime *)
].

(** From __NR_accept4 (288) on. *)
Definition syscalls_288 : list syscall_desc_t := [
  row 4 1 0 none (Some desc_accept); (* __NR_accept4 *)
  row 4 0 0 none None; (* __NR_signalfd4 *)
  row 2 0 0 none None; (* __NR_eventfd2 *)
  row 1 0 0 none None; (* __NR_epoll_create1 *)
  row 3 1 0 none None; (* __NR_dup3 *)
  row 2 0 1 [sizeof_int * 2; 0; 0; 0; 0; 0] None; (* __NR_pipe2 *)
  row 1 0 0 none None; (* __NR_inotify_init1 *)
  row 5 0 0 none None; (* __NR_preadv *)
  row 5 0 0 none None; (* __NR_pwritev *)
  row 4 0 1 [0; 0; 0; sizeof siginfo_t; 0; 0] None; (* __NR_rt_tgsigqueueinfo *)
  row 5 0 1 [sizeof struct_perf_event_attr; 0; 0; 0; 0; 0] None; (* __NR_perf_event_open *)
  row 5 1 0 none (Some desc_recvmmsg); (* __NR_recvmmsg *)
  row 2 0 0 none None; (* __NR_fanotify_init *)
  row 5 0 0 none None; (* __NR_fanotify_mark *)
  row 4 0 1 [0; 0; 0; sizeof struct_rlimit; 0; 0] None; (* __NR_prlimit64 *)
  row 5 0 1 [0; 0; sizeof_file_handle; sizeof_int; 0; 0] None; (* __NR_name_to_handle_at *)
  row 3 0 1 [0; 0; sizeof_file_handle; 0; 0; 0] None; (* __NR_open_by_handle_at *)
  row 2 0 1 [0; sizeof struct_timex; 0; 0; 0; 0] None; (* __NR_clock_adjtime *)
  row 1 0 0 none None; (* __NR_syncfs *)
  row 4 0 0 none None; (* __NR_sendmmsg *)
  row 2 0 0 none None; (* __NR_setns *)
  row 3 0 1 [sizeof_int; sizeof_int; sizeof_getcpu_cache; 0; 0; 0] None; (* __NR_getcpu *)
  row 6 0 0 none None; (* __NR_process_vm_readv *)
  row 6 0 0 none None; (* __NR_process_vm_writev *)
  row 5 0 0 none None; (* __NR_kcmp *)
  row 3 0 0 none None; (* __NR_finit_module *)
  row 3 0 0 none None; (* __NR_sched_setattr *)
  row 4 0 1 [0; sizeof_sched_attr; 0; 0; 0; 0] None (* __NR_sched_getattr *)
].

Definition syscall_desc : list syscall_desc_t :=
  syscalls_0 ++ syscalls_48 ++ syscalls_96 ++ syscalls_144 ++ syscalls_192 ++ syscalls_240 ++
  syscalls_288.
End table.
End SyscallTable.
