(* ===== verification/SyscallPost.v ===== *)
(** The post-syscall callbacks of src/syscall_desc.cpp: each clears the tags of what the system
    call has written to the memory of the application. *)

From S2P Require Import Prelude TagTraits Tagmap SyscallDesc.

Module SyscallPost.
Import TagTraits Tagmap SyscallDesc.

Section post.
Context {B tag : Type} `{TagOps B tag} `{Abi}.
Notation callee := (prog (engine B tag) unit).
Implicit Types (w : world) (ctx : syscall_ctx_t).

(** The tests of the return value: [(long)ctx->ret <= 0] and [< 0]. *)
Definition not_positive ctx : bool := (to_long (ret ctx) <=? 0)%Z.
Definition failed ctx : bool := (to_long (ret ctx) <? 0)%Z.
Definition is_null (p : N) : bool := p =? 0.
(** A [case] of a [switch] on an [int]. *)
Definition is_case (x : N) (c : c_const) : bool := w32 x =? w32 (const c).
Definition has_flag (x : N) (c : c_const) : bool := negb (N.land x (const c) =? 0).

(** A member of a structure at [p], of [n] bytes. *)
Definition member w (n : nat) (p : N) (f : c_field) : N := peek w n (add64 p (offset f)).

(** ** Buffers *)

Definition post_read_hook ctx : callee :=
  if not_positive ctx then mret tt else clrn (arg_of ctx 1) (ret ctx).

Definition post_getgroups_hook ctx : callee :=
  if not_positive ctx || is_null (arg_of ctx 1) then mret tt
  else clrn (arg_of ctx 1) (mul64 (sizeof gid_t) (ret ctx)).

Definition post_readlinkat_hook ctx : callee :=
  if not_positive ctx then mret tt else clrn (arg_of ctx 2) (ret ctx).

(** The context it leaves: the start of a mapping that grows downwards is moved. *)
Definition post_mmap_hook ctx : prog (engine B tag) syscall_ctx_t :=
  let offset := arg_of ctx 1 in
  if ret ctx =? minus1_64 then mret ctx
  else
    let offset :=
      if offset <? PAGE_SZ then PAGE_SZ else sub64 (add64 offset PAGE_SZ) (offset mod PAGE_SZ) in
    let ctx :=
      if has_flag (w32 (arg_of ctx 3)) MAP_GROWSDOWN
      then mk_ctx (nr ctx) (arg ctx) (sub64 (ret ctx) offset) else ctx in
    _ ← clrn (ret ctx) offset;
    mret ctx.

Definition post_epoll_wait_hook ctx : callee :=
  if not_positive ctx then mret tt
  else clrn (arg_of ctx 1) (mul64 (sizeof struct_epoll_event) (ret ctx)).

Definition post_mq_timedreceive_hook ctx : callee :=
  if not_positive ctx then mret tt
  else
    _ ← clrn (arg_of ctx 1) (ret ctx);
    if negb (is_null (arg_of ctx 3)) then clrn (arg_of ctx 3) sizeof_size_t else mret tt.

Definition post_get_mempolicy_hook ctx : callee :=
  let flags := arg_of ctx 4 in
  if failed ctx then mret tt
  else if flags =? 0 then
    _ ← clrn (arg_of ctx 0) sizeof_int;
    clrn (arg_of ctx 1) sizeof_long
  else if has_flag flags MPOL_F_MEMS_ALLOWED then clrn (arg_of ctx 1) sizeof_long
  else if has_flag flags MPOL_F_ADDR && negb (has_flag flags MPOL_F_NODE) then
    _ ← (if negb (is_null (arg_of ctx 0)) then clrn (arg_of ctx 0) sizeof_int else mret tt);
    if negb (is_null (arg_of ctx 1)) then clrn (arg_of ctx 1) sizeof_long else mret tt
  else if has_flag flags MPOL_F_ADDR && has_flag flags MPOL_F_NODE then
    clrn (arg_of ctx 0) sizeof_int
  else if has_flag flags MPOL_F_NODE then clrn (arg_of ctx 0) sizeof_int
  else mret tt.

Definition post_lookup_dcookie_hook ctx : callee :=
  if not_positive ctx then mret tt else clrn (arg_of ctx 1) (ret ctx).

Definition post_io_getevents_hook ctx : callee :=
  if not_positive ctx then mret tt
  else
    _ ← clrn (arg_of ctx 3) (mul64 (sizeof struct_io_event) (ret ctx));
    if negb (is_null (arg_of ctx 4)) then clrn (arg_of ctx 4) (sizeof struct_timespec) else mret tt.

Definition post_listxattr_hook ctx : callee :=
  if not_positive ctx || is_null (arg_of ctx 1) then mret tt else clrn (arg_of ctx 1) (ret ctx).

Definition post_getxattr_hook ctx : callee :=
  if not_positive ctx || is_null (arg_of ctx 2) then mret tt else clrn (arg_of ctx 2) (ret ctx).

Definition post_getdents_hook ctx : callee :=
  if not_positive ctx then mret tt else clrn (arg_of ctx 1) (ret ctx).

Definition post_mincore_hook ctx : callee :=
  if failed ctx then mret tt
  else clrn (arg_of ctx 2) (sub64 (add64 (arg_of ctx 1) PAGE_SZ) 1 / PAGE_SZ).

Definition post_getcwd_hook ctx : callee :=
  if not_positive ctx then mret tt else clrn (arg_of ctx 0) (ret ctx).

Definition post_rt_sigpending_hook ctx : callee :=
  if failed ctx then mret tt else clrn (arg_of ctx 0) (arg_of ctx 1).

Definition post_quotactl_hook ctx : callee :=
  let cmd := w32 (arg_of ctx 0) in
  if failed ctx then mret tt
  else if cmd =? Q_GETFMT then clrn (arg_of ctx 3) sizeof_int
  else if cmd =? Q_GETINFO then clrn (arg_of ctx 3) sizeof_if_dqinfo
  else if cmd =? Q_GETQUOTA then clrn (arg_of ctx 3) sizeof_if_dqblk
  else if cmd =? Q_XGETQSTAT then clrn (arg_of ctx 3) sizeof_fs_quota_stat
  else if cmd =? Q_XGETQUOTA then clrn (arg_of ctx 3) sizeof_fs_disk_quota
  else mret tt.

Definition post_modify_ldt_hook ctx : callee :=
  if not_positive ctx then mret tt else clrn (arg_of ctx 1) (ret ctx).

Definition post_fcntl_hook ctx : callee :=
  if failed ctx then mret tt
  else if is_case (arg_of ctx 1) F_GETLK then clrn (arg_of ctx 2) (sizeof struct_flock)
  else if is_case (arg_of ctx 1) F_GETOWN_EX then clrn (arg_of ctx 2) (sizeof struct_f_owner_ex)
  else mret tt.

Definition post_syslog_hook ctx : callee :=
  let type := w32 (arg_of ctx 0) in
  if not_positive ctx then mret tt
  else if (type =? 2) || (type =? 3) || (type =? 4) then clrn (arg_of ctx 1) (ret ctx)
  else mret tt.

Definition post_msgctl_hook ctx : callee :=
  let cmd := arg_of ctx 1 in
  if failed ctx then mret tt
  else if is_case cmd IPC_STAT || is_case cmd MSG_STAT then clrn (arg_of ctx 2) (sizeof struct_msqid_ds)
  else if is_case cmd IPC_INFO || is_case cmd MSG_INFO then clrn (arg_of ctx 2) (sizeof struct_msginfo)
  else mret tt.

Definition post_shmctl_hook ctx : callee :=
  let cmd := arg_of ctx 1 in
  if failed ctx then mret tt
  else if is_case cmd IPC_STAT || is_case cmd SHM_STAT then clrn (arg_of ctx 2) (sizeof struct_shmid_ds)
  else if is_case cmd IPC_INFO || is_case cmd SHM_INFO then clrn (arg_of ctx 2) (sizeof struct_shminfo)
  else mret tt.

Definition post_msgrcv_hook ctx : callee :=
  if not_positive ctx then mret tt else clrn (arg_of ctx 1) (add64 (ret ctx) sizeof_long).

(** ** Structures in the memory of the application *)

Definition post_semctl_hook w ctx : callee :=
  let buf := member w 8 (arg_of ctx 4) semun_buf in
  let cmd := arg_of ctx 2 in
  if failed ctx then mret tt
  else if is_case cmd IPC_STAT || is_case cmd SEM_STAT then clrn buf (sizeof struct_semid_ds)
  else if is_case cmd IPC_INFO || is_case cmd SEM_INFO then clrn buf (sizeof struct_seminfo)
  else mret tt.

(** A value and its length: [clrn(value, *(int * )length); clrn(length, sizeof(int))]. *)
Definition clear_value w (value length : N) : callee :=
  _ ← clrn value (peek w 4 length);
  clrn length sizeof_int.

Definition post_accept_hook w ctx : callee :=
  if failed ctx then mret tt
  else if negb (is_null (arg_of ctx 1)) then clear_value w (arg_of ctx 1) (arg_of ctx 2)
  else mret tt.

Definition post_recvfrom_hook w ctx : callee :=
  if not_positive ctx then mret tt
  else
    _ ← clrn (arg_of ctx 1) (ret ctx);
    if negb (is_null (arg_of ctx 4)) then clear_value w (arg_of ctx 4) (arg_of ctx 5) else mret tt.

Definition post_getsockopt_hook w ctx : callee :=
  if failed ctx then mret tt else clear_value w (arg_of ctx 3) (arg_of ctx 4).

Definition post__sysctl_hook w ctx : callee :=
  let sa := arg_of ctx 0 in
  if failed ctx then mret tt
  else
    _ ← clrn (member w 8 sa newval) (member w 8 sa newlen);
    if negb (is_null (member w 8 sa oldval)) then
      _ ← clrn (member w 8 sa oldval) (peek w 8 (member w 8 sa oldlenp));
      clrn (member w 8 sa oldlenp) sizeof_size_t
    else mret tt.

Definition post_poll_hook ctx : callee :=
  if not_positive ctx then mret tt
  else
    for_loop (N.to_nat (arg_of ctx 1)) 0 (fun i =>
      let pfd := add64 (arg_of ctx 0) (mul64 i (sizeof struct_pollfd)) in
      clrn (add64 pfd (offset revents)) sizeof_short).

(** The vectors [i], [i + 1], ... of [n] left, of which [tot] bytes have been written; the three
    callbacks that have this loop take the smaller of the two lengths. *)
Fixpoint iov_loop w (iovs : N) (n : nat) (i tot : N) : callee :=
  match n with
  | O => mret tt
  | S n =>
      if 0 <? tot then
        let iov := add64 iovs (mul64 i (sizeof struct_iovec)) in
        let len := member w 8 iov iov_len in
        let iov_tot := if len <=? tot then len else tot in
        _ ← clrn (member w 8 iov iov_base) iov_tot;
        iov_loop w iovs n (i + 1) (tot - iov_tot)
      else mret tt
  end.

(** [i < (int)ctx->arg[SYSCALL_ARG2]]. *)
Definition post_readv_hook w ctx : callee :=
  if not_positive ctx then mret tt
  else iov_loop w (arg_of ctx 1) (Z.to_nat (to_int (arg_of ctx 2))) 0 (ret ctx).

(** What the two callbacks that receive messages do with the header at [m]. *)
Definition clear_header w (m : N) : callee :=
  _ ← (if negb (is_null (member w 8 m msg_name)) then
         _ ← clrn (member w 8 m msg_name) (member w 4 m msg_namelen);
         clrn (add64 m (offset msg_namelen)) sizeof_int
       else mret tt);
  _ ← (if negb (is_null (member w 8 m msg_control)) then
         _ ← clrn (member w 8 m msg_control) (member w 8 m msg_controllen);
         clrn (add64 m (offset msg_controllen)) sizeof_int
       else mret tt);
  clrn (add64 m (offset msg_flags)) sizeof_int.

Definition clear_vectors w (m tot : N) : callee :=
  iov_loop w (member w 8 m msg_iov) (N.to_nat (member w 8 m msg_iovlen)) 0 tot.

Definition post_recvmsg_hook w ctx : callee :=
  if not_positive ctx then mret tt
  else
    _ ← clear_header w (arg_of ctx 1);
    clear_vectors w (arg_of ctx 1) (ret ctx).

(** The test of the timeout ends in a semicolon: its tags are cleared in any case. *)
Definition post_recvmmsg_hook w ctx : callee :=
  if failed ctx then mret tt
  else
    _ ← for_loop (N.to_nat (ret ctx)) 0 (fun i =>
      let msg := add64 (arg_of ctx 1) (mul64 i (sizeof struct_mmsghdr)) in
      _ ← clear_header w msg;
      let tot := member w 4 msg msg_len in
      _ ← clrn (add64 msg (offset msg_len)) sizeof_int;
      clear_vectors w msg tot);
    clrn (arg_of ctx 4) (sizeof struct_timespec).
End post.
End SyscallPost.
