(* ===== verification/MyTool.v ===== *)
(** The tool, tools/mytool.cpp: its callbacks taint what is read from files whose name contains
    "input". *)

From stdpp Require Import strings.
From S2P Require Import Prelude TagTraits Tagmap SyscallDesc SyscallPost.

Module MyTool.
Import TagTraits Tagmap SyscallDesc SyscallPost.

Definition FUZZING_INPUT_FILE : string := "input".

(** [strstr(s, pattern) != NULL]. *)
Fixpoint strstr (s pattern : string) : bool :=
  String.prefix pattern s ||
  match s with
  | EmptyString => false
  | String _ s => strstr s pattern
  end.

(** [for (unsigned int i = 0; i < stop; i++)] with a 64-bit [stop]: [i] wraps around. *)
Fixpoint u32_loop {T} (fuel : nat) (i stop : N) (body : N -> prog T unit) : prog T unit :=
  match fuel with
  | O => no_fuel
  | S fuel => if i <? stop then _ ← body i; u32_loop fuel (w32 (i + 1)) stop body else mret tt
  end.
Definition for_u32 {T} (stop : N) (body : N -> prog T unit) : prog T unit :=
  u32_loop (S (N.to_nat stop)) 0 stop body.

Section tool.
Context {B tag : Type} `{TagOps B tag} `{Abi}.
Notation callee := (prog (tool B tag) unit).
Implicit Types (w : world) (tid : N).

(** [tagmap_setb(addr, tag_alloc<tag_t>(offset, tid))]; [offset] is an [unsigned int]. *)
Definition taint_byte tid (addr offset : N) : callee :=
  on_engine (t ← on_backend (tag_alloc (w32 offset) tid); tagmap_setb addr t).

Definition insert_fd (fd : Z) : callee := modify (fun t => set_fdset ({[ fd ]} ∪ fdset t) t).

(** The name is looked at if it contains the name of the input. *)
Definition track w (fd : Z) (name : N) : callee :=
  if strstr (c_string w name) FUZZING_INPUT_FILE then insert_fd fd else mret tt.

Definition post_open_hook w tid : callee :=
  ctx ← gets (ctx_of tid);
  let fd := to_int (ret ctx) in
  if (fd <? 0)%Z then mret tt else track w fd (arg_of ctx 0).

Definition post_openat_hook w tid : callee :=
  ctx ← gets (ctx_of tid);
  track w (to_int (ret ctx)) (arg_of ctx 1).

Definition post_close_hook tid : callee :=
  ctx ← gets (ctx_of tid);
  if failed ctx then mret tt
  else modify (fun t => set_fdset (fdset t ∖ {[ to_int (arg_of ctx 0) ]}) t).

Definition post_read_hook w tid : callee :=
  ctx ← gets (ctx_of tid);
  let nr := ret ctx in
  if not_positive ctx then mret tt
  else
    let fd := to_int (arg_of ctx 0) in
    let buf := arg_of ctx 1 in
    t ← gets id;
    if decide (fd ∈ fdset t) then
      read_off ←
        (if (fd =? 0)%Z then
           _ ← modify (fun t => set_stdin (w32 (stdin_read_off t + nr)) t);
           mret (stdin_read_off t)
         else mret (sub32 (w32 (lseek w fd)) (w32 nr)));
      for_u32 nr (fun i => taint_byte tid (add64 buf i) (read_off + i))
    else on_engine (clrn buf nr).

Definition post_pread64_hook tid : callee :=
  ctx ← gets (ctx_of tid);
  let nr := ret ctx in
  if not_positive ctx then mret tt
  else
    let fd := to_int (arg_of ctx 0) in
    let buf := arg_of ctx 1 in
    t ← gets id;
    if decide (fd ∈ fdset t) then
      let read_off := w32 (arg_of ctx 3) in
      for_u32 nr (fun i => taint_byte tid (add64 buf i) (read_off + i))
    else on_engine (clrn buf nr).

(** The loop over a vector, [for (size_t i = 0; i < iov_tot; i++)], from the offset [read_off]. *)
Definition taint_vector tid (base iov_tot read_off : N) : callee :=
  for_loop (N.to_nat iov_tot) 0 (fun i => taint_byte tid (add64 base i) (read_off + i)).

Fixpoint readv_loop w tid (tracked : bool) (iovs : N) (n : nat) (i bytes_readed read_off : N) : callee :=
  match n with
  | O => mret tt
  | S n =>
      if 0 <? bytes_readed then
        let iov := add64 iovs (mul64 i (sizeof struct_iovec)) in
        let base := member w 8 iov iov_base in
        let len := member w 8 iov iov_len in
        let iov_tot := if len <=? bytes_readed then len else bytes_readed in
        _ ← (if tracked then taint_vector tid base iov_tot read_off else on_engine (clrn base iov_tot));
        let read_off := if tracked then w32 (read_off + iov_tot) else read_off in
        readv_loop w tid tracked iovs n (i + 1) (bytes_readed - iov_tot) read_off
      else mret tt
  end.

Definition post_readv_hook w tid : callee :=
  ctx ← gets (ctx_of tid);
  if not_positive ctx then mret tt
  else
    t ← gets id;
    let tracked := bool_decide (to_int (arg_of ctx 0) ∈ fdset t) in
    readv_loop w tid tracked (arg_of ctx 1) (Z.to_nat (to_int (arg_of ctx 2))) 0 (ret ctx) 0.

Definition post_mmap_hook tid : callee :=
  ctx ← gets (ctx_of tid);
  if ret ctx =? minus1_64 then mret tt
  else
    let offset := arg_of ctx 1 in
    let fd := to_int (arg_of ctx 4) in
    let addr := ret ctx in
    let offset :=
      if offset <? PAGE_SZ then PAGE_SZ else sub64 (add64 offset PAGE_SZ) (offset mod PAGE_SZ) in
    let ret' := if has_flag (w32 (arg_of ctx 3)) MAP_GROWSDOWN then sub64 addr offset else addr in
    _ ← modify (set_ctx tid (mk_ctx (nr ctx) (arg ctx) ret'));
    t ← gets id;
    if decide (fd ∈ fdset t) then for_u32 offset (fun i => taint_byte tid (add64 addr i) i)
    else on_engine (clrn ret' offset).

(** The callbacks that [main] registers, by the number of the system call. *)
Definition main_hooks : list (nat * callback) :=
  [(2%nat, tool_open); (257%nat, tool_openat); (3%nat, tool_close); (0%nat, tool_read);
   (17%nat, tool_pread64); (19%nat, tool_readv); (9%nat, tool_mmap)].
End tool.

(** [syscall_set_post(&syscall_desc[nr], f)]. *)
Definition set_post (descs : list syscall_desc_t) (nr : nat) (f : callback) : list syscall_desc_t :=
  match descs !! nr with
  | Some desc => <[nr := (syscall_set_post desc (Some f)).2]> descs
  | None => descs
  end.
Definition set_posts (hooks : list (nat * callback)) (descs : list syscall_desc_t) : list syscall_desc_t :=
  fold_left (fun descs h => set_post descs h.1 h.2) hooks descs.
End MyTool.
