(* ===== verification/SyscallHook.v ===== *)
(** The callbacks of src/syscall_hook.cpp, an alternative to those of the tool: they follow the
    copies of a descriptor, and keep a flag that there is a taint. *)

From stdpp Require Import strings.
From S2P Require Import Prelude TagTraits Tagmap SyscallDesc SyscallPost MyTool.

Module SyscallHook.
Import TagTraits Tagmap SyscallDesc SyscallPost MyTool.

Definition FUZZING_INPUT_FILE : string := "cur_input".

Section hook.
Context {B tag : Type} `{TagOps B tag} `{Abi}.
Notation callee := (prog (tool B tag) unit).
Implicit Types (w : world) (tid : N).

Definition is_tainted (t : tool B tag) : bool := tainted t.
Definition is_fuzzing_fd (fd : Z) (t : tool B tag) : bool := (fd =? 0)%Z || bool_decide (fd ∈ fdset t).
Definition add_fuzzing_fd (fd : Z) : callee :=
  if (0 <? fd)%Z then modify (fun t => set_fdset ({[ fd ]} ∪ fdset t) t) else mret tt.
Definition remove_fuzzing_fd (fd : Z) : callee := modify (fun t => set_fdset (fdset t ∖ {[ fd ]}) t).

Definition post_open_hook w tid : callee :=
  ctx ← gets (ctx_of tid);
  let fd := to_int (ret ctx) in
  if (fd <? 0)%Z then mret tt
  else if strstr (c_string w (arg_of ctx 0)) FUZZING_INPUT_FILE then add_fuzzing_fd fd
  else mret tt.

Definition post_openat_hook w tid : callee :=
  ctx ← gets (ctx_of tid);
  let fd := to_int (ret ctx) in
  if strstr (c_string w (arg_of ctx 1)) FUZZING_INPUT_FILE then add_fuzzing_fd fd else mret tt.

Definition post_dup_hook tid : callee :=
  ctx ← gets (ctx_of tid);
  let ret := to_int (ret ctx) in
  if (ret <? 0)%Z then mret tt
  else
    old ← gets (is_fuzzing_fd (to_int (arg_of ctx 0)));
    if (old : bool) then add_fuzzing_fd ret else mret tt.

Definition post_dup2_hook tid : callee :=
  ctx ← gets (ctx_of tid);
  if (to_int (ret ctx) <? 0)%Z then mret tt
  else
    old ← gets (is_fuzzing_fd (to_int (arg_of ctx 0)));
    if (old : bool) then add_fuzzing_fd (to_int (arg_of ctx 1)) else mret tt.

Definition post_close_hook tid : callee :=
  ctx ← gets (ctx_of tid);
  if failed ctx then mret tt
  else
    let fd := to_int (arg_of ctx 0) in
    fuzzing ← gets (is_fuzzing_fd fd);
    if (fuzzing : bool) then remove_fuzzing_fd fd else mret tt.

(** [if (count > nr + 32) count = nr + 32]. *)
Definition limit_count (count nr : N) : N := if add64 nr 32 <? count then add64 nr 32 else count.

(** [nr <= 0] holds for zero only: [nr] is a [size_t]. *)
Definition post_read_hook w tid : callee :=
  ctx ← gets (ctx_of tid);
  let nr := ret ctx in
  if nr =? 0 then mret tt
  else
    let fd := to_int (arg_of ctx 0) in
    let buf := arg_of ctx 1 in
    let count := arg_of ctx 2 in
    fuzzing ← gets (is_fuzzing_fd fd);
    if (fuzzing : bool) then
      _ ← modify set_tainted;
      t ← gets id;
      read_off ←
        (if (fd =? 0)%Z then
           _ ← modify (fun t => set_stdin (w32 (stdin_read_off t + nr)) t);
           mret (stdin_read_off t)
         else mret (sub32 (w32 (lseek w fd)) (w32 nr)));
      for_u32 (limit_count count nr) (fun i => taint_byte tid (add64 buf i) (read_off + i))
    else on_engine (clrn buf nr).

Definition post_pread64_hook tid : callee :=
  ctx ← gets (ctx_of tid);
  let nr := ret ctx in
  if nr =? 0 then mret tt
  else
    let fd := to_int (arg_of ctx 0) in
    let buf := arg_of ctx 1 in
    let count := arg_of ctx 2 in
    let read_off := w32 (arg_of ctx 3) in
    fuzzing ← gets (is_fuzzing_fd fd);
    if (fuzzing : bool) then
      _ ← modify set_tainted;
      for_u32 (limit_count count nr) (fun i => taint_byte tid (add64 buf i) (read_off + i))
    else on_engine (clrn buf count).

(** [PROT_READ] is 1.  The range starts at the address that was asked for. *)
Definition post_mmap_hook tid : callee :=
  ctx ← gets (ctx_of tid);
  let fd := to_int (arg_of ctx 4) in
  if (ret ctx =? minus1_64) || (N.land (arg_of ctx 2) 1 =? 0) then mret tt
  else
    let buf := arg_of ctx 0 in
    let nr := arg_of ctx 1 in
    let read_off := arg_of ctx 5 in
    fuzzing ← gets (is_fuzzing_fd fd);
    if (fuzzing : bool) then
      _ ← modify set_tainted;
      for_u32 nr (fun i => taint_byte tid (add64 buf i) (read_off + i))
    else on_engine (clrn buf nr).

Definition post_munmap_hook tid : callee :=
  ctx ← gets (ctx_of tid);
  if ret ctx =? minus1_64 then mret tt else on_engine (clrn (arg_of ctx 0) (arg_of ctx 1)).

(** The callbacks that [hook_file_syscall] registers. *)
Definition file_hooks : list (nat * callback) :=
  [(2%nat, hook_open); (257%nat, hook_openat); (32%nat, hook_dup); (33%nat, hook_dup2);
   (292%nat, hook_dup2); (3%nat, hook_close); (0%nat, hook_read); (17%nat, hook_pread64);
   (9%nat, hook_mmap); (11%nat, hook_munmap)].
Definition hook_file_syscall : callee :=
  modify (fun t => set_descs (set_posts file_hooks (syscall_descs t)) t).
End hook.
End SyscallHook.
