(* ===== verification/LibdftApi.v ===== *)
(** The entry points of src/libdft_api.cpp for system calls: what happens before and after each
    one.  A callback of [SyscallDesc] is run by [call]. *)

From S2P Require Import Prelude TagTraits Tagmap SyscallDesc SyscallTable SyscallPost MyTool SyscallHook.

Module LibdftApi.
Import TagTraits Tagmap SyscallDesc SyscallTable.

Section api.
Context {B tag : Type} `{TagOps B tag} `{Abi}.
Notation callee := (prog (tool B tag) unit).
Implicit Types (w : world) (tid : N).

(** A callback of syscall_desc.cpp, on the context of the thread. *)
Definition desc_call tid (f : syscall_ctx_t -> prog (engine B tag) unit) : callee :=
  ctx ← gets (ctx_of tid); on_engine (f ctx).

Definition call (f : callback) w tid : callee :=
  match f with
  | desc_read => desc_call tid SyscallPost.post_read_hook
  | desc_fcntl => desc_call tid SyscallPost.post_fcntl_hook
  | desc_mmap =>
      ctx ← gets (ctx_of tid);
      ctx ← on_engine (SyscallPost.post_mmap_hook ctx);
      modify (set_ctx tid ctx)
  | desc_syslog => desc_call tid SyscallPost.post_syslog_hook
  | desc_modify_ldt => desc_call tid SyscallPost.post_modify_ldt_hook
  | desc_quotactl => desc_call tid SyscallPost.post_quotactl_hook
  | desc_readv => desc_call tid (SyscallPost.post_readv_hook w)
  | desc__sysctl => desc_call tid (SyscallPost.post__sysctl_hook w)
  | desc_poll => desc_call tid SyscallPost.post_poll_hook
  | desc_rt_sigpending => desc_call tid SyscallPost.post_rt_sigpending_hook
  | desc_getcwd => desc_call tid SyscallPost.post_getcwd_hook
  | desc_getgroups => desc_call tid SyscallPost.post_getgroups_hook
  | desc_mincore => desc_call tid SyscallPost.post_mincore_hook
  | desc_getdents => desc_call tid SyscallPost.post_getdents_hook
  | desc_getxattr => desc_call tid SyscallPost.post_getxattr_hook
  | desc_listxattr => desc_call tid SyscallPost.post_listxattr_hook
  | desc_io_getevents => desc_call tid SyscallPost.post_io_getevents_hook
  | desc_get_mempolicy => desc_call tid SyscallPost.post_get_mempolicy_hook
  | desc_lookup_dcookie => desc_call tid SyscallPost.post_lookup_dcookie_hook
  | desc_mq_timedreceive => desc_call tid SyscallPost.post_mq_timedreceive_hook
  | desc_readlinkat => desc_call tid SyscallPost.post_readlinkat_hook
  | desc_epoll_wait => desc_call tid SyscallPost.post_epoll_wait_hook
  | desc_recvmmsg => desc_call tid (SyscallPost.post_recvmmsg_hook w)
  | desc_shmctl => desc_call tid SyscallPost.post_shmctl_hook
  | desc_accept => desc_call tid (SyscallPost.post_accept_hook w)
  | desc_recvfrom => desc_call tid (SyscallPost.post_recvfrom_hook w)
  | desc_recvmsg => desc_call tid (SyscallPost.post_recvmsg_hook w)
  | desc_getsockopt => desc_call tid (SyscallPost.post_getsockopt_hook w)
  | desc_semctl => desc_call tid (SyscallPost.post_semctl_hook w)
  | desc_msgrcv => desc_call tid SyscallPost.post_msgrcv_hook
  | desc_msgctl => desc_call tid SyscallPost.post_msgctl_hook
  | tool_open => MyTool.post_open_hook w tid
  | tool_openat => MyTool.post_openat_hook w tid
  | tool_close => MyTool.post_close_hook tid
  | tool_read => MyTool.post_read_hook w tid
  | tool_pread64 => MyTool.post_pread64_hook tid
  | tool_readv => MyTool.post_readv_hook w tid
  | tool_mmap => MyTool.post_mmap_hook tid
  | hook_open => SyscallHook.post_open_hook w tid
  | hook_openat => SyscallHook.post_openat_hook w tid
  | hook_dup => SyscallHook.post_dup_hook tid
  | hook_dup2 => SyscallHook.post_dup2_hook tid
  | hook_close => SyscallHook.post_close_hook tid
  | hook_read => SyscallHook.post_read_hook w tid
  | hook_pread64 => SyscallHook.post_pread64_hook tid
  | hook_mmap => SyscallHook.post_mmap_hook tid
  | hook_munmap => SyscallHook.post_munmap_hook tid
  end.

(** A pointer to a callback that may be [NULL]. *)
Definition call_if (f : option callback) w tid : callee :=
  match f with Some f => call f w tid | None => mret tt end.

Definition desc_at (i : N) : prog (tool B tag) syscall_desc_t :=
  t ← gets id;
  match syscall_descs t !! N.to_nat i with
  | Some desc => mret desc
  | None => exit OutOfBounds
  end.

Definition saves (desc : syscall_desc_t) : bool := negb (N.lor (save_args desc) (retval_args desc) =? 0).

(** The [switch] on the number of arguments: the first [n] are saved, if [n] is between 1
    and 6. *)
Definition dump_args (n : N) (args old : list N) : list N :=
  if (n =? 0) || (6 <? n) then old else take (N.to_nat n) args ++ drop (N.to_nat n) old.

(** [args] are the six registers of arguments, [syscall_nr] the number of the call. *)
Definition sysenter_save w tid (syscall_nr : N) (args : list N) : callee :=
  if SYSCALL_MAX <=? syscall_nr then
    modify (fun t => let c := ctx_of tid t in set_ctx tid (mk_ctx (-1) (arg c) (ret c)) t)
  else
    _ ← modify (fun t => let c := ctx_of tid t in
          set_ctx tid (mk_ctx (Z.of_N syscall_nr) (arg c) (ret c)) t);
    desc ← desc_at syscall_nr;
    if saves desc then
      _ ← modify (fun t => let c := ctx_of tid t in
            set_ctx tid (mk_ctx (nr c) (dump_args (nargs desc) args (arg c)) (ret c)) t);
      call_if (pre desc) w tid
    else mret tt.

(** The loop over the arguments map. *)
Definition clear_args (desc : syscall_desc_t) (ctx : syscall_ctx_t) : prog (engine B tag) unit :=
  for_loop (N.to_nat (nargs desc)) 0 (fun i =>
    let n := default 0 (map_args desc !! N.to_nat i) in
    if (0 <? n) && negb (arg_of ctx (N.to_nat i) =? 0) then clrn (arg_of ctx (N.to_nat i)) n
    else mret tt).

(** [retval] is the value the call returns.  It is an unsigned word, so that the test
    [ret < 0] never holds. *)
Definition sysexit_save w tid (retval : N) : callee :=
  ctx ← gets (ctx_of tid);
  if (nr ctx <? 0)%Z then mret tt
  else
    desc ← desc_at (Z.to_N (nr ctx));
    if saves desc then
      _ ← modify (fun t => let c := ctx_of tid t in set_ctx tid (mk_ctx (nr c) (arg c) retval) t);
      match post desc with
      | Some f => call f w tid
      | None =>
          ctx ← gets (ctx_of tid);
          if ret ctx <? 0 then mret tt else on_engine (clear_args desc ctx)
      end
    else mret tt.

(** The state after [libdft_init] and [main] of the tool. *)
Definition tool_start (e : engine B tag) : tool B tag :=
  mk_tool e ∅ 0 false (MyTool.set_posts MyTool.main_hooks syscall_desc) ∅.

End api.
End LibdftApi.
