(* ===== verification/SyscallFacts.v ===== *)
(** What the callbacks of system calls do to the tags: all clear ranges of memory, but those that
    taint what is read from an input. *)

From S2P Require Import Prelude TagTraits Tagmap TagmapFacts SyscallDesc SyscallTable SyscallPost.
From S2P Require Import MyTool SyscallHook LibdftApi.

Module SyscallFacts.
Import TagTraits Tagmap TagmapFacts SyscallDesc SyscallTable SyscallPost SyscallHook MyTool LibdftApi.

Section facts.
Context {B tag : Type} `{TagLaws B tag} `{Abi}.
Notation engine := (engine B tag).
Notation tool := (tool B tag).
Implicit Types (e : engine) (t : tool) (w : world) (ctx : syscall_ctx_t) (R : N -> Prop).

(** ** Clearing *)

(** The bytes of memory in [R] are cleared, and no others. *)
Definition cleared R e e' : Prop :=
  engine_inv e' /\ later e e' /\
  forall l o, mapped l -> offs e' l o <-> offs e l o /\ forall a, l = Mem a -> ~ R a.

Definition nowhere : N -> Prop := fun _ => False.
Definition union_of R R' : N -> Prop := fun a => R a \/ R' a.
(** What [tagmap_clrn] goes through; it is empty when the range wraps around. *)
Definition range (addr n : N) : N -> Prop := fun a => addr <= a < add64 addr (w32 n).

Lemma cleared_refl e : engine_inv e -> cleared nowhere e e.
Proof. intros Hi. split; [done|]. split; [reflexivity|]. intros l o _. unfold nowhere. naive_solver. Qed.

Lemma cleared_trans R R' e1 e2 e3 : cleared R e1 e2 -> cleared R' e2 e3 -> cleared (union_of R R') e1 e3.
Proof.
  intros (_ & Hl1 & H12) (Hi & Hl2 & H23). split; [done|]. split; [by etrans|].
  intros l o Hm. rewrite H23, H12 by done. unfold union_of. naive_solver.
Qed.

Lemma cleared_ext R R' e e' : (forall a, R a <-> R' a) -> cleared R e e' -> cleared R' e e'.
Proof.
  intros Hr (Hi & Hl & Ho). split; [done|]. split; [done|]. intros l o Hm. rewrite Ho by done.
  by setoid_rewrite Hr.
Qed.

Lemma clrb_cleared a e E :
  engine_inv e -> wp (tagmap_clrb a) (fun _ e' => cleared (fun b => b = a) e e') E e.
Proof.
  intros Hi. destruct (tag_cleared _ (proj1 Hi)) as [Hok Hno]. destruct (N.ltb_spec last_address a) as [Ha|Ha].
  - unfold tagmap_clrb, tagmap_setb. wp_step. unfold tag_dir_setb_save_mem.
    rewrite (proj2 (N.ltb_lt _ _)) by done. destruct e as [s d g]; cbn. split; [done|]. split; [reflexivity|].
    intros l o Hm. split; [|by intros [? _]]. intros Ho. split; [done|]. intros b -> ->. cbn in Hm. lia.
  - eapply wp_mono; [apply (set_moved (Mem a) cleared_val (fun _ => False) E e Hi Ha Hok)|].
    + intros o. split; [intros Ho; by destruct (Hno o)|done].
    + intros [] e' (Hi' & Hl & Hset & Hrest). split; [done|]. split; [done|]. intros l o Hm.
      destruct (decide (l = Mem a)) as [->|Hne].
      * rewrite (Hset 0 o ltac:(lia)). naive_solver.
      * rewrite Hrest by done. naive_solver.
Qed.

Lemma clrn_cleared addr n e E :
  engine_inv e -> wp (clrn addr n) (fun _ e' => cleared (range addr n) e e') E e.
Proof.
  intros Hi. unfold clrn, range, tagmap_clrn. set (k := w32 n). set (stop := add64 addr k).
  assert (stop < 2 ^ 64) as Hs by apply w64_lt.
  assert (N.to_nat (stop - addr) < S (N.to_nat k))%nat as Hf.
  { assert (stop <= addr + k); [|lia]. unfold stop, add64. rewrite w64_mod. apply N.Div0.mod_le. }
  unfold wp at 1. rewrite clrn_loop_for by done.
  apply (wp_for (fun i e' => cleared (fun a => addr <= a < i) e e')).
  - apply (cleared_ext nowhere); [unfold nowhere; lia|by apply cleared_refl].
  - intros i e1 Hi1 Hc. eapply wp_mono; [apply clrb_cleared, Hc|]. intros [] e2 Hc2.
    eapply cleared_ext; [|by eapply cleared_trans]. unfold union_of. intros a. lia.
  - intros e1. apply cleared_ext. intros a. lia.
Qed.

(** ** Programs that only clear *)

Definition clears {A} (p : prog engine A) : Prop := forall e,
  engine_inv e -> wp p (fun _ e' => exists R, cleared R e e') (fun _ _ => False) e.

Lemma clears_ret {A} (a : A) : clears (mret a).
Proof. intros e Hi. apply wp_ret. exists nowhere. by apply cleared_refl. Qed.

Lemma clears_clrn addr n : clears (clrn addr n).
Proof. intros e Hi. eapply wp_mono; [by apply clrn_cleared|]. intros [] e' Hc. by eexists. Qed.

Lemma clears_bind {A C} (p : prog engine A) (k : A -> prog engine C) :
  clears p -> (forall a, clears (k a)) -> clears (p ≫= k).
Proof.
  intros Hp Hk e Hi. apply wp_bind. eapply wp_mono; [by apply Hp|]. intros a e1 [R1 H1'].
  eapply wp_mono; [apply Hk, H1'|]. intros c e2 [R2 H2']. exists (union_of R1 R2). by eapply cleared_trans.
Qed.

Lemma clears_if {A} (b : bool) (p q : prog engine A) : clears p -> clears q -> clears (if b then p else q).
Proof. by destruct b. Qed.

Lemma clears_for n first (body : N -> prog engine unit) :
  (forall i, clears (body i)) -> clears (for_loop n first body).
Proof.
  intros Hb. revert first. induction n as [|n IH]; intros first; [apply clears_ret|].
  cbn [for_loop]. by apply clears_bind.
Qed.

Lemma clears_iov w iovs n i tot : clears (iov_loop w iovs n i tot).
Proof.
  revert i tot. induction n as [|n IH]; intros i tot; [apply clears_ret|]. cbn [iov_loop].
  apply clears_if; [|apply clears_ret]. by apply clears_bind; [apply clears_clrn|].
Qed.

Create HintDb clears.
#[local] Hint Resolve clears_ret clears_clrn clears_bind clears_if clears_for clears_iov : clears.

(** The callbacks of syscall_desc.cpp. *)
Ltac clears := intros; repeat progress (cbv zeta; match goal with
  | |- clears (_ ≫= _) => apply clears_bind; [|intros ?]
  | |- clears (if _ then _ else _) => apply clears_if
  | |- clears (for_loop _ _ _) => apply clears_for; intros ?
  | |- clears (clrn _ _) => apply clears_clrn
  | |- clears (mret _) => apply clears_ret
  | |- clears (iov_loop _ _ _ _ _) => apply clears_iov
  | |- clears (clear_value _ _ _) => unfold clear_value
  | |- clears (clear_header _ _) => unfold clear_header
  | |- clears (clear_vectors _ _ _) => unfold clear_vectors
  end).

Lemma clears_args desc ctx : clears (clear_args desc ctx).
Proof. unfold clear_args. clears. Qed.

(** The memory that the arguments map of a call gives away, for the arguments [arg]. *)
Definition arg_ranges (desc : syscall_desc_t) (arg : nat -> N) (k : N) : N -> Prop := fun a =>
  exists i n, N.of_nat i < k /\ map_args desc !! i = Some n /\ 0 < n /\ arg i <> 0 /\ range (arg i) n a.

Lemma arg_ranges_next desc arg k a :
  arg_ranges desc arg (k + 1) a <->
  arg_ranges desc arg k a \/
    (0 < default 0 (map_args desc !! N.to_nat k) /\ arg (N.to_nat k) <> 0 /\
     range (arg (N.to_nat k)) (default 0 (map_args desc !! N.to_nat k)) a).
Proof.
  unfold arg_ranges. split.
  - intros (i & n & Hi & Hn & Hpos & Hne & Hr). destruct (decide (i = N.to_nat k)) as [->|Hik].
    + right. by rewrite Hn.
    + left. exists i, n. split; [lia|done].
  - intros [(i & n & Hi & ?)|(Hpos & Hne & Hr)]; [exists i, n; split; [lia|done]|].
    destruct (map_args desc !! N.to_nat k) as [n|] eqn:En; cbn in *; [|lia].
    exists (N.to_nat k), n. split_and!; [lia|done..].
Qed.

Lemma arg_ranges_ext desc arg arg' k a :
  (forall i, N.of_nat i < k -> arg i = arg' i) -> arg_ranges desc arg k a <-> arg_ranges desc arg' k a.
Proof.
  intros Hx. unfold arg_ranges. split; intros (i & n & Hi & Hr); exists i, n; (split; [done|]).
  - by rewrite <- Hx.
  - by rewrite Hx.
Qed.

Lemma clear_args_cleared desc ctx e :
  engine_inv e ->
  wp (clear_args desc ctx)
    (fun _ e' => cleared (arg_ranges desc (arg_of ctx) (nargs desc)) e e') (fun _ _ => False) e.
Proof.
  intros Hi. unfold clear_args.
  apply (wp_for (fun k e' => cleared (arg_ranges desc (arg_of ctx) k) e e')).
  - apply (cleared_ext nowhere); [|by apply cleared_refl]. intros a. unfold nowhere. split; [done|].
    intros (i & n & ? & _). lia.
  - intros k e1 _ Hc. cbv zeta. set (n := default 0 _).
    destruct (N.ltb_spec 0 n) as [Hn|Hn]; [destruct (N.eqb_spec (arg_of ctx (N.to_nat k)) 0) as [Hz|Hz]|]; cbn [negb andb].
    + wp_step. eapply cleared_ext; [|exact Hc]. intros a. rewrite arg_ranges_next. tauto.
    + eapply wp_mono; [apply clrn_cleared, Hc|]. intros [] e2 Hc2.
      eapply cleared_ext; [|by eapply cleared_trans]. intros a. unfold union_of. rewrite arg_ranges_next. tauto.
    + wp_step. eapply cleared_ext; [|exact Hc]. intros a. rewrite arg_ranges_next. fold n. split; [tauto|].
      intros [?|[? _]]; [done|lia].
  - intros e1. by rewrite N.add_0_l, N2Nat.id.
Qed.

Lemma clears_mmap ctx : clears (SyscallPost.post_mmap_hook ctx).
Proof. unfold SyscallPost.post_mmap_hook. clears. Qed.

(** A tool state after another: only tags of memory have been cleared. *)
Definition only_cleared (t t' : tool) : Prop := exists R, cleared R (eng t) (eng t').

Definition quiet {A} (p : prog tool A) (t : tool) : Prop :=
  wp p (fun _ t' => only_cleared t t') (fun _ _ => False) t.

Lemma only_cleared_refl t t' : engine_inv (eng t) -> eng t' = eng t -> only_cleared t t'.
Proof. intros Hi He. exists nowhere. rewrite He. by apply cleared_refl. Qed.

Lemma on_engine_quiet {A} (p : prog engine A) t : engine_inv (eng t) -> clears p -> quiet (on_engine p) t.
Proof.
  intros Hi Hp. specialize (Hp (eng t) Hi). unfold quiet, wp, on_engine in *. by destruct (p (eng t)).
Qed.

Lemma desc_call_quiet tid f t : engine_inv (eng t) -> (forall c, clears (f c)) -> quiet (desc_call tid f) t.
Proof. intros Hi Hf. unfold desc_call, quiet. wp_step. apply wp_gets. by apply on_engine_quiet. Qed.

(** The callbacks that may taint, when the descriptor is one of the input. *)
Definition source (f : callback) (ctx : syscall_ctx_t) t : Prop :=
  match f with
  | tool_read | tool_pread64 | tool_readv => to_int (arg_of ctx 0) ∈ fdset t
  | tool_mmap => to_int (arg_of ctx 4) ∈ fdset t
  | hook_read | hook_pread64 => to_int (arg_of ctx 0) = 0%Z \/ to_int (arg_of ctx 0) ∈ fdset t
  | hook_mmap => to_int (arg_of ctx 4) = 0%Z \/ to_int (arg_of ctx 4) ∈ fdset t
  | _ => False
  end.

Lemma readv_loop_clears w tid iovs n i bytes off t :
  engine_inv (eng t) -> quiet (readv_loop w tid false iovs n i bytes off) t.
Proof.
  revert i bytes t. induction n as [|n IH]; intros i bytes t Hi; cbn [readv_loop].
  - apply wp_ret. by apply only_cleared_refl.
  - destruct (0 <? bytes); [|apply wp_ret; by apply only_cleared_refl]. unfold quiet. wp_step.
    eapply wp_mono; [apply (on_engine_quiet _ t Hi (clears_clrn _ _))|]. intros [] t1 [R1 H1'].
    eapply wp_mono; [apply IH, H1'|]. intros [] t2 [R2 H2']. exists (union_of R1 R2). by eapply cleared_trans.
Qed.

Lemma clrn_quiet addr n t t' : engine_inv (eng t) -> eng t' = eng t -> 
  wp (on_engine (clrn addr n)) (fun _ t2 => only_cleared t t2) (fun _ _ => False) t'.
Proof.
  intros Hi He. rewrite <- He in Hi. eapply wp_mono; [apply (on_engine_quiet _ t' Hi (clears_clrn addr n))|].
  intros [] t2 [R Hc]. exists R. by rewrite <- He.
Qed.

(** Steps that leave the engine alone, up to a last one that clears. *)
Ltac quiet Hi :=
  repeat (cbv zeta; cbn [id]; first
    [ wp_step
    | match goal with |- wp (if ?b then _ else _) _ _ _ => destruct b eqn:? end
    | apply only_cleared_refl; [exact Hi|reflexivity]
    | apply clrn_quiet; [exact Hi|reflexivity] ]).

Lemma mmap_quiet tid t :
  engine_inv (eng t) -> quiet (ctx ← gets (ctx_of tid);
    ctx ← on_engine (SyscallPost.post_mmap_hook ctx); modify (set_ctx tid ctx)) t.
Proof.
  intros Hi. unfold quiet. do 3 wp_step. eapply wp_mono; [apply (on_engine_quiet _ t Hi), clears_mmap|].
  intros c t1 Ht. by wp_step.
Qed.

Lemma fuzzing_source fd t : is_fuzzing_fd fd t = true -> fd = 0%Z \/ fd ∈ fdset t.
Proof. unfold is_fuzzing_fd. rewrite orb_true_iff, Z.eqb_eq, bool_decide_eq_true. done. Qed.

Lemma call_quiet f w tid t :
  engine_inv (eng t) -> ~ source f (ctx_of tid t) t -> quiet (call f w tid) t.
Proof.
  intros Hi Hs. destruct f; cbn [call]; cbn [source] in Hs;
    try (apply desc_call_quiet; [exact Hi|]; intros c;
      unfold SyscallPost.post_read_hook, post_getgroups_hook, post_readlinkat_hook, post_epoll_wait_hook,
        post_mq_timedreceive_hook, post_get_mempolicy_hook, post_lookup_dcookie_hook,
        post_io_getevents_hook, post_listxattr_hook, post_getxattr_hook, post_getdents_hook,
        post_mincore_hook, post_getcwd_hook, post_rt_sigpending_hook, post_quotactl_hook,
        post_modify_ldt_hook, post_fcntl_hook, post_syslog_hook, post_msgctl_hook, post_shmctl_hook,
        post_msgrcv_hook, post_semctl_hook, post_accept_hook, post_recvfrom_hook, post_getsockopt_hook,
        post__sysctl_hook, post_poll_hook, SyscallPost.post_readv_hook, post_recvmsg_hook, post_recvmmsg_hook;
      clears; fail).
  - apply (mmap_quiet tid t Hi).
  - unfold post_open_hook, track, insert_fd, quiet. quiet Hi.
  - unfold post_openat_hook, track, insert_fd, quiet. quiet Hi.
  - unfold post_close_hook, quiet. quiet Hi.
  - unfold post_read_hook, quiet. quiet Hi; by destruct Hs.
  - unfold post_pread64_hook, quiet. quiet Hi; by destruct Hs.
  - unfold post_readv_hook, quiet. quiet Hi. rewrite bool_decide_eq_false_2 by done. by apply readv_loop_clears.
  - unfold post_mmap_hook, quiet. quiet Hi; by destruct Hs.
  - unfold SyscallHook.post_open_hook, add_fuzzing_fd, quiet. quiet Hi.
  - unfold SyscallHook.post_openat_hook, add_fuzzing_fd, quiet. quiet Hi.
  - unfold post_dup_hook, add_fuzzing_fd, quiet. quiet Hi.
  - unfold post_dup2_hook, add_fuzzing_fd, quiet. quiet Hi.
  - unfold SyscallHook.post_close_hook, remove_fuzzing_fd, quiet. quiet Hi.
  - unfold SyscallHook.post_read_hook, quiet. quiet Hi; exfalso; by apply Hs, fuzzing_source.
  - unfold SyscallHook.post_pread64_hook, quiet. quiet Hi; exfalso; by apply Hs, fuzzing_source.
  - unfold SyscallHook.post_mmap_hook, quiet. quiet Hi; exfalso; by apply Hs, fuzzing_source.
  - unfold post_munmap_hook, quiet. quiet Hi.
Qed.

(** ** A system call *)

Definition post_of t tid : option callback :=
  desc ← syscall_descs t !! N.to_nat (Z.to_N (nr (ctx_of tid t))); post desc.

Lemma sysexit_quiet w tid retval t :
  engine_inv (eng t) ->
  (nr (ctx_of tid t) < Z.of_nat (length (syscall_descs t)))%Z ->
  (forall f, post_of t tid = Some f -> ~ source f (mk_ctx 0 (arg (ctx_of tid t)) 0) t) ->
  quiet (sysexit_save w tid retval) t.
Proof.
  intros Hi Hn Hs. unfold sysexit_save, desc_at, quiet. do 2 wp_step. unfold post_of in Hs.
  destruct (Z.ltb_spec (nr (ctx_of tid t)) 0) as [Hneg|Hpos]; [wp_step; by apply only_cleared_refl|].
  destruct (lookup_lt_is_Some_2 (syscall_descs t) (N.to_nat (Z.to_N (nr (ctx_of tid t)))) ltac:(lia))
    as [desc Hd].
  do 3 wp_step. cbn [id]. rewrite Hd in Hs |- *. wp_step. cbn in Hs.
  destruct (saves desc); [|wp_step; by apply only_cleared_refl]. do 2 wp_step.
  set (t1 := set_ctx _ _ t). destruct (post desc) as [f|].
  - apply (call_quiet f w tid t1 Hi). intros Hf. apply (Hs f eq_refl).
    assert (ctx_of tid t1 = mk_ctx (nr (ctx_of tid t)) (arg (ctx_of tid t)) retval) as Hc
      by (unfold ctx_of at 1, t1; cbn; by rewrite lookup_insert_eq).
    rewrite Hc in Hf. by destruct f.
  - wp_step. wp_step. destruct (_ <? 0); [wp_step; by apply only_cleared_refl|].
    apply (on_engine_quiet _ t1 Hi), clears_args.
Qed.
End facts.
End SyscallFacts.
