(* ===== verification/SyscallTaint.v ===== *)
(** Taint sources: what the callbacks that read from an input do to the tags. *)

From S2P Require Import Prelude TagTraits Tagmap TagmapFacts SyscallDesc SyscallTable SyscallPost.
From S2P Require Import MyTool SyscallHook LibdftApi SyscallFacts.

Module SyscallTaint.
Import TagTraits Tagmap TagmapFacts SyscallDesc SyscallTable SyscallPost MyTool LibdftApi SyscallFacts.

Section facts.
Context {B tag : Type} `{TagLaws B tag} `{Abi}.
Notation engine := (engine B tag).
Notation tool := (tool B tag).
Implicit Types (e : engine) (t : tool) (w : world) (L : list N).

(** ** Labelled bytes *)

(** The bytes at the addresses [L] have one offset each, from [off] on; offsets have 32 bits. *)
Definition labelled L (off : N) e e' : Prop :=
  engine_inv e' /\ later e e' /\
  (forall i a o, L !! N.to_nat i = Some a -> offs e' (Mem a) o <-> o = w32 (off + i)) /\
  (forall l o, mapped l -> (forall a, a ∈ L -> l <> Mem a) -> offs e' l o <-> offs e l o).

Definition all_mapped L : Prop := forall a, a ∈ L -> a <= last_address.
(** The offsets that the tags of a build can tell apart. *)
Definition in_bound (off n : N) : Prop := forall i, i < n -> w32 (off + i) < tag_bound.

Lemma labelled_nil off e : engine_inv e -> labelled [] off e e.
Proof. intros Hi. split; [done|]. split; [reflexivity|]. by split. Qed.

Lemma labelled_app L1 L2 off e1 e2 e3 :
  NoDup (L1 ++ L2) -> all_mapped L1 -> labelled L1 off e1 e2 ->
  labelled L2 (w32 (off + N.of_nat (length L1))) e2 e3 -> labelled (L1 ++ L2) off e1 e3.
Proof.
  intros Hnd Hm (_ & Hl1 & Hs1 & Hr1) (Hi & Hl2 & Hs2 & Hr2). apply NoDup_app in Hnd as (_ & Hdis & _).
  split; [done|]. split; [by etrans|]. split.
  - intros i a o [Ha|[Hlen Ha]]%lookup_app_Some.
    + pose proof (list_elem_of_lookup_2 _ _ _ Ha) as Hin.
      rewrite Hr2; [by apply (Hs1 i)|by apply Hm|]. intros b Hb [= ->]. by apply (Hdis b).
    + rewrite (Hs2 (i - N.of_nat (length L1)) a o); [|by rewrite N2Nat.inj_sub, Nat2N.id].
      assert (w32 (w32 (off + N.of_nat (length L1)) + (i - N.of_nat (length L1))) = w32 (off + i)) as ->; [|done].
      unfold w32. change 0xFFFFFFFF with (N.ones 32). rewrite !N.land_ones, N.Div0.add_mod_idemp_l.
      f_equal. lia.
  - intros l o Hlm Hno. rewrite Hr2; [apply Hr1|..]; try done; intros a Ha; apply Hno, elem_of_app; auto.
Qed.

(** ** One byte *)

Lemma alloc_labelled tid addr off e :
  engine_inv e -> addr <= last_address -> w32 off < tag_bound -> tag_thread tid ->
  wp (t ← on_backend (tag_alloc (w32 off) tid); tagmap_setb addr t)
    (fun _ e' => labelled [addr] off e e') ends e.
Proof.
  intros Hi Ha Ho Ht. wp_step. pose proof (tag_alloc_spec _ (w32 off) tid (proj1 Hi) Ho Ht) as Hw.
  unfold wp at 1, on_backend. unfold wp in Hw.
  destruct (tag_alloc (w32 off) tid (backend e)) as [v s|x s|]; [|done..].
  destruct Hw as (Hs & Hl & Hok & Hoffs). set (e1 := mk_engine s (tag_dir e) (gpr e)).
  assert (later e e1) as Hl1 by exact Hl. assert (same_tags e e1) as Hsame by by intros [|].
  pose proof (same_inv e e1 Hi Hs Hl1 Hsame) as Hi1.
  eapply wp_mono; [apply (set_moved (Mem addr) v (fun o => o = w32 off) ends e1 Hi1 Ha Hok Hoffs)|].
  intros [] e2 (Hi2 & Hl2 & Hset & Hrest). split; [done|]. split; [by etrans|]. split.
  - intros i a o Hin. assert (i = 0) as ->.
    { apply lookup_lt_Some in Hin. cbn in Hin. lia. }
    injection Hin as <-. rewrite N.add_0_r. apply (Hset 0 o). lia.
  - intros l o Hm Hno. rewrite Hrest; [by apply same_offs|done|]. intros _ _. apply Hno. by left.
Qed.

(** ** Lifting to the tool *)

Lemma wp_on_engine {A} (p : prog engine A) (R : A -> engine -> Prop) E t :
  wp p R E (eng t) ->
  wp (on_engine p) (fun a t' => exists e', t' = set_eng e' t /\ R a e') (fun x t' => E x (eng t')) t.
Proof.
  unfold wp, on_engine. destruct (p (eng t)) as [a e|x e|]; [|done..]. intros Hr. by exists e.
Qed.

Definition ends_tool (x : exit_reason) t : Prop := ends x (eng t).

Lemma taint_byte_spec tid addr off t :
  engine_inv (eng t) -> addr <= last_address -> w32 off < tag_bound -> tag_thread tid ->
  wp (taint_byte tid addr off)
    (fun _ t' => exists e', t' = set_eng e' t /\ labelled [addr] off (eng t) e') ends_tool t.
Proof. intros Hi Ha Ho Ht. unfold taint_byte. by apply wp_on_engine, alloc_labelled. Qed.

(** The loop with a 32-bit counter is a loop, as long as the bound has 32 bits. *)
Lemma u32_loop_for {T} fuel i stop (body : N -> prog T unit) (s : T) :
  stop < 2 ^ 32 -> (N.to_nat (stop - i) < fuel)%nat ->
  u32_loop fuel i stop body s = for_loop (N.to_nat (stop - i)) i body s.
Proof.
  intros Hs. revert i s. induction fuel as [|fuel IH]; intros i s Hf; [lia|]. cbn [u32_loop].
  destruct (N.ltb_spec i stop) as [Hlt|Hge].
  - replace (N.to_nat (stop - i)) with (S (N.to_nat (stop - (i + 1)))) by lia. cbn [for_loop].
    unfold mbind, prog_bind. destruct (body i s) as [[] s1|x s1|]; [|done..].
    rewrite w32_small by lia. apply IH. lia.
  - by replace (stop - i) with 0 by lia.
Qed.

(** A bound of 33 bits or more is never reached. *)
Lemma u32_loop_forever {T} fuel i stop (body : N -> prog T unit) (s : T) :
  2 ^ 32 <= stop -> i < 2 ^ 32 ->
  match u32_loop fuel i stop body s with Done _ _ => False | _ => True end.
Proof.
  intros Hs. revert i s. induction fuel as [|fuel IH]; intros i s Hi; [done|]. cbn [u32_loop].
  rewrite (proj2 (N.ltb_lt i stop)) by lia. unfold mbind, prog_bind.
  destruct (body i s) as [[] s1|x s1|]; [|done..]. apply IH.
  unfold w32. change 0xFFFFFFFF with (N.ones 32). rewrite N.land_ones. by apply N.mod_lt.
Qed.

(** The addresses from [base] on. *)
Definition bytes_at (base n : N) : list N := map (fun i => base + i) (nseq 0 (N.to_nat n)).

Lemma length_bytes base n : length (bytes_at base n) = N.to_nat n.
Proof. unfold bytes_at. by rewrite length_map, length_nseq. Qed.

Lemma elem_of_bytes base n a : a ∈ bytes_at base n <-> base <= a < base + n.
Proof.
  unfold bytes_at. rewrite list_elem_of_fmap. setoid_rewrite elem_of_nseq. split.
  - intros (i & -> & ?). lia.
  - intros ?. exists (a - base). lia.
Qed.

Lemma bytes_snoc base i : bytes_at base (i + 1) = bytes_at base i ++ [base + i].
Proof.
  unfold bytes_at. replace (N.to_nat (i + 1)) with (S (N.to_nat i)) by lia.
  rewrite nseq_snoc, map_app. cbn. by rewrite N2Nat.id.
Qed.

Lemma NoDup_bytes base n : NoDup (bytes_at base n).
Proof. unfold bytes_at. apply (NoDup_fmap_2_strong (fun i => base + i)); [intros; lia|apply NoDup_nseq]. Qed.

Lemma taint_for tid base n off t :
  engine_inv (eng t) -> base + n <= last_address + 1 -> in_bound off n -> tag_thread tid ->
  wp (for_loop (N.to_nat n) 0 (fun i => taint_byte tid (add64 base i) (off + i)))
    (fun _ t' => exists e', t' = set_eng e' t /\ labelled (bytes_at base n) off (eng t) e') ends_tool t.
Proof.
  intros Hi Hb Ho Ht. unfold last_address in Hb.
  apply (wp_for (fun i t' => exists e', t' = set_eng e' t /\ labelled (bytes_at base i) off (eng t) e')).
  - exists (eng t). split; [by destruct t|by apply labelled_nil].
  - intros i t1 Hin (e1 & -> & Hl). rewrite N2Nat.id in Hin. pose proof Hl as [Hi1 _].
    assert (add64 base i = base + i) as -> by (apply w64_small; lia).
    eapply wp_mono; [apply (taint_byte_spec tid (base + i) (off + i) (set_eng e1 t) Hi1)|].
    + unfold last_address. lia.
    + apply Ho. lia.
    + done.
    + intros [] t2 (e2 & -> & Hl2). exists e2. split; [done|]. rewrite bytes_snoc.
      apply (labelled_app _ _ _ _ e1); [|intros a Ha%elem_of_bytes; unfold last_address; lia|done|].
      * rewrite <- bytes_snoc. apply NoDup_bytes.
      * rewrite length_bytes, N2Nat.id. destruct Hl2 as (? & ? & Hs & ?). split_and!; [done..| |done].
        intros j a o Hj. rewrite (Hs j a o Hj). apply lookup_lt_Some in Hj as Hj'. cbn in Hj'.
        assert (j = 0) as -> by lia. rewrite !N.add_0_r. unfold w32.
        by rewrite <- N.land_assoc, N.land_diag.
  - intros t1. by rewrite N2Nat.id.
Qed.

Lemma taint_u32 tid base n off t :
  n < 2 ^ 32 -> engine_inv (eng t) -> base + n <= last_address + 1 -> in_bound off n -> tag_thread tid ->
  wp (for_u32 n (fun i => taint_byte tid (add64 base i) (off + i)))
    (fun _ t' => exists e', t' = set_eng e' t /\ labelled (bytes_at base n) off (eng t) e') ends_tool t.
Proof.
  intros Hn Hi Hb Ho Ht. unfold for_u32, wp at 1. rewrite u32_loop_for by lia. rewrite N.sub_0_r.
  by apply taint_for.
Qed.

(** ** Reading *)

Lemma positive ctx : 0 < ret ctx < 2 ^ 63 -> not_positive ctx = false.
Proof.
  intros Hr. unfold not_positive, to_long. rewrite w64_small by lia.
  rewrite (proj2 (N.ltb_lt _ _)) by lia. apply Z.leb_gt. lia.
Qed.

(** Where the bytes just read start in the input. *)
Definition read_start w t (fd : Z) (nr : N) : N :=
  if (fd =? 0)%Z then stdin_read_off t else sub32 (w32 (lseek w fd)) (w32 nr).

Lemma read_hook_spec w tid t :
  let ctx := ctx_of tid t in let fd := to_int (arg_of ctx 0) in let start := read_start w t fd (ret ctx) in
  engine_inv (eng t) -> fd ∈ fdset t -> 0 < ret ctx < 2 ^ 32 ->
  arg_of ctx 1 + ret ctx <= last_address + 1 -> in_bound start (ret ctx) -> tag_thread tid ->
  wp (MyTool.post_read_hook w tid)
    (fun _ t' => labelled (bytes_at (arg_of ctx 1) (ret ctx)) start (eng t) (eng t') /\
       fdset t' = fdset t /\
       stdin_read_off t' = if (fd =? 0)%Z then w32 (stdin_read_off t + ret ctx) else stdin_read_off t)
    ends_tool t.
Proof.
  intros ctx fd start Hi Hfd Hr Hb Ho Ht. unfold MyTool.post_read_hook. do 2 wp_step. fold ctx.
  rewrite positive by lia. cbv zeta. do 2 wp_step. cbn [id]. fold fd. rewrite decide_True by done. wp_step.
  unfold start, read_start in *. destruct (fd =? 0)%Z.
  - do 2 wp_step. wp_step. cbv beta. eapply wp_mono; [apply (taint_u32 tid); try done; lia|].
    intros [] t' (e' & -> & Hl). by split_and!.
  - wp_step. eapply wp_mono; [apply (taint_u32 tid); try done; lia|].
    intros [] t' (e' & -> & Hl). by split_and!.
Qed.

(** ** Vectors *)

(** The vectors that a call of [n] entries at [iovs] finds: their bases and lengths. *)
Definition vector w (iovs i : N) : N * N :=
  let iov := add64 iovs (mul64 i (sizeof struct_iovec)) in
  (member w 8 iov iov_base, member w 8 iov iov_len).
Definition vectors w (iovs i : N) (n : nat) : list (N * N) := map (vector w iovs) (nseq i n).

(** The addresses in the order in which [tot] bytes are scattered over the vectors. *)
Definition scatter (tot : N) (vs : list (N * N)) : list N :=
  take (N.to_nat tot) (concat (map (fun v => bytes_at v.1 v.2) vs)).

(** The vectors are in the user half. *)
Definition vector_ok (v : N * N) : Prop := v.1 + v.2 <= last_address + 1.

Lemma take_bytes base n k : take (N.to_nat k) (bytes_at base n) = bytes_at base (N.min n k).
Proof.
  unfold bytes_at. rewrite firstn_map. f_equal.
  assert (forall a x y, take x (nseq a y) = nseq a (Nat.min y x)) as Hn.
  { intros a x y. revert a x. induction y as [|y IH]; intros a [|x]; cbn; f_equal; auto. }
  rewrite Hn. f_equal. lia.
Qed.

Lemma scatter_cons tot v vs :
  scatter tot (v :: vs) = bytes_at v.1 (N.min v.2 tot) ++ scatter (tot - N.min v.2 tot) vs.
Proof.
  unfold scatter. cbn [map concat]. rewrite take_app, take_bytes, length_bytes. do 2 f_equal. lia.
Qed.

Lemma scatter_0 vs : scatter 0 vs = [].
Proof. done. Qed.

Lemma iov_min (len tot : N) : (if len <=? tot then len else tot) = N.min len tot.
Proof. destruct (N.leb_spec len tot); lia. Qed.

Lemma readv_taints w tid iovs n i tot off t :
  engine_inv (eng t) -> Forall vector_ok (vectors w iovs i n) -> NoDup (scatter tot (vectors w iovs i n)) ->
  (forall k, w32 k < tag_bound) -> tag_thread tid ->
  wp (readv_loop w tid true iovs n i tot off)
    (fun _ t' => exists e', t' = set_eng e' t /\
       labelled (scatter tot (vectors w iovs i n)) off (eng t) e') ends_tool t.
Proof.
  revert i tot off t. induction n as [|n IH]; intros i tot off t Hi Hok Hnd Hbound Ht; cbn [readv_loop].
  - wp_step. exists (eng t). split; [by destruct t|]. unfold vectors. cbn [nseq map].
    unfold scatter. cbn [map concat]. rewrite take_nil. by apply labelled_nil.
  - cbv zeta. set (v := vector w iovs i). change (vectors w iovs i (S n)) with (v :: vectors w iovs (i + 1) n) in *.
    change (member w 8 (add64 iovs (mul64 i (sizeof struct_iovec))) iov_base) with v.1.
    change (member w 8 (add64 iovs (mul64 i (sizeof struct_iovec))) iov_len) with v.2. rewrite iov_min.
    apply Forall_cons in Hok as [Hv Hok]. destruct (N.ltb_spec 0 tot) as [Hpos|Hz].
    + rewrite scatter_cons in *. wp_step. unfold taint_vector. unfold vector_ok in Hv.
      eapply wp_mono; [apply (taint_for tid v.1 (N.min v.2 tot) off t Hi); [lia|by intros k _|done]|].
      intros [] t1 (e1 & -> & Hl1). pose proof (proj1 Hl1) as Hi1. apply NoDup_app in Hnd as Hnd'.
      eapply wp_mono; [apply (IH (i + 1) (tot - N.min v.2 tot) _ (set_eng e1 t)); try done; by apply Hnd'|].
      intros [] t2 (e2 & -> & Hl2). exists e2. split; [done|]. apply (labelled_app _ _ _ _ e1); try done.
      * intros a Ha%elem_of_bytes. lia.
      * by rewrite length_bytes, N2Nat.id.
    + wp_step. assert (tot = 0) as -> by lia. exists (eng t). split; [by destruct t|]. rewrite scatter_0.
      by apply labelled_nil.
Qed.

(** Without a source, the same bytes are cleared. *)
Lemma range_bytes base n a : n < 2 ^ 32 -> base + n <= last_address + 1 -> range base n a <-> a ∈ bytes_at base n.
Proof.
  intros Hn Hb. unfold last_address in Hb. unfold range. rewrite elem_of_bytes, w32_small by done.
  unfold add64. by rewrite w64_small by lia.
Qed.

Lemma readv_clears w tid iovs n i tot off t :
  engine_inv (eng t) -> Forall vector_ok (vectors w iovs i n) -> tot < 2 ^ 32 ->
  wp (readv_loop w tid false iovs n i tot off)
    (fun _ t' => exists e', t' = set_eng e' t /\
       cleared (fun a => a ∈ scatter tot (vectors w iovs i n)) (eng t) e') (fun _ _ => False) t.
Proof.
  revert i tot t. induction n as [|n IH]; intros i tot t Hi Hok Htot; cbn [readv_loop].
  - wp_step. exists (eng t). split; [by destruct t|]. apply (cleared_ext nowhere); [|by apply cleared_refl].
    intros a. unfold vectors, scatter, nowhere. cbn [nseq map concat]. rewrite take_nil.
    split; [done|by intros ?%elem_of_nil].
  - cbv zeta. set (v := vector w iovs i). change (vectors w iovs i (S n)) with (v :: vectors w iovs (i + 1) n) in *.
    change (member w 8 (add64 iovs (mul64 i (sizeof struct_iovec))) iov_base) with v.1.
    change (member w 8 (add64 iovs (mul64 i (sizeof struct_iovec))) iov_len) with v.2. rewrite iov_min.
    apply Forall_cons in Hok as [Hv Hok]. destruct (N.ltb_spec 0 tot) as [Hpos|Hz].
    + wp_step. unfold vector_ok in Hv.
      eapply wp_mono;
        [exact (wp_on_engine _ _ _ t (clrn_cleared v.1 (N.min v.2 tot) (eng t) (fun _ _ => False) Hi))|].
      intros [] t1 (e1 & -> & Hc1). pose proof (proj1 Hc1) as Hi1.
      eapply wp_mono; [apply (IH (i + 1) (tot - N.min v.2 tot) (set_eng e1 t)); [done|done|lia]|].
      intros [] t2 (e2 & -> & Hc2). exists e2. split; [done|].
      eapply cleared_ext; [|eapply cleared_trans; [exact Hc1|exact Hc2]]. intros a. unfold union_of.
      rewrite scatter_cons, elem_of_app, range_bytes by lia. done.
    + wp_step. assert (tot = 0) as -> by lia. exists (eng t). split; [by destruct t|].
      apply (cleared_ext nowhere); [|by apply cleared_refl]. intros a. rewrite scatter_0. unfold nowhere.
      split; [done|by intros ?%elem_of_nil].
Qed.
Lemma read_hook_clears w tid t :
  let ctx := ctx_of tid t in
  engine_inv (eng t) -> to_int (arg_of ctx 0) ∉ fdset t -> 0 < ret ctx < 2 ^ 32 ->
  arg_of ctx 1 + ret ctx <= last_address + 1 ->
  wp (MyTool.post_read_hook w tid)
    (fun _ t' => cleared (fun a => a ∈ bytes_at (arg_of ctx 1) (ret ctx)) (eng t) (eng t'))
    (fun _ _ => False) t.
Proof.
  intros ctx Hi Hfd Hr Hb. unfold MyTool.post_read_hook. do 2 wp_step. fold ctx. rewrite positive by lia.
  cbv zeta. do 2 wp_step. cbn [id]. rewrite decide_False by done.
  eapply wp_mono; [exact (wp_on_engine _ _ _ t (clrn_cleared (arg_of ctx 1) (ret ctx) (eng t) (fun _ _ => False) Hi))|].
  intros [] t' (e' & -> & Hc). eapply cleared_ext; [|exact Hc]. intros a. apply range_bytes; lia.
Qed.

(** ** Mappings *)

(** The bytes that the callback of [mmap] goes through, for a length of [len]: whole pages, and
    one more when [len] is a multiple of the page. *)
Definition map_size (len : N) : N := PAGE_SZ * (len / PAGE_SZ + 1).

Lemma map_size_eq len :
  len < 2 ^ 63 ->
  (if len <? PAGE_SZ then PAGE_SZ else sub64 (add64 len PAGE_SZ) (len mod PAGE_SZ)) = map_size len.
Proof.
  intros Hl. unfold map_size. destruct (N.ltb_spec len PAGE_SZ) as [Hs|Hs].
  - by rewrite N.div_small.
  - pose proof (N.div_mod' len PAGE_SZ) as Hd. pose proof (N.mod_lt len PAGE_SZ ltac:(done)) as Hm.
    change PAGE_SZ with 4096 in *. unfold add64. rewrite w64_small by lia.
    unfold sub64. rewrite (w64_small (len mod 4096)) by lia. change 0x10000000000000000 with (2 ^ 64).
    replace (len + 4096 + (2 ^ 64 - len mod 4096)) with (4096 * (len / 4096 + 1) + 1 * 2 ^ 64) by lia.
    rewrite w64_mod, N.Div0.mod_add, <- w64_mod. apply w64_small.
    clear Hs. revert Hl Hd Hm. generalize (len / 4096) (len mod 4096). intros q m. lia.
Qed.

Lemma mmap_hook_spec tid t :
  let ctx := ctx_of tid t in let size := map_size (arg_of ctx 1) in
  engine_inv (eng t) -> to_int (arg_of ctx 4) ∈ fdset t -> ret ctx <> minus1_64 -> size < 2 ^ 32 ->
  ret ctx + size <= last_address + 1 -> in_bound 0 size -> tag_thread tid ->
  wp (MyTool.post_mmap_hook tid)
    (fun _ t' => labelled (bytes_at (ret ctx) size) 0 (eng t) (eng t')) ends_tool t.
Proof.
  intros ctx size Hi Hfd Hr Hs Hb Ho Ht. unfold MyTool.post_mmap_hook. do 2 wp_step. fold ctx.
  assert (arg_of ctx 1 < 2 ^ 63) as Hl.
  { unfold size, map_size in Hs. change PAGE_SZ with 4096 in Hs. 
    pose proof (N.div_mod' (arg_of ctx 1) 4096). pose proof (N.mod_lt (arg_of ctx 1) 4096 ltac:(done)). lia. }
  rewrite (proj2 (N.eqb_neq _ _)) by done. cbv zeta. rewrite map_size_eq by done. fold size.
  do 4 wp_step. cbn [id]. change (fdset (set_ctx _ _ t)) with (fdset t). rewrite decide_True by done.
  set (t1 := set_ctx _ _ t).
  eapply wp_mono; [apply (taint_u32 tid (ret ctx) size 0 t1); done|].
  intros [] t' (e' & -> & Hl'). exact Hl'.
Qed.
End facts.
End SyscallTaint.
