(* ===== verification/Syscalls.v ===== *)
(** A whole system call, from the entry of the kernel to its return, and the table of the tool. *)

From stdpp Require Import strings.
From S2P Require Import Prelude TagTraits Tagmap TagmapFacts SyscallDesc SyscallTable SyscallPost.
From S2P Require Import MyTool SyscallHook LibdftApi.

Module Syscalls.
Import TagTraits Tagmap TagmapFacts SyscallDesc SyscallTable SyscallPost MyTool LibdftApi.

Section syscalls.
Context {B tag : Type} `{TagOps B tag} `{Abi}.
Notation tool := (tool B tag).
Notation callee := (prog tool unit).
Implicit Types (t : tool) (w : world) (files : gmap Z bool).

(** ** A system call *)

(** Before and after the call [syscall_nr] with the arguments [args], which returns [retval]; the
    application is [w] when it returns. *)
Definition syscall w tid (syscall_nr : N) (args : list N) (retval : N) : callee :=
  _ ← sysenter_save w tid syscall_nr args;
  sysexit_save w tid retval.

Lemma set_ctx_twice tid c c' t : set_ctx tid c (set_ctx tid c' t) = set_ctx tid c t.
Proof. unfold set_ctx; cbn. by rewrite insert_insert_eq. Qed.

Lemma ctx_of_set tid c t : ctx_of tid (set_ctx tid c t) = c.
Proof. unfold ctx_of, set_ctx; cbn. by rewrite lookup_insert_eq. Qed.

(** The context in which the callback of a call runs. *)
Definition call_ctx tid (syscall_nr : N) (n : N) (args : list N) (retval : N) t : tool :=
  set_ctx tid (mk_ctx (Z.of_N syscall_nr) (dump_args n args (arg (ctx_of tid t))) retval) t.

(** A call of which the arguments are saved, with no callback before it. *)
Lemma syscall_runs w tid i args retval t desc :
  i < SYSCALL_MAX -> syscall_descs t !! N.to_nat i = Some desc -> pre desc = None -> saves desc = true ->
  syscall w tid i args retval t =
  match post desc with
  | Some f => call f w tid
  | None => ctx ← gets (ctx_of tid); on_engine (clear_args desc ctx)
  end (call_ctx tid i (nargs desc) args retval t).
Proof.
  intros Hi Hd Hpre Hsave. unfold syscall, sysenter_save, sysexit_save, desc_at.
  rewrite (proj2 (N.leb_gt _ _)) by done. unfold mbind, prog_bind, gets, modify, mret, prog_ret. cbn [id].
  change (syscall_descs (set_ctx tid (mk_ctx (Z.of_N i) (arg (ctx_of tid t)) (ret (ctx_of tid t))) t))
    with (syscall_descs t). rewrite Hd, Hsave, Hpre. cbn [call_if]. unfold mret, prog_ret.
  rewrite !ctx_of_set, set_ctx_twice. cbn [nr arg ret]. rewrite (proj2 (Z.ltb_ge _ _)) by lia.
  change (syscall_descs (set_ctx _ _ t)) with (syscall_descs t). rewrite N2Z.id, Hd, Hsave.
  rewrite !ctx_of_set, set_ctx_twice. cbn [nr arg ret]. fold (call_ctx tid i (nargs desc) args retval t).
  destruct (post desc) as [f|]; [done|]. by rewrite (proj2 (N.ltb_ge _ 0)) by lia.
Qed.

Lemma syscall_saved w tid i args retval t desc R E :
  i < SYSCALL_MAX -> syscall_descs t !! N.to_nat i = Some desc -> pre desc = None -> saves desc = true ->
  wp (match post desc with
      | Some f => call f w tid
      | None => ctx ← gets (ctx_of tid); on_engine (clear_args desc ctx)
      end) R E (call_ctx tid i (nargs desc) args retval t) ->
  wp (syscall w tid i args retval) R E t.
Proof. intros Hi Hd Hpre Hsave. unfold wp. by rewrite (syscall_runs w tid i args retval t desc). Qed.

(** A call that is not in the table, or of which nothing is saved: only the context changes. *)
Lemma syscall_skips w tid i args retval t :
  (forall desc, i < SYSCALL_MAX -> syscall_descs t !! N.to_nat i = Some desc -> saves desc = false) ->
  length (syscall_descs t) = N.to_nat SYSCALL_MAX ->
  exists c, syscall w tid i args retval t = Done tt (set_ctx tid c t).
Proof.
  intros Hs Hl. unfold syscall, sysenter_save, sysexit_save, desc_at.
  destruct (N.leb_spec SYSCALL_MAX i) as [Hi|Hi]; unfold mbind, prog_bind, gets, modify, mret, prog_ret.
  - rewrite ctx_of_set. by eexists.
  - destruct (lookup_lt_is_Some_2 (syscall_descs t) (N.to_nat i) ltac:(lia)) as [d Hd].
    pose proof (Hs d Hi Hd) as Hsv. cbn [id].
    change (syscall_descs (set_ctx tid (mk_ctx (Z.of_N i) (arg (ctx_of tid t)) (ret (ctx_of tid t))) t))
      with (syscall_descs t). rewrite Hd, Hsv. unfold mret, prog_ret. rewrite ctx_of_set. cbn [nr].
    rewrite (proj2 (Z.ltb_ge _ _)) by lia.
    change (syscall_descs (set_ctx _ _ t)) with (syscall_descs t). rewrite N2Z.id, Hd, Hsv. by eexists.
Qed.

Lemma syscall_ignored w tid i args retval t R E :
  (forall desc, i < SYSCALL_MAX -> syscall_descs t !! N.to_nat i = Some desc -> saves desc = false) ->
  length (syscall_descs t) = N.to_nat SYSCALL_MAX ->
  (forall c, R tt (set_ctx tid c t)) ->
  wp (syscall w tid i args retval) R E t.
Proof.
  intros Hs Hl Hr. destruct (syscall_skips w tid i args retval t Hs Hl) as [c Hc]. unfold wp. rewrite Hc. apply Hr.
Qed.

Lemma syscall_post w tid i args retval t desc f R E :
  i < SYSCALL_MAX -> syscall_descs t !! N.to_nat i = Some desc -> pre desc = None ->
  post desc = Some f -> saves desc = true ->
  wp (call f w tid) R E (call_ctx tid i (nargs desc) args retval t) ->
  wp (syscall w tid i args retval) R E t.
Proof. intros Hi Hd Hpre Hp Hs Hw. apply (syscall_saved _ _ _ _ _ _ desc); try done. by rewrite Hp. Qed.

(** ** The table of the tool *)

Definition tool_table : list syscall_desc_t := set_posts main_hooks syscall_desc.

(** The rows that may hold a callback: those of the tool are in one row each, those of
    syscall_hook.cpp in none. *)
Definition in_row (i : nat) (f : callback) : bool :=
  match f with
  | tool_open => (i =? 2)%nat
  | tool_openat => (i =? 257)%nat
  | tool_close => (i =? 3)%nat
  | tool_read => (i =? 0)%nat
  | tool_pread64 => (i =? 17)%nat
  | tool_readv => (i =? 19)%nat
  | tool_mmap => (i =? 9)%nat
  | hook_open | hook_openat | hook_dup | hook_dup2 | hook_close | hook_read | hook_pread64
  | hook_mmap | hook_munmap => false
  | _ => true
  end.

Fixpoint rows_ok (p : nat -> syscall_desc_t -> bool) (i : nat) (l : list syscall_desc_t) : bool :=
  match l with
  | [] => true
  | d :: l => p i d && rows_ok p (S i) l
  end.

Lemma rows_ok_lookup p i l : rows_ok p i l = true -> forall j d, l !! j = Some d -> p (i + j)%nat d = true.
Proof.
  revert i. induction l as [|d l IH]; intros i Hr j d' Hj; [done|]. cbn in Hr.
  apply andb_true_iff in Hr as [Hd Hr]. destruct j as [|j]; [injection Hj as <-; by rewrite Nat.add_0_r|].
  rewrite Nat.add_succ_r. by apply (IH (S i)).
Qed.

(** Before a call no callback runs; one that runs after it finds the arguments saved, which are
    between one and six. *)
Definition table_row (i : nat) (d : syscall_desc_t) : bool :=
  match pre d with Some _ => false | None => true end &&
  match post d with Some f => in_row i f && saves d | None => true end &&
  (negb (saves d) || ((1 <=? nargs d) && (nargs d <=? 6))).

Lemma table_rows : rows_ok table_row 0 tool_table = true.
Proof. vm_compute. reflexivity. Qed.

Lemma table_length : length tool_table = 316%nat.
Proof. vm_compute. reflexivity. Qed.

Definition row_is (i : nat) (f : callback) (n : N) : bool :=
  match tool_table !! i with
  | Some d => bool_decide (post d = Some f) && (nargs d =? n)
  | None => false
  end.

Lemma row_is_spec i f n :
  row_is i f n = true -> exists d, tool_table !! i = Some d /\ post d = Some f /\ nargs d = n.
Proof.
  unfold row_is. destruct (tool_table !! i) as [d|]; [|done].
  intros [Hp%bool_decide_eq_true Hn%N.eqb_eq]%andb_true_iff. by exists d.
Qed.

Lemma table_row_of i d :
  tool_table !! i = Some d ->
  pre d = None /\ (forall f, post d = Some f -> saves d = true /\ in_row i f = true) /\
  (saves d = true -> 1 <= nargs d <= 6).
Proof.
  intros Hd. pose proof (rows_ok_lookup _ 0 _ table_rows i d Hd) as Hr. cbn [Nat.add] in Hr. unfold table_row in Hr.
  apply andb_true_iff in Hr as [[Hp Hm]%andb_true_iff Hs]. split; [by destruct (pre d)|]. split.
  - intros f Hf. rewrite Hf in Hm. by apply andb_true_iff in Hm as [? ?].
  - intros Hsv. rewrite Hsv in Hs. cbn [negb orb] in Hs. apply andb_true_iff in Hs. rewrite !N.leb_le in Hs. done.
Qed.

Lemma dump_arg n args old r z k :
  1 <= n <= 6 -> (k < N.to_nat n)%nat -> length args = 6%nat ->
  arg_of (mk_ctx z (dump_args n args old) r) k = default 0 (args !! k).
Proof.
  intros Hn Hk Hl. unfold arg_of, dump_args. cbn [arg].
  rewrite (proj2 (N.eqb_neq n 0)), (proj2 (N.ltb_ge 6 n)) by lia. cbn [orb].
  rewrite lookup_app_l by (rewrite length_take; lia). by rewrite lookup_take_lt.
Qed.

(** A call that the table of the tool hands to the callback [f]. *)
Lemma table_call w tid i args retval t f n R E :
  syscall_descs t = tool_table -> row_is (N.to_nat i) f n = true ->
  wp (call f w tid) R E (call_ctx tid i n args retval t) ->
  wp (syscall w tid i args retval) R E t.
Proof.
  intros Ht Hrow Hw. destruct (row_is_spec _ _ _ Hrow) as (d & Hd & Hp & <-).
  destruct (table_row_of _ _ Hd) as (Hpre & Hs & _). pose proof (lookup_lt_Some _ _ _ Hd) as Hlt.
  rewrite table_length in Hlt. apply (syscall_post _ _ _ _ _ _ d f); try done.
  - unfold SYSCALL_MAX. lia.
  - by rewrite Ht.
  - by apply (Hs f).
Qed.

Lemma ctx_of_call tid i n args retval t :
  ctx_of tid (call_ctx tid i n args retval t) = mk_ctx (Z.of_N i) (dump_args n args (arg (ctx_of tid t))) retval.
Proof. apply ctx_of_set. Qed.

Lemma call_arg tid i n args retval t k :
  1 <= n <= 6 -> (k < N.to_nat n)%nat -> length args = 6%nat ->
  arg_of (ctx_of tid (call_ctx tid i n args retval t)) k = default 0 (args !! k).
Proof. intros Hn Hk Hl. rewrite ctx_of_call. by apply dump_arg. Qed.

Lemma call_ret tid i n args retval t : ret (ctx_of tid (call_ctx tid i n args retval t)) = retval.
Proof. by rewrite ctx_of_call. Qed.
End syscalls.
End Syscalls.
