(* ===== verification/SyscallArgs.v ===== *)
(** The arguments that callbacks use: a callback depends on the context of the thread only through
    the arguments that its system call has saved there, but for those of two rows of the table. *)

From S2P Require Import Prelude TagTraits Tagmap SyscallDesc SyscallTable SyscallPost.
From S2P Require Import MyTool SyscallHook LibdftApi Syscalls.

Module SyscallArgs.
Import TagTraits Tagmap SyscallDesc SyscallTable SyscallPost MyTool LibdftApi Syscalls.

(** The number of arguments that a callback looks at. *)
Definition uses (f : callback) : nat :=
  match f with
  | desc_getcwd | desc__sysctl => 1
  | desc_read | desc_syslog | desc_modify_ldt | desc_poll | desc_rt_sigpending
  | desc_getgroups | desc_getdents | desc_listxattr | desc_lookup_dcookie | desc_epoll_wait
  | desc_recvmsg | desc_msgrcv => 2
  | desc_fcntl | desc_readv | desc_mincore | desc_getxattr | desc_readlinkat | desc_shmctl
  | desc_accept | desc_msgctl => 3
  | desc_mmap | desc_quotactl | desc_mq_timedreceive => 4
  | desc_io_getevents | desc_get_mempolicy | desc_recvmmsg | desc_getsockopt | desc_semctl => 5
  | desc_recvfrom => 6
  | tool_open | tool_close | hook_open | hook_dup | hook_close => 1
  | tool_openat | hook_openat | hook_dup2 | tool_read | hook_munmap => 2
  | tool_readv | hook_read => 3
  | tool_pread64 | hook_pread64 => 4
  | tool_mmap => 5
  | hook_mmap => 6
  end.

Section args.
Context {B tag : Type} `{TagOps B tag} `{Abi}.
Notation tool := (tool B tag).
Notation callee := (prog tool unit).
Implicit Types (t : tool) (w : world) (c : syscall_ctx_t).

(** Contexts that agree on the call, its result and its first [k] arguments. *)
Definition agree (k : nat) c c' : Prop :=
  nr c = nr c' /\ ret c = ret c' /\ forall i, (i < k)%nat -> arg_of c i = arg_of c' i.

(** States that differ in the contexts of the threads alone. *)
Definition same_state t t' : Prop :=
  eng t = eng t' /\ fdset t = fdset t' /\ stdin_read_off t = stdin_read_off t' /\
  tainted t = tainted t' /\ syscall_descs t = syscall_descs t'.

Definition same_outcome {A} (o o' : outcome tool A) : Prop :=
  match o, o' with
  | Done a t, Done a' t' => a = a' /\ same_state t t'
  | Exit r t, Exit r' t' => r = r' /\ same_state t t'
  | NoFuel, NoFuel => True
  | _, _ => False
  end.

#[export] Instance same_state_equiv : Equivalence same_state.
Proof. split; [by intros t; split_and!|intros t t'|intros t1 t2 t3]; unfold same_state; naive_solver congruence. Qed.

(** ** Programs in two states *)

(** From states that differ in the contexts alone. *)
Definition blind {A} (p p' : prog tool A) : Prop := forall t t', same_state t t' -> same_outcome (p t) (p' t').

Lemma blind_bind {A C} (p p' : prog tool A) (k k' : A -> prog tool C) :
  blind p p' -> (forall a, blind (k a) (k' a)) -> blind (p ≫= k) (p' ≫= k').
Proof.
  intros Hp Hk t t' Hs. unfold mbind, prog_bind. specialize (Hp t t' Hs).
  destruct (p t), (p' t'); cbn in Hp; try done. destruct Hp as [-> Hs']. by apply Hk.
Qed.

Lemma blind_ret {A} (a : A) : blind (mret a) (mret a).
Proof. by intros t t' Hs. Qed.

Lemma blind_engine {A} (p : prog (engine B tag) A) : blind (on_engine p) (on_engine p).
Proof.
  intros t t' (He & Hf & Hi & Ht & Hd). unfold on_engine. rewrite He.
  destruct (p (eng t')); cbn; split_and?; done.
Qed.

Lemma blind_gets {A} (f : tool -> A) :
  (forall t t', same_state t t' -> f t = f t') -> blind (gets f) (gets f).
Proof. intros Hf t t' Hs. cbn. auto. Qed.

Lemma blind_modify (g g' : tool -> tool) :
  (forall t t', same_state t t' -> same_state (g t) (g' t')) -> blind (modify g) (modify g').
Proof. intros Hg t t' Hs. cbn. auto. Qed.

Lemma blind_if {A} (b : bool) (p p' q q' : prog tool A) :
  blind p p' -> blind q q' -> blind (if b then p else q) (if b then p' else q').
Proof. by destruct b. Qed.

Lemma blind_u32 fuel i stop body : (forall i, blind (body i) (body i)) -> blind (u32_loop fuel i stop body) (u32_loop fuel i stop body).
Proof.
  intros Hb. revert i. induction fuel as [|fuel IH]; intros i; cbn [u32_loop]; [by intros t t' Hs|].
  apply blind_if; [|apply blind_ret]. by apply blind_bind.
Qed.

Lemma blind_for n i (body : N -> callee) : (forall i, blind (body i) (body i)) -> blind (for_loop n i body) (for_loop n i body).
Proof.
  intros Hb. revert i. induction n as [|n IH]; intros i; cbn [for_loop]; [apply blind_ret|]. by apply blind_bind.
Qed.

(** The state as a whole is read for the set of descriptors and the position in the standard
    input alone. *)
Lemma blind_id {A} (k k' : tool -> prog tool A) :
  (forall t t', same_state t t' -> blind (k t) (k' t')) -> blind (gets id ≫= k) (gets id ≫= k').
Proof. intros Hk t t' Hs. exact (Hk t t' Hs t t' Hs). Qed.

(** ** The callbacks *)

(** The callbacks of syscall_desc.cpp: equal contexts give equal programs. *)
Ltac same_args Hret Harg :=
  rewrite ?Hret;
  repeat match goal with |- context [arg_of ?c ?i] => is_var c; rewrite (Harg i) by lia end;
  reflexivity.

Lemma desc_blind tid (f : syscall_ctx_t -> prog (engine B tag) unit) t t' :
  same_state t t' -> f (ctx_of tid t) = f (ctx_of tid t') ->
  same_outcome (desc_call tid f t) (desc_call tid f t').
Proof. intros Hs Hf. unfold desc_call, mbind, prog_bind, gets. rewrite Hf. by apply blind_engine. Qed.

(** The others start with the context. *)
Lemma ctx_blind {A} tid (k : syscall_ctx_t -> prog tool A) t t' :
  same_state t t' -> blind (k (ctx_of tid t)) (k (ctx_of tid t')) ->
  same_outcome ((gets (ctx_of tid) ≫= k) t) ((gets (ctx_of tid) ≫= k) t').
Proof. intros Hs Hk. unfold mbind, prog_bind, gets. by apply Hk. Qed.

Lemma mmap_blind tid c c' :
  agree 4 c c' ->
  blind (ctx ← on_engine (SyscallPost.post_mmap_hook c); modify (set_ctx tid ctx))
    (ctx ← on_engine (SyscallPost.post_mmap_hook c'); modify (set_ctx tid ctx)).
Proof.
  intros (Hnr & Hret & Harg) t t' (He & Hf & Hi & Ht & Hd). unfold SyscallPost.post_mmap_hook, on_engine, mbind, prog_bind.
  rewrite Hret, (Harg 1%nat), (Harg 3%nat) by lia. rewrite He. destruct (_ =? _); [done|].
  destruct (has_flag _ _); cbn [ret]; rewrite ?Hret; by destruct (clrn _ _ _).
Qed.

Lemma readv_blind w tid tracked iovs n i tot off :
  blind (readv_loop w tid tracked iovs n i tot off) (readv_loop w tid tracked iovs n i tot off).
Proof.
  revert i tot off. induction n as [|n IH]; intros i tot off; cbn [readv_loop]; [apply blind_ret|].
  apply blind_if; [|apply blind_ret]. apply blind_bind; [|intros _; apply IH].
  apply blind_if; [|apply blind_engine]. apply blind_for. intros j. apply blind_engine.
Qed.

Lemma same_fuzzing fd t t' :
  same_state t t' -> SyscallHook.SyscallHook.is_fuzzing_fd fd t = SyscallHook.SyscallHook.is_fuzzing_fd fd t'.
Proof. intros (_ & Hf & _). unfold SyscallHook.SyscallHook.is_fuzzing_fd. by rewrite Hf. Qed.

Ltac blind := repeat (cbv zeta; match goal with
  | |- blind (gets id ≫= _) _ =>
      let Hf := fresh "Hf" in let Hi := fresh "Hi" in
      apply blind_id; intros ? ? (_ & Hf & Hi & _); rewrite ?Hf, ?Hi
  | |- blind (_ ≫= _) _ => apply blind_bind; [|intros ?]
  | |- blind (if ?b then _ else _) _ => destruct b
  | |- blind (on_engine _) _ => apply blind_engine
  | |- blind (for_u32 _ _) _ => apply blind_u32; intros ?
  | |- blind (taint_byte _ _ _) _ => apply blind_engine
  | |- blind (mret _) _ => apply blind_ret
  | |- blind (readv_loop _ _ _ _ _ _ _ _) _ => apply readv_blind
  | |- blind (gets _) _ => apply blind_gets; intros ? ?; apply same_fuzzing
  | |- blind (modify _) _ => apply blind_modify; intros ? ? [? [? [? [? ?]]]];
      unfold same_state; cbn; split_and!; congruence
  end).

Lemma call_blind f w tid t t' :
  same_state t t' -> agree (uses f) (ctx_of tid t) (ctx_of tid t') ->
  same_outcome (call f w tid t) (call f w tid t').
Proof.
  intros Hs. destruct f; cbn [call uses];
    lazymatch goal with
    | |- context [desc_call] =>
        intros (_ & Hret & Harg); apply desc_blind; [exact Hs|]; revert Hret Harg;
        generalize (ctx_of tid t) (ctx_of tid t'); intros c c' Hret Harg;
        unfold SyscallPost.post_read_hook, post_getgroups_hook, post_readlinkat_hook, post_epoll_wait_hook,
          post_mq_timedreceive_hook, post_get_mempolicy_hook, post_lookup_dcookie_hook,
          post_io_getevents_hook, post_listxattr_hook, post_getxattr_hook, post_getdents_hook,
          post_mincore_hook, post_getcwd_hook, post_rt_sigpending_hook, post_quotactl_hook,
          post_modify_ldt_hook, post_fcntl_hook, post_syslog_hook, post_msgctl_hook, post_shmctl_hook,
          post_msgrcv_hook, post_semctl_hook, post_accept_hook, post_recvfrom_hook, post_getsockopt_hook,
          post__sysctl_hook, post_poll_hook, SyscallPost.post_readv_hook, post_recvmsg_hook, post_recvmmsg_hook,
          not_positive, failed;
        same_args Hret Harg
    | _ => idtac
    end.
  all: intros Ha; apply ctx_blind; [exact Hs|]; revert Ha; generalize (ctx_of tid t) (ctx_of tid t').
  all: intros c c'; try (apply mmap_blind).
  all: intros (Hnr & Hret & Harg); unfold not_positive, failed, track, insert_fd, SyscallHook.SyscallHook.add_fuzzing_fd,
    SyscallHook.SyscallHook.remove_fuzzing_fd; cbv zeta; rewrite ?Hret;
    repeat match goal with |- context [arg_of ?c ?i] => is_var c; rewrite (Harg i) by lia end; blind.
Qed.
(** ** The table *)

(** Rows 66, [semctl], and 208, [io_getevents], use an argument more than they save. *)
Definition args_row (i : nat) (d : syscall_desc_t) : bool :=
  (i =? 66)%nat || (i =? 208)%nat ||
  match post d with Some f => N.of_nat (uses f) <=? nargs d | None => true end.

Lemma args_rows : rows_ok args_row 0 tool_table = true.
Proof. vm_compute. reflexivity. Qed.

Lemma agree_dump i n args retval old old' k :
  1 <= n <= 6 -> N.of_nat k <= n -> length args = 6%nat ->
  agree k (mk_ctx i (dump_args n args old) retval) (mk_ctx i (dump_args n args old') retval).
Proof.
  intros Hn Hk Hl. split_and!; [done..|]. intros j Hj. by rewrite !dump_arg by (done || lia).
Qed.

Lemma for_loop_ext {S} n i (body body' : N -> prog S unit) s :
  (forall j, i <= j < i + N.of_nat n -> body j = body' j) -> for_loop n i body s = for_loop n i body' s.
Proof.
  revert i s. induction n as [|n IH]; intros i s Hb; [done|]. cbn [for_loop]. unfold mbind, prog_bind.
  rewrite Hb by lia. destruct (body' i s); [|done..]. apply IH. intros j Hj. apply Hb. lia.
Qed.

Lemma clear_args_agree desc c c' e :
  agree (N.to_nat (nargs desc)) c c' -> clear_args desc c e = clear_args desc c' e.
Proof.
  intros (_ & _ & Harg). unfold clear_args. apply for_loop_ext. intros j Hj. cbv zeta.
  by rewrite (Harg (N.to_nat j)) by lia.
Qed.

(** A call that is not saved, in the table of the tool. *)
Lemma table_skips w tid i args retval t :
  syscall_descs t = tool_table -> (forall d, tool_table !! N.to_nat i = Some d -> saves d = false) ->
  exists c, syscall w tid i args retval t = Done tt (set_ctx tid c t).
Proof.
  intros Ht Hs. apply syscall_skips; rewrite Ht; [|by rewrite table_length]. intros d _. apply Hs.
Qed.

Lemma syscall_blind w tid i args retval t t' :
  syscall_descs t = tool_table -> length args = 6%nat -> i <> 66 -> i <> 208 -> same_state t t' ->
  same_outcome (syscall w tid i args retval t) (syscall w tid i args retval t').
Proof.
  intros Ht Hl H66 H208 Hs. pose proof Hs as (He & _ & _ & _ & Hd').
  assert (syscall_descs t' = tool_table) as Ht' by congruence.
  assert ((exists d, tool_table !! N.to_nat i = Some d /\ saves d = true) \/
    (forall d, tool_table !! N.to_nat i = Some d -> saves d = false)) as [(d & Hd & Hsv)|Hskip].
  { destruct (tool_table !! N.to_nat i) as [d|]; [destruct (saves d) eqn:Hsv|]; [left; by exists d|right..].
    - by intros d' [= <-].
    - done. }
  - destruct (table_row_of _ _ Hd) as (Hpre & _ & Hn). specialize (Hn Hsv).
    assert (i < SYSCALL_MAX) as Hi.
    { apply lookup_lt_Some in Hd. rewrite table_length in Hd. unfold SYSCALL_MAX. lia. }
    rewrite !(syscall_runs _ _ _ _ _ _ d) by (done || by rewrite ?Ht, ?Ht').
    pose proof (rows_ok_lookup _ 0 _ args_rows _ d Hd) as Hrow. cbn [Nat.add] in Hrow. unfold args_row in Hrow.
    destruct (post d) as [f|].
    + apply call_blind; [done|]. rewrite !ctx_of_call. apply agree_dump; [done| |done].
      apply N.leb_le. revert Hrow. rewrite !(proj2 (Nat.eqb_neq _ _)) by lia. done.
    + apply ctx_blind; [done|]. rewrite !ctx_of_call. intros x x' (Hx & Hx'). unfold on_engine. rewrite Hx.
      rewrite (clear_args_agree d _ (mk_ctx (Z.of_N i) (dump_args (nargs d) args (arg (ctx_of tid t'))) retval)).
      * destruct (clear_args _ _ _); cbn; split_and?; unfold same_state; cbn; intuition congruence.
      * apply agree_dump; [done|lia|done].
  - destruct (table_skips w tid i args retval t Ht Hskip) as [c Hc].
    destruct (table_skips w tid i args retval t' Ht' Hskip) as [c' Hc']. by rewrite Hc, Hc'.
Qed.
End args.
End SyscallArgs.
