(* ===== verification/SyscallFds.v ===== *)
(** The descriptors that the tool follows: they are those that the kernel has open on the input, as
    long as the application does not copy them. *)

From stdpp Require Import strings.
From S2P Require Import Prelude TagTraits Tagmap TagmapFacts SyscallDesc SyscallTable SyscallPost.
From S2P Require Import MyTool SyscallHook LibdftApi Syscalls.

Module SyscallFds.
Import TagTraits Tagmap TagmapFacts SyscallDesc SyscallTable SyscallPost MyTool LibdftApi Syscalls.

Section fds.
Context {B tag : Type} `{TagOps B tag} `{Abi}.
Notation tool := (tool B tag).
Notation callee := (prog tool unit).
Implicit Types (t : tool) (w : world) (files : gmap Z bool).

(** ** Calls that do not follow descriptors *)

(** The callbacks that change the descriptors followed. *)
Definition moves_fds (f : callback) : bool :=
  match f with
  | tool_open | tool_openat | tool_close | hook_open | hook_openat | hook_dup | hook_dup2 | hook_close => true
  | _ => false
  end.

Definition fixed t t' : Prop := fdset t' = fdset t /\ syscall_descs t' = syscall_descs t.
Definition keeps_fds {A} (p : prog tool A) : Prop := forall t,
  match p t with Done _ t' => fixed t t' | _ => True end.

Lemma keeps_bind {A C} (p : prog tool A) (k : A -> prog tool C) :
  keeps_fds p -> (forall a, keeps_fds (k a)) -> keeps_fds (p ≫= k).
Proof.
  intros Hp Hk t. unfold mbind, prog_bind. specialize (Hp t). destruct (p t) as [a t1|x t1|]; [|done..].
  specialize (Hk a t1). destruct (k a t1) as [c t2|x t2|]; [|done..]. destruct Hp, Hk. split; congruence.
Qed.

Lemma keeps_on_engine {A} (p : prog (engine B tag) A) : keeps_fds (on_engine p).
Proof. intros t. unfold on_engine. by destruct (p (eng t)). Qed.

Lemma keeps_u32 fuel i stop body : (forall i, keeps_fds (body i)) -> keeps_fds (u32_loop fuel i stop body).
Proof.
  intros Hb. revert i. induction fuel as [|fuel IH]; intros i; cbn [u32_loop]; [by intros t|].
  destruct (i <? stop); [|by intros t]. by apply keeps_bind.
Qed.

Lemma keeps_for n i (body : N -> prog tool unit) : (forall i, keeps_fds (body i)) -> keeps_fds (for_loop n i body).
Proof.
  intros Hb. revert i. induction n as [|n IH]; intros i; [by intros t|]. cbn [for_loop]. by apply keeps_bind.
Qed.

(** Programs made of steps on the engine. *)
Ltac keeps := intros; repeat (cbv zeta; match goal with
  | |- keeps_fds (_ ≫= _) => apply keeps_bind; [|intros ?]
  | |- keeps_fds (on_engine _) => apply keeps_on_engine
  | |- keeps_fds (u32_loop _ _ _ _) => apply keeps_u32; intros ?
  | |- keeps_fds (for_loop _ _ _) => apply keeps_for; intros ?
  | |- keeps_fds (if ?b then _ else _) => destruct b
  | |- keeps_fds (gets _) => by intros ?
  | |- keeps_fds (modify _) => by intros ?
  | |- keeps_fds (mret _) => by intros ?
  end).

Lemma keeps_readv w tid tracked iovs n i tot off : keeps_fds (readv_loop w tid tracked iovs n i tot off).
Proof.
  revert i tot off. induction n as [|n IH]; intros i tot off; [by intros t|]. cbn [readv_loop].
  unfold taint_vector, taint_byte. keeps. apply IH.
Qed.

Lemma keeps_call f w tid : moves_fds f = false -> keeps_fds (call f w tid).
Proof.
  intros Hf. destruct f; try discriminate; cbn [call];
    unfold desc_call, MyTool.post_read_hook, post_pread64_hook, MyTool.post_readv_hook, MyTool.post_mmap_hook,
      SyscallHook.SyscallHook.post_read_hook, SyscallHook.SyscallHook.post_pread64_hook,
      SyscallHook.SyscallHook.post_mmap_hook, SyscallHook.SyscallHook.post_munmap_hook, for_u32, taint_byte;
    keeps; apply keeps_readv.
Qed.

(** What holds if a program returns. *)
Definition part {A} (p : prog tool A) (R : A -> tool -> Prop) t : Prop :=
  match p t with Done a t' => R a t' | _ => True end.

Lemma part_bind {A C} (p : prog tool A) (k : A -> prog tool C) R t :
  part p (fun a t' => part (k a) R t') t -> part (p ≫= k) R t.
Proof. unfold part, mbind, prog_bind. by destruct (p t). Qed.

Lemma part_gets {A C} (f : tool -> A) (k : A -> prog tool C) R t :
  part (k (f t)) R t -> part (gets f ≫= k) R t.
Proof. done. Qed.
Lemma part_modify {C} (g : tool -> tool) (k : unit -> prog tool C) R t :
  part (k tt) R (g t) -> part (modify g ≫= k) R t.
Proof. done. Qed.

Lemma part_desc (k : syscall_desc_t -> callee) i R t :
  (forall d, syscall_descs t !! N.to_nat i = Some d -> part (k d) R t) -> part (desc_at i ≫= k) R t.
Proof.
  intros Hk. unfold part, desc_at, mbind, prog_bind, gets. cbn [id].
  destruct (syscall_descs t !! N.to_nat i) as [d|]; [|done]. by apply Hk.
Qed.

Lemma part_keeps {A} (p : prog tool A) t t0 : keeps_fds p -> fixed t0 t -> part p (fun _ t' => fixed t0 t') t.
Proof.
  intros Hp [Hf Hd]. specialize (Hp t). unfold part. destruct (p t) as [a t'|x t'|]; [|done..].
  destruct Hp. split; congruence.
Qed.

Lemma syscall_fixed w tid i args retval t :
  syscall_descs t = tool_table -> i <> 2 -> i <> 3 -> i <> 257 ->
  part (syscall w tid i args retval) (fun _ t' => fixed t t') t.
Proof.
  intros Ht H2 H3 H257. unfold syscall. apply part_bind. unfold sysenter_save, sysexit_save.
  destruct (N.leb_spec SYSCALL_MAX i) as [Hi|Hi].
  { unfold part at 1, modify. apply part_gets. by rewrite ctx_of_set. }
  apply part_modify, part_desc. intros d. change (syscall_descs (set_ctx _ _ t)) with (syscall_descs t).
  rewrite Ht. intros Hd. destruct (table_row_of _ _ Hd) as (Hpre & Hm & _).
  assert (forall f, post d = Some f -> moves_fds f = false) as Hf.
  { intros f Hp. destruct (Hm f Hp) as [_ Hin]. destruct f; cbn in Hin |- *; try done; apply Nat.eqb_eq in Hin; lia. }
  assert (forall t1, fixed t t1 -> nr (ctx_of tid t1) = Z.of_N i -> part (sysexit_save w tid retval) (fun _ t' => fixed t t') t1) as Hexit.
  { intros t1 Hfix Hn. unfold sysexit_save. apply part_gets. rewrite Hn, (proj2 (Z.ltb_ge _ _)) by lia.
    apply part_desc. rewrite N2Z.id, (proj2 Hfix), Ht. intros d'. rewrite Hd. intros [= <-].
    destruct (saves d); [|done]. apply part_modify. destruct (post d) as [f|] eqn:Ep.
    - by apply part_keeps; [apply keeps_call, Hf|].
    - apply part_gets. destruct (_ <? 0); [done|]. by apply part_keeps; [apply keeps_on_engine|]. }
  destruct (saves d).
  - apply part_modify. rewrite Hpre. apply Hexit; [done|]. by rewrite !ctx_of_set.
  - apply Hexit; [done|]. by rewrite ctx_of_set.
Qed.

(** ** The kernel *)

(** [files] are the open descriptors, and whether they are of the input; a call of the
    application changes them.  Calls other than [open], [openat] and [close] may open and close
    other files, but neither copy nor close a descriptor of the input. *)
Inductive kernel w : gmap Z bool -> N -> list N -> N -> gmap Z bool -> Prop :=
| k_open files name args fd :
    (0 <= to_int fd)%Z -> files !! to_int fd = None ->
    kernel w files 2 (name :: args) fd (<[to_int fd := strstr (c_string w name) FUZZING_INPUT_FILE]> files)
| k_openat files dir name args fd :
    (0 <= to_int fd)%Z -> files !! to_int fd = None ->
    kernel w files 257 (dir :: name :: args) fd
      (<[to_int fd := strstr (c_string w name) FUZZING_INPUT_FILE]> files)
| k_open_fails files i args retval :
    i = 2 \/ i = 257 -> (to_int retval < 0)%Z -> kernel w files i args retval files
| k_close files fd args retval :
    (0 <= to_long retval)%Z -> kernel w files 3 (fd :: args) retval (delete (to_int fd) files)
| k_close_fails files args retval :
    (to_long retval < 0)%Z -> kernel w files 3 args retval files
| k_other files files' i args retval :
    i <> 2 -> i <> 3 -> i <> 257 ->
    (forall fd, files' !! fd = Some true <-> files !! fd = Some true) ->
    kernel w files i args retval files'.

(** A run of the application under the tool. *)
Inductive process : gmap Z bool -> tool -> Prop :=
| process_start files e : (forall fd, files !! fd <> Some true) -> process files (tool_start e)
| process_step files t w tid i args retval files' t' :
    process files t -> kernel w files i args retval files' -> length args = 6%nat ->
    syscall w tid i args retval t = Done tt t' -> process files' t'.

Definition followed files t : Prop :=
  syscall_descs t = tool_table /\ forall fd, (0 <= fd)%Z -> fd ∈ fdset t <-> files !! fd = Some true.

Lemma track_spec w fd name t :
  wp (track w fd name) (fun _ t' => syscall_descs t' = syscall_descs t /\
    fdset t' = (if strstr (c_string w name) FUZZING_INPUT_FILE then {[ fd ]} else ∅) ∪ fdset t)
    (fun _ _ => False) t.
Proof.
  unfold track, insert_fd. destruct (strstr _ _); wp_step; (split; [done|]); cbn; [done|set_solver].
Qed.

Lemma open_followed files t t' fd (input : bool) :
  followed files t -> syscall_descs t' = syscall_descs t ->
  fdset t' = (if input then {[ fd ]} else ∅) ∪ fdset t -> files !! fd = None ->
  followed (<[fd := input]> files) t'.
Proof.
  intros [Hd Hf] Hd' Hs Hnone. split; [congruence|]. intros x Hx. rewrite Hs, elem_of_union, Hf by done.
  destruct (decide (x = fd)) as [->|Hne].
  - rewrite lookup_insert_eq, Hnone. clear. destruct input; rewrite ?elem_of_singleton, ?elem_of_empty; naive_solver.
  - rewrite lookup_insert_ne by done. clear -Hne.
    destruct input; rewrite ?elem_of_singleton, ?elem_of_empty; naive_solver.
Qed.

Lemma negative_followed files t t' fd (b : bool) :
  followed files t -> syscall_descs t' = syscall_descs t -> (fd < 0)%Z ->
  fdset t' = (if b then {[ fd ]} else ∅) ∪ fdset t -> followed files t'.
Proof.
  intros [Hd Hf] Hd' Hneg Hs. split; [congruence|]. intros x Hx. rewrite Hs, elem_of_union, Hf by done.
  assert (x <> fd) as Hne by lia. clear -Hne.
  destruct b; rewrite ?elem_of_singleton, ?elem_of_empty; naive_solver.
Qed.

(** A call that has returned, and that the table hands to the callback [f]. *)
Lemma done_call w tid i args retval t t' f n R :
  syscall_descs t = tool_table -> row_is (N.to_nat i) f n = true ->
  wp (call f w tid) (fun _ => R) (fun _ _ => False) (call_ctx tid i n args retval t) ->
  syscall w tid i args retval t = Done tt t' -> R t'.
Proof.
  intros Ht Hrow Hw Hdone.
  pose proof (table_call w tid i args retval t f n (fun _ => R) (fun _ _ => False) Ht Hrow Hw) as Hr.
  unfold wp in Hr. by rewrite Hdone in Hr.
Qed.

Lemma process_followed files t : process files t -> followed files t.
Proof.
  induction 1 as [files e Hfiles|files t w tid i args retval files' t' _ [Ht Hf] Hk Hl Hrun].
  { split; [done|]. intros fd _. split; [by intros ?%elem_of_empty|]. intros Hfd. by destruct (Hfiles fd). }
  assert (followed files t) as Hfol by done.
  destruct Hk as [files name args fd Hpos Hnone|files dir name args fd Hpos Hnone|files i args retval Hi Hneg
    |files fd args retval Hpos|files args retval Hneg|files files' i args retval H2 H3 H257 Hsame].
  - apply (done_call w tid 2 (name :: args) fd t t' tool_open 3
      (followed (<[to_int fd := strstr (c_string w name) FUZZING_INPUT_FILE]> files))); try done.
    cbn [call]. unfold post_open_hook. do 2 wp_step. rewrite !ctx_of_call. cbv zeta. cbn [ret].
    rewrite (proj2 (Z.ltb_ge _ _)) by done. rewrite dump_arg by (lia || done). cbn [lookup list_lookup default].
    eapply wp_mono; [apply track_spec|]. intros [] t1 [Hd1 Hs1]. by apply (open_followed files t t1).
  - apply (done_call w tid 257 (dir :: name :: args) fd t t' tool_openat 4
      (followed (<[to_int fd := strstr (c_string w name) FUZZING_INPUT_FILE]> files))); try done.
    cbn [call]. unfold post_openat_hook. do 2 wp_step. rewrite !ctx_of_call. cbn [ret].
    rewrite dump_arg by (lia || done). cbn [lookup list_lookup default].
    eapply wp_mono; [apply track_spec|]. intros [] t1 [Hd1 Hs1]. by apply (open_followed files t t1).
  - destruct Hi as [->| ->].
    + apply (done_call w tid 2 args retval t t' tool_open 3 (followed files)); try done.
      cbn [call]. unfold post_open_hook. do 2 wp_step. rewrite !ctx_of_call. cbv zeta. cbn [ret].
      rewrite (proj2 (Z.ltb_lt _ _)) by done. by wp_step.
    + apply (done_call w tid 257 args retval t t' tool_openat 4 (followed files)); try done.
      cbn [call]. unfold post_openat_hook. do 2 wp_step. rewrite !ctx_of_call. cbn [ret].
      eapply wp_mono; [apply track_spec|]. intros [] t1 [Hd1 Hs1]. by eapply (negative_followed files t).
  - apply (done_call w tid 3 (fd :: args) retval t t' tool_close 1 (followed (delete (to_int fd) files))); try done.
    cbn [call]. unfold post_close_hook, failed. do 2 wp_step. rewrite !ctx_of_call. cbn [ret].
    rewrite (proj2 (Z.ltb_ge _ _)) by done. wp_step. rewrite dump_arg by (lia || done). split; [done|].
    intros x Hx. cbn. rewrite elem_of_difference, Hf, elem_of_singleton by done.
    rewrite lookup_delete_Some. clear. naive_solver.
  - apply (done_call w tid 3 args retval t t' tool_close 1 (followed files)); try done.
    cbn [call]. unfold post_close_hook, failed. do 2 wp_step. rewrite !ctx_of_call. cbn [ret].
    rewrite (proj2 (Z.ltb_lt _ _)) by done. by wp_step.
  - pose proof (syscall_fixed w tid i args retval t Ht H2 H3 H257) as Hfix. unfold part in Hfix.
    rewrite Hrun in Hfix. destruct Hfix as [Hs Hd]. split; [congruence|]. intros fd Hfd. rewrite Hs, Hsame. by apply Hf.
Qed.
End fds.
End SyscallFds.
