(* ===== verification/SyscallProps.v ===== *)
(** What system calls do to the tags: the descriptors that are followed, the calls that taint, and
    those that only clear. *)

From stdpp Require Import strings.
From S2P Require Import Prelude Examples TagTraits Tagmap TagmapFacts TagProps SyscallDesc SyscallTable.
From S2P Require Import SyscallPost MyTool SyscallHook LibdftApi SyscallFacts SyscallTaint Syscalls SyscallArgs SyscallFds.

Module SyscallProps.
Import TagTraits Tagmap TagmapFacts TagProps SyscallDesc SyscallTable SyscallPost MyTool LibdftApi.
Import Examples SyscallFacts SyscallTaint Syscalls SyscallArgs SyscallFds.

Section props.
Context {B tag : Type} `{TagLaws B tag} `{Abi}.
Notation tool := (tool B tag).
Implicit Types (t : tool) (w : world) (tid : N) (files : gmap Z bool) (args : list N).

Lemma process_table files t : process files t -> syscall_descs t = tool_table.
Proof. intros Hp. apply (process_followed _ _ Hp). Qed.









(** C18: A call without a callback clears exactly the structures that its row of the table names,
    behind the pointers that are not null; also when the call has failed, since the test for
    that compares an unsigned word with zero. *)
Theorem default_call_clears w tid t i args retval d :
  syscall_descs t = tool_table -> engine_inv (eng t) -> length args = 6%nat -> i < SYSCALL_MAX ->
  tool_table !! N.to_nat i = Some d -> post d = None -> saves d = true ->
  wp (syscall w tid i args retval)
    (fun _ t' => cleared (arg_ranges d (fun k => default 0 (args !! k)) (nargs d)) (eng t) (eng t'))
    (fun _ _ => False) t.
Proof.
  intros Ht Hi Hl Hlt Hd Hp Hsv. destruct (table_row_of _ _ Hd) as (Hpre & _ & Hn).
  apply (syscall_saved _ _ _ _ _ _ d); try done; [by rewrite Ht|]. rewrite Hp. do 2 wp_step.
  set (t1 := call_ctx _ _ _ _ _ t).
  eapply wp_mono; [exact (wp_on_engine _ _ (fun _ _ => False) t1 (clear_args_cleared d (ctx_of tid t1) _ Hi))|].
  intros [] t' (e' & -> & Hc). eapply cleared_ext; [|exact Hc]. intros a. apply arg_ranges_ext. intros k Hk.
  unfold t1. rewrite ctx_of_call. apply dump_arg; [by apply Hn|lia|done].
Qed.

(** C27: A failed [openat] of the input is followed as descriptor -1, so that the next anonymous
    mapping is labelled as if it held the input: all its pages, and the page after them when
    its length is a multiple of the page. *)
Theorem failed_openat_taints w tid t dir name opens retval hint len prot flags anon off addr :
  syscall_descs t = tool_table -> engine_inv (eng t) -> length opens = 4%nat ->
  strstr (c_string w name) FUZZING_INPUT_FILE = true -> to_int retval = (-1)%Z -> to_int anon = (-1)%Z ->
  addr <> minus1_64 -> map_size len < 2 ^ 32 -> addr + map_size len <= last_address + 1 ->
  in_bound 0 (map_size len) -> tag_thread tid ->
  wp (_ ← syscall w tid 257 (dir :: name :: opens) retval;
      syscall w tid 9 [hint; len; prot; flags; anon; off] addr)
    (fun _ t' => labelled (bytes_at addr (map_size len)) 0 (eng t) (eng t')) ends_tool t.
Proof.
  intros Ht Hi Hl Hname Hret Hanon Hne Hs Hb Ho Htid. wp_step.
  apply (table_call _ _ _ _ _ _ tool_openat 4); [done..|]. cbn [call]. unfold MyTool.post_openat_hook.
  do 2 wp_step. rewrite ctx_of_call, dump_arg by (cbn; lia). cbn [lookup list_lookup default ret id].
  unfold track, insert_fd. rewrite Hname. wp_step. set (t1 := set_fdset _ _).
  apply (table_call _ _ _ _ _ _ tool_mmap 6); [done..|]. cbn [call].
  set (t2 := call_ctx tid 9 6 [hint; len; prot; flags; anon; off] addr t1).
  assert (arg_of (ctx_of tid t2) 1 = len) as H1a by (apply call_arg; [done|lia|done]).
  assert (arg_of (ctx_of tid t2) 4 = anon) as H4a by (apply call_arg; [done|lia|done]).
  assert (ret (ctx_of tid t2) = addr) as Hra by apply call_ret.
  pose proof (mmap_hook_spec tid t2) as Hm. cbv zeta in Hm. rewrite H1a, H4a, Hra in Hm.
  apply Hm; try done. rewrite Hanon, <- Hret. clear. unfold t1. cbn. set_solver.
Qed.

(** C25: What a call does to the tags, to the descriptors followed and to the position in the
    standard input depends on the context that earlier calls of the thread have left only for
    [semctl] and [io_getevents]: any other callback looks at no more arguments than its row of
    the table saves. *)
Theorem only_saved_arguments w tid t c i args retval :
  syscall_descs t = tool_table -> length args = 6%nat -> i <> 66 -> i <> 208 ->
  same_outcome (syscall w tid i args retval t) (syscall w tid i args retval (set_ctx tid c t)).
Proof. intros Ht Hl H66 H208. by apply syscall_blind. Qed.
End props.

(** ** Examples *)

(** The headers of Linux on x86-64. *)
Definition ex_sizeof (t : c_type) : N :=
  match t with
  | cpu_set_t | fd_set | siginfo_t | sigset_t => 128
  | gid_t | uid_t | struct_sched_param => 4
  | stack_t => 24
  | struct_epoll_event => 12
  | struct_flock | struct_io_event | struct_itimerspec | struct_itimerval | struct_msginfo
  | struct_ustat => 32
  | struct_iovec | struct_rlimit | struct_sockaddr | struct_timespec | struct_timeval => 16
  | struct_mmsghdr | struct_mq_attr => 64
  | struct_msghdr => 56
  | struct_msqid_ds | struct_statfs => 120
  | struct_perf_event_attr | struct_shmid_ds | struct_sysinfo => 112
  | struct_rusage | struct_stat => 144
  | struct_semid_ds => 104
  | struct_seminfo => 40
  | struct_shminfo => 72
  | struct_sigaction => 152
  | struct_timex => 208
  | struct_utsname => 390
  | _ => 8
  end.
Definition ex_offset (f : c_field) : N :=
  match f with
  | iov_base | msg_name | semun_buf => 0
  | iov_len | msg_namelen => 8
  | revents => 6
  | msg_iov | oldval => 16
  | msg_iovlen | oldlenp => 24
  | msg_control | newval => 32
  | msg_controllen | newlen => 40
  | msg_flags => 48
  | msg_len => 56
  end.
Definition ex_const (c : c_const) : N :=
  match c with
  | MAP_GROWSDOWN => 0x100
  | MPOL_F_NODE => 1
  | MPOL_F_ADDR | IPC_STAT => 2
  | IPC_INFO => 3
  | MPOL_F_MEMS_ALLOWED => 4
  | F_GETLK => 5
  | MSG_STAT => 11
  | MSG_INFO => 12
  | SHM_STAT => 13
  | SHM_INFO => 14
  | F_GETOWN_EX => 16
  | SEM_STAT => 18
  | SEM_INFO => 19
  end.
#[local] Instance ex_abi : Abi := {| sizeof := ex_sizeof; offset := ex_offset; const := ex_const |}.

(** A name at 0x1000, two vectors at 0x2000 (4 bytes at 0x3000 and 8 at 0x4000), and files that
    have been read up to position 10. *)
Definition ex_app (a : N) : N :=
  if a =? 0x2001 then 0x30 else if a =? 0x2008 then 4 else
  if a =? 0x2011 then 0x40 else if a =? 0x2018 then 8 else 0.
Definition ex_world : world :=
  mk_world ex_app (fun _ => 10) (fun a => if a =? 0x1000 then "input.txt"%string else "log"%string).

(** The tool after the input has been opened as descriptor 3. *)
Definition ex_tool : tool unit (gset N) :=
  run_state (tool_start ex_engine)
    (syscall ex_world 1 2 [0x1000; 0; 0; 0; 0; 0] 3 (tool_start ex_engine)).
Definition ex_files : gmap Z bool := <[3%Z := true]> ∅.

Lemma ex_opened : syscall ex_world 1 2 [0x1000; 0; 0; 0; 0; 0] 3 (tool_start ex_engine) = Done tt ex_tool.
Proof. vm_compute. reflexivity. Qed.

Lemma ex_process : process ex_files ex_tool.
Proof.
  apply (process_step ∅ (tool_start ex_engine) ex_world 1 2 [0x1000; 0; 0; 0; 0; 0] 3); [|..|done|exact ex_opened].
  - by apply process_start.
  - apply (k_open ex_world ∅ 0x1000 [0; 0; 0; 0; 0] 3); done.
Qed.

Lemma ex_eng : eng ex_tool = ex_engine.
Proof. vm_compute. reflexivity. Qed.

Lemma ex_table_kept : syscall_descs ex_tool = tool_table.
Proof. exact (process_table ex_files ex_tool ex_process). Qed.

Definition stat_row : syscall_desc_t := row 2 0 1 [0; sizeof struct_stat; 0; 0; 0; 0] None.
Lemma table_stat : tool_table !! N.to_nat 4 = Some stat_row.
Proof. vm_compute. reflexivity. Qed.

Lemma ex_inv : engine_inv (eng ex_tool).
Proof. rewrite ex_eng. exact ex_engine_inv. Qed.






(** [stat] that fails with [-ENOENT] clears its buffer, the tags of bytes 16 and 17 with it. *)
Lemma default_call_clears_witness :
  exists t', syscall ex_world 1 4 [0x1000; 16; 0; 0; 0; 0] (2 ^ 64 - 2) ex_tool = Done tt t' /\
    forall o, ~ offs (eng t') (Mem 16) o.
Proof.
  destruct (wp_total _ _ _ (default_call_clears ex_world 1 ex_tool 4 [0x1000; 16; 0; 0; 0; 0] (2 ^ 64 - 2)
    stat_row ex_table_kept ex_inv eq_refl ltac:(done) table_stat eq_refl eq_refl)) as ([] & t' & Hd & (_ & _ & Hr)).
  exists t'. split; [exact Hd|]. intros o Ho. apply (Hr (Mem 16) o) in Ho as [_ Ho]; [|vm_compute; discriminate].
  apply (Ho 16 eq_refl). exists 1%nat, 144. split_and!; [done..|]. unfold range. cbn. split; done.
Defined.

Lemma failed_openat_taints_witness :
  exists t', (_ ← syscall ex_world 1 257 [0; 0x1000; 0; 0; 0; 0] (2 ^ 64 - 1);
      syscall ex_world 1 9 [0; 0x1000; 3; 0x22; 2 ^ 64 - 1; 0] 0x7000) (tool_start ex_engine) = Done tt t' /\
    labelled (bytes_at 0x7000 0x2000) 0 ex_engine (eng t').
Proof.
  destruct (wp_total _ _ _ (failed_openat_taints ex_world 1 (tool_start ex_engine) 0 0x1000 [0; 0; 0; 0]
    (2 ^ 64 - 1) 0 0x1000 3 0x22 (2 ^ 64 - 1) 0 0x7000 eq_refl ex_engine_inv eq_refl eq_refl eq_refl eq_refl
    ltac:(done) ltac:(done) ltac:(done) ltac:(intros i Hi; apply w32_lt) I)) as ([] & t' & Hd & Hr).
  exists t'. split; [exact Hd|exact Hr].
Defined.

Lemma only_saved_arguments_witness :
  same_outcome (syscall ex_world 1 43 [3; 16; 0x2018; 0; 0; 0] 5 ex_tool)
    (syscall ex_world 1 43 [3; 16; 0x2018; 0; 0; 0] 5
       (set_ctx 1 (mk_ctx 9 [1; 2; 3; 4; 5; 6] 7) ex_tool)).
Proof. apply (only_saved_arguments ex_world 1 ex_tool _ 43 [3; 16; 0x2018; 0; 0; 0] 5 ex_table_kept eq_refl); discriminate. Defined.

(** [semctl], whose row saves four arguments and whose callback reads a fifth: what an earlier
    call has left there decides which bytes are cleared. *)
Definition tag_after (o : outcome (tool unit (gset N)) unit) (a : N) : gset N :=
  match o with Done _ t => default ∅ (tag_dir_getb_as_ptr (tag_dir (eng t)) a) | _ => ∅ end.

Lemma same_outcome_tags o o' a : same_outcome o o' -> tag_after o a = tag_after o' a.
Proof. destruct o, o'; cbn; try done. intros [_ [He _]]. by rewrite He. Qed.

Lemma semctl_reads_stale :
  exists c, ~ same_outcome (syscall ex_world 1 66 [0; 0; 2; 0; 0; 0] 0 ex_tool)
    (syscall ex_world 1 66 [0; 0; 2; 0; 0; 0] 0 (set_ctx 1 c ex_tool)).
Proof.
  exists (mk_ctx 0 [0; 0; 0; 0; 0x2000; 0] 0). intros Hs. apply (same_outcome_tags _ _ 16) in Hs.
  revert Hs. vm_compute. discriminate.
Qed.
End SyscallProps.
